(** * GRES selection filter (gres_select_filter.c): a shallow embedding

    The development follows the C file function by function.  Machine
    integers are [Z] with the wrap-around of their C type written out
    ([u16], [u32], [u64], [s32], [s64]); C arrays are lists read with
    [!!] and written with [<[ _ := _ ]>]; a NULL pointer is [None].
    Records reached through pointers that the code mutates and shares
    (the job and node GRES states) live in a store and are named by their
    index in it.

    Reads through NULL or outside an array have no meaning in C; the
    embedding gives them the neutral value ([false], [0], the empty
    bitmap) and a write outside an array is dropped.  Theorems whose
    truth depends on such accesses carry the well-formedness of the
    input as a hypothesis. *)

From Stdlib Require Import Sorting.Sorted.
From stdpp Require Import base list.
From Stdlib Require Import ZArith Lia.

Local Open Scope Z_scope.

(** ** Machine integers *)

Definition u16 (x : Z) : Z := x mod 2 ^ 16.
Definition u32 (x : Z) : Z := x mod 2 ^ 32.
Definition u64 (x : Z) : Z := x mod 2 ^ 64.
Definition s32 (x : Z) : Z := (x + 2 ^ 31) mod 2 ^ 32 - 2 ^ 31.
Definition s64 (x : Z) : Z := (x + 2 ^ 63) mod 2 ^ 64 - 2 ^ 63.

(** The C macros MIN and MAX on values already converted to a common type. *)
Definition MIN (a b : Z) : Z := if a <? b then a else b.
Definition MAX (a b : Z) : Z := if a >? b then a else b.

(** C truth value of an integer. *)
Definition nz (x : Z) : bool := negb (x =? 0).

(** ** Bitmaps

    Modelled from the spec: the bitstring library ([bit_size], [bit_test],
    [bit_set], [bit_clear], [bit_set_count], [bit_set_count_range],
    [bit_overlap], [bit_ffs], [bit_alloc]) is not among the sources; the
    spec describes it as a set of indices with test, set, clear, popcount,
    range popcount, overlap and first bit. *)

Abbreviation bitstr := (list bool).

Definition bit_alloc (n : Z) : bitstr := replicate (Z.to_nat n) false.
Definition bit_size (b : bitstr) : Z := Z.of_nat (length b).
Definition bit_test (b : bitstr) (i : nat) : bool := default false (b !! i).
Definition bit_set (b : bitstr) (i : nat) : bitstr := <[i := true]> b.
Definition bit_clear (b : bitstr) (i : nat) : bitstr := <[i := false]> b.

Fixpoint popcount (b : bitstr) : nat :=
  match b with
  | [] => 0%nat
  | true :: b' => S (popcount b')
  | false :: b' => popcount b'
  end.

Definition bit_set_count (b : bitstr) : Z := Z.of_nat (popcount b).

(** Set bits with index in [start, stop). *)
Definition bit_set_count_range (b : bitstr) (start stop : Z) : Z :=
  Z.of_nat (popcount (take (Z.to_nat stop - Z.to_nat start) (drop (Z.to_nat start) b))).

Fixpoint bit_and (a b : bitstr) : bitstr :=
  match a, b with
  | x :: a', y :: b' => (x && y) :: bit_and a' b'
  | _, _ => []
  end.

Definition bit_overlap (a b : bitstr) : Z := Z.of_nat (popcount (bit_and a b)).

(** Index of the first set bit, -1 when there is none. *)
Fixpoint ffs_from (b : bitstr) (i : Z) : Z :=
  match b with
  | [] => -1
  | true :: _ => i
  | false :: b' => ffs_from b' (i + 1)
  end.

Definition bit_ffs (b : bitstr) : Z := ffs_from b 0.

Definition is_null {A} (p : option A) : bool :=
  match p with Some _ => false | None => true end.

(** A possibly NULL bitmap tested at [i]. *)
Definition bit_test_opt (b : option bitstr) (i : nat) : bool :=
  bit_test (default [] b) i.

(** ** Data model *)

(** [gres_job_state_t]: the request counters, the qualifiers and the
    outputs this file fills. *)
Record gres_job_state := {
  gres_per_job : Z;                                   (* uint64_t *)
  gres_per_node : Z;                                  (* uint64_t *)
  gres_per_socket : Z;                                (* uint64_t *)
  gres_per_task : Z;                                  (* uint64_t *)
  cpus_per_gres : Z;                                  (* uint16_t *)
  def_cpus_per_gres : Z;                              (* uint16_t *)
  ntasks_per_gres : Z;                                (* uint16_t *)
  mem_per_gres : Z;                                   (* uint64_t *)
  def_mem_per_gres : Z;                               (* uint64_t *)
  type_id : Z;                                        (* uint32_t *)
  total_gres : Z;                                     (* uint64_t *)
  total_node_cnt : Z;                                 (* uint32_t *)
  gres_cnt_node_select : option (list Z);             (* uint64_t * *)
  gres_bit_select : option (list (option bitstr));    (* bitstr_t ** *)
  gres_per_bit_select : option (list (option (list Z))) (* uint64_t ** *)
}.

(** [gres_node_state_t], the fields this file reads. *)
Record gres_node_state := {
  gres_cnt_avail : Z;                                 (* uint64_t *)
  gres_cnt_alloc : Z;                                 (* uint64_t *)
  gres_bit_alloc : option bitstr;
  topo_cnt : Z;                                       (* uint16_t *)
  topo_gres_cnt_avail : option (list Z);              (* uint64_t * *)
  topo_gres_cnt_alloc : option (list Z);              (* uint64_t * *)
  topo_gres_bitmap : option (list (option bitstr));
  topo_type_id : list Z;                              (* uint32_t * *)
  link_len : Z;                                       (* int *)
  links_cnt : list (list Z)                           (* int ** *)
}.

(** [gres_state_t]: the wrapper carrying the kind's identity and the
    pointer to the state proper. *)
Record gres_state_t (A : Type) := {
  plugin_id : Z;                                      (* uint32_t *)
  config_flags : Z;                                   (* uint32_t *)
  gres_data : option A
}.
Arguments plugin_id {A} _.
Arguments config_flags {A} _.
Arguments gres_data {A} _.

(** [sock_gres_t]: the per (node, kind) socket view.  The two back
    pointers are indices into the job store and the node store. *)
Record sock_gres_t := {
  gres_state_job : nat;
  gres_state_node : nat;
  total_cnt : Z;                                      (* uint64_t *)
  max_node_gres : Z;                                  (* uint64_t *)
  sock_cnt : Z;                                       (* int *)
  cnt_by_sock : option (list Z);                      (* uint64_t * *)
  bits_by_sock : option (list (option bitstr));       (* bitstr_t ** *)
  bits_any_sock : option bitstr
}.

Definition set_total_cnt (v : Z) (sg : sock_gres_t) : sock_gres_t :=
  {| gres_state_job := gres_state_job sg; gres_state_node := gres_state_node sg;
     total_cnt := v; max_node_gres := max_node_gres sg; sock_cnt := sock_cnt sg;
     cnt_by_sock := cnt_by_sock sg; bits_by_sock := bits_by_sock sg;
     bits_any_sock := bits_any_sock sg |}.

Definition set_max_node_gres (v : Z) (sg : sock_gres_t) : sock_gres_t :=
  {| gres_state_job := gres_state_job sg; gres_state_node := gres_state_node sg;
     total_cnt := total_cnt sg; max_node_gres := v; sock_cnt := sock_cnt sg;
     cnt_by_sock := cnt_by_sock sg; bits_by_sock := bits_by_sock sg;
     bits_any_sock := bits_any_sock sg |}.

Definition set_cnt_by_sock (v : option (list Z)) (sg : sock_gres_t) : sock_gres_t :=
  {| gres_state_job := gres_state_job sg; gres_state_node := gres_state_node sg;
     total_cnt := total_cnt sg; max_node_gres := max_node_gres sg;
     sock_cnt := sock_cnt sg; cnt_by_sock := v; bits_by_sock := bits_by_sock sg;
     bits_any_sock := bits_any_sock sg |}.

(** The two stores. *)
Abbreviation job_store := (list (gres_state_t gres_job_state)).
Abbreviation node_store := (list (gres_state_t gres_node_state)).

(** [node_record_t], the fields this file reads. *)
Record node_record := {
  tpc : Z;                                            (* uint16_t *)
  tot_sockets : Z                                     (* uint16_t *)
}.

(** [struct job_resources], the fields this file reads itself. *)
Record job_resources := {
  node_bitmap : option bitstr;
  core_bitmap : option bitstr;
  tasks_per_node : option (list Z)                    (* uint16_t * *)
}.

(** [job_record_t], the fields this file reads. *)
Record job_record := {
  job_id : Z;                                         (* uint32_t *)
  job_resrcs : option job_resources;
  bit_flags : Z;                                      (* uint64_t *)
  overcommit : Z                                      (* details->overcommit *)
}.

(** [gres_mc_data_t]. *)
Record gres_mc_data := {
  cpus_per_task : Z;                                  (* uint16_t *)
  ntasks_per_job : Z;                                 (* uint32_t *)
  ntasks_per_node : Z;                                (* uint16_t *)
  ntasks_per_socket : Z;                              (* uint16_t *)
  ntasks_per_core : Z;                                (* uint16_t *)
  sockets_per_node : Z                                (* uint16_t *)
}.

(** What the file takes from the rest of Slurm: sentinels and flag masks
    of slurm.h, the two predicates on GRES kinds, the busy-device test,
    the configured scheduling parameters, the node table and the accessors
    of the job's resource layout ([None]: the accessor fails).

    The last field is the task layout of lines 1173-1318,
    [tasks_per_node_socket], as a function of what the builder is given;
    the properties proved below hold whatever layout it returns. *)
Record slurm_env := {
  NO_VAL : Z;
  NO_VAL16 : Z;
  NO_VAL64 : Z;
  gres_id_sharing : Z -> bool;
  gres_id_shared : Z -> bool;
  gres_use_busy_dev : gres_state_t gres_node_state -> bool;
  select_type_param : Z;
  LL_SHARED_GRES : Z;
  MULTIPLE_SHARING_GRES_PJ : Z;
  GRES_ENFORCE_BIND : Z;
  GRES_ONE_TASK_PER_SHARING : Z;
  node_record_table_ptr : nat -> node_record;
  get_job_resources_cnt : job_resources -> Z -> option (Z * Z);
  get_job_resources_offset : job_resources -> Z -> Z;
  _build_tasks_per_node_sock :
    job_resources -> Z -> option gres_mc_data -> list (option (list Z))
}.

(** Reading a C array of integers. *)
Definition zget (l : list Z) (i : nat) : Z := default 0 (l !! i).
Definition zget_opt (l : option (list Z)) (i : nat) : Z := zget (default [] l) i.

(** ** Socket-core availability *)

(** The inner loop of [_build_avail_cores_by_sock] over the cores of one
    socket, from core index [i], [n] cores left: [Some b] when the loop
    ends with [avail_cores_by_sock[s] = b], [None] on [goto fini]. *)
Fixpoint scan_socket_cores (core_bitmap : bitstr) (i n : nat) : option bool :=
  match n with
  | O => Some false
  | S n' =>
      if (length core_bitmap <=? i)%nat then None
      else if bit_test core_bitmap i then Some true
      else scan_socket_cores core_bitmap (S i) n'
  end.

(** The outer loop from socket [s], [n] sockets left. *)
Fixpoint scan_sockets (core_bitmap : bitstr) (cores_per_sock s n : nat) : list bool :=
  match n with
  | O => []
  | S n' =>
      match scan_socket_cores core_bitmap (s * cores_per_sock) cores_per_sock with
      | None => replicate (S n') false
      | Some b => b :: scan_sockets core_bitmap cores_per_sock (S s) n'
      end
  end.

Definition _build_avail_cores_by_sock (core_bitmap : bitstr)
    (sockets cores_per_sock : Z) : list bool :=
  scan_sockets core_bitmap (Z.to_nat cores_per_sock) 0 (Z.to_nat sockets).

(** Set max_node_gres if it is unset or greater than val. *)
Definition _set_max_node_gres (sg : sock_gres_t) (val : Z) : bool * sock_gres_t :=
  if nz val && ((max_node_gres sg =? 0) || (max_node_gres sg >? val))
  then (true, set_max_node_gres val sg)
  else (false, sg).

(** ** The feasibility filter *)

Section remove_unusable.
Context (E : slurm_env) (jobs : job_store).
Variables (avail_mem max_cpus : Z) (enforce_binding : bool)
          (core_bitmap : bitstr)
          (sockets cores_per_sock cpus_per_core : Z)
          (sock_per_node task_per_node cpus_per_task : Z)
          (whole_node : bool).

(** Lines 157-177. *)
Definition min_gres_of (sg : sock_gres_t) (js : gres_job_state) : Z :=
  let min_gres :=
    if whole_node then total_cnt sg
    else if nz (gres_per_node js) then gres_per_node js
    else 1 in
  let min_gres :=
    if nz (gres_per_socket js) then
      let tmp_u64 := gres_per_socket js in
      let tmp_u64 :=
        if negb (sock_per_node =? NO_VAL E) then u64 (tmp_u64 * sock_per_node)
        else tmp_u64 in
      MAX min_gres tmp_u64
    else min_gres in
  if nz (gres_per_task js) then
    let tmp_u64 := gres_per_task js in
    let tmp_u64 :=
      if negb (task_per_node =? NO_VAL16 E) then u64 (tmp_u64 * task_per_node)
      else tmp_u64 in
    MAX min_gres tmp_u64
  else min_gres.

(** Lines 179-186. *)
Definition cpus_per_gres_of (js : gres_job_state) : Z :=
  if nz (cpus_per_gres js) then cpus_per_gres js
  else if nz (ntasks_per_gres js) && negb (ntasks_per_gres js =? NO_VAL16 E)
  then u16 (ntasks_per_gres js * cpus_per_task)
  else def_cpus_per_gres js.

(** Lines 187-198: the test that ends in "Insufficient CPUs". *)
Definition insufficient_cpus (js : gres_job_state) (cpg : Z) : bool :=
  nz cpg &&
  (let max_gres := max_cpus / cpg in
   (max_gres =? 0) || (gres_per_node js >? max_gres) ||
   (gres_per_task js >? max_gres) || (gres_per_socket js >? max_gres)).

(** Lines 200-203. *)
Definition mem_per_gres_of (js : gres_job_state) : Z :=
  if nz (mem_per_gres js) then mem_per_gres js else def_mem_per_gres js.

Definition mem_tracked (mpg : Z) : bool :=
  nz mpg && negb (avail_mem =? NO_VAL64 E).

Definition avail_cores_by_sock : list bool :=
  _build_avail_cores_by_sock core_bitmap sockets cores_per_sock.

Definition sock_has_core (s : nat) : bool :=
  default false (avail_cores_by_sock !! s).

(** Lines 227-233: one turn of the loop under enforce_binding. *)
Definition prune_sock (sg : sock_gres_t) (s : nat) : sock_gres_t :=
  if sock_has_core s then sg
  else
    let sg := set_total_cnt (u64 (total_cnt sg - zget_opt (cnt_by_sock sg) s)) sg in
    set_cnt_by_sock (option_map (fun c => <[s := 0]> c) (cnt_by_sock sg)) sg.

(** Lines 237-242: one turn of the loop without enforce_binding. *)
Definition near_sock (sg : sock_gres_t) (near_gres_cnt : Z) (s : nat) : Z :=
  if sock_has_core s then near_gres_cnt
  else u64 (near_gres_cnt - zget_opt (cnt_by_sock sg) s).

(** Lines 226-245. *)
Definition bind_gres (sg : sock_gres_t) : sock_gres_t * Z :=
  let socks := seq 0 (Z.to_nat sockets) in
  match cnt_by_sock sg with
  | Some _ =>
      if enforce_binding then
        let sg := foldl prune_sock sg socks in
        (sg, total_cnt sg)
      else (sg, foldl (near_sock sg) (total_cnt sg) socks)
  | None => (sg, total_cnt sg)
  end.

(** Lines 247-255. *)
Definition node_or_job_cap (sg : sock_gres_t) (js : gres_job_state) : sock_gres_t :=
  if whole_node then sg
  else
    let '(done, sg1) := _set_max_node_gres sg (gres_per_node js) in
    if done then sg1 else snd (_set_max_node_gres sg1 (gres_per_job js)).

(** Lines 258-274: [None] is the "max_gres == 0" reject. *)
Definition cpu_cap (sg : sock_gres_t) (js : gres_job_state) (cpg : Z)
    : option sock_gres_t :=
  if nz cpg && ((ntasks_per_gres js =? NO_VAL16 E) || negb whole_node) then
    let cpu_cnt := bit_set_count core_bitmap in
    let cpu_cnt := s32 (cpu_cnt * cpus_per_core) in
    let max_gres := u64 (Z.quot cpu_cnt cpg) in
    if max_gres =? 0 then None
    else if (max_node_gres sg =? 0) || (max_node_gres sg >? max_gres)
    then Some (set_max_node_gres max_gres sg)
    else Some sg
  else Some sg.

(** Lines 275-280. *)
Definition mem_cap (sg : sock_gres_t) (mpg : Z) : sock_gres_t :=
  if mem_tracked mpg then
    let max_gres := avail_mem / mpg in
    set_total_cnt (MIN (total_cnt sg) max_gres) sg
  else sg.

(** Lines 281-283. *)
Definition below_min (sg : sock_gres_t) (min_gres : Z) : bool :=
  (total_cnt sg <? min_gres) ||
  (negb (max_node_gres sg =? 0) && (max_node_gres sg <? min_gres)).

(** What one turn of the loop over the requests does to its record. *)
Inductive outcome :=
| Rejected (sg : sock_gres_t)
| Passed (sg : sock_gres_t) (near_gres_cnt : Z).

(** Lines 157-289, the body of the loop up to the accumulation. *)
Definition examine (sg : sock_gres_t) (js : gres_job_state) : outcome :=
  let min_gres := min_gres_of sg js in
  let cpg := cpus_per_gres_of js in
  if insufficient_cpus js cpg then Rejected sg
  else
    let mpg := mem_per_gres_of js in
    if mem_tracked mpg && negb (mpg <=? avail_mem) then Rejected sg
    else
      let sg :=
        if mem_tracked mpg then set_max_node_gres (avail_mem / mpg) sg else sg in
      let '(sg, near_gres_cnt) := bind_gres sg in
      let sg := node_or_job_cap sg js in
      match cpu_cap sg js cpg with
      | None => Rejected sg
      | Some sg =>
          let sg := mem_cap sg mpg in
          if below_min sg min_gres then Rejected sg
          else Passed sg near_gres_cnt
      end.

(** Lines 291-300. *)
Definition near_for (sg : sock_gres_t) (near_gres_cnt : Z) : Z :=
  if nz (max_node_gres sg) && (max_node_gres sg <? near_gres_cnt)
  then max_node_gres sg else near_gres_cnt.

Definition add_near (near_gpus near_gres_cnt : Z) : Z :=
  if u64 (near_gpus + near_gres_cnt) <? 255
  then u16 (u64 (near_gpus + near_gres_cnt))
  else 255.

Definition add_avail (avail_gpus : Z) (sg : sock_gres_t) : Z :=
  u16 (u64 (avail_gpus + total_cnt sg)).

(** The result of the filter: status, the list with its records as the
    call leaves them, and the two output counters. *)
Record filter_result := {
  f_rc : Z;
  f_list : list sock_gres_t;
  f_avail_gpus : Z;
  f_near_gpus : Z
}.

(** The loop of lines 156-301.  [None]: the record's job pointer fails
    the assertion of line 159 or its gres_data is NULL. *)
Fixpoint filter_loop (l : list sock_gres_t) (avail_gpus near_gpus : Z)
    : option filter_result :=
  match l with
  | [] => Some {| f_rc := 0; f_list := []; f_avail_gpus := avail_gpus;
                  f_near_gpus := near_gpus |}
  | sg :: rest =>
      gs ← jobs !! gres_state_job sg;
      js ← gres_data gs;
      match examine sg js with
      | Rejected sg' =>
          Some {| f_rc := -1; f_list := sg' :: rest;
                  f_avail_gpus := avail_gpus; f_near_gpus := near_gpus |}
      | Passed sg' near_gres_cnt =>
          let '(avail_gpus, near_gpus) :=
            if gres_id_sharing E (plugin_id gs)
            then (add_avail avail_gpus sg',
                  add_near near_gpus (near_for sg' near_gres_cnt))
            else (avail_gpus, near_gpus) in
          r ← filter_loop rest avail_gpus near_gpus;
          Some {| f_rc := f_rc r; f_list := sg' :: f_list r;
                  f_avail_gpus := f_avail_gpus r;
                  f_near_gpus := f_near_gpus r |}
      end
  end.

End remove_unusable.

(** The entry point; [core_bitmap] and [sock_gres_list] may be NULL. *)
Definition gres_select_filter_remove_unusable (E : slurm_env) (jobs : job_store)
    (sock_gres_list : option (list sock_gres_t))
    (avail_mem max_cpus : Z) (enforce_binding : bool)
    (core_bitmap : option bitstr)
    (sockets cores_per_sock cpus_per_core : Z)
    (sock_per_node task_per_node cpus_per_task : Z)
    (whole_node : bool) : option filter_result :=
  match core_bitmap, sock_gres_list with
  | Some cb, Some (sg :: l) =>
      filter_loop E jobs avail_mem max_cpus enforce_binding cb sockets
        cores_per_sock cpus_per_core sock_per_node task_per_node cpus_per_task
        whole_node (sg :: l) 0 0
  | _, _ =>
      Some {| f_rc := 0; f_list := default [] sock_gres_list;
              f_avail_gpus := 0; f_near_gpus := 0 |}
  end.

(** ** The statements of the specification about the filter *)

Fixpoint zsum (l : list Z) : Z :=
  match l with
  | [] => 0
  | x :: l' => x + zsum l'
  end.

Fixpoint zmax_list (d : Z) (l : list Z) : Z :=
  match l with
  | [] => d
  | x :: l' => zmax_list (Z.max d x) l'
  end.

Section remove_unusable_spec.
Context (E : slurm_env) (jobs : job_store).
Variables (avail_mem max_cpus : Z) (enforce_binding : bool)
          (core_bitmap : bitstr)
          (sockets cores_per_sock cpus_per_core : Z)
          (sock_per_node task_per_node cpus_per_task : Z)
          (whole_node : bool).

(** The minimum count as the specification words it: the maximum of the
    terms whose counter is not zero, the first term being 1 when neither
    whole_node nor gres_per_node gives one. *)
Definition min_gres_spec (sg : sock_gres_t) (js : gres_job_state) : Z :=
  let node_term :=
    if whole_node then total_cnt sg
    else if gres_per_node js =? 0 then 1 else gres_per_node js in
  let socket_term :=
    if gres_per_socket js =? 0 then []
    else if sock_per_node =? NO_VAL E then [gres_per_socket js]
    else [u64 (gres_per_socket js * sock_per_node)] in
  let task_term :=
    if gres_per_task js =? 0 then []
    else if task_per_node =? NO_VAL16 E then [gres_per_task js]
    else [u64 (gres_per_task js * task_per_node)] in
  zmax_list node_term (socket_term ++ task_term).

(** The record's job state is there to be read. *)
Definition has_job_state (sg : sock_gres_t) : Prop :=
  is_Some (jobs !! gres_state_job sg ≫= gres_data).

(** The request is of a sharing kind. *)
Definition is_sharing (sg : sock_gres_t) : bool :=
  match jobs !! gres_state_job sg with
  | Some gs => gres_id_sharing E (plugin_id gs)
  | None => false
  end.

(** The part of [c] that sits on sockets of [seq a n] without a core. *)
Definition unavail_part (c : list Z) (a n : nat) : Z :=
  zsum (map (fun s => if sock_has_core core_bitmap sockets cores_per_sock s
                      then 0 else zget c s) (seq a n)).

(** The count a record has on the sockets without an available core. *)
Definition unavail_cnt (sg : sock_gres_t) : Z :=
  zsum (map (fun s => if sock_has_core core_bitmap sockets cores_per_sock s
                      then 0 else zget_opt (cnt_by_sock sg) s)
            (seq 0 (Z.to_nat sockets))).

(** The count of a record after the binding prune. *)
Definition post_prune_cnt (sg : sock_gres_t) : Z :=
  match cnt_by_sock sg with
  | Some _ => total_cnt sg - unavail_cnt sg
  | None => total_cnt sg
  end.

(** near_gpus as the specification gives it. *)
Definition near_gpus_spec (l : list sock_gres_t) : Z :=
  Z.min 255 (zsum (map post_prune_cnt (filter (fun sg => is_sharing sg = true) l))).

(** near_gpus with the cap of lines 293-295: [sg] is the record at entry,
    [sg'] the record as the filter leaves it. *)
Definition near_capped (sg sg' : sock_gres_t) : Z :=
  if nz (max_node_gres sg') && (max_node_gres sg' <? post_prune_cnt sg)
  then max_node_gres sg' else post_prune_cnt sg.

Fixpoint near_capped_sum (l out : list sock_gres_t) : Z :=
  match l, out with
  | sg :: l', sg' :: out' =>
      (if is_sharing sg then near_capped sg sg' else 0) + near_capped_sum l' out'
  | _, _ => 0
  end.

(** Counts by socket are not negative, add up to at most total_cnt, and
    total_cnt leaves room below 2^64 for the saturation test. *)
Definition sock_gres_ok (sg : sock_gres_t) : Prop :=
  Forall (fun c => 0 <= c) (default [] (cnt_by_sock sg)) /\
  zsum (default [] (cnt_by_sock sg)) <= total_cnt sg /\
  0 <= total_cnt sg < 2 ^ 64 - 255 /\
  0 <= max_node_gres sg.

(** A request passes one turn of the loop: its record [sg] becomes [sg']. *)
Definition passes (sg sg' : sock_gres_t) : Prop :=
  exists gs js near_gres_cnt,
    jobs !! gres_state_job sg = Some gs /\ gres_data gs = Some js /\
    examine E avail_mem max_cpus enforce_binding core_bitmap sockets
      cores_per_sock cpus_per_core sock_per_node task_per_node cpus_per_task
      whole_node sg js = Passed sg' near_gres_cnt.

(** A request is rejected by its turn of the loop. *)
Definition rejects (sg sg' : sock_gres_t) : Prop :=
  exists gs js,
    jobs !! gres_state_job sg = Some gs /\ gres_data gs = Some js /\
    examine E avail_mem max_cpus enforce_binding core_bitmap sockets
      cores_per_sock cpus_per_core sock_per_node task_per_node cpus_per_task
      whole_node sg js = Rejected sg'.

(** The counters of a job state the filter reads lie in the range of
    their unsigned type. *)
Definition job_counters_ok (sg : sock_gres_t) : Prop :=
  forall gs js, jobs !! gres_state_job sg = Some gs -> gres_data gs = Some js ->
    0 <= gres_per_node js /\ 0 <= gres_per_job js /\
    0 <= mem_per_gres js /\ 0 <= def_mem_per_gres js.

(** The sentence "on any reject no record has been mutated", to be
    compared with the code. *)
Definition reject_leaves_records (l : list sock_gres_t) : Prop :=
  forall r,
    gres_select_filter_remove_unusable E jobs (Some l) avail_mem max_cpus
      enforce_binding (Some core_bitmap) sockets cores_per_sock cpus_per_core
      sock_per_node task_per_node cpus_per_task whole_node = Some r ->
    f_rc r = -1 -> f_list r = l.

(** The sentence "near_gpus is the saturated sum of the post-prune counts
    of the sharing requests", to be compared with the code. *)
Definition near_gpus_is_post_prune_sum (l : list sock_gres_t) : Prop :=
  forall r,
    gres_select_filter_remove_unusable E jobs (Some l) avail_mem max_cpus
      enforce_binding (Some core_bitmap) sockets cores_per_sock cpus_per_core
      sock_per_node task_per_node cpus_per_task whole_node = Some r ->
    f_rc r = 0 -> f_near_gpus r = near_gpus_spec l.

End remove_unusable_spec.

(** ** Sorting

    [qsort] is the C library's.  C leaves the relative order of elements
    that compare equal unspecified; the embedding sorts by insertion, which
    keeps it.  [cmp x y <= 0] places [x] before [y]. *)

Fixpoint qsort_insert {A} (cmp : A -> A -> Z) (x : A) (l : list A) : list A :=
  match l with
  | [] => [x]
  | y :: l' =>
      if cmp x y <=? 0 then x :: y :: l' else y :: qsort_insert cmp x l'
  end.

Definition qsort {A} (cmp : A -> A -> Z) (l : list A) : list A :=
  foldr (qsort_insert cmp) [] l.

(** ** Writing the outputs of a job state *)

Definition set_total_gres (v : Z) (js : gres_job_state) : gres_job_state :=
  {| gres_per_job := gres_per_job js; gres_per_node := gres_per_node js;
     gres_per_socket := gres_per_socket js; gres_per_task := gres_per_task js;
     cpus_per_gres := cpus_per_gres js; def_cpus_per_gres := def_cpus_per_gres js;
     ntasks_per_gres := ntasks_per_gres js; mem_per_gres := mem_per_gres js;
     def_mem_per_gres := def_mem_per_gres js; type_id := type_id js;
     total_gres := v; total_node_cnt := total_node_cnt js;
     gres_cnt_node_select := gres_cnt_node_select js;
     gres_bit_select := gres_bit_select js;
     gres_per_bit_select := gres_per_bit_select js |}.

Definition set_total_node_cnt (v : Z) (js : gres_job_state) : gres_job_state :=
  {| gres_per_job := gres_per_job js; gres_per_node := gres_per_node js;
     gres_per_socket := gres_per_socket js; gres_per_task := gres_per_task js;
     cpus_per_gres := cpus_per_gres js; def_cpus_per_gres := def_cpus_per_gres js;
     ntasks_per_gres := ntasks_per_gres js; mem_per_gres := mem_per_gres js;
     def_mem_per_gres := def_mem_per_gres js; type_id := type_id js;
     total_gres := total_gres js; total_node_cnt := v;
     gres_cnt_node_select := gres_cnt_node_select js;
     gres_bit_select := gres_bit_select js;
     gres_per_bit_select := gres_per_bit_select js |}.

Definition set_gres_cnt_node_select (v : option (list Z)) (js : gres_job_state)
    : gres_job_state :=
  {| gres_per_job := gres_per_job js; gres_per_node := gres_per_node js;
     gres_per_socket := gres_per_socket js; gres_per_task := gres_per_task js;
     cpus_per_gres := cpus_per_gres js; def_cpus_per_gres := def_cpus_per_gres js;
     ntasks_per_gres := ntasks_per_gres js; mem_per_gres := mem_per_gres js;
     def_mem_per_gres := def_mem_per_gres js; type_id := type_id js;
     total_gres := total_gres js; total_node_cnt := total_node_cnt js;
     gres_cnt_node_select := v;
     gres_bit_select := gres_bit_select js;
     gres_per_bit_select := gres_per_bit_select js |}.

Definition set_gres_bit_select (v : option (list (option bitstr)))
    (js : gres_job_state) : gres_job_state :=
  {| gres_per_job := gres_per_job js; gres_per_node := gres_per_node js;
     gres_per_socket := gres_per_socket js; gres_per_task := gres_per_task js;
     cpus_per_gres := cpus_per_gres js; def_cpus_per_gres := def_cpus_per_gres js;
     ntasks_per_gres := ntasks_per_gres js; mem_per_gres := mem_per_gres js;
     def_mem_per_gres := def_mem_per_gres js; type_id := type_id js;
     total_gres := total_gres js; total_node_cnt := total_node_cnt js;
     gres_cnt_node_select := gres_cnt_node_select js;
     gres_bit_select := v;
     gres_per_bit_select := gres_per_bit_select js |}.

Definition set_gres_per_bit_select (v : option (list (option (list Z))))
    (js : gres_job_state) : gres_job_state :=
  {| gres_per_job := gres_per_job js; gres_per_node := gres_per_node js;
     gres_per_socket := gres_per_socket js; gres_per_task := gres_per_task js;
     cpus_per_gres := cpus_per_gres js; def_cpus_per_gres := def_cpus_per_gres js;
     ntasks_per_gres := ntasks_per_gres js; mem_per_gres := mem_per_gres js;
     def_mem_per_gres := def_mem_per_gres js; type_id := type_id js;
     total_gres := total_gres js; total_node_cnt := total_node_cnt js;
     gres_cnt_node_select := gres_cnt_node_select js;
     gres_bit_select := gres_bit_select js;
     gres_per_bit_select := v |}.

(** [gres_js->gres_bit_select[node_inx]], NULL when either level is. *)
Definition bit_select_ptr (js : gres_job_state) (n : nat) : option bitstr :=
  match gres_bit_select js with
  | Some l => default None (l !! n)
  | None => None
  end.

Definition bit_select_at (js : gres_job_state) (n : nat) : bitstr :=
  default [] (bit_select_ptr js n).

Definition cnt_node_select_at (js : gres_job_state) (n : nat) : Z :=
  zget_opt (gres_cnt_node_select js) n.

Definition per_bit_select_at (js : gres_job_state) (n : nat) : list Z :=
  match gres_per_bit_select js with
  | Some l => default [] (default None (l !! n))
  | None => []
  end.

Definition write_bit_select (n : nat) (b : option bitstr) (js : gres_job_state)
    : gres_job_state :=
  set_gres_bit_select (option_map (fun l => <[n := b]> l) (gres_bit_select js)) js.

Definition write_cnt_node_select (n : nat) (v : Z) (js : gres_job_state)
    : gres_job_state :=
  set_gres_cnt_node_select
    (option_map (fun l => <[n := v]> l) (gres_cnt_node_select js)) js.

Definition write_per_bit_select (n : nat) (v : option (list Z))
    (js : gres_job_state) : gres_job_state :=
  set_gres_per_bit_select
    (option_map (fun l => <[n := v]> l) (gres_per_bit_select js)) js.

(** The three groups of writes the pickers make.  Lines 635-636: unit [g]
    is chosen on node [n]. *)
Definition take_bit (n g : nat) (js : gres_job_state) : gres_job_state :=
  let js := write_bit_select n (Some (bit_set (bit_select_at js n) g)) js in
  write_cnt_node_select n (u64 (cnt_node_select_at js n + 1)) js.

(** Lines 904-906: unit [g] is given back. *)
Definition drop_bit (n g : nat) (js : gres_job_state) : gres_job_state :=
  let js := write_bit_select n (Some (bit_clear (bit_select_at js n) g)) js in
  write_cnt_node_select n (u64 (cnt_node_select_at js n - 1)) js.

(** Lines 370-372: [c] shares are drawn from slot [t]. *)
Definition shared_take (n t : nat) (c : Z) (js : gres_job_state) : gres_job_state :=
  let js := write_bit_select n (Some (bit_set (bit_select_at js n) t)) js in
  let js := write_cnt_node_select n (u64 (cnt_node_select_at js n + c)) js in
  write_per_bit_select n
    (Some (<[t := u64 (zget (per_bit_select_at js n) t + c)]>
             (per_bit_select_at js n))) js.

(** Lines 354-356: what slot [t] has left for this job. *)
Definition slot_cnt_avail (ns : gres_node_state) (js : gres_job_state)
    (n t : nat) : Z :=
  u64 (u64 (zget_opt (topo_gres_cnt_avail ns) t
            - zget_opt (topo_gres_cnt_alloc ns) t)
       - zget (per_bit_select_at js n) t).

(** Used to indicate when sock_gres->bits_any_sock should be tested. *)
Definition ANY_SOCK_TEST : Z := -1.

(** The bitmap the two pickers test candidates against: bits_any_sock for
    ANY_SOCK_TEST, else bits_by_sock[socket_index]; [None] is the early
    return. *)
Definition sock_bits_of (sg : sock_gres_t) (socket_index : Z) : option bitstr :=
  if socket_index =? ANY_SOCK_TEST then bits_any_sock sg
  else
    match bits_by_sock sg with
    | Some l => default None (l !! Z.to_nat socket_index)
    | None => None
    end.

(** ** Shared GRES *)

(** Lines 309-317. *)
Definition _init_gres_per_bit_select (js : gres_job_state) (node_inx : nat)
    : gres_job_state :=
  let js :=
    match gres_per_bit_select js with
    | Some _ => js
    | None =>
        set_gres_per_bit_select
          (Some (replicate (Z.to_nat (total_node_cnt js)) None)) js
    end in
  write_per_bit_select node_inx
    (Some (replicate (Z.to_nat (bit_size (bit_select_at js node_inx))) 0)) js.

(** The body of the loop of lines 347-374 on slot [t]; the state is the
    job state and [*gres_needed], and nothing happens once that is 0. *)
Definition shared_slot_visit (ns : gres_node_state)
    (use_busy_dev use_single_dev no_repeat : bool) (node_inx : nat)
    (sock_bits : bitstr) (st : gres_job_state * Z) (t : nat)
    : gres_job_state * Z :=
  let '(js, gres_needed) := st in
  if gres_needed =? 0 then st
  else if nz (type_id js) && negb (type_id js =? zget (topo_type_id ns) t) then st
  else if use_busy_dev && (zget_opt (topo_gres_cnt_alloc ns) t =? 0) then st
  else
    let cnt_avail := slot_cnt_avail ns js node_inx t in
    if cnt_avail <? (if use_single_dev then gres_needed else 1) then st
    else if negb (bit_test sock_bits t) then st
    else if no_repeat && bit_test (bit_select_at js node_inx) t then st
    else
      let cnt_to_alloc := MIN cnt_avail gres_needed in
      if cnt_to_alloc =? 0 then st
      else (shared_take node_inx t cnt_to_alloc js,
            u64 (gres_needed - cnt_to_alloc)).

(** One turn of the loop at position [j]: the slot is topo_index[j], or
    [j] without a topo_index. *)
Definition shared_topo_step (ns : gres_node_state)
    (use_busy_dev use_single_dev no_repeat : bool) (node_inx : nat)
    (sock_bits : bitstr) (topo_index : option (list nat))
    (st : gres_job_state * Z) (j : nat) : gres_job_state * Z :=
  shared_slot_visit ns use_busy_dev use_single_dev no_repeat node_inx sock_bits
    st (match topo_index with
        | Some ti => default 0%nat (ti !! j)
        | None => j
        end).

(** Lines 319-375. *)
Definition _pick_shared_gres_topo (sg : sock_gres_t) (ns : gres_node_state)
    (use_busy_dev use_single_dev no_repeat : bool) (node_inx : nat)
    (socket_index : Z) (topo_index : option (list nat))
    (st : gres_job_state * Z) : gres_job_state * Z :=
  match sock_bits_of sg socket_index with
  | None => st
  | Some sock_bits =>
      match topo_gres_cnt_alloc ns, topo_gres_cnt_avail ns with
      | Some _, Some _ =>
          foldl (shared_topo_step ns use_busy_dev use_single_dev no_repeat
                   node_inx sock_bits topo_index)
                st (seq 0 (Z.to_nat (topo_cnt ns)))
      | _, _ => st
      end
  end.

(** Lines 394-413: the key of slot [t], left at 0 for a slot without
    capacity.  The int64_t accumulator meets uint64_t operands, so every
    step is done on 64 unsigned bits and read back signed. *)
Definition nonalloc_gres (ns : gres_node_state) (t : nat) : Z :=
  let avail := zget_opt (topo_gres_cnt_avail ns) t in
  if avail =? 0 then 0
  else
    let x := s64 avail in
    let x := s64 (u64 x - zget_opt (topo_gres_cnt_alloc ns) t) in
    let x := s64 (u64 x * gres_cnt_avail ns) in
    s64 (u64 x / avail).

(** Lines 377-388. *)
Definition _sort_topo_by_avail_cnt (ns : gres_node_state) (x y : nat) : Z :=
  let cx := nonalloc_gres ns x in
  let cy := nonalloc_gres ns y in
  if cx <? cy then 1 else if cx >? cy then -1 else 0.

(** Lines 390-419. *)
Definition _get_sorted_topo_by_least_loaded (ns : gres_node_state) : list nat :=
  qsort (_sort_topo_by_avail_cnt ns) (seq 0 (Z.to_nat (topo_cnt ns))).

Section shared.
Context (E : slurm_env).

(** The loop over sockets of lines 442-448 ([want_used]) and 456-466
    ([negb want_used]). *)
Definition shared_sock_step (sg : sock_gres_t) (ns : gres_node_state)
    (used_sock : list Z) (want_used : bool)
    (use_busy_dev use_single_dev no_repeat : bool) (node_inx : nat)
    (topo_index : option (list nat))
    (st : gres_job_state * Z) (s : nat) : gres_job_state * Z :=
  if snd st =? 0 then st
  else if Bool.eqb (nz (zget used_sock s)) want_used then
    _pick_shared_gres_topo sg ns use_busy_dev use_single_dev no_repeat node_inx
      (Z.of_nat s) topo_index st
  else st.

(** Lines 421-470. *)
Definition _pick_shared_gres (sg : sock_gres_t) (ns : gres_node_state)
    (used_sock : list Z) (node_inx : nat)
    (use_busy_dev use_single_dev no_repeat enforce_binding : bool)
    (st : gres_job_state * Z) : gres_job_state * Z :=
  let topo_index :=
    if nz (Z.land (select_type_param E) (LL_SHARED_GRES E))
    then Some (_get_sorted_topo_by_least_loaded ns) else None in
  let socks := seq 0 (Z.to_nat (sock_cnt sg)) in
  let st := foldl (shared_sock_step sg ns used_sock true use_busy_dev
                     use_single_dev no_repeat node_inx topo_index) st socks in
  let st :=
    if nz (snd st) then
      _pick_shared_gres_topo sg ns use_busy_dev use_single_dev no_repeat
        node_inx ANY_SOCK_TEST topo_index st
    else st in
  if negb enforce_binding then
    foldl (shared_sock_step sg ns used_sock false use_busy_dev
             use_single_dev no_repeat node_inx topo_index) st socks
  else st.

End shared.

(** Status codes. *)
Inductive slurm_rc :=
| SLURM_SUCCESS
| SLURM_ERROR
| ESLURM_INVALID_GRES
| ESLURM_NODE_NOT_AVAIL.

(** Return the count of tasks for a job on a given node (lines 1332-1345). *)
Definition _get_task_cnt_node (tasks_per_socket : option (list Z)) (sock_cnt : Z) : Z :=
  match tasks_per_socket with
  | None => 1
  | Some tps =>
      foldl (fun task_cnt s => u32 (task_cnt + zget tps s)) 0
            (seq 0 (Z.to_nat sock_cnt))
  end.

Section shared_bits.
Context (E : slurm_env).

(** Lines 482-510. *)
Definition _set_shared_node_bits (node_inx : nat) (sg : sock_gres_t)
    (gsn : gres_state_t gres_node_state) (ns : gres_node_state)
    (enforce_binding : bool) (used_sock : list Z) (js : gres_job_state)
    : slurm_rc * gres_job_state :=
  let use_busy_dev := gres_use_busy_dev E gsn in
  let gres_needed := gres_per_node js in
  let '(js, gres_needed) :=
    _pick_shared_gres E sg ns used_sock node_inx use_busy_dev true false
      enforce_binding (js, gres_needed) in
  let '(js, gres_needed) :=
    if nz gres_needed &&
       nz (Z.land (select_type_param E) (MULTIPLE_SHARING_GRES_PJ E))
    then _pick_shared_gres E sg ns used_sock node_inx use_busy_dev false false
           enforce_binding (js, gres_needed)
    else (js, gres_needed) in
  if nz gres_needed then (ESLURM_INVALID_GRES, js) else (SLURM_SUCCESS, js).

(** The loop of lines 560-572 over the tasks of one socket, [k] tasks
    left; it ends at the first task left short. *)
Fixpoint shared_task_loop (sg : sock_gres_t) (ns : gres_node_state)
    (used_sock : list Z) (node_inx : nat)
    (use_busy_dev no_task_sharing enforce_binding : bool)
    (k : nat) (rc : slurm_rc) (js : gres_job_state) : slurm_rc * gres_job_state :=
  match k with
  | O => (rc, js)
  | S k' =>
      let '(js, gres_needed) :=
        _pick_shared_gres E sg ns used_sock node_inx use_busy_dev true
          no_task_sharing enforce_binding (js, gres_per_task js) in
      if nz gres_needed then (ESLURM_INVALID_GRES, js)
      else shared_task_loop sg ns used_sock node_inx use_busy_dev
             no_task_sharing enforce_binding k' rc js
  end.

(** Lines 521-578. *)
Definition _set_shared_task_bits (node_inx : nat) (sg : sock_gres_t)
    (gsn : gres_state_t gres_node_state) (ns : gres_node_state)
    (enforce_binding no_task_sharing : bool)
    (tasks_per_socket : option (list Z)) (js : gres_job_state)
    : slurm_rc * gres_job_state :=
  let use_busy_dev := gres_use_busy_dev E gsn in
  match tasks_per_socket with
  | None => (SLURM_ERROR, js)
  | Some tps =>
      if negb (nz (Z.land (select_type_param E) (MULTIPLE_SHARING_GRES_PJ E)))
      then
        let gres_needed :=
          u64 (gres_per_task js * _get_task_cnt_node tasks_per_socket (sock_cnt sg)) in
        let '(js, gres_needed) :=
          _pick_shared_gres E sg ns tps node_inx use_busy_dev true false
            enforce_binding (js, gres_needed) in
        if nz gres_needed then (ESLURM_INVALID_GRES, js) else (SLURM_SUCCESS, js)
      else
        let n := Z.to_nat (sock_cnt sg) in
        foldl (fun (st : slurm_rc * gres_job_state) s =>
                 let used_sock := <[s := 1]> (replicate n 0) in
                 shared_task_loop sg ns used_sock node_inx use_busy_dev
                   no_task_sharing enforce_binding (Z.to_nat (zget tps s))
                   (fst st) (snd st))
              (SLURM_SUCCESS, js) (seq 0 n)
  end.

End shared_bits.

(** ** Picking whole units *)

(** Lines 580-583. *)
Definition _compare_gres_by_links (sorting_links_cnt : list Z) (x y : nat) : Z :=
  s32 (zget sorting_links_cnt x - zget sorting_links_cnt y).

(** [gres_ns->links_cnt[g][l]]. *)
Definition link_at (ns : gres_node_state) (g l : nat) : Z :=
  zget (default [] (links_cnt ns !! g)) l.

(** Lines 585-601; returns sorted_gres and links_cnt. *)
Definition _update_and_sort_by_links (sorted_gres : list nat) (links : list Z)
    (gres_inx : nat) (gres_cnt : nat) (ns : gres_node_state)
    : list nat * list Z :=
  let links :=
    foldl (fun (lk : list Z) l =>
             if (l =? gres_inx)%nat || bit_test_opt (gres_bit_alloc ns) l then lk
             else <[l := s32 (zget lk l + link_at ns gres_inx l)]> lk)
          links (seq 0 gres_cnt) in
  (qsort (_compare_gres_by_links links) sorted_gres, links).

(** What the pickers of whole units thread through their calls: the job
    state and the two scratch arrays, NULL when links are not in use. *)
Record pick_state := {
  ps_js : gres_job_state;
  ps_sorted : option (list nat);
  ps_links : option (list Z)
}.

(** The unit the loop of lines 628-643 looks at in position [i]. *)
Definition unit_at (sorted_gres : option (list nat)) (i : nat) : nat :=
  match sorted_gres with
  | Some sg => default 0%nat (sg !! i)
  | None => i
  end.

(** The tests of lines 630-634: the unit is on the socket and neither
    selected nor allocated. *)
Definition unit_free (sock_bits : bitstr) (ns : gres_node_state)
    (js : gres_job_state) (node_inx : nat) (g : nat) : bool :=
  bit_test sock_bits g &&
  negb (bit_test (bit_select_at js node_inx) g ||
        bit_test_opt (gres_bit_alloc ns) g).

(** The turns of the loop that only [continue]: from position [i], with
    [n] positions left, the first position whose unit passes the tests. *)
Fixpoint next_free (sock_bits : bitstr) (ns : gres_node_state)
    (js : gres_job_state) (node_inx : nat) (sorted_gres : option (list nat))
    (i n : nat) : option (nat * nat) :=
  match n with
  | O => None
  | S n' =>
      let g := unit_at sorted_gres i in
      if unit_free sock_bits ns js node_inx g then Some (i, g)
      else next_free sock_bits ns js node_inx sorted_gres (S i) n'
  end.

(** Lines 635-642: take unit [g]; with links in use the arrays are
    updated and the scan restarts ([i = 0], then the loop's [i++]). *)
Definition take_unit (ns : gres_node_state) (node_inx gres_cnt : nat)
    (st : pick_state) (i g : nat) : pick_state * nat :=
  let js := take_bit node_inx g (ps_js st) in
  match ps_links st, ps_sorted st with
  | Some links, Some sorted_gres =>
      let '(sorted_gres, links) :=
        _update_and_sort_by_links sorted_gres links g gres_cnt ns in
      ({| ps_js := js; ps_sorted := Some sorted_gres; ps_links := Some links |},
       1%nat)
  | _, _ =>
      ({| ps_js := js; ps_sorted := ps_sorted st; ps_links := ps_links st |},
       S i)
  end.

(** The loop of lines 628-643 from position [i] with [k] units still
    needed; returns the state and the units still needed at the end. *)
Fixpoint pick_loop (sock_bits : bitstr) (ns : gres_node_state)
    (node_inx gres_cnt : nat) (k : nat) (i : nat) (st : pick_state)
    : pick_state * nat :=
  match k with
  | O => (st, O)
  | S k' =>
      match next_free sock_bits ns (ps_js st) node_inx (ps_sorted st) i
              (gres_cnt - i) with
      | None => (st, k)
      | Some (j, g) =>
          let '(st, i) := take_unit ns node_inx gres_cnt st j g in
          pick_loop sock_bits ns node_inx gres_cnt k' i st
      end
  end.

(** Lines 603-645.  [gres_needed] is the int argument; the result is the
    count picked. *)
Definition _pick_gres_topo (sg : sock_gres_t) (ns : gres_node_state)
    (gres_needed : Z) (node_inx : nat) (socket_index : Z) (st : pick_state)
    : Z * pick_state :=
  match sock_bits_of sg socket_index with
  | None => (0, st)
  | Some sock_bits =>
      let gres_still_needed := u64 gres_needed in
      let gres_cnt := length (bit_select_at (ps_js st) node_inx) in
      let '(st, still) :=
        pick_loop sock_bits ns node_inx gres_cnt (Z.to_nat gres_still_needed)
          0 st in
      (u64 (gres_needed - Z.of_nat still), st)
  end.

(** The scratch arrays of lines 743-750 (and 1034-1041, 1124-1131). *)
Definition init_pick_state (ns : gres_node_state) (js : gres_job_state)
    (node_inx : nat) : pick_state :=
  let gres_cnt := length (bit_select_at js node_inx) in
  if link_len ns =? Z.of_nat gres_cnt then
    {| ps_js := js; ps_sorted := Some (seq 0 gres_cnt);
       ps_links := Some (replicate gres_cnt 0) |}
  else {| ps_js := js; ps_sorted := None; ps_links := None |}.

(** One turn of a loop over sockets that tops up [gres_needed] (a
    uint32_t in [_set_node_bits]): sockets whose use differs from
    [want_used] are skipped, the others are asked for one unit ([one]) or
    for all that is needed. *)
Definition node_sock_step (sg : sock_gres_t) (ns : gres_node_state)
    (used_sock : list Z) (want_used one : bool) (node_inx : nat)
    (acc : Z * pick_state) (s : nat) : Z * pick_state :=
  let '(gres_needed, st) := acc in
  if gres_needed =? 0 then acc
  else if Bool.eqb (nz (zget used_sock s)) want_used then
    let '(picked, st) :=
      _pick_gres_topo sg ns (if one then 1 else s32 gres_needed) node_inx
        (Z.of_nat s) st in
    (u32 (gres_needed - picked), st)
  else acc.

(** The fallback on units of any socket between two such loops. *)
Definition node_any_step (sg : sock_gres_t) (ns : gres_node_state) (one : bool)
    (node_inx : nat) (acc : Z * pick_state) : Z * pick_state :=
  let '(gres_needed, st) := acc in
  if gres_needed =? 0 then acc
  else
    let '(picked, st) :=
      _pick_gres_topo sg ns (if one then 1 else s32 gres_needed) node_inx
        ANY_SOCK_TEST st in
    (u32 (gres_needed - picked), st).

(** Lines 1015-1091. *)
Definition _set_node_bits (node_inx : nat) (sg : sock_gres_t)
    (ns : gres_node_state) (used_sock : list Z) (js : gres_job_state)
    : gres_job_state :=
  let socks := seq 0 (Z.to_nat (u16 (sock_cnt sg))) in
  let acc := (u32 (gres_per_node js), init_pick_state ns js node_inx) in
  let acc := foldl (node_sock_step sg ns used_sock true true node_inx) acc socks in
  let acc := node_any_step sg ns true node_inx acc in
  let acc := foldl (node_sock_step sg ns used_sock true false node_inx) acc socks in
  let acc := node_any_step sg ns false node_inx acc in
  let acc := foldl (node_sock_step sg ns used_sock false false node_inx) acc socks in
  ps_js (snd acc).

(** The free units of socket [s]: bit_set_count(bits_by_sock[s]) minus
    bit_overlap(bits_by_sock[s], gres_bit_alloc), stored in a uint32_t. *)
Definition free_on_sock (ns : gres_node_state) (b : bitstr) : Z :=
  u32 (bit_set_count b - bit_overlap b (default [] (gres_bit_alloc ns))).

Definition bits_by_sock_at (sg : sock_gres_t) (s : nat) : option bitstr :=
  match bits_by_sock sg with
  | Some l => default None (l !! s)
  | None => None
  end.

(** What the reshaping of used_sock threads through its loops. *)
Record used_socks := {
  us_used_sock : list Z;                              (* uint32_t * *)
  us_used_sock_cnt : Z;                               (* uint32_t *)
  us_break : bool
}.

(** One turn of the loop of lines 689-705 (too few sockets allocated). *)
Definition elect_sock_step (sg : sock_gres_t) (ns : gres_node_state)
    (js : gres_job_state) (sockets_per_node_req : Z)
    (us : used_socks) (s : nat) : used_socks :=
  if us_break us then us
  else
    match bits_by_sock_at sg s with
    | None => us
    | Some b =>
        if nz (zget (us_used_sock us) s) then us
        else
          let free := free_on_sock ns b in
          if (free =? 0) || (free <? gres_per_socket js) then
            {| us_used_sock := <[s := 0]> (us_used_sock us);
               us_used_sock_cnt := us_used_sock_cnt us; us_break := false |}
          else
            let cnt := u32 (us_used_sock_cnt us + 1) in
            {| us_used_sock := <[s := free]> (us_used_sock us);
               us_used_sock_cnt := cnt;
               us_break := cnt =? sockets_per_node_req |}
    end.

(** One turn of the loop of lines 711-723 (more sockets than requested). *)
Definition tally_sock_step (sg : sock_gres_t) (ns : gres_node_state)
    (us : used_socks) (s : nat) : used_socks :=
  match bits_by_sock_at sg s with
  | None => us
  | Some b =>
      if negb (nz (zget (us_used_sock us) s)) then us
      else
        let free := free_on_sock ns b in
        {| us_used_sock := <[s := free]> (us_used_sock us);
           us_used_sock_cnt :=
             if free =? 0 then u32 (us_used_sock_cnt us - 1)
             else us_used_sock_cnt us;
           us_break := false |}
  end.

(** Lines 726-734: the used socket with the fewest free units, scanning
    from the last socket down. *)
Definition low_sock_inx (used_sock : list Z) (sock_cnt : nat) : option nat :=
  foldl (fun (low : option nat) s =>
           if zget used_sock s =? 0 then low
           else
             match low with
             | None => Some s
             | Some l => if zget used_sock s <? zget used_sock l then Some s else low
             end)
        None (rev (seq 0 sock_cnt)).

(** The loop of lines 725-739; each turn clears one used socket, so
    [fuel] above the socket count is never used up. *)
Fixpoint drop_low_socks (fuel : nat) (sockets_per_node_req : Z) (sock_cnt : nat)
    (us : used_socks) : used_socks :=
  match fuel with
  | O => us
  | S fuel' =>
      if sockets_per_node_req >? us_used_sock_cnt us then
        match low_sock_inx (us_used_sock us) sock_cnt with
        | None => us
        | Some low =>
            drop_low_socks fuel' sockets_per_node_req sock_cnt
              {| us_used_sock := <[low := 0]> (us_used_sock us);
                 us_used_sock_cnt := u32 (us_used_sock_cnt us - 1);
                 us_break := false |}
        end
      else us
  end.

(** The used sockets among the first [sock_cnt], which bound the turns of
    that loop. *)
Definition nonzero_socks (used_sock : list Z) (sock_cnt : nat) : nat :=
  length (List.filter (fun s => nz (zget used_sock s)) (seq 0 sock_cnt)).

(** Lines 677-741: the sockets [_set_sock_bits] will pick on. *)
Definition reshape_used_sock (sg : sock_gres_t) (ns : gres_node_state)
    (js : gres_job_state) (tres_mc_ptr : option gres_mc_data)
    (used_cores_on_sock : list Z) (used_sock_cnt : Z) : list Z :=
  let n_sock := Z.to_nat (u16 (sock_cnt sg)) in
  match tres_mc_ptr, gres_bit_alloc ns, bits_by_sock sg with
  | Some mc, Some _, Some _ =>
      if nz (sockets_per_node mc) && negb (sockets_per_node mc =? used_sock_cnt)
      then
        let copied := map (zget used_cores_on_sock)
                          (seq 0 (Z.to_nat (sock_cnt sg))) in
        let us := {| us_used_sock := copied; us_used_sock_cnt := used_sock_cnt;
                     us_break := false |} in
        if sockets_per_node mc >? used_sock_cnt then
          us_used_sock
            (foldl (elect_sock_step sg ns js (sockets_per_node mc)) us
                   (seq 0 n_sock))
        else
          let us := foldl (tally_sock_step sg ns) us (seq 0 n_sock) in
          us_used_sock
            (drop_low_socks (S n_sock) (sockets_per_node mc) n_sock us)
      else used_cores_on_sock
  | _, _, _ => used_cores_on_sock
  end.

(** One turn of the loop of lines 755-767. *)
Definition sock_bits_step (sg : sock_gres_t) (ns : gres_node_state)
    (used_sock : list Z) (node_inx : nat) (st : pick_state) (s : nat)
    : pick_state :=
  if negb (nz (zget used_sock s)) then st
  else
    let gres_needed := gres_per_socket (ps_js st) in
    let '(picked, st) :=
      _pick_gres_topo sg ns (s32 gres_needed) node_inx (Z.of_nat s) st in
    let gres_needed := u64 (gres_needed - picked) in
    if nz gres_needed then
      snd (_pick_gres_topo sg ns (s32 gres_needed) node_inx ANY_SOCK_TEST st)
    else st.

(** Lines 657-772. *)
Definition _set_sock_bits (node_inx : nat) (sg : sock_gres_t)
    (ns : gres_node_state) (tres_mc_ptr : option gres_mc_data)
    (used_cores_on_sock : list Z) (used_sock_cnt : Z) (js : gres_job_state)
    : gres_job_state :=
  let used_sock :=
    reshape_used_sock sg ns js tres_mc_ptr used_cores_on_sock used_sock_cnt in
  let st := init_pick_state ns js node_inx in
  ps_js (foldl (sock_bits_step sg ns used_sock node_inx) st
               (seq 0 (Z.to_nat (u16 (sock_cnt sg))))).

(** One turn of the loop of lines 1137-1146. *)
Definition task_sock_step (sg : sock_gres_t) (ns : gres_node_state)
    (tps : list Z) (node_inx : nat) (acc : Z * pick_state) (s : nat)
    : Z * pick_state :=
  let '(gres_needed, st) := acc in
  if negb (nz (zget tps s)) then acc
  else
    let sock_gres_needed :=
      MIN gres_needed (u64 (zget tps s * gres_per_task (ps_js st))) in
    let '(picked, st) :=
      _pick_gres_topo sg ns (s32 sock_gres_needed) node_inx (Z.of_nat s) st in
    (u64 (gres_needed - picked), st).

(** One turn of the loop of lines 1155-1158. *)
Definition task_more_step (sg : sock_gres_t) (ns : gres_node_state)
    (node_inx : nat) (acc : Z * pick_state) (s : nat) : Z * pick_state :=
  let '(gres_needed, st) := acc in
  if gres_needed =? 0 then acc
  else
    let '(picked, st) :=
      _pick_gres_topo sg ns (s32 gres_needed) node_inx (Z.of_nat s) st in
    (u64 (gres_needed - picked), st).

(** Lines 1103-1170. *)
Definition _set_task_bits (node_inx : nat) (sg : sock_gres_t)
    (ns : gres_node_state) (tasks_per_socket : option (list Z))
    (js : gres_job_state) : gres_job_state :=
  match tasks_per_socket with
  | None => js
  | Some tps =>
      let n_sock := u16 (sock_cnt sg) in
      let socks := seq 0 (Z.to_nat n_sock) in
      let st := init_pick_state ns js node_inx in
      let gres_needed :=
        u64 (_get_task_cnt_node tasks_per_socket n_sock * gres_per_task js) in
      let acc := foldl (task_sock_step sg ns tps node_inx) (gres_needed, st) socks in
      let acc :=
        if nz (fst acc) then
          let '(picked, st) :=
            _pick_gres_topo sg ns (s32 (fst acc)) node_inx ANY_SOCK_TEST (snd acc) in
          (u64 (fst acc - picked), st)
        else acc in
      let acc := foldl (task_more_step sg ns node_inx) acc socks in
      ps_js (snd acc)
  end.

Section job_bits.
Context (E : slurm_env).

(** One turn of the loop of lines 844-850. *)
Definition job1_cores_step (sg : sock_gres_t) (ns : gres_node_state)
    (cores_on_sock : list Z) (pick_gres : Z) (node_inx : nat)
    (acc : Z * pick_state) (s : nat) : Z * pick_state :=
  let '(alloc_gres_cnt, st) := acc in
  if negb (alloc_gres_cnt <? pick_gres) then acc
  else if negb (nz (zget cores_on_sock s)) then acc
  else
    let '(picked, st) :=
      _pick_gres_topo sg ns (s32 (pick_gres - alloc_gres_cnt)) node_inx
        (Z.of_nat s) st in
    (s32 (alloc_gres_cnt + picked), st).

(** One turn of the loop of lines 857-862. *)
Definition job1_other_step (sg : sock_gres_t) (ns : gres_node_state)
    (cores_on_sock : list Z) (node_inx : nat)
    (acc : Z * pick_state) (s : nat) : Z * pick_state :=
  let '(alloc_gres_cnt, st) := acc in
  if negb (alloc_gres_cnt =? 0) then acc
  else if nz (zget cores_on_sock s) then acc
  else
    let '(picked, st) := _pick_gres_topo sg ns 1 node_inx (Z.of_nat s) st in
    (s32 (alloc_gres_cnt + picked), st).

(** Lines 870-884: best_link_cnt and best_inx. *)
Definition best_link (ns : gres_node_state) (sel : bitstr) (gres_cnt : nat)
    : Z * Z :=
  foldl (fun (best : Z * Z) s =>
           if negb (bit_test sel s) then best
           else
             foldl (fun (best : Z * Z) g =>
                      if negb (bit_test sel g) then best
                      else if link_at ns s g <=? fst best then best
                      else (link_at ns s g, Z.of_nat s))
                   best (seq (S s) (gres_cnt - S s)))
        (-1, -1) (seq 0 gres_cnt).

(** Lines 886-899: worst_inx and worst_link_cnt. *)
Definition worst_link (ns : gres_node_state) (sel : bitstr) (gres_cnt : nat)
    (best_inx : Z) : Z * Z :=
  foldl (fun (worst : Z * Z) g =>
           if Z.of_nat g =? best_inx then worst
           else if negb (bit_test sel g) then worst
           else if link_at ns (Z.to_nat best_inx) g >=? snd worst then worst
           else (Z.of_nat g, link_at ns (Z.to_nat best_inx) g))
        (-1, NO_VAL16 E) (seq 0 gres_cnt).

(** The loop of lines 885-908; [k] is alloc_gres_cnt - max_gres, which a
    turn lowers by one. *)
Fixpoint prune_links (ns : gres_node_state) (node_inx gres_cnt : nat)
    (best_inx : Z) (k : nat) (acc : gres_job_state * Z) : gres_job_state * Z :=
  match k with
  | O => acc
  | S k' =>
      let '(js, alloc_gres_cnt) := acc in
      let worst_inx :=
        fst (worst_link ns (bit_select_at js node_inx) gres_cnt best_inx) in
      if worst_inx =? -1 then acc
      else
        prune_links ns node_inx gres_cnt best_inx k'
          (drop_bit node_inx (Z.to_nat worst_inx) js, alloc_gres_cnt - 1)
  end.

(** Lines 812-823: max_gres after the cap by cpus_per_gres. *)
Definition job1_max_gres (js : gres_job_state) (rem_nodes : Z)
    (tres_mc_ptr : option gres_mc_data) (cpus_per_core total_cores : Z) : Z :=
  let max_gres := s32 (u64 (gres_per_job js - total_gres js - (rem_nodes - 1))) in
  let cpg :=
    if nz (cpus_per_gres js) then cpus_per_gres js
    else if nz (ntasks_per_gres js) && negb (ntasks_per_gres js =? NO_VAL16 E)
    then u16 (ntasks_per_gres js *
              match tres_mc_ptr with Some mc => cpus_per_task mc | None => 0 end)
    else 0 in
  if nz cpg then
    s32 (MIN (u32 max_gres) (u32 (total_cores * cpus_per_core) / cpg))
  else max_gres.

(** Lines 824-837. *)
Definition job1_pick_gres (ns : gres_node_state) (max_gres : Z) (gres_cnt : nat) : Z :=
  if (max_gres >? 1) && (link_len ns =? Z.of_nat gres_cnt) then NO_VAL16 E
  else MAX max_gres 1.

(** Lines 844-863: the units that might be used; returns alloc_gres_cnt. *)
Definition job1_select (sg : sock_gres_t) (ns : gres_node_state)
    (cores_on_sock : list Z) (pick_gres : Z) (node_inx : nat)
    (js : gres_job_state) : Z * pick_state :=
  let socks := seq 0 (Z.to_nat (u16 (sock_cnt sg))) in
  let st := {| ps_js := js; ps_sorted := None; ps_links := None |} in
  let acc := foldl (job1_cores_step sg ns cores_on_sock pick_gres node_inx)
                   (0, st) socks in
  let acc :=
    if fst acc <? pick_gres then
      let '(picked, st) :=
        _pick_gres_topo sg ns (s32 (pick_gres - fst acc)) node_inx
          ANY_SOCK_TEST (snd acc) in
      (s32 (fst acc + picked), st)
    else acc in
  if fst acc =? 0 then
    foldl (job1_other_step sg ns cores_on_sock node_inx) acc socks
  else acc.

(** Lines 869-909: the best max_gres units with respect to link counts. *)
Definition job1_prune (ns : gres_node_state) (node_inx gres_cnt : nat)
    (max_gres : Z) (acc : gres_job_state * Z) : gres_job_state * Z :=
  let '(js, alloc_gres_cnt) := acc in
  if alloc_gres_cnt >? max_gres then
    let '(best_link_cnt, best_inx) :=
      best_link ns (bit_select_at js node_inx) gres_cnt in
    if negb (best_link_cnt =? -1) then
      prune_links ns node_inx gres_cnt best_inx
        (Z.to_nat (alloc_gres_cnt - max_gres)) acc
    else acc
  else acc.

(** Lines 787-915; returns fini and the job state. *)
Definition _set_job_bits1 (node_inx : nat) (job_node_inx rem_nodes : Z)
    (sg : sock_gres_t) (ns : gres_node_state)
    (tres_mc_ptr : option gres_mc_data) (cpus_per_core : Z)
    (cores_on_sock : list Z) (total_cores : Z) (js : gres_job_state)
    : Z * gres_job_state :=
  let fini := if gres_per_job js =? total_gres js then 1 else 0 in
  let js := if job_node_inx =? 0 then set_total_gres 0 js else js in
  let max_gres := job1_max_gres js rem_nodes tres_mc_ptr cpus_per_core total_cores in
  let gres_cnt := length (bit_select_at js node_inx) in
  let pick_gres := job1_pick_gres ns max_gres gres_cnt in
  let acc := job1_select sg ns cores_on_sock pick_gres node_inx js in
  let '(js, alloc_gres_cnt) :=
    job1_prune ns node_inx gres_cnt max_gres (ps_js (snd acc), fst acc) in
  let js := set_total_gres (u64 (total_gres js + alloc_gres_cnt)) js in
  (if total_gres js >=? gres_per_job js then 1 else fini, js).

(** Lines 966-976: the links of every unit to the units already chosen. *)
Definition seed_links (ns : gres_node_state) (sel : bitstr) (gres_cnt : nat)
    : list Z :=
  foldl (fun (lk : list Z) g =>
           if negb (bit_test sel g) then lk
           else
             foldl (fun (lk : list Z) l =>
                      if (l =? g)%nat || bit_test_opt (gres_bit_alloc ns) l then lk
                      else <[l := s32 (zget lk l + link_at ns g l)]> lk)
                   lk (seq 0 gres_cnt))
        (replicate gres_cnt 0) (seq 0 gres_cnt).

(** One turn of the loop of lines 988-994. *)
Definition job2_sock_step (sg : sock_gres_t) (ns : gres_node_state)
    (node_inx : nat) (st : pick_state) (s : nat) : pick_state :=
  let js := ps_js st in
  if negb (gres_per_job js >? total_gres js) then st
  else
    let '(picked, st) :=
      _pick_gres_topo sg ns (s32 (u64 (gres_per_job js - total_gres js)))
        node_inx (Z.of_nat s) st in
    {| ps_js := set_total_gres (u64 (total_gres (ps_js st) + picked)) (ps_js st);
       ps_sorted := ps_sorted st; ps_links := ps_links st |}.

(** Lines 928-1003; returns fini (or SLURM_ERROR, -1) and the job state. *)
Definition _set_job_bits2 (node_inx : nat) (sg : sock_gres_t)
    (ns : gres_node_state) (js : gres_job_state) : Z * gres_job_state :=
  if gres_per_job js <=? total_gres js then (1, js)
  else
    match bit_select_ptr js node_inx with
    | None => (-1, js)
    | Some sel =>
        let gres_cnt := length sel in
        let st :=
          if (gres_per_job js >? total_gres js) &&
             (link_len ns =? Z.of_nat gres_cnt)
          then
            let links := seed_links ns sel gres_cnt in
            {| ps_js := js;
               ps_sorted := Some (qsort (_compare_gres_by_links links)
                                        (seq 0 gres_cnt));
               ps_links := Some links |}
          else {| ps_js := js; ps_sorted := None; ps_links := None |} in
        let st := foldl (job2_sock_step sg ns node_inx) st
                        (seq 0 (Z.to_nat (sock_cnt sg))) in
        let js := ps_js st in
        let js :=
          if gres_per_job js >? total_gres js then
            let '(picked, st) :=
              _pick_gres_topo sg ns (s32 (u64 (gres_per_job js - total_gres js)))
                node_inx ANY_SOCK_TEST st in
            set_total_gres (u64 (total_gres (ps_js st) + picked)) (ps_js st)
          else js in
        (if gres_per_job js <=? total_gres js then 1 else 0, js)
    end.

End job_bits.

(** Determine maximum GRES allocation count on this node; no topology
    (lines 1348-1361). *)
Definition _get_job_cnt (ns : gres_node_state) (rem_node_cnt : Z)
    (js : gres_job_state) : Z :=
  let avail_gres := u64 (gres_cnt_avail ns - gres_cnt_alloc ns) in
  let max_gres := u64 (gres_per_job js - total_gres js - (rem_node_cnt - 1)) in
  MIN avail_gres max_gres.

(** Return count of GRES on this node (lines 1364-1384). *)
Definition _get_gres_node_cnt (ns : gres_node_state) : Z :=
  match gres_bit_alloc ns with
  | Some b => s32 (bit_size b)
  | None =>
      match topo_gres_bitmap ns with
      | Some (Some b :: _) => s32 (bit_size b)
      | _ =>
          foldl (fun gres_cnt i => s32 (gres_cnt + zget_opt (topo_gres_cnt_avail ns) i))
                0 (seq 0 (Z.to_nat (topo_cnt ns)))
      end
  end.

(** ** The orchestrator *)

(** The two stores as one memory. *)
Record heap := {
  h_jobs : job_store;
  h_nodes : node_store
}.

(** [select_and_set_args_t]; the three pointers to the caller's locals
    ([job_fini], [rc], [tasks_per_node_socket]) are kept as their targets.
    [job_ptr], [tres_mc_ptr] and [node_ptr], which no callee writes, are
    passed beside the record. *)
Record select_and_set_args_t := {
  job_node_inx : Z;
  job_fini : Z;
  node_inx : nat;
  rc : slurm_rc;
  rem_node_cnt : Z;
  args_sock_cnt : Z;                                  (* uint16_t *)
  tasks_per_node_socket : option (list (option (list Z)));
  used_cores_on_sock : option (list Z);
  used_core_cnt : Z;                                  (* uint32_t *)
  used_sock_cnt : Z                                   (* uint32_t *)
}.

Definition set_rc (v : slurm_rc) (a : select_and_set_args_t) : select_and_set_args_t :=
  {| job_node_inx := job_node_inx a; job_fini := job_fini a;
     node_inx := node_inx a; rc := v; rem_node_cnt := rem_node_cnt a;
     args_sock_cnt := args_sock_cnt a;
     tasks_per_node_socket := tasks_per_node_socket a;
     used_cores_on_sock := used_cores_on_sock a;
     used_core_cnt := used_core_cnt a; used_sock_cnt := used_sock_cnt a |}.

Definition set_job_fini (v : Z) (a : select_and_set_args_t) : select_and_set_args_t :=
  {| job_node_inx := job_node_inx a; job_fini := v;
     node_inx := node_inx a; rc := rc a; rem_node_cnt := rem_node_cnt a;
     args_sock_cnt := args_sock_cnt a;
     tasks_per_node_socket := tasks_per_node_socket a;
     used_cores_on_sock := used_cores_on_sock a;
     used_core_cnt := used_core_cnt a; used_sock_cnt := used_sock_cnt a |}.

Definition set_tasks_per_node_socket (v : option (list (option (list Z))))
    (a : select_and_set_args_t) : select_and_set_args_t :=
  {| job_node_inx := job_node_inx a; job_fini := job_fini a;
     node_inx := node_inx a; rc := rc a; rem_node_cnt := rem_node_cnt a;
     args_sock_cnt := args_sock_cnt a;
     tasks_per_node_socket := v;
     used_cores_on_sock := used_cores_on_sock a;
     used_core_cnt := used_core_cnt a; used_sock_cnt := used_sock_cnt a |}.

Definition set_used (sc : Z) (cores : option (list Z)) (core_cnt sock_cnt : Z)
    (a : select_and_set_args_t) : select_and_set_args_t :=
  {| job_node_inx := job_node_inx a; job_fini := job_fini a;
     node_inx := node_inx a; rc := rc a; rem_node_cnt := rem_node_cnt a;
     args_sock_cnt := sc;
     tasks_per_node_socket := tasks_per_node_socket a;
     used_cores_on_sock := cores;
     used_core_cnt := core_cnt; used_sock_cnt := sock_cnt |}.

(** [tasks_per_node_socket[node_inx]]. *)
Definition tasks_on_node (a : select_and_set_args_t) : option (list Z) :=
  match tasks_per_node_socket a with
  | Some l => default None (l !! node_inx a)
  | None => None
  end.

Definition eq_rc (a b : slurm_rc) : bool :=
  match a, b with
  | SLURM_SUCCESS, SLURM_SUCCESS | SLURM_ERROR, SLURM_ERROR
  | ESLURM_INVALID_GRES, ESLURM_INVALID_GRES
  | ESLURM_NODE_NOT_AVAIL, ESLURM_NODE_NOT_AVAIL => true
  | _, _ => false
  end.

(** The job state a record points to, when it is there. *)
Definition job_state_of (jobs : job_store) (sg : sock_gres_t)
    : option gres_job_state :=
  jobs !! gres_state_job sg ≫= gres_data.

Definition node_state_of (nodes : node_store) (sg : sock_gres_t)
    : option gres_node_state :=
  nodes !! gres_state_node sg ≫= gres_data.

(** Storing through [sock_gres->gres_state_job->gres_data]. *)
Definition store_job_state (sg : sock_gres_t) (js : gres_job_state) (h : heap)
    : heap :=
  {| h_jobs :=
       match h_jobs h !! gres_state_job sg with
       | Some gs =>
           <[gres_state_job sg :=
               {| plugin_id := plugin_id gs; config_flags := config_flags gs;
                  gres_data := Some js |}]> (h_jobs h)
       | None => h_jobs h
       end;
     h_nodes := h_nodes h |}.

Section select_and_set.
Context (E : slurm_env).
Variables (job_ptr : job_record) (job_res : job_resources)
          (tres_mc_ptr : option gres_mc_data).

(** One turn of the loop of lines 1416-1424. *)
Definition used_cnts_step (core_offset cores_per_socket_cnt : Z)
    (a : select_and_set_args_t) (socket_inx : nat) : select_and_set_args_t :=
  let begin := core_offset + Z.of_nat socket_inx * cores_per_socket_cnt in
  let core_cnt :=
    bit_set_count_range (default [] (core_bitmap job_res)) begin
      (begin + cores_per_socket_cnt) in
  let cores := default [] (used_cores_on_sock a) in
  set_used (args_sock_cnt a)
    (Some (<[socket_inx := u32 (zget cores socket_inx + core_cnt)]> cores))
    (u32 (used_core_cnt a + core_cnt))
    (if nz core_cnt then u32 (used_sock_cnt a + 1) else used_sock_cnt a) a.

(** Set array of allocated cores for each socket on this node (lines
    1387-1432). *)
Definition _set_used_cnts (a : select_and_set_args_t)
    : slurm_rc * select_and_set_args_t :=
  match get_job_resources_cnt E job_res (job_node_inx a) with
  | None => (SLURM_ERROR, a)
  | Some (sc, cores_per_socket_cnt) =>
      let a := set_used (u16 sc) (used_cores_on_sock a) (used_core_cnt a)
                 (used_sock_cnt a) a in
      let core_offset := get_job_resources_offset E job_res (job_node_inx a) in
      if core_offset <? 0 then (SLURM_ERROR, a)
      else
        let n := Z.to_nat (args_sock_cnt a) in
        let a := set_used (args_sock_cnt a) (Some (replicate n 0))
                   (used_core_cnt a) (used_sock_cnt a) a in
        let a := foldl (used_cnts_step core_offset (u16 cores_per_socket_cnt))
                       a (seq 0 n) in
        if used_sock_cnt a =? 0 then (SLURM_ERROR, a) else (SLURM_SUCCESS, a)
  end.

(** Lines 1497-1520: the count on a node without topology. *)
Definition no_topo_cnt (a : select_and_set_args_t) (ns : gres_node_state)
    (js : gres_job_state) : Z :=
  if nz (gres_per_node js) then gres_per_node js
  else if nz (gres_per_socket js) then u64 (gres_per_socket js * used_sock_cnt a)
  else if nz (gres_per_task js) then
    u64 (gres_per_task js *
         _get_task_cnt_node (tasks_on_node a)
           (tot_sockets (node_record_table_ptr E (node_inx a))))
  else if nz (gres_per_job js) then _get_job_cnt ns (rem_node_cnt a) js
  else cnt_node_select_at js (node_inx a).

(** Lines 1532-1572: the choice of the picker; returns the arguments
    (rc and job_fini may change) and the job state. *)
Definition dispatch_pick (sg : sock_gres_t) (gsj : gres_state_t gres_job_state)
    (gsn : gres_state_t gres_node_state) (ns : gres_node_state)
    (a : select_and_set_args_t) (js : gres_job_state)
    : select_and_set_args_t * gres_job_state :=
  let n := node_inx a in
  let cores := default [] (used_cores_on_sock a) in
  let enforce := nz (Z.land (bit_flags job_ptr) (GRES_ENFORCE_BIND E)) in
  if gres_id_shared E (config_flags gsj) then
    let js := _init_gres_per_bit_select js n in
    if nz (gres_per_node js) then
      let '(r, js) := _set_shared_node_bits E n sg gsn ns enforce cores js in
      (set_rc r a, js)
    else if nz (gres_per_task js) then
      let '(r, js) :=
        _set_shared_task_bits E n sg gsn ns enforce
          (nz (Z.land (bit_flags job_ptr) (GRES_ONE_TASK_PER_SHARING E)))
          (tasks_on_node a) js in
      (set_rc r a, js)
    else (set_rc ESLURM_INVALID_GRES a, js)
  else if nz (gres_per_node js) then
    (a, _set_node_bits n sg ns cores js)
  else if nz (gres_per_socket js) then
    (a, _set_sock_bits n sg ns tres_mc_ptr cores (used_sock_cnt a) js)
  else if nz (gres_per_task js) then
    (a, _set_task_bits n sg ns (tasks_on_node a) js)
  else if nz (gres_per_job js) then
    let '(tmp, js) :=
      _set_job_bits1 E n (job_node_inx a) (rem_node_cnt a) sg ns tres_mc_ptr
        (tpc (node_record_table_ptr E n)) cores (used_core_cnt a) js in
    (if negb (job_fini a =? 0) then set_job_fini tmp a else a, js)
  else (a, js).

(** Lines 1484-1495: the counters of the job state are set up; on the
    first node of the job total_gres starts again from 0. *)
Definition init_node_select (node_cnt : Z) (first_node : bool)
    (js : gres_job_state) : gres_job_state :=
  let js :=
    if total_node_cnt js =? 0
    then set_total_gres 0 (set_total_node_cnt (u32 node_cnt) js)
    else js in
  let js :=
    match gres_cnt_node_select js with
    | Some _ => js
    | None =>
        set_gres_cnt_node_select (Some (replicate (Z.to_nat node_cnt) 0)) js
    end in
  if first_node then set_total_gres 0 js else js.

(** Lines 1523-1530: a fresh bitmap and a zero count for node [n]. *)
Definition init_bit_select (node_cnt gres_cnt : Z) (n : nat)
    (js : gres_job_state) : gres_job_state :=
  let js :=
    match gres_bit_select js with
    | Some _ => js
    | None =>
        set_gres_bit_select (Some (replicate (Z.to_nat node_cnt) None)) js
    end in
  let js := write_bit_select n (Some (bit_alloc gres_cnt)) js in
  write_cnt_node_select n 0 js.

(** Lines 1573-1579. *)
Definition add_node_total (n : nat) (js : gres_job_state) : gres_job_state :=
  set_total_gres (u64 (total_gres js + cnt_node_select_at js n)) js.

(** Lines 1476-1580: what [_select_and_set_node] does once the socket
    counts are there. *)
Definition select_and_set_rest (sg : sock_gres_t)
    (gsj : gres_state_t gres_job_state) (gsn : gres_state_t gres_node_state)
    (js : gres_job_state) (ns : gres_node_state)
    (a : select_and_set_args_t) (h : heap) : select_and_set_args_t * heap :=
  let node_cnt := bit_size (default [] (node_bitmap job_res)) in
  let a :=
    if nz (gres_per_task js) && is_null (tasks_per_node_socket a)
    then set_tasks_per_node_socket
           (Some (_build_tasks_per_node_sock E job_res (overcommit job_ptr)
                    tres_mc_ptr)) a
    else a in
  let js :=
    init_node_select node_cnt
      (Z.of_nat (node_inx a) =? bit_ffs (default [] (node_bitmap job_res))) js in
  if topo_cnt ns =? 0 then
    let js := write_cnt_node_select (node_inx a) (no_topo_cnt a ns js) js in
    (a, store_job_state sg (add_node_total (node_inx a) js) h)
  else
    let js := init_bit_select node_cnt (_get_gres_node_cnt ns) (node_inx a) js in
    let '(a, js) := dispatch_pick sg gsj gsn ns a js in
    let js := if job_fini a =? -1 then add_node_total (node_inx a) js else js in
    (a, store_job_state sg js h).

(** Lines 1434-1581, the callback of list_for_each; the first component
    is its return value. *)
Definition _select_and_set_node (sg : sock_gres_t)
    (st : select_and_set_args_t * heap) : Z * (select_and_set_args_t * heap) :=
  let '(a, h) := st in
  match h_jobs h !! gres_state_job sg, h_nodes h !! gres_state_node sg with
  | Some gsj, Some gsn =>
      match gres_data gsj, gres_data gsn with
      | Some js, Some ns =>
          if (nz (gres_per_node js) || nz (gres_per_socket js) ||
              nz (gres_per_job js)) && is_null (used_cores_on_sock a)
          then
            let '(r, a) := _set_used_cnts a in
            let a := set_rc r a in
            if negb (eq_rc r SLURM_SUCCESS) then (-1, (a, h))
            else (0, select_and_set_rest sg gsj gsn js ns a h)
          else (0, select_and_set_rest sg gsj gsn js ns a h)
      | _, _ => (0, st)
      end
  | _, _ => (0, st)
  end.

(** list_for_each with [_select_and_set_node]: it stops at the first
    negative return. *)
Fixpoint select_and_set_list (l : list sock_gres_t)
    (st : select_and_set_args_t * heap) : select_and_set_args_t * heap :=
  match l with
  | [] => st
  | sg :: l' =>
      let '(ret, st) := _select_and_set_node sg st in
      if ret <? 0 then st else select_and_set_list l' st
  end.

End select_and_set.

(** Modelled from the spec: next_node_bitmap is not among the sources; the
    spec has the nodes visited in the order of the set bits of the job's
    node bitmap.  [set_bits_from b i] lists the set bits of [b], whose
    first bit has index [i]. *)
Fixpoint set_bits_from (b : bitstr) (i : nat) : list nat :=
  match b with
  | [] => []
  | true :: b' => i :: set_bits_from b' (S i)
  | false :: b' => set_bits_from b' (S i)
  end.

Definition set_bits (b : bitstr) : list nat := set_bits_from b 0.

Section select_and_set_entry.
Context (E : slurm_env).
Variables (sock_gres_list : list (list sock_gres_t))
          (job_ptr : job_record) (job_res : job_resources)
          (tres_mc_ptr : option gres_mc_data).

(** [sock_gres_list[job_node_inx]]. *)
Definition node_list (job_node_inx : Z) : list sock_gres_t :=
  if job_node_inx <? 0 then []
  else default [] (sock_gres_list !! Z.to_nat job_node_inx).

(** One turn of the loop of lines 1617-1641, on node [i]. *)
Definition node_loop_step (st : select_and_set_args_t * heap) (i : nat)
    : select_and_set_args_t * heap :=
  let '(a, h) := st in
  if negb (eq_rc (rc a) SLURM_SUCCESS) then st
  else
    let a :=
      {| job_node_inx := job_node_inx a; job_fini := job_fini a; node_inx := i;
         rc := rc a; rem_node_cnt := rem_node_cnt a; args_sock_cnt := 0;
         tasks_per_node_socket := tasks_per_node_socket a;
         used_cores_on_sock := None; used_core_cnt := 0; used_sock_cnt := 0 |} in
    let '(a, h) :=
      select_and_set_list E job_ptr job_res tres_mc_ptr
        (node_list (job_node_inx a)) (a, h) in
    ({| job_node_inx := job_node_inx a + 1; job_fini := job_fini a;
        node_inx := node_inx a; rc := rc a; rem_node_cnt := rem_node_cnt a - 1;
        args_sock_cnt := args_sock_cnt a;
        tasks_per_node_socket := tasks_per_node_socket a;
        used_cores_on_sock := None; used_core_cnt := used_core_cnt a;
        used_sock_cnt := used_sock_cnt a |}, h).

(** One turn of the loop of lines 1654-1665, on node [i]; the state is
    job_fini and the memory. *)
Definition pass2_record (i : nat) (acc : Z * heap) (sg : sock_gres_t) : Z * heap :=
  let '(fini, h) := acc in
  match job_state_of (h_jobs h) sg, node_state_of (h_nodes h) sg with
  | Some js, Some ns =>
      let '(ret, js) := _set_job_bits2 i sg ns js in
      let tmp := if nz ret then 1 else 0 in
      (if negb (fini =? 0) then tmp else fini, store_job_state sg js h)
  | _, _ => acc
  end.

(** What the second pass threads through its loop over the nodes. *)
Record pass2_state := {
  p2_job_fini : Z;
  p2_job_node_inx : Z;
  p2_heap : heap;
  p2_break : bool
}.

(** One turn of the loop of lines 1650-1669. *)
Definition pass2_node (st : pass2_state) (i : nat) : pass2_state :=
  if p2_break st then st
  else
    let job_node_inx := p2_job_node_inx st + 1 in
    let '(fini, h) :=
      foldl (pass2_record i) (-1, p2_heap st) (node_list job_node_inx) in
    {| p2_job_fini := fini; p2_job_node_inx := job_node_inx; p2_heap := h;
       p2_break := fini =? 1 |}.

(** Lines 1614-1678, past the test of line 1611. *)
Definition select_and_set_nodes (bm : bitstr) (h : heap) : slurm_rc * heap :=
  let a :=
    {| job_node_inx := 0; job_fini := -1; node_inx := 0%nat; rc := SLURM_SUCCESS;
       rem_node_cnt := bit_set_count bm; args_sock_cnt := 0;
       tasks_per_node_socket := None; used_cores_on_sock := None;
       used_core_cnt := 0; used_sock_cnt := 0 |} in
  let '(a, h) := foldl node_loop_step (a, h) (set_bits bm) in
  if job_fini a =? 0 then
    let st :=
      foldl pass2_node
        {| p2_job_fini := job_fini a; p2_job_node_inx := -1; p2_heap := h;
           p2_break := false |}
        (set_bits bm) in
    (if p2_job_fini st =? 0 then ESLURM_NODE_NOT_AVAIL else rc a, p2_heap st)
  else (rc a, h).

End select_and_set_entry.

(** Make final GRES selection for the job (lines 1590-1679). *)
Definition gres_select_filter_select_and_set (E : slurm_env)
    (sock_gres_list : list (list sock_gres_t)) (job_ptr : job_record)
    (tres_mc_ptr : option gres_mc_data) (h : heap) : slurm_rc * heap :=
  match job_resrcs job_ptr with
  | None => (SLURM_ERROR, h)
  | Some job_res =>
      match node_bitmap job_res with
      | None => (SLURM_ERROR, h)
      | Some bm =>
          select_and_set_nodes E sock_gres_list job_ptr job_res tres_mc_ptr bm h
      end
  end.

(** ** Properties kept by the pickers

    Every write a picker makes to a job state is one of [take_bit],
    [drop_bit], [shared_take] and [set_total_gres].  A property kept by
    these writes, under the tests the code makes before them, is kept by
    the pickers. *)

(** The request part of a job state, which this file only reads. *)
Definition request_of (js : gres_job_state) :=
  (gres_per_job js, gres_per_node js, gres_per_socket js, gres_per_task js,
   cpus_per_gres js, def_cpus_per_gres js, ntasks_per_gres js,
   mem_per_gres js, def_mem_per_gres js, type_id js).

Record kept_by_picks (ns : gres_node_state) (n : nat)
    (P : gres_job_state -> Prop) : Prop := {
  kept_take : forall js g,
    P js -> (g < length (bit_select_at js n))%nat ->
    bit_test (bit_select_at js n) g = false ->
    bit_test_opt (gres_bit_alloc ns) g = false -> P (take_bit n g js);
  kept_drop : forall js g,
    P js -> bit_test (bit_select_at js n) g = true -> P (drop_bit n g js);
  kept_total : forall js v,
    P js -> 0 <= v < 2 ^ 64 -> P (set_total_gres v js)
}.

(** The scratch array sorted_gres of a picker names units of the bitmap
    of node [n]. *)
Definition sorted_ok (n : nat) (st : pick_state) : Prop :=
  match ps_sorted st with
  | Some l => Forall (fun g => (g < length (bit_select_at (ps_js st) n))%nat) l
  | None => True
  end.

(** The same for everything [_select_and_set_node] writes on node [n] of
    a job of [node_cnt] nodes: the pickers' writes, a draw of the shared
    picker while what is needed satisfies [G], and the allocations and
    resets that come before the pickers. *)
Record kept_by_node (ns : gres_node_state) (n : nat) (node_cnt : Z)
    (G : Z -> Prop) (P : gres_job_state -> Prop) : Prop := {
  kn_picks : kept_by_picks ns n P;
  kn_draw : forall js t needed,
    P js -> G needed -> needed <> 0 -> (t < Z.to_nat (topo_cnt ns))%nat ->
    MIN (slot_cnt_avail ns js n t) needed <> 0 ->
    P (shared_take n t (MIN (slot_cnt_avail ns js n t) needed) js);
  kn_counters : forall js,
    P js -> G (gres_per_node js) /\ G (gres_per_task js);
  kn_node_cnt : forall js,
    P js -> total_node_cnt js = 0 -> P (set_total_node_cnt (u32 node_cnt) js);
  kn_alloc_cnt : forall js,
    P js -> gres_cnt_node_select js = None ->
    P (set_gres_cnt_node_select (Some (replicate (Z.to_nat node_cnt) 0)) js);
  kn_alloc_bits : forall js,
    P js -> gres_bit_select js = None ->
    P (set_gres_bit_select (Some (replicate (Z.to_nat node_cnt) None)) js);
  kn_alloc_per_bit : forall js,
    P js -> gres_per_bit_select js = None ->
    (total_node_cnt js = 0 -> u32 node_cnt = 0) ->
    P (set_gres_per_bit_select
         (Some (replicate (Z.to_nat (total_node_cnt js)) None)) js);
  kn_write_cnt : forall js v, P js -> P (write_cnt_node_select n v js);
  kn_write_bits : forall js b, P js -> P (write_bit_select n (Some b) js);
  kn_write_per_bit : forall js l, P js -> P (write_per_bit_select n (Some l) js)
}.

(** What identifies a job state and its request in the store. *)
Definition request_view (gs : gres_state_t gres_job_state) :=
  (plugin_id gs, config_flags gs, option_map request_of (gres_data gs)).

(** The slots a turn of the loop of lines 347-374 may look at lie below
    topo_cnt. *)
Definition index_in_range (ns : gres_node_state)
    (topo_index : option (list nat)) : Prop :=
  forall j, (j < Z.to_nat (topo_cnt ns))%nat ->
    (match topo_index with
     | Some ti => default 0%nat (ti !! j)
     | None => j
     end < Z.to_nat (topo_cnt ns))%nat.

(** What one visit of the orchestrator to record [sg] on node [n] does to
    the memory of a job of [node_cnt] nodes: nothing, or it stores back the
    record's job state after writes of the kinds listed in [kept_by_node]. *)
Inductive node_step (node_cnt : Z) (sg : sock_gres_t) (n : nat) (h h' : heap)
    : Prop :=
| node_step_skip : h' = h -> node_step node_cnt sg n h h'
| node_step_store gsj js gsn ns js' :
    h_jobs h !! gres_state_job sg = Some gsj -> gres_data gsj = Some js ->
    h_nodes h !! gres_state_node sg = Some gsn -> gres_data gsn = Some ns ->
    h' = store_job_state sg js' h ->
    (forall G P, kept_by_node ns n node_cnt G P -> (forall x, G (u64 x)) ->
                 P js -> P js') ->
    node_step node_cnt sg n h h'.

(** The part of a [sock_gres_t] the filter only reads. *)
Definition static_of (sg : sock_gres_t) :=
  (gres_state_job sg, gres_state_node sg, sock_cnt sg, bits_by_sock sg,
   bits_any_sock sg).

(** ** Statements about the pickers *)

(** The unit picker adds to the selection of node [n] only units that are
    not allocated. *)
Definition only_free_added (ns : gres_node_state) (n : nat)
    (js js' : gres_job_state) : Prop :=
  forall g, bit_test (bit_select_at js' n) g = true ->
    bit_test (bit_select_at js n) g = true \/
    bit_test_opt (gres_bit_alloc ns) g = false.

(** The sentence "fini is 1 exactly when total_gres has reached
    gres_per_job at the return", to be compared with the code. *)
Definition fini_iff_total_reached (E : slurm_env) (node_inx : nat)
    (job_node_inx rem_nodes : Z) (sg : sock_gres_t) (ns : gres_node_state)
    (tres_mc_ptr : option gres_mc_data) (cpus_per_core : Z)
    (cores_on_sock : list Z) (total_cores : Z) (js : gres_job_state) : Prop :=
  let r := _set_job_bits1 E node_inx job_node_inx rem_nodes sg ns tres_mc_ptr
             cpus_per_core cores_on_sock total_cores js in
  fst r = 1 <-> gres_per_job (snd r) <= total_gres (snd r).

(** The slots of the job state for node [n] are there to be written. *)
Definition has_bit_slot (js : gres_job_state) (n : nat) : Prop :=
  exists l, gres_bit_select js = Some l /\ (n < length l)%nat.

Definition has_cnt_slot (js : gres_job_state) (n : nat) : Prop :=
  exists l, gres_cnt_node_select js = Some l /\ (n < length l)%nat.

Definition has_per_bit_slot (js : gres_job_state) (n : nat) : Prop :=
  exists l, gres_per_bit_select js = Some l /\ (n < length l)%nat.

(** ** Worked inputs *)

(** An environment with the sentinels of slurm.h, one sharing kind (plugin
    id 1), the shared flag on bit 3 of config_flags, two sockets of two
    cores on every node and no scheduling parameter set. *)
Definition env0 : slurm_env :=
  {| NO_VAL := 0xfffffffe; NO_VAL16 := 0xfffe; NO_VAL64 := 0xfffffffffffffffe;
     gres_id_sharing := fun id => id =? 1;
     gres_id_shared := fun flags => nz (Z.land flags 8);
     gres_use_busy_dev := fun gs =>
       nz (Z.land (config_flags gs) 8) &&
       match gres_data gs with
       | Some ns => nz (gres_cnt_alloc ns)
       | None => false
       end;
     select_type_param := 0;
     LL_SHARED_GRES := 1; MULTIPLE_SHARING_GRES_PJ := 2;
     GRES_ENFORCE_BIND := 1; GRES_ONE_TASK_PER_SHARING := 2;
     node_record_table_ptr := fun _ => {| tpc := 1; tot_sockets := 2 |};
     get_job_resources_cnt := fun _ _ => Some (2, 2);
     get_job_resources_offset := fun _ i => 4 * i;
     _build_tasks_per_node_sock := fun _ _ _ => [] |}.

(** The same with LL_SHARED_GRES set. *)
Definition env_ll : slurm_env :=
  {| NO_VAL := NO_VAL env0; NO_VAL16 := NO_VAL16 env0; NO_VAL64 := NO_VAL64 env0;
     gres_id_sharing := gres_id_sharing env0;
     gres_id_shared := gres_id_shared env0;
     gres_use_busy_dev := gres_use_busy_dev env0;
     select_type_param := 1;
     LL_SHARED_GRES := 1; MULTIPLE_SHARING_GRES_PJ := 2;
     GRES_ENFORCE_BIND := 1; GRES_ONE_TASK_PER_SHARING := 2;
     node_record_table_ptr := node_record_table_ptr env0;
     get_job_resources_cnt := get_job_resources_cnt env0;
     get_job_resources_offset := get_job_resources_offset env0;
     _build_tasks_per_node_sock := _build_tasks_per_node_sock env0 |}.

(** A request with the four counters given and nothing selected yet. *)
Definition request (per_job per_node per_socket per_task : Z) : gres_job_state :=
  {| gres_per_job := per_job; gres_per_node := per_node;
     gres_per_socket := per_socket; gres_per_task := per_task;
     cpus_per_gres := 0; def_cpus_per_gres := 0; ntasks_per_gres := 0;
     mem_per_gres := 0; def_mem_per_gres := 0; type_id := 0; total_gres := 0;
     total_node_cnt := 0; gres_cnt_node_select := None; gres_bit_select := None;
     gres_per_bit_select := None |}.

(** A job state with outputs for one node: [sel] selected, counted [cnt],
    and total_gres [total]. *)
Definition on_one_node (per_job per_node total : Z) (sel : bitstr) (cnt : Z)
    (per_bit : list Z) : gres_job_state :=
  {| gres_per_job := per_job; gres_per_node := per_node;
     gres_per_socket := 0; gres_per_task := 0;
     cpus_per_gres := 0; def_cpus_per_gres := 0; ntasks_per_gres := 0;
     mem_per_gres := 0; def_mem_per_gres := 0; type_id := 0; total_gres := total;
     total_node_cnt := 1; gres_cnt_node_select := Some [cnt];
     gres_bit_select := Some [Some sel];
     gres_per_bit_select := Some [Some per_bit] |}.

Definition job_entry (id flags : Z) (js : gres_job_state)
    : gres_state_t gres_job_state :=
  {| plugin_id := id; config_flags := flags; gres_data := Some js |}.

Definition node_entry (id flags : Z) (ns : gres_node_state)
    : gres_state_t gres_node_state :=
  {| plugin_id := id; config_flags := flags; gres_data := Some ns |}.

(** A record for job state [j] and node state [k] with [total] usable
    units, [by_sock] of them by socket. *)
Definition sock_gres (j k : nat) (total : Z) (by_sock : option (list Z))
    (bits : option (list (option bitstr))) : sock_gres_t :=
  {| gres_state_job := j; gres_state_node := k; total_cnt := total;
     max_node_gres := 0; sock_cnt := 2; cnt_by_sock := by_sock;
     bits_by_sock := bits; bits_any_sock := None |}.

(** A node with the units of [alloc], no links, and the topology slots
    given by their capacities and uses. *)
Definition node_state (cnt_avail cnt_alloc : Z) (alloc : bitstr)
    (slot_avail slot_alloc : list Z) : gres_node_state :=
  {| gres_cnt_avail := cnt_avail; gres_cnt_alloc := cnt_alloc;
     gres_bit_alloc := Some alloc;
     topo_cnt := Z.of_nat (length slot_avail);
     topo_gres_cnt_avail := Some slot_avail;
     topo_gres_cnt_alloc := Some slot_alloc;
     topo_gres_bitmap := None; topo_type_id := map (fun _ => 0) slot_avail;
     link_len := 0; links_cnt := [] |}.

(** Two sockets, four units with two on each socket, socket 0 without an
    available core, binding enforced, three units per node requested. *)
Definition bound_request : sock_gres_t :=
  sock_gres 0 0 4 (Some [2; 2])
    (Some [Some [true; true; false; false]; Some [false; false; true; true]]).

Definition bound_jobs : job_store := [job_entry 1 0 (request 0 3 0 0)].

(** A sharing kind with four usable units and two per node requested. *)
Definition capped_request : sock_gres_t := sock_gres 0 0 4 None None.

Definition capped_jobs : job_store := [job_entry 1 0 (request 0 2 0 0)].

(** A shared device with one slot of four shares, one of them in use. *)
Definition busy_slot : gres_node_state := node_state 4 1 [true] [4] [1].

Definition busy_slot_request : sock_gres_t :=
  sock_gres 0 0 3 (Some [3; 0]) (Some [Some [true]; None]).

(** The state of a per-job request of two units whose total_gres, before
    the selection starts, already says two. *)
Definition stale_total : gres_job_state :=
  on_one_node 2 0 2 [false; false] 0 [].

Definition two_units : gres_node_state := node_state 2 0 [false; false] [1; 1] [0; 0].

Definition two_units_request : sock_gres_t :=
  sock_gres 0 0 2 (Some [2; 0]) (Some [Some [true; true]; None]).

(** What the filter returns on [bound_request]. *)
Definition bound_rejected : filter_result :=
  {| f_rc := -1;
     f_list := [set_max_node_gres 3
                  (set_cnt_by_sock (Some [0; 2]) (set_total_cnt 2 bound_request))];
     f_avail_gpus := 0; f_near_gpus := 0 |}.

(** What the filter returns on [capped_request]. *)
Definition capped_passed : filter_result :=
  {| f_rc := 0; f_list := [set_max_node_gres 2 capped_request];
     f_avail_gpus := 4; f_near_gpus := 2 |}.

(** A job record without resources. *)
Definition job_without_resources : job_record :=
  {| job_id := 1; job_resrcs := None; bit_flags := 0; overcommit := 0 |}.

Definition empty_heap : heap := {| h_jobs := []; h_nodes := [] |}.

(** ** The counts of a selection *)

(** The sum over the topology slots of gres_per_bit_select[n]. *)
Definition slot_sum (ns : gres_node_state) (js : gres_job_state) (n : nat) : Z :=
  zsum (map (zget (per_bit_select_at js n)) (seq 0 (Z.to_nat (topo_cnt ns)))).

(** The sentence about the outputs of one kind on node [n]: the set bits
    of gres_bit_select[n] for a non-shared kind, the shares of
    gres_per_bit_select[n] for a shared one, add up to
    gres_cnt_node_select[n]. *)
Definition counts_agree (shared : bool) (ns : gres_node_state)
    (js : gres_job_state) (n : nat) : Prop :=
  if shared then slot_sum ns js n = cnt_node_select_at js n
  else bit_set_count (bit_select_at js n) = cnt_node_select_at js n.

(** The same, with the shared kinds that also carry a gres_per_job left
    out. *)
Definition counts_agree_without_per_job (shared : bool) (ns : gres_node_state)
    (js : gres_job_state) (n : nat) : Prop :=
  if shared then gres_per_job js = 0 -> slot_sum ns js n = cnt_node_select_at js n
  else bit_set_count (bit_select_at js n) = cnt_node_select_at js n.

(** [C] of every record with topology of every node of the allocation:
    the [j]-th set bit of the node bitmap is node [n], whose records are
    sock_gres_list[j]. *)
Definition selection_counts
    (C : bool -> gres_node_state -> gres_job_state -> nat -> Prop)
    (E : slurm_env) (sock_gres_list : list (list sock_gres_t)) (bm : bitstr)
    (h : heap) : Prop :=
  forall j n lst sg gsj js ns,
    set_bits bm !! j = Some n -> sock_gres_list !! j = Some lst -> sg ∈ lst ->
    h_jobs h !! gres_state_job sg = Some gsj -> gres_data gsj = Some js ->
    node_state_of (h_nodes h) sg = Some ns -> topo_cnt ns <> 0 ->
    C (gres_id_shared E (config_flags gsj)) ns js n.

(** A job state as the selection may find it in a job of [node_cnt] nodes:
    unsigned counters, and output arrays that, when they are there, have an
    entry for every node. *)
Definition job_state_ok (node_cnt : nat) (js : gres_job_state) : Prop :=
  0 <= total_gres js /\ 0 <= gres_per_node js /\ 0 <= gres_per_task js /\
  (total_node_cnt js = 0 \/ Z.of_nat node_cnt <= total_node_cnt js) /\
  (forall l, gres_cnt_node_select js = Some l -> (node_cnt <= length l)%nat) /\
  (forall l, gres_bit_select js = Some l -> (node_cnt <= length l)%nat) /\
  (forall l, gres_per_bit_select js = Some l -> (node_cnt <= length l)%nat).

(** What slot [t] of a shared device has left. *)
Definition slot_room (ns : gres_node_state) (t : nat) : Z :=
  zget_opt (topo_gres_cnt_avail ns) t - zget_opt (topo_gres_cnt_alloc ns) t.

(** The node state of a shared kind: no slot is used beyond its capacity,
    the free shares of the node fit a uint64_t, and every slot has a bit. *)
Definition shares_ok (ns : gres_node_state) : Prop :=
  (forall t, (t < Z.to_nat (topo_cnt ns))%nat ->
     0 <= zget_opt (topo_gres_cnt_alloc ns) t <= zget_opt (topo_gres_cnt_avail ns) t /\
     zget_opt (topo_gres_cnt_avail ns) t < 2 ^ 64) /\
  zsum (map (slot_room ns) (seq 0 (Z.to_nat (topo_cnt ns)))) < 2 ^ 64 /\
  topo_cnt ns <= _get_gres_node_cnt ns.

(** The input of a selection for a job of [node_cnt] nodes: the job states
    are as above, a node's list has one record for a job state, and the
    node states of the shared kinds are as above. *)
Definition selection_input_ok (E : slurm_env)
    (sock_gres_list : list (list sock_gres_t)) (node_cnt : nat) (h : heap)
    : Prop :=
  Z.of_nat node_cnt < 2 ^ 32 /\
  (forall gsj js, gsj ∈ h_jobs h -> gres_data gsj = Some js ->
                  job_state_ok node_cnt js) /\
  (forall lst, lst ∈ sock_gres_list -> NoDup (gres_state_job <$> lst)) /\
  (forall lst sg gsj ns,
     lst ∈ sock_gres_list -> sg ∈ lst ->
     h_jobs h !! gres_state_job sg = Some gsj ->
     gres_id_shared E (config_flags gsj) = true ->
     node_state_of (h_nodes h) sg = Some ns -> shares_ok ns).

(** What the visit of a record with topology on node [n] leaves for a
    non-shared kind: the slots of node [n] are there and the bits are
    counted. *)
Definition bits_counted (js : gres_job_state) (n : nat) : Prop :=
  has_bit_slot js n /\ has_cnt_slot js n /\
  Z.of_nat (length (bit_select_at js n)) < 2 ^ 64 /\
  bit_set_count (bit_select_at js n) = cnt_node_select_at js n.

(** What the shared picker keeps while it draws on node [n]: the slots of
    node [n] are there, no slot is drawn beyond its room, and the shares
    are counted. *)
Definition shares_counted (ns : gres_node_state) (js : gres_job_state)
    (n : nat) : Prop :=
  has_cnt_slot js n /\ has_per_bit_slot js n /\
  (Z.to_nat (topo_cnt ns) <= length (per_bit_select_at js n))%nat /\
  (forall t, (t < Z.to_nat (topo_cnt ns))%nat ->
     0 <= zget (per_bit_select_at js n) t <= slot_room ns t) /\
  slot_sum ns js n = cnt_node_select_at js n /\
  0 <= gres_per_task js.

(** The outputs of node [n] and the request, which a visit to another
    node leaves alone; the slots of node [n] stay where they are. *)
Definition node_view (js : gres_job_state) (n : nat) :=
  (bit_select_ptr js n, cnt_node_select_at js n, per_bit_select_at js n,
   request_of js).

Definition view_kept (n : nat) (js0 js : gres_job_state) : Prop :=
  node_view js n = node_view js0 n /\
  (has_bit_slot js0 n -> has_bit_slot js n) /\
  (has_cnt_slot js0 n -> has_cnt_slot js n).

(** What a visited record has on node [n]. *)
Definition visited_ok (shared : bool) (ns : gres_node_state)
    (js : gres_job_state) (n : nat) : Prop :=
  if shared then gres_per_job js = 0 -> slot_sum ns js n = cnt_node_select_at js n
  else bits_counted js n.

(** The same on the memory, for the job state and the node state of
    record [sg]. *)
Definition record_ok (E : slurm_env) (h : heap) (sg : sock_gres_t) (n : nat)
    : Prop :=
  forall gsj js ns,
    h_jobs h !! gres_state_job sg = Some gsj -> gres_data gsj = Some js ->
    node_state_of (h_nodes h) sg = Some ns -> topo_cnt ns <> 0 ->
    visited_ok (gres_id_shared E (config_flags gsj)) ns js n.

Definition jobs_ok (node_cnt : nat) (h : heap) : Prop :=
  forall j gsj js,
    h_jobs h !! j = Some gsj -> gres_data gsj = Some js ->
    job_state_ok node_cnt js.

(** What the selection keeps of the memory [h0] it started from, once the
    pairs of [D] have been visited. *)
Definition selection_inv (E : slurm_env) (node_cnt : nat) (h0 : heap)
    (D : sock_gres_t -> nat -> Prop) (h : heap) : Prop :=
  jobs_ok node_cnt h /\ h_nodes h = h_nodes h0 /\
  request_view <$> (h_jobs h) = request_view <$> (h_jobs h0) /\
  forall sg n, D sg n -> record_ok E h sg n.

(** The records of the first [k] nodes of the allocation, each with its
    node. *)
Definition visited (sock_gres_list : list (list sock_gres_t))
    (nodes : list nat) (k : nat) (sg : sock_gres_t) (n : nat) : Prop :=
  exists j lst,
    (j < k)%nat /\ nodes !! j = Some n /\ sock_gres_list !! j = Some lst /\
    sg ∈ lst.

(** ** Worked inputs of a selection *)

(** One node with a shared device of two slots of four shares and two
    units of another kind, one on each socket; the job asks for one share
    per node and two in all, and for two units of the other kind. *)
Definition two_slots : gres_node_state :=
  node_state 8 0 [false; false] [4; 4] [0; 0].

Definition shares_request : sock_gres_t :=
  sock_gres 0 0 8 (Some [8; 0]) (Some [Some [true; true]; None]).

Definition units_request : sock_gres_t :=
  sock_gres 1 1 2 (Some [1; 1])
    (Some [Some [true; false]; Some [false; true]]).

Definition mixed_job : job_record :=
  {| job_id := 1;
     job_resrcs := Some {| node_bitmap := Some [true];
                           core_bitmap := Some [true; true; false; false];
                           tasks_per_node := None |};
     bit_flags := 0; overcommit := 0 |}.

Definition mixed_heap : heap :=
  {| h_jobs := [job_entry 2 8 (request 2 1 0 0); job_entry 1 0 (request 2 0 0 0)];
     h_nodes := [node_entry 2 8 two_slots; node_entry 1 0 two_units] |}.

(** What the selection leaves in [mixed_heap]: the second pass has added
    a bit to the shared kind and counted it. *)
Definition mixed_selected : heap :=
  {| h_jobs :=
       [job_entry 2 8
          {| gres_per_job := 2; gres_per_node := 1; gres_per_socket := 0;
             gres_per_task := 0; cpus_per_gres := 0; def_cpus_per_gres := 0;
             ntasks_per_gres := 0; mem_per_gres := 0; def_mem_per_gres := 0;
             type_id := 0; total_gres := 2; total_node_cnt := 1;
             gres_cnt_node_select := Some [2];
             gres_bit_select := Some [Some [true; true]];
             gres_per_bit_select := Some [Some [1; 0]] |};
        job_entry 1 0
          {| gres_per_job := 2; gres_per_node := 0; gres_per_socket := 0;
             gres_per_task := 0; cpus_per_gres := 0; def_cpus_per_gres := 0;
             ntasks_per_gres := 0; mem_per_gres := 0; def_mem_per_gres := 0;
             type_id := 0; total_gres := 2; total_node_cnt := 1;
             gres_cnt_node_select := Some [2];
             gres_bit_select := Some [Some [true; true]];
             gres_per_bit_select := None |}];
     h_nodes := h_nodes mixed_heap |}.

(** ** The least-loaded order *)

(** The quantity the specification orders the slots by. *)
Definition slot_ratio (ns : gres_node_state) (t : nat) : Z :=
  let avail := zget_opt (topo_gres_cnt_avail ns) t in
  if avail =? 0 then 0
  else (avail - zget_opt (topo_gres_cnt_alloc ns) t) * gres_cnt_avail ns / avail.

(** No slot is used beyond its capacity and the products fit in the
    int64_t the code computes them in. *)
Definition slot_bounds (ns : gres_node_state) : Prop :=
  0 <= gres_cnt_avail ns /\
  forall t, (t < Z.to_nat (topo_cnt ns))%nat ->
    0 <= zget_opt (topo_gres_cnt_alloc ns) t <= zget_opt (topo_gres_cnt_avail ns) t /\
    zget_opt (topo_gres_cnt_avail ns) t < 2 ^ 63 /\
    (zget_opt (topo_gres_cnt_avail ns) t - zget_opt (topo_gres_cnt_alloc ns) t)
      * gres_cnt_avail ns < 2 ^ 63.

(** The loop of lines 347-374 as a visit of the slots of [order], in that
    order. *)
Definition draw_in_order (sg : sock_gres_t) (ns : gres_node_state)
    (use_busy_dev use_single_dev no_repeat : bool) (node_inx : nat)
    (socket_index : Z) (order : list nat) (st : gres_job_state * Z)
    : gres_job_state * Z :=
  match sock_bits_of sg socket_index with
  | None => st
  | Some sock_bits =>
      match topo_gres_cnt_alloc ns, topo_gres_cnt_avail ns with
      | Some _, Some _ =>
          foldl (shared_slot_visit ns use_busy_dev use_single_dev no_repeat
                   node_inx sock_bits) st order
      | _, _ => st
      end
  end.

(** A pass of [_pick_shared_gres] over the sockets whose use is
    [want_used], visiting the slots of [order]. *)
Definition sock_pass_in_order (sg : sock_gres_t) (ns : gres_node_state)
    (used_sock : list Z) (want_used : bool)
    (use_busy_dev use_single_dev no_repeat : bool) (node_inx : nat)
    (order : list nat) (st : gres_job_state * Z) : gres_job_state * Z :=
  foldl (fun (st : gres_job_state * Z) s =>
           if snd st =? 0 then st
           else if Bool.eqb (nz (zget used_sock s)) want_used then
             draw_in_order sg ns use_busy_dev use_single_dev no_repeat node_inx
               (Z.of_nat s) order st
           else st)
        st (seq 0 (Z.to_nat (sock_cnt sg))).

(** The three passes of [_pick_shared_gres], visiting the slots of
    [order]. *)
Definition pick_shared_in_order (sg : sock_gres_t) (ns : gres_node_state)
    (used_sock : list Z) (node_inx : nat)
    (use_busy_dev use_single_dev no_repeat enforce_binding : bool)
    (order : list nat) (st : gres_job_state * Z) : gres_job_state * Z :=
  let st := sock_pass_in_order sg ns used_sock true use_busy_dev use_single_dev
              no_repeat node_inx order st in
  let st :=
    if nz (snd st) then
      draw_in_order sg ns use_busy_dev use_single_dev no_repeat node_inx
        ANY_SOCK_TEST order st
    else st in
  if negb enforce_binding then
    sock_pass_in_order sg ns used_sock false use_busy_dev use_single_dev
      no_repeat node_inx order st
  else st.

(** The scenario of the specification: two slots of ten shares on one
    socket, five and two of them in use, one share per node requested. *)
Definition ll_node : gres_node_state := node_state 20 7 [true; true] [10; 10] [5; 2].

Definition ll_request : sock_gres_t :=
  sock_gres 0 0 11 (Some [11; 0]) (Some [Some [true; true]; None]).

Definition ll_resources : job_resources :=
  {| node_bitmap := Some [true];
     core_bitmap := Some [true; false; false; false];
     tasks_per_node := None |}.

Definition ll_job : job_record :=
  {| job_id := 1; job_resrcs := Some ll_resources;
     bit_flags := 0; overcommit := 0 |}.

Definition ll_heap : heap :=
  {| h_jobs := [job_entry 2 8 (request 0 1 0 0)];
     h_nodes := [node_entry 2 8 ll_node] |}.

(** What the selection leaves in [ll_heap]: one share from slot 1. *)
Definition ll_selected : gres_job_state :=
  {| gres_per_job := 0; gres_per_node := 1; gres_per_socket := 0;
     gres_per_task := 0; cpus_per_gres := 0; def_cpus_per_gres := 0;
     ntasks_per_gres := 0; mem_per_gres := 0; def_mem_per_gres := 0;
     type_id := 0; total_gres := 1; total_node_cnt := 1;
     gres_cnt_node_select := Some [1];
     gres_bit_select := Some [Some [false; true]];
     gres_per_bit_select := Some [Some [0; 1]] |}.

(** ** The tests of the shared picker *)

(** The tests of lines 349-352 and 358 on slot [t]: the type of the slot
    is the one asked for, the device is busy when a busy device is wanted,
    and the slot is on the socket bitmap. *)
Definition slot_eligible (ns : gres_node_state) (use_busy_dev : bool)
    (sock_bits : bitstr) (js : gres_job_state) (t : nat) : bool :=
  negb (nz (type_id js) && negb (type_id js =? zget (topo_type_id ns) t)) &&
  negb (use_busy_dev && (zget_opt (topo_gres_cnt_alloc ns) t =? 0)) &&
  bit_test sock_bits t.

(** Slot [t] of node [n] has another share count or another bit in [js']
    than in [js]. *)
Definition drawn_from (n : nat) (js js' : gres_job_state) (t : nat) : Prop :=
  zget (per_bit_select_at js' n) t <> zget (per_bit_select_at js n) t \/
  bit_test (bit_select_at js' n) t <> bit_test (bit_select_at js n) t.

(** ** The units of a socket *)

(** Every unit selected on node [n] in [js'] was selected in [js], or is
    on the bitmap [sock_bits] and not allocated. *)
Definition picked_on (ns : gres_node_state) (sock_bits : bitstr) (n : nat)
    (js js' : gres_job_state) : Prop :=
  forall g, bit_test (bit_select_at js' n) g = true ->
    bit_test (bit_select_at js n) g = true \/
    (bit_test sock_bits g = true /\ bit_test_opt (gres_bit_alloc ns) g = false).

(** The tasks of a node by socket, added up over the first [sock_cnt]
    sockets. *)
Definition tasks_on_sockets (tps : list Z) (sock_cnt : Z) : Z :=
  zsum (map (zget tps) (seq 0 (Z.to_nat sock_cnt))).

(** The requests lines 1532-1572 hand over to [_set_job_bits1]: of a kind
    that is not shared, with a count per job and no count per node, socket
    or task. *)
Definition picks_by_job (E : slurm_env) (gs : gres_state_t gres_job_state)
    (js : gres_job_state) : bool :=
  negb (gres_id_shared E (config_flags gs)) &&
  negb (nz (gres_per_node js)) && negb (nz (gres_per_socket js)) &&
  negb (nz (gres_per_task js)) && nz (gres_per_job js).

(** No request in the memory is of these. *)
Definition none_by_job (E : slurm_env) (jobs : job_store) : Prop :=
  forall gs js, gs ∈ jobs -> gres_data gs = Some js -> picks_by_job E gs js = false.

(** The job states lines 1557-1561 call [_set_job_bits1] on, for node [n]
    visited as the [job_node_inx]-th of the job: the bitmap of the node is
    the fresh one of lines 1523-1530, of a size that is an int and counted
    0; gres_per_job is not 0 (line 1557); total_gres is 0 on the first node
    of the job (lines 1494-1495), and has room for the units of the node. *)
Definition handed_to_job_bits1 (n : nat) (job_node_inx : Z)
    (js : gres_job_state) : Prop :=
  bits_counted js n /\ cnt_node_select_at js n = 0 /\
  Z.of_nat (length (bit_select_at js n)) < 2 ^ 31 /\
  gres_per_job js <> 0 /\
  (job_node_inx = 0 -> total_gres js = 0) /\
  0 <= total_gres js /\
  total_gres js + Z.of_nat (length (bit_select_at js n)) < 2 ^ 64.

(** ** Worked inputs of the pickers *)

(** The request [r] with outputs for one node: [sel] selected, counted
    [cnt], the shares [per_bit], and total_gres [total]. *)
Definition on_node (r : gres_job_state) (total : Z) (sel : bitstr) (cnt : Z)
    (per_bit : list Z) : gres_job_state :=
  {| gres_per_job := gres_per_job r; gres_per_node := gres_per_node r;
     gres_per_socket := gres_per_socket r; gres_per_task := gres_per_task r;
     cpus_per_gres := cpus_per_gres r; def_cpus_per_gres := def_cpus_per_gres r;
     ntasks_per_gres := ntasks_per_gres r; mem_per_gres := mem_per_gres r;
     def_mem_per_gres := def_mem_per_gres r; type_id := type_id r;
     total_gres := total; total_node_cnt := 1;
     gres_cnt_node_select := Some [cnt];
     gres_bit_select := Some [Some sel];
     gres_per_bit_select := Some [Some per_bit] |}.

(** A picker's state without link counts. *)
Definition no_links (js : gres_job_state) : pick_state :=
  {| ps_js := js; ps_sorted := None; ps_links := None |}.

(** Two units, both on socket 0, the first one allocated. *)
Definition one_taken : gres_node_state :=
  node_state 2 1 [true; false] [1; 1] [1; 0].

(** One core in use on each of the two sockets of node 0. *)
Definition two_socket_resources : job_resources :=
  {| node_bitmap := Some [true];
     core_bitmap := Some [true; false; false; true];
     tasks_per_node := None |}.

(** The arguments of a visit before the socket counts are set. *)
Definition first_visit : select_and_set_args_t :=
  {| job_node_inx := 0; job_fini := -1; node_inx := 0%nat; rc := SLURM_SUCCESS;
     rem_node_cnt := 1; args_sock_cnt := 0; tasks_per_node_socket := None;
     used_cores_on_sock := None; used_core_cnt := 0; used_sock_cnt := 0 |}.

(** Two units on socket 0, each with three links to the other. *)
Definition linked_units : gres_node_state :=
  {| gres_cnt_avail := 2; gres_cnt_alloc := 0;
     gres_bit_alloc := Some [false; false]; topo_cnt := 2;
     topo_gres_cnt_avail := Some [1; 1]; topo_gres_cnt_alloc := Some [0; 0];
     topo_gres_bitmap := None; topo_type_id := [0; 0];
     link_len := 2; links_cnt := [[0; 3]; [3; 0]] |}.

(** Two sockets in use, counted as two, where three are requested. *)
Definition two_of_three : used_socks :=
  {| us_used_sock := [3; 1]; us_used_sock_cnt := 2; us_break := false |}.

(** [bound_request] as the filter leaves it for a job that asks for two
    units per node, socket 0 being without an available core. *)
Definition bound_pruned : sock_gres_t :=
  set_max_node_gres 2
    (set_cnt_by_sock (Some [0; 2]) (set_total_cnt 2 bound_request)).

(** A job that asks for two units per node, each with one CPU and three
    units of memory. *)
Definition costly_request : gres_job_state :=
  {| gres_per_job := 0; gres_per_node := 2; gres_per_socket := 0;
     gres_per_task := 0; cpus_per_gres := 1; def_cpus_per_gres := 0;
     ntasks_per_gres := 0; mem_per_gres := 3; def_mem_per_gres := 0;
     type_id := 0; total_gres := 0; total_node_cnt := 0;
     gres_cnt_node_select := None; gres_bit_select := None;
     gres_per_bit_select := None |}.

Definition costly_jobs : job_store := [job_entry 1 0 costly_request].

(** [capped_request] as the filter leaves it for that job with ten units
    of memory and three cores. *)
Definition costly_passed : sock_gres_t :=
  set_total_cnt 3 (set_max_node_gres 2 capped_request).

(** A node with two units and no topology, and the memory of a job that
    asks for two units per node on it. *)
Definition flat_node : gres_node_state := node_state 2 0 [false; false] [] [].

Definition flat_heap : heap :=
  {| h_jobs := [job_entry 1 0 (request 0 2 0 0)];
     h_nodes := [node_entry 1 0 flat_node] |}.

(** The arguments of a visit once the socket counts are set. *)
Definition later_visit : select_and_set_args_t :=
  {| job_node_inx := 0; job_fini := -1; node_inx := 0%nat; rc := SLURM_SUCCESS;
     rem_node_cnt := 1; args_sock_cnt := 2; tasks_per_node_socket := None;
     used_cores_on_sock := Some [1; 1]; used_core_cnt := 2; used_sock_cnt := 2 |}.

(** * Properties *)

(** ** Machine arithmetic *)

Lemma u64_small x : 0 <= x < 2 ^ 64 -> u64 x = x.
Proof. intros H. unfold u64. apply Z.mod_small. exact H. Qed.

Lemma u16_small x : 0 <= x < 2 ^ 16 -> u16 x = x.
Proof. intros H. unfold u16. apply Z.mod_small. exact H. Qed.

Lemma u64_range x : 0 <= u64 x < 2 ^ 64.
Proof. unfold u64. apply Z.mod_pos_bound. lia. Qed.

Lemma MAX_max a b : MAX a b = Z.max a b.
Proof. unfold MAX. destruct (Z.gtb_spec a b); lia. Qed.

Lemma MIN_min a b : MIN a b = Z.min a b.
Proof. unfold MIN. destruct (Z.ltb_spec a b); lia. Qed.

Lemma nz_true x : nz x = true <-> x <> 0.
Proof. unfold nz. destruct (Z.eqb_spec x 0); simpl; split; congruence. Qed.

Lemma nz_false x : nz x = false <-> x = 0.
Proof. unfold nz. destruct (Z.eqb_spec x 0); simpl; split; congruence. Qed.

(** ** The feasibility filter *)

Section remove_unusable_props.
Context (E : slurm_env) (jobs : job_store).
Variables (avail_mem max_cpus : Z) (enforce_binding : bool)
          (core_bitmap : bitstr)
          (sockets cores_per_sock cpus_per_core : Z)
          (sock_per_node task_per_node cpus_per_task : Z)
          (whole_node : bool).

Local Abbreviation examine_ :=
  (examine E avail_mem max_cpus enforce_binding core_bitmap sockets
     cores_per_sock cpus_per_core sock_per_node task_per_node cpus_per_task
     whole_node).
Local Abbreviation filter_loop_ :=
  (filter_loop E jobs avail_mem max_cpus enforce_binding core_bitmap sockets
     cores_per_sock cpus_per_core sock_per_node task_per_node cpus_per_task
     whole_node).
Local Abbreviation min_gres_of_ := (min_gres_of E sock_per_node task_per_node whole_node).
Local Abbreviation min_gres_spec_ := (min_gres_spec E sock_per_node task_per_node whole_node).
Local Abbreviation passes := (passes E jobs avail_mem max_cpus enforce_binding core_bitmap
  sockets cores_per_sock cpus_per_core sock_per_node task_per_node cpus_per_task whole_node).
Local Abbreviation rejects := (rejects E jobs avail_mem max_cpus enforce_binding core_bitmap
  sockets cores_per_sock cpus_per_core sock_per_node task_per_node cpus_per_task whole_node).

Lemma min_gres_of_spec sg js : min_gres_of_ sg js = min_gres_spec_ sg js.
Proof.
  unfold min_gres_of, min_gres_spec, nz.
  destruct (gres_per_node js =? 0), (gres_per_socket js =? 0), (gres_per_task js =? 0),
    (sock_per_node =? NO_VAL E), (task_per_node =? NO_VAL16 E);
    simpl; rewrite ?MAX_max; reflexivity.
Qed.

Lemma passes_not_below sg sg' js gs :
  jobs !! gres_state_job sg = Some gs -> gres_data gs = Some js ->
  passes sg sg' -> below_min sg' (min_gres_of_ sg js) = false.
Proof.
  intros Hgs Hjs (gs' & js' & n & Hgs' & Hjs' & Hex).
  assert (gs' = gs) by congruence; subst gs'.
  assert (js' = js) by congruence; subst js'.
  unfold examine in Hex.
  repeat case_match; try discriminate.
  all: inversion Hex; subst; assumption.
Qed.

(** The shape of every run of the loop: either all requests pass, or the
    requests up to some point pass, the next one is rejected and the rest
    of the list is left as it was. *)
Lemma filter_loop_shape l a n r :
  filter_loop_ l a n = Some r ->
  (f_rc r = 0 /\ Forall2 passes l (f_list r)) \/
  (f_rc r = -1 /\
   exists l1 out1 sg sg' l2,
     l = l1 ++ sg :: l2 /\ f_list r = out1 ++ sg' :: l2 /\
     Forall2 passes l1 out1 /\ rejects sg sg').
Proof.
  revert a n r. induction l as [|sg l IH]; intros a n r H; simpl in H.
  - inversion H; subst; simpl. left. split; [reflexivity | constructor].
  - destruct (jobs !! gres_state_job sg) as [gs|] eqn:Hgs; simpl in H; [|discriminate].
    destruct (gres_data gs) as [js|] eqn:Hjs; simpl in H; [|discriminate].
    destruct (examine_ sg js) as [sg'|sg' nn] eqn:Hex.
    + inversion H; subst; simpl. right. split; [reflexivity|].
      exists [], [], sg, sg', l. repeat split; try constructor.
      exists gs, js. auto.
    + destruct (if gres_id_sharing E (plugin_id gs) then _ else _) as [a' n'].
      destruct (filter_loop_ l a' n') as [r'|] eqn:Hr; simpl in H; [|discriminate].
      inversion H; subst; simpl. clear H.
      assert (Hp : passes sg sg') by (exists gs, js, nn; auto).
      destruct (IH _ _ _ Hr) as [[Hrc Hall] | [Hrc (l1 & out1 & x & x' & l2 & -> & Hout & Hall & Hrej)]].
      * left. split; [assumption | constructor; assumption].
      * right. split; [assumption|].
        exists (sg :: l1), (sg' :: out1), x, x', l2.
        rewrite Hout. repeat split; try assumption. constructor; assumption.
Qed.

Lemma filter_loop_total l a n :
  Forall (has_job_state jobs) l -> is_Some (filter_loop_ l a n).
Proof.
  revert a n. induction l as [|sg l IH]; intros a n Hl; simpl.
  - eauto.
  - inversion Hl as [|? ? Hsg Hl']; subst.
    destruct Hsg as [js Hjs]. unfold has_job_state in *.
    destruct (jobs !! gres_state_job sg) as [gs|]; simpl in *; [|discriminate].
    rewrite Hjs. simpl.
    destruct (examine_ sg js); [eauto|].
    destruct (if gres_id_sharing E (plugin_id gs) then _ else _) as [a' n'].
    destruct (IH a' n' Hl') as [r' ->]. simpl. eauto.
Qed.

Local Abbreviation remove_unusable_ l cb :=
  (gres_select_filter_remove_unusable E jobs l avail_mem max_cpus
     enforce_binding cb sockets cores_per_sock cpus_per_core sock_per_node
     task_per_node cpus_per_task whole_node).

Lemma remove_unusable_loop l r :
  remove_unusable_ (Some l) (Some core_bitmap) = Some r ->
  filter_loop_ l 0 0 = Some r.
Proof.
  destruct l as [|sg l]; simpl; intros H; [|exact H].
  inversion H; reflexivity.
Qed.

(** C3: for every request the filter examines, min_gres is the maximum of
    the node term (total_cnt under whole_node, else gres_per_node, else 1),
    gres_per_socket times sock_per_node and gres_per_task times
    task_per_node, a zero counter giving no term and a sentinel no
    multiplication; and the filter returns -1 whenever the record it leaves
    has total_cnt below min_gres, or max_node_gres nonzero and below
    min_gres. *)
Theorem remove_unusable_min_gres_reject (l : list sock_gres_t) :
  Forall (has_job_state jobs) l ->
  exists r,
    remove_unusable_ (Some l) (Some core_bitmap) = Some r /\
    forall k sg sg' gs js,
      l !! k = Some sg -> f_list r !! k = Some sg' ->
      jobs !! gres_state_job sg = Some gs -> gres_data gs = Some js ->
      min_gres_of_ sg js = min_gres_spec_ sg js /\
      (total_cnt sg' < min_gres_spec_ sg js \/
       (max_node_gres sg' <> 0 /\ max_node_gres sg' < min_gres_spec_ sg js) ->
       f_rc r = -1).
Proof.
  intros Hl.
  destruct (filter_loop_total l 0 0 Hl) as [r Hr].
  exists r. split.
  { destruct l; [|exact Hr]. simpl in *. exact Hr. }
  intros k sg sg' gs js Hk Hk' Hgs Hjs.
  split; [apply min_gres_of_spec|].
  intros Hbelow.
  destruct (filter_loop_shape _ _ _ _ Hr) as [[Hrc Hall] | [Hrc _]]; [|exact Hrc].
  exfalso.
  pose proof (Forall2_lookup_lr _ _ _ _ _ _ Hall Hk Hk') as Hp.
  pose proof (passes_not_below _ _ _ _ Hgs Hjs Hp) as Hnb.
  rewrite min_gres_of_spec in Hnb. unfold below_min in Hnb.
  apply orb_false_iff in Hnb as [H1 H2].
  apply Z.ltb_ge in H1.
  destruct Hbelow as [Hb | [Hb1 Hb2]]; [lia|].
  apply andb_false_iff in H2 as [H2 | H2].
  - apply negb_false_iff, Z.eqb_eq in H2. contradiction.
  - apply Z.ltb_ge in H2. lia.
Qed.

(** C4, amended: when the filter returns -1 the scan has stopped at the
    first request it rejects; the requests after it hold the values they
    had at entry, the requests before it hold what their turn of the loop
    gave them. *)
Theorem remove_unusable_reject_stops (l : list sock_gres_t) (r : filter_result) :
  remove_unusable_ (Some l) (Some core_bitmap) = Some r ->
  f_rc r = -1 ->
  exists k sg sg',
    l !! k = Some sg /\ f_list r !! k = Some sg' /\ rejects sg sg' /\
    drop (S k) (f_list r) = drop (S k) l /\
    Forall2 passes (take k l) (take k (f_list r)).
Proof.
  intros Hr Hrc. apply remove_unusable_loop in Hr.
  destruct (filter_loop_shape _ _ _ _ Hr)
    as [[Hrc' _] | [_ (l1 & out1 & sg & sg' & l2 & -> & Hout & Hall & Hrej)]];
    [congruence|].
  pose proof (Forall2_length _ _ _ Hall) as Hlen.
  exists (length l1), sg, sg'. rewrite Hout.
  repeat split.
  - rewrite lookup_app_r by lia. replace (length l1 - length l1)%nat with 0%nat by lia.
    reflexivity.
  - rewrite lookup_app_r by lia. replace (length l1 - length out1)%nat with 0%nat by lia.
    reflexivity.
  - exact Hrej.
  - rewrite !drop_app_ge by (simpl; lia).
    replace (S (length l1) - length out1)%nat with 1%nat by lia.
    replace (S (length l1) - length l1)%nat with 1%nat by lia.
    reflexivity.
  - rewrite take_app_length. rewrite Hlen, take_app_length. exact Hall.
Qed.

(** C9: with a NULL core_bitmap, a NULL list or an empty list the filter
    returns 0 with both counters 0 and leaves every record as it was. *)
Theorem remove_unusable_nothing_to_do (l : option (list sock_gres_t))
    (cb : option bitstr) :
  cb = None \/ l = None \/ l = Some [] ->
  remove_unusable_ l cb =
    Some {| f_rc := 0; f_list := default [] l; f_avail_gpus := 0;
            f_near_gpus := 0 |}.
Proof.
  intros [-> | [-> | ->]]; simpl.
  - reflexivity.
  - destruct cb; reflexivity.
  - destruct cb; reflexivity.
Qed.

(** *** The near count *)

Lemma zsum_nonneg (c : list Z) : Forall (fun x => 0 <= x) c -> 0 <= zsum c.
Proof. induction 1; simpl; lia. Qed.

Lemma zget_nonneg (c : list Z) s : Forall (fun x => 0 <= x) c -> 0 <= zget c s.
Proof.
  intros Hc. unfold zget. destruct (c !! s) as [x|] eqn:Hx; simpl; [|lia].
  exact (Forall_lookup_1 _ _ _ _ Hc Hx).
Qed.

Local Abbreviation core_ := (sock_has_core core_bitmap sockets cores_per_sock).

Local Abbreviation unavail_part := (unavail_part core_bitmap sockets cores_per_sock).

Lemma unavail_part_bounds (c : list Z) a n :
  Forall (fun x => 0 <= x) c ->
  0 <= unavail_part c a n <= zsum (drop a c).
Proof.
  intros Hc. unfold unavail_part. revert a.
  induction n as [|n IH]; intros a; simpl.
  - split; [lia|]. apply zsum_nonneg, Forall_drop, Hc.
  - specialize (IH (S a)).
    pose proof (zget_nonneg c a Hc) as Hg.
    assert (Hd : zsum (drop a c) = zget c a + zsum (drop (S a) c)).
    { unfold zget. destruct (c !! a) as [x|] eqn:Hx; simpl.
      - rewrite (drop_S _ _ _ Hx). reflexivity.
      - apply lookup_ge_None in Hx. rewrite !drop_ge by lia. reflexivity. }
    destruct (core_ a); lia.
Qed.

Lemma unavail_part_insert (c : list Z) a b n x :
  (b < a)%nat -> unavail_part (<[b := x]> c) a n = unavail_part c a n.
Proof.
  intros Hb. unfold unavail_part. f_equal. apply map_ext_in.
  intros s Hs. apply in_seq in Hs.
  unfold zget. rewrite list_lookup_insert_ne by lia. reflexivity.
Qed.

Lemma prune_fold_total n : forall a sg c,
  cnt_by_sock sg = Some c -> Forall (fun x => 0 <= x) c ->
  unavail_part c a n <= total_cnt sg < 2 ^ 64 ->
  total_cnt (foldl (prune_sock core_bitmap sockets cores_per_sock) sg (seq a n))
    = total_cnt sg - unavail_part c a n /\
  max_node_gres (foldl (prune_sock core_bitmap sockets cores_per_sock) sg (seq a n))
    = max_node_gres sg.
Proof.
  induction n as [|n IH]; intros a sg c Hc Hnn Hb.
  - unfold unavail_part. simpl. split; [lia | reflexivity].
  - assert (Hs : unavail_part c a (S n) =
                 (if core_ a then 0 else zget c a) + unavail_part c (S a) n)
      by reflexivity.
    rewrite Hs in *.
    pose proof (unavail_part_bounds c (S a) n Hnn) as [Hu _].
    pose proof (zget_nonneg c a Hnn) as Hg.
    cbn [seq foldl].
    unfold prune_sock at 2 4. destruct (core_ a) eqn:Hcore.
    + destruct (IH (S a) sg c Hc Hnn) as [IH1 IH2]; [lia|].
      split; [lia | exact IH2].
    + rewrite Hc. unfold zget_opt. simpl. rewrite ?Hc. simpl.
      set (sg1 := set_cnt_by_sock _ _).
      specialize (IH (S a) sg1 (<[a := 0]> c) eq_refl).
      rewrite unavail_part_insert in IH by lia.
      assert (Ht : total_cnt sg1 = total_cnt sg - zget c a).
      { subst sg1. simpl. apply u64_small. lia. }
      destruct IH as [IH1 IH2].
      * apply Forall_insert; [assumption | lia].
      * lia.
      * split; [lia | exact IH2].
Qed.

Lemma near_fold_total n : forall a sg c t,
  cnt_by_sock sg = Some c -> Forall (fun x => 0 <= x) c ->
  unavail_part c a n <= t < 2 ^ 64 ->
  foldl (near_sock core_bitmap sockets cores_per_sock sg) t (seq a n) =
  t - unavail_part c a n.
Proof.
  induction n as [|n IH]; intros a sg c t Hc Hnn Hb.
  - unfold unavail_part. simpl. lia.
  - assert (Hs : unavail_part c a (S n) =
                 (if core_ a then 0 else zget c a) + unavail_part c (S a) n)
      by reflexivity.
    rewrite Hs in *.
    pose proof (unavail_part_bounds c (S a) n Hnn) as [Hu _].
    pose proof (zget_nonneg c a Hnn) as Hg.
    cbn [seq foldl].
    unfold near_sock at 2. rewrite Hc. unfold zget_opt. simpl.
    destruct (core_ a) eqn:Hcore.
    + rewrite (IH _ _ c) by (assumption || lia). lia.
    + rewrite u64_small by lia.
      rewrite (IH _ _ c) by (assumption || lia). lia.
Qed.

Lemma post_prune_bounds sg :
  sock_gres_ok sg ->
  0 <= post_prune_cnt core_bitmap sockets cores_per_sock sg <= total_cnt sg.
Proof.
  intros (Hnn & Hsum & Ht & _). unfold post_prune_cnt, unavail_cnt.
  destruct (cnt_by_sock sg) as [c|] eqn:Hc; simpl in *; [|lia].
  pose proof (unavail_part_bounds c 0 (Z.to_nat sockets) Hnn) as Hu.
  rewrite drop_0 in Hu. unfold unavail_part in Hu.
  unfold zget_opt. simpl. lia.
Qed.

Lemma bind_gres_near sg sg2 near :
  sock_gres_ok sg ->
  bind_gres enforce_binding core_bitmap sockets cores_per_sock sg = (sg2, near) ->
  near = post_prune_cnt core_bitmap sockets cores_per_sock sg /\
  max_node_gres sg2 = max_node_gres sg.
Proof.
  intros Hok Hb. pose proof Hok as (Hnn & Hsum & Ht & _).
  pose proof (post_prune_bounds sg Hok) as Hpp.
  unfold bind_gres in Hb. unfold post_prune_cnt, unavail_cnt in *.
  destruct (cnt_by_sock sg) as [c|] eqn:Hc; simpl in *.
  - unfold zget_opt in *. simpl in *.
    fold (unavail_part c 0 (Z.to_nat sockets)) in *.
    destruct enforce_binding.
    + inversion Hb; subst.
      destruct (prune_fold_total (Z.to_nat sockets) 0 sg c Hc Hnn) as [H1 H2]; [lia|].
      split; assumption.
    + inversion Hb; subst. split; [|reflexivity].
      apply (near_fold_total _ _ _ c); [assumption | assumption | lia].
  - inversion Hb; subst. split; reflexivity.
Qed.

Lemma set_max_node_gres_nonneg sg val b sg' :
  0 <= val -> 0 <= max_node_gres sg ->
  _set_max_node_gres sg val = (b, sg') -> 0 <= max_node_gres sg'.
Proof.
  unfold _set_max_node_gres. intros Hv Hm H.
  destruct (nz val && _); inversion H; subst; simpl; assumption.
Qed.

Lemma examine_passed_near sg js sg' near :
  0 <= avail_mem -> sock_gres_ok sg ->
  0 <= gres_per_node js -> 0 <= gres_per_job js ->
  0 <= mem_per_gres js -> 0 <= def_mem_per_gres js ->
  examine_ sg js = Passed sg' near ->
  near = post_prune_cnt core_bitmap sockets cores_per_sock sg /\
  0 <= max_node_gres sg'.
Proof.
  intros Hmem Hok Hpn Hpj Hm1 Hm2 Hex.
  unfold examine in Hex.
  destruct (insufficient_cpus _ _ _); [discriminate|].
  set (mpg := mem_per_gres_of js) in *.
  assert (Hmpg : 0 <= mpg).
  { subst mpg. unfold mem_per_gres_of. destruct (nz _); assumption. }
  destruct (mem_tracked E avail_mem mpg && _); [discriminate|].
  set (sg1 := if mem_tracked E avail_mem mpg then _ else sg) in *.
  assert (Hok1 : sock_gres_ok sg1 /\
                 post_prune_cnt core_bitmap sockets cores_per_sock sg1 =
                 post_prune_cnt core_bitmap sockets cores_per_sock sg).
  { subst sg1. destruct (mem_tracked E avail_mem mpg) eqn:Hmt; [|split; auto].
    split; [|reflexivity].
    destruct Hok as (H1 & H2 & H3 & H4). repeat split; simpl; try assumption; try lia.
    apply Z.div_pos; [assumption|].
    unfold mem_tracked in Hmt. apply andb_true_iff in Hmt as [Hmt _].
    apply nz_true in Hmt. lia. }
  destruct Hok1 as [Hok1 Hpp].
  destruct (bind_gres _ _ _ _ sg1) as [sg2 near2] eqn:Hb.
  destruct (bind_gres_near _ _ _ Hok1 Hb) as [Hn Hm].
  assert (H2 : 0 <= max_node_gres sg2).
  { rewrite Hm. destruct Hok1 as (_ & _ & _ & ?). assumption. }
  set (sg3 := node_or_job_cap whole_node sg2 js) in *.
  assert (H3 : 0 <= max_node_gres sg3).
  { subst sg3. unfold node_or_job_cap. destruct whole_node; [assumption|].
    destruct (_set_max_node_gres sg2 (gres_per_node js)) as [b sga] eqn:Ha.
    pose proof (set_max_node_gres_nonneg _ _ _ _ Hpn H2 Ha) as H2a.
    destruct b; [assumption|].
    destruct (_set_max_node_gres sga (gres_per_job js)) as [b' sgb] eqn:Hbb.
    simpl. exact (set_max_node_gres_nonneg _ _ _ _ Hpj H2a Hbb). }
  destruct (cpu_cap _ _ _ _ sg3 js _) as [sg4|] eqn:Hc; [|discriminate].
  assert (H4 : 0 <= max_node_gres sg4).
  { unfold cpu_cap in Hc.
    repeat case_match; try discriminate; inversion Hc; subst; simpl;
      try assumption; apply u64_range. }
  set (sg5 := mem_cap E avail_mem sg4 mpg) in *.
  assert (H5 : max_node_gres sg5 = max_node_gres sg4).
  { subst sg5. unfold mem_cap. destruct (mem_tracked _ _ _); reflexivity. }
  destruct (below_min sg5 _); [discriminate|].
  inversion Hex; subst. split; [congruence | lia].
Qed.

Lemma add_near_min n x :
  0 <= n <= 255 -> 0 <= x < 2 ^ 64 - 255 ->
  add_near n x = Z.min 255 (n + x).
Proof.
  intros Hn Hx. unfold add_near.
  rewrite u64_small by lia.
  destruct (Z.ltb_spec (n + x) 255); [|lia].
  rewrite u16_small by lia. lia.
Qed.

Lemma filter_loop_near l : forall a n r,
  0 <= avail_mem ->
  Forall sock_gres_ok l -> Forall (job_counters_ok jobs) l ->
  filter_loop_ l a n = Some r -> f_rc r = 0 -> 0 <= n <= 255 ->
  0 <= near_capped_sum E jobs core_bitmap sockets cores_per_sock l (f_list r) /\
  f_near_gpus r =
    Z.min 255 (n + near_capped_sum E jobs core_bitmap sockets cores_per_sock
                     l (f_list r)).
Proof.
  induction l as [|sg l IH]; intros a n r Hmem Hok Hjc H Hrc Hn; simpl in H.
  - inversion H; subst; simpl. lia.
  - inversion Hok as [|? ? Hok1 Hok']; subst.
    inversion Hjc as [|? ? Hjc1 Hjc']; subst.
    destruct (jobs !! gres_state_job sg) as [gs|] eqn:Hgs; simpl in H; [|discriminate].
    destruct (gres_data gs) as [js|] eqn:Hjs; simpl in H; [|discriminate].
    destruct (Hjc1 gs js Hgs Hjs) as (Hc1 & Hc2 & Hc3 & Hc4).
    destruct (examine_ sg js) as [sg'|sg' nn] eqn:Hex.
    { inversion H; subst; simpl in Hrc. discriminate. }
    destruct (examine_passed_near _ _ _ _ Hmem Hok1 Hc1 Hc2 Hc3 Hc4 Hex) as [Hnn Hm].
    pose proof (post_prune_bounds sg Hok1) as Hpp.
    destruct Hok1 as (_ & _ & Ht & _).
    assert (Hcap : near_for sg' nn =
                   near_capped core_bitmap sockets cores_per_sock sg sg').
    { unfold near_for, near_capped. rewrite Hnn. reflexivity. }
    assert (Hcb : 0 <= near_capped core_bitmap sockets cores_per_sock sg sg'
                  < 2 ^ 64 - 255).
    { unfold near_capped.
      destruct (nz (max_node_gres sg') && _) eqn:Hcmp; [|lia].
      apply andb_true_iff in Hcmp as [_ Hlt]. apply Z.ltb_lt in Hlt. lia. }
    destruct (gres_id_sharing E (plugin_id gs)) eqn:Hsh.
    + destruct (filter_loop_ l _ _) as [r'|] eqn:Hr; simpl in H; [|discriminate].
      inversion H; subst; simpl in *. clear H.
      unfold is_sharing. rewrite Hgs, Hsh.
      rewrite Hcap in Hr. rewrite add_near_min in Hr by lia.
      destruct (IH _ _ _ Hmem Hok' Hjc' Hr Hrc) as [IH1 IH2]; [lia|].
      split; [lia|]. rewrite IH2. lia.
    + destruct (filter_loop_ l _ _) as [r'|] eqn:Hr; simpl in H; [|discriminate].
      inversion H; subst; simpl in *. clear H.
      unfold is_sharing. rewrite Hgs, Hsh.
      destruct (IH _ _ _ Hmem Hok' Hjc' Hr Hrc Hn) as [IH1 IH2].
      split; [lia|]. rewrite IH2. reflexivity.
Qed.

(** C5, amended: on a feasible return near_gpus is the sum, saturated at
    255, over the sharing requests of the post-binding-prune count capped
    by the record's max_node_gres when that is set. *)
Theorem remove_unusable_near_gpus (l : list sock_gres_t) (r : filter_result) :
  0 <= avail_mem ->
  Forall sock_gres_ok l -> Forall (job_counters_ok jobs) l ->
  remove_unusable_ (Some l) (Some core_bitmap) = Some r ->
  f_rc r = 0 ->
  f_near_gpus r =
    Z.min 255 (near_capped_sum E jobs core_bitmap sockets cores_per_sock
                 l (f_list r)).
Proof.
  intros Hmem Hok Hjc Hr Hrc. apply remove_unusable_loop in Hr.
  destruct (filter_loop_near _ _ _ _ Hmem Hok Hjc Hr Hrc) as [_ H]; [lia|].
  rewrite H. reflexivity.
Qed.

End remove_unusable_props.

(** ** Sorting *)

Lemma qsort_insert_perm {A} (cmp : A -> A -> Z) x l :
  Permutation (qsort_insert cmp x l) (x :: l).
Proof.
  induction l as [|y l IH]; simpl; [reflexivity|].
  destruct (cmp x y <=? 0); [reflexivity|].
  rewrite IH. apply perm_swap.
Qed.

Lemma qsort_perm {A} (cmp : A -> A -> Z) l : Permutation (qsort cmp l) l.
Proof.
  induction l as [|x l IH]; simpl; [reflexivity|].
  rewrite qsort_insert_perm. constructor. exact IH.
Qed.

Lemma qsort_length {A} (cmp : A -> A -> Z) l : length (qsort cmp l) = length l.
Proof. apply Permutation_length, qsort_perm. Qed.

(** ** Reading after writing *)

Lemma bit_select_at_write n b js :
  has_bit_slot js n -> bit_select_at (write_bit_select n (Some b) js) n = b.
Proof.
  intros (l & Hl & Hn). unfold bit_select_at, bit_select_ptr, write_bit_select.
  simpl. rewrite Hl. simpl. rewrite list_lookup_insert_eq by exact Hn. reflexivity.
Qed.

Lemma bit_select_at_write_or n b js :
  bit_select_at (write_bit_select n (Some b) js) n = b \/
  bit_select_at (write_bit_select n (Some b) js) n = bit_select_at js n.
Proof.
  unfold bit_select_at, bit_select_ptr, write_bit_select. simpl.
  destruct (gres_bit_select js) as [l|]; simpl; [|right; reflexivity].
  destruct (decide (n < length l)%nat) as [Hn|Hn].
  - left. rewrite list_lookup_insert_eq by exact Hn. reflexivity.
  - right. rewrite list_insert_ge by lia. reflexivity.
Qed.

Lemma bit_select_ptr_write_ne n m b js :
  m <> n -> bit_select_ptr (write_bit_select n b js) m = bit_select_ptr js m.
Proof.
  intros Hm. unfold bit_select_ptr, write_bit_select. simpl.
  destruct (gres_bit_select js) as [l|]; simpl; [|reflexivity].
  rewrite list_lookup_insert_ne by congruence. reflexivity.
Qed.

Lemma bit_select_at_write_ne n m b js :
  m <> n -> bit_select_at (write_bit_select n b js) m = bit_select_at js m.
Proof.
  intros Hm. unfold bit_select_at. rewrite bit_select_ptr_write_ne by exact Hm.
  reflexivity.
Qed.

Lemma cnt_at_write n v js :
  has_cnt_slot js n -> cnt_node_select_at (write_cnt_node_select n v js) n = v.
Proof.
  intros (l & Hl & Hn). unfold cnt_node_select_at, write_cnt_node_select, zget_opt, zget.
  simpl. rewrite Hl. simpl. rewrite list_lookup_insert_eq by exact Hn. reflexivity.
Qed.

Lemma cnt_at_write_ne n m v js :
  m <> n -> cnt_node_select_at (write_cnt_node_select n v js) m
            = cnt_node_select_at js m.
Proof.
  intros Hm. unfold cnt_node_select_at, write_cnt_node_select, zget_opt, zget.
  simpl. destruct (gres_cnt_node_select js) as [l|]; simpl; [|reflexivity].
  rewrite list_lookup_insert_ne by congruence. reflexivity.
Qed.

Lemma per_bit_at_write n v js :
  has_per_bit_slot js n ->
  per_bit_select_at (write_per_bit_select n (Some v) js) n = v.
Proof.
  intros (l & Hl & Hn). unfold per_bit_select_at, write_per_bit_select.
  simpl. rewrite Hl. simpl. rewrite list_lookup_insert_eq by exact Hn. reflexivity.
Qed.

Lemma per_bit_at_write_ne n m v js :
  m <> n -> per_bit_select_at (write_per_bit_select n v js) m
            = per_bit_select_at js m.
Proof.
  intros Hm. unfold per_bit_select_at, write_per_bit_select. simpl.
  destruct (gres_per_bit_select js) as [l|]; simpl; [|reflexivity].
  rewrite list_lookup_insert_ne by congruence. reflexivity.
Qed.

Lemma bit_test_set b g x :
  bit_test (bit_set b g) x = true -> x = g \/ bit_test b x = true.
Proof.
  unfold bit_test, bit_set. intros H.
  destruct (decide (x = g)) as [->|Hx]; [left; reflexivity|].
  right. rewrite list_lookup_insert_ne in H by congruence. exact H.
Qed.

Lemma bit_test_clear b g x :
  bit_test (bit_clear b g) x = true -> bit_test b x = true.
Proof.
  unfold bit_test, bit_clear. intros H.
  destruct (decide (x = g)) as [->|Hx].
  - destruct (decide (g < length b)%nat) as [Hg|Hg].
    + rewrite list_lookup_insert_eq in H by exact Hg. discriminate.
    + rewrite list_insert_ge in H by lia. exact H.
  - rewrite list_lookup_insert_ne in H by congruence. exact H.
Qed.

Lemma take_bit_select n g js :
  bit_select_at (take_bit n g js) n = bit_set (bit_select_at js n) g \/
  bit_select_at (take_bit n g js) n = bit_select_at js n.
Proof. unfold take_bit. apply bit_select_at_write_or. Qed.

Lemma drop_bit_select n g js :
  bit_select_at (drop_bit n g js) n = bit_clear (bit_select_at js n) g \/
  bit_select_at (drop_bit n g js) n = bit_select_at js n.
Proof. unfold drop_bit. apply bit_select_at_write_or. Qed.

Lemma take_bit_length n g js :
  length (bit_select_at (take_bit n g js) n) = length (bit_select_at js n).
Proof.
  destruct (take_bit_select n g js) as [H|H]; rewrite H; [|reflexivity].
  unfold bit_set. apply length_insert.
Qed.

(** ** The pickers keep what their writes keep *)

Lemma foldl_inv {A B} (I : A -> Prop) (f : A -> B -> A) (l : list B) (a : A) :
  I a -> (forall a b, I a -> I (f a b)) -> I (foldl f a l).
Proof.
  intros Ha Hf. revert a Ha. induction l as [|b l IH]; intros a Ha; simpl; auto.
Qed.

Section picks_kept.
Context (ns : gres_node_state) (n : nat) (P : gres_job_state -> Prop).
Hypothesis HP : kept_by_picks ns n P.

(** What the loops of the pickers keep: [P] of the job state, and a
    sorted_gres that names units of the bitmap. *)
Local Abbreviation keeps_st st := (P (ps_js st) /\ sorted_ok n st).
Local Abbreviation keeps acc := (P (ps_js (snd acc)) /\ sorted_ok n (snd acc)).

Lemma next_free_free sock_bits js sorted_gres k : forall i j g,
  next_free sock_bits ns js n sorted_gres i k = Some (j, g) ->
  unit_free sock_bits ns js n g = true /\
  g = unit_at sorted_gres j /\ (i <= j < i + k)%nat.
Proof.
  induction k as [|k IH]; intros i j g H; simpl in H; [discriminate|].
  destruct (unit_free sock_bits ns js n (unit_at sorted_gres i)) eqn:Hf.
  - inversion H; subst. split; [exact Hf|]. split; [reflexivity | lia].
  - apply IH in H as (H1 & H2 & H3). split; [exact H1|]. split; [exact H2 | lia].
Qed.

Lemma unit_free_tests sock_bits js g :
  unit_free sock_bits ns js n g = true ->
  bit_test sock_bits g = true /\
  bit_test (bit_select_at js n) g = false /\
  bit_test_opt (gres_bit_alloc ns) g = false.
Proof.
  unfold unit_free. intros H.
  apply andb_true_iff in H as [H1 H2].
  apply negb_true_iff, orb_false_iff in H2 as [H2 H3]. auto.
Qed.

Lemma unit_at_range st j :
  sorted_ok n st -> (j < length (bit_select_at (ps_js st) n))%nat ->
  (unit_at (ps_sorted st) j < length (bit_select_at (ps_js st) n))%nat.
Proof.
  unfold sorted_ok, unit_at. intros Hs Hj.
  destruct (ps_sorted st) as [l|]; [|exact Hj].
  destruct (l !! j) as [g|] eqn:Hg; simpl; [|lia].
  rewrite Forall_forall in Hs. apply Hs.
  eapply list_elem_of_lookup_2. exact Hg.
Qed.

Lemma take_unit_js gres_cnt st i g :
  ps_js (fst (take_unit ns n gres_cnt st i g)) = take_bit n g (ps_js st).
Proof.
  unfold take_unit.
  destruct (ps_links st), (ps_sorted st); simpl; reflexivity.
Qed.

Lemma take_unit_sorted gres_cnt st i g :
  sorted_ok n st -> sorted_ok n (fst (take_unit ns n gres_cnt st i g)).
Proof.
  unfold sorted_ok, take_unit. intros Hs.
  destruct (ps_links st) as [lk|], (ps_sorted st) as [l|]; simpl;
    rewrite ?take_bit_length; try exact Hs.
  rewrite qsort_perm. exact Hs.
Qed.

Lemma pick_loop_kept sock_bits k : forall i st,
  keeps_st st ->
  keeps_st (fst (pick_loop sock_bits ns n
                   (length (bit_select_at (ps_js st) n)) k i st)).
Proof.
  induction k as [|k IH]; intros i st Hst; simpl; [exact Hst|].
  destruct (next_free _ _ _ _ _ _ _) as [[j g]|] eqn:Hn; [|exact Hst].
  apply next_free_free in Hn as (Hf & Hg & Hj).
  apply unit_free_tests in Hf as (_ & H2 & H3).
  pose proof (take_unit_js (length (bit_select_at (ps_js st) n)) st j g) as Hjs.
  pose proof (take_unit_sorted (length (bit_select_at (ps_js st) n)) st j g
                (proj2 Hst)) as Hso.
  destruct (take_unit ns n _ st j g) as [st' i'] eqn:Ht. simpl in Hjs, Hso.
  replace (length (bit_select_at (ps_js st) n))
    with (length (bit_select_at (ps_js st') n))
    by (rewrite Hjs; apply take_bit_length).
  apply IH. split; [|exact Hso].
  rewrite Hjs. apply (kept_take _ _ _ HP); [exact (proj1 Hst) | | exact H2 | exact H3].
  subst g. apply unit_at_range; [exact (proj2 Hst) | lia].
Qed.

Lemma pick_gres_topo_kept sg gres_needed socket_index st :
  keeps_st st ->
  keeps_st (snd (_pick_gres_topo sg ns gres_needed n socket_index st)).
Proof.
  intros Hst. unfold _pick_gres_topo.
  destruct (sock_bits_of sg socket_index) as [sb|]; [|exact Hst].
  pose proof (pick_loop_kept sb (Z.to_nat (u64 gres_needed)) 0 st Hst) as H.
  destruct (pick_loop _ _ _ _ _ _ _) as [st' k']. exact H.
Qed.

Lemma pick_pair_kept sg gres_needed socket_index st picked st' :
  _pick_gres_topo sg ns gres_needed n socket_index st = (picked, st') ->
  keeps_st st -> keeps_st st'.
Proof.
  intros H Hst.
  pose proof (pick_gres_topo_kept sg gres_needed socket_index st Hst) as H'.
  rewrite H in H'. exact H'.
Qed.

Lemma node_sock_step_kept sg used_sock want_used one acc s :
  keeps acc -> keeps (node_sock_step sg ns used_sock want_used one n acc s).
Proof.
  destruct acc as [needed st]. unfold node_sock_step. simpl. intros Hst.
  destruct (needed =? 0); [exact Hst|].
  destruct (Bool.eqb _ _); [|exact Hst].
  destruct (_pick_gres_topo _ _ _ _ _ _) as [p st'] eqn:Hp. simpl.
  eapply pick_pair_kept; eassumption.
Qed.

Lemma node_any_step_kept sg one acc :
  keeps acc -> keeps (node_any_step sg ns one n acc).
Proof.
  destruct acc as [needed st]. unfold node_any_step. simpl. intros Hst.
  destruct (needed =? 0); [exact Hst|].
  destruct (_pick_gres_topo _ _ _ _ _ _) as [p st'] eqn:Hp. simpl.
  eapply pick_pair_kept; eassumption.
Qed.

Lemma init_pick_state_js js : ps_js (init_pick_state ns js n) = js.
Proof. unfold init_pick_state. destruct (_ =? _); reflexivity. Qed.

Lemma init_pick_state_kept js : P js -> keeps_st (init_pick_state ns js n).
Proof.
  intros Hjs. split; [rewrite init_pick_state_js; exact Hjs|].
  unfold sorted_ok, init_pick_state. destruct (_ =? _); simpl; [|exact I].
  apply Forall_forall. intros g Hg. apply elem_of_seq in Hg. lia.
Qed.

Lemma set_node_bits_kept sg used_sock js :
  P js -> P (_set_node_bits n sg ns used_sock js).
Proof.
  intros Hjs. unfold _set_node_bits.
  apply (foldl_inv (fun acc => keeps acc)); [|intros; apply node_sock_step_kept; assumption].
  apply node_any_step_kept.
  apply (foldl_inv (fun acc => keeps acc)); [|intros; apply node_sock_step_kept; assumption].
  apply node_any_step_kept.
  apply (foldl_inv (fun acc => keeps acc)); [|intros; apply node_sock_step_kept; assumption].
  simpl. apply init_pick_state_kept. exact Hjs.
Qed.

Lemma sock_bits_step_kept sg used_sock st s :
  keeps_st st -> keeps_st (sock_bits_step sg ns used_sock n st s).
Proof.
  intros Hst. unfold sock_bits_step.
  destruct (negb _); [exact Hst|].
  destruct (_pick_gres_topo _ _ _ _ _ _) as [p st'] eqn:Hp.
  pose proof (pick_pair_kept _ _ _ _ _ _ Hp Hst) as Hst'.
  destruct (nz _); [|exact Hst'].
  apply pick_gres_topo_kept. exact Hst'.
Qed.

Lemma set_sock_bits_kept sg tres_mc_ptr used_cores_on_sock used_sock_cnt js :
  P js -> P (_set_sock_bits n sg ns tres_mc_ptr used_cores_on_sock used_sock_cnt js).
Proof.
  intros Hjs. unfold _set_sock_bits.
  apply (foldl_inv (fun st => keeps_st st));
    [|intros; apply sock_bits_step_kept; assumption].
  apply init_pick_state_kept. exact Hjs.
Qed.

Lemma task_sock_step_kept sg tps acc s :
  keeps acc -> keeps (task_sock_step sg ns tps n acc s).
Proof.
  destruct acc as [needed st]. unfold task_sock_step. simpl. intros Hst.
  destruct (negb _); [exact Hst|].
  destruct (_pick_gres_topo _ _ _ _ _ _) as [p st'] eqn:Hp. simpl.
  eapply pick_pair_kept; eassumption.
Qed.

Lemma task_more_step_kept sg acc s :
  keeps acc -> keeps (task_more_step sg ns n acc s).
Proof.
  destruct acc as [needed st]. unfold task_more_step. simpl. intros Hst.
  destruct (needed =? 0); [exact Hst|].
  destruct (_pick_gres_topo _ _ _ _ _ _) as [p st'] eqn:Hp. simpl.
  eapply pick_pair_kept; eassumption.
Qed.

Lemma set_task_bits_kept sg tasks_per_socket js :
  P js -> P (_set_task_bits n sg ns tasks_per_socket js).
Proof.
  intros Hjs. unfold _set_task_bits.
  destruct tasks_per_socket as [tps|]; [|exact Hjs].
  apply (foldl_inv (fun acc => keeps acc));
    [|intros; apply task_more_step_kept; assumption].
  set (acc := foldl (task_sock_step sg ns tps n) _ _).
  assert (Hacc : keeps acc).
  { subst acc. apply (foldl_inv (fun acc => keeps acc));
      [|intros; apply task_sock_step_kept; assumption].
    simpl. apply init_pick_state_kept. exact Hjs. }
  destruct (nz (fst acc)); [|exact Hacc].
  destruct (_pick_gres_topo _ _ _ _ _ _) as [p st'] eqn:Hp. simpl.
  eapply pick_pair_kept; eassumption.
Qed.

End picks_kept.

Section job_picks_kept.
Context (E : slurm_env) (ns : gres_node_state) (n : nat)
        (P : gres_job_state -> Prop).
Hypothesis HP : kept_by_picks ns n P.

Local Abbreviation keeps acc := (P (ps_js (snd acc)) /\ sorted_ok n (snd acc)).

Lemma job1_cores_step_kept sg cores_on_sock pick_gres acc s :
  keeps acc -> keeps (job1_cores_step sg ns cores_on_sock pick_gres n acc s).
Proof.
  destruct acc as [alloc st]. unfold job1_cores_step. simpl. intros Hst.
  destruct (negb (alloc <? pick_gres)); [exact Hst|].
  destruct (negb (nz _)); [exact Hst|].
  destruct (_pick_gres_topo _ _ _ _ _ _) as [p st'] eqn:Hp. simpl.
  eapply pick_pair_kept; eassumption.
Qed.

Lemma job1_other_step_kept sg cores_on_sock acc s :
  keeps acc -> keeps (job1_other_step sg ns cores_on_sock n acc s).
Proof.
  destruct acc as [alloc st]. unfold job1_other_step. simpl. intros Hst.
  destruct (negb (alloc =? 0)); [exact Hst|].
  destruct (nz _); [exact Hst|].
  destruct (_pick_gres_topo _ _ _ _ _ _) as [p st'] eqn:Hp. simpl.
  eapply pick_pair_kept; eassumption.
Qed.

Lemma worst_link_selected sel gres_cnt best_inx :
  fst (worst_link E ns sel gres_cnt best_inx) <> -1 ->
  bit_test sel (Z.to_nat (fst (worst_link E ns sel gres_cnt best_inx))) = true.
Proof.
  unfold worst_link.
  apply (foldl_inv (fun w : Z * Z => fst w <> -1 ->
                                     bit_test sel (Z.to_nat (fst w)) = true)).
  - simpl. congruence.
  - intros w g IH.
    destruct (Z.of_nat g =? best_inx); [exact IH|].
    destruct (bit_test sel g) eqn:Hg; simpl; [|exact IH].
    destruct (_ >=? _); [exact IH|].
    simpl. intros _. rewrite Nat2Z.id. exact Hg.
Qed.

Lemma prune_links_kept gres_cnt best_inx k : forall acc,
  P (fst acc) -> P (fst (prune_links E ns n gres_cnt best_inx k acc)).
Proof.
  induction k as [|k IH]; intros [js alloc] Hjs; simpl; [exact Hjs|].
  destruct (_ =? -1) eqn:Hw; [exact Hjs|].
  apply IH. simpl. apply (kept_drop _ _ _ HP); [exact Hjs|].
  apply worst_link_selected. apply Z.eqb_neq. exact Hw.
Qed.

Lemma job1_select_kept sg cores_on_sock pick_gres js :
  P js -> P (ps_js (snd (job1_select sg ns cores_on_sock pick_gres n js))).
Proof.
  intros Hjs. unfold job1_select.
  set (acc1 := foldl (job1_cores_step sg ns cores_on_sock pick_gres n) _ _).
  assert (H2 : keeps acc1).
  { subst acc1. apply (foldl_inv (fun acc => keeps acc));
      [split; [exact Hjs | exact I]
      | intros; apply job1_cores_step_kept; assumption]. }
  set (acc2 := if fst acc1 <? pick_gres then _ else acc1).
  assert (H3 : keeps acc2).
  { subst acc2. destruct (fst acc1 <? pick_gres); [|exact H2].
    destruct (_pick_gres_topo _ _ _ _ _ _) as [p st'] eqn:Hp. simpl.
    eapply pick_pair_kept; eassumption. }
  destruct (fst acc2 =? 0); [|exact (proj1 H3)].
  apply (foldl_inv (fun acc => keeps acc));
    [exact H3 | intros; apply job1_other_step_kept; assumption].
Qed.

Lemma job1_prune_kept gres_cnt max_gres acc :
  P (fst acc) -> P (fst (job1_prune E ns n gres_cnt max_gres acc)).
Proof.
  intros Hacc. unfold job1_prune. destruct acc as [js alloc].
  destruct (alloc >? max_gres); [|exact Hacc].
  destruct (best_link _ _ _) as [blc bi].
  destruct (negb (blc =? -1)); [|exact Hacc].
  apply prune_links_kept. exact Hacc.
Qed.

Lemma set_job_bits1_kept job_node_inx rem_nodes sg tres_mc_ptr cpus_per_core
    cores_on_sock total_cores js :
  P js ->
  P (snd (_set_job_bits1 E n job_node_inx rem_nodes sg ns tres_mc_ptr
            cpus_per_core cores_on_sock total_cores js)).
Proof.
  intros Hjs. unfold _set_job_bits1.
  set (js1 := if job_node_inx =? 0 then set_total_gres 0 js else js).
  assert (H1 : P js1).
  { subst js1. destruct (job_node_inx =? 0); [|exact Hjs].
    apply (kept_total _ _ _ HP); [exact Hjs | lia]. }
  set (max_gres := job1_max_gres E js1 rem_nodes tres_mc_ptr cpus_per_core total_cores).
  set (pick_gres := job1_pick_gres E ns max_gres _).
  pose proof (job1_select_kept sg cores_on_sock pick_gres js1 H1) as H2.
  set (acc := job1_select sg ns cores_on_sock pick_gres n js1) in *.
  pose proof (job1_prune_kept (length (bit_select_at js1 n)) max_gres
                (ps_js (snd acc), fst acc) H2) as H3.
  destruct (job1_prune _ _ _ _ _ _) as [js5 alloc5]. simpl in *.
  apply (kept_total _ _ _ HP); [exact H3 | apply u64_range].
Qed.

Lemma job2_sock_step_kept sg st s :
  P (ps_js st) /\ sorted_ok n st ->
  P (ps_js (job2_sock_step sg ns n st s)) /\
  sorted_ok n (job2_sock_step sg ns n st s).
Proof.
  intros Hst. unfold job2_sock_step.
  destruct (negb _); [exact Hst|].
  destruct (_pick_gres_topo _ _ _ _ _ _) as [p st'] eqn:Hp. simpl.
  pose proof (pick_pair_kept ns n P HP _ _ _ _ _ _ Hp Hst) as [H1 H2].
  split; [apply (kept_total _ _ _ HP); [exact H1 | apply u64_range]|].
  exact H2.
Qed.

Lemma set_job_bits2_kept sg js :
  P js -> P (snd (_set_job_bits2 n sg ns js)).
Proof.
  intros Hjs. unfold _set_job_bits2.
  destruct (gres_per_job js <=? total_gres js); [exact Hjs|].
  destruct (bit_select_ptr js n) as [sel|] eqn:Hsel; [|exact Hjs].
  match goal with
  | |- context [foldl (job2_sock_step sg ns n) ?st0 ?l] =>
      assert (H1 : P (ps_js (foldl (job2_sock_step sg ns n) st0 l)) /\
                   sorted_ok n (foldl (job2_sock_step sg ns n) st0 l));
      [apply (foldl_inv (fun st => P (ps_js st) /\ sorted_ok n st));
       [|intros; apply job2_sock_step_kept; assumption]
      | set (st1 := foldl (job2_sock_step sg ns n) st0 l) in * ]
  end.
  { destruct (_ && _); (split; [exact Hjs|]); [|exact I].
    unfold sorted_ok, bit_select_at. simpl. rewrite Hsel. simpl.
    rewrite qsort_perm. apply Forall_forall. intros g Hg.
    apply elem_of_seq in Hg. lia. }
  simpl.
  destruct (gres_per_job (ps_js st1) >? total_gres (ps_js st1)); [|exact (proj1 H1)].
  destruct (_pick_gres_topo _ _ _ _ _ _) as [p st'] eqn:Hp. simpl.
  apply (kept_total _ _ _ HP); [|apply u64_range].
  exact (proj1 (pick_pair_kept ns n P HP _ _ _ _ _ _ Hp H1)).
Qed.

End job_picks_kept.

Lemma sorted_topo_perm ns :
  Permutation (_get_sorted_topo_by_least_loaded ns)
              (seq 0 (Z.to_nat (topo_cnt ns))).
Proof. apply qsort_perm. Qed.

Lemma sorted_topo_in_range ns j :
  (j < Z.to_nat (topo_cnt ns))%nat ->
  (default 0%nat (_get_sorted_topo_by_least_loaded ns !! j)
   < Z.to_nat (topo_cnt ns))%nat.
Proof.
  intros Hj.
  pose proof (sorted_topo_perm ns) as Hp.
  destruct (_get_sorted_topo_by_least_loaded ns !! j) as [t|] eqn:Ht; simpl.
  - apply list_elem_of_lookup_2 in Ht. rewrite Hp in Ht.
    apply elem_of_seq in Ht. lia.
  - lia.
Qed.

Section shares_kept.
Context (E : slurm_env) (ns : gres_node_state) (n : nat)
        (P : gres_job_state -> Prop) (G : Z -> Prop).

(** [P] is kept by a draw the loop of lines 347-374 can make when the
    count still needed satisfies [G], and [G] holds of what is needed
    afterwards. *)
Hypothesis Hdraw : forall js t needed,
  P js -> G needed -> needed <> 0 -> (t < Z.to_nat (topo_cnt ns))%nat ->
  MIN (slot_cnt_avail ns js n t) needed <> 0 ->
  P (shared_take n t (MIN (slot_cnt_avail ns js n t) needed) js) /\
  G (u64 (needed - MIN (slot_cnt_avail ns js n t) needed)).
Hypothesis HGu : forall x, G (u64 x).
Hypothesis HGt : forall js, P js -> G (gres_per_task js).

Local Abbreviation index_in_range := (index_in_range ns).
Local Abbreviation keeps st := (P (fst st) /\ G (snd st)).

Lemma shared_topo_step_kept use_busy_dev use_single_dev no_repeat sock_bits
    topo_index st j :
  index_in_range topo_index -> (j < Z.to_nat (topo_cnt ns))%nat ->
  keeps st ->
  keeps (shared_topo_step ns use_busy_dev use_single_dev no_repeat n sock_bits
           topo_index st j).
Proof.
  intros Hidx Hj Hst. destruct st as [js needed].
  unfold shared_topo_step, shared_slot_visit.
  set (t := match topo_index with Some ti => _ | None => j end).
  assert (Ht : (t < Z.to_nat (topo_cnt ns))%nat) by (apply Hidx; exact Hj).
  destruct (Z.eqb_spec needed 0) as [|Hne]; [exact Hst|].
  destruct (nz (type_id js) && _); [exact Hst|].
  destruct (use_busy_dev && _); [exact Hst|].
  destruct (_ <? _); [exact Hst|].
  destruct (negb _); [exact Hst|].
  destruct (no_repeat && _); [exact Hst|].
  destruct (Z.eqb_spec (MIN (slot_cnt_avail ns js n t) needed) 0) as [|Hc];
    [exact Hst|].
  simpl in Hst. destruct Hst as [HPjs Hneeded].
  simpl. apply Hdraw; assumption.
Qed.

Lemma pick_shared_gres_topo_kept sg use_busy_dev use_single_dev no_repeat
    socket_index topo_index st :
  index_in_range topo_index -> keeps st ->
  keeps (_pick_shared_gres_topo sg ns use_busy_dev use_single_dev no_repeat n
           socket_index topo_index st).
Proof.
  intros Hidx Hst. unfold _pick_shared_gres_topo.
  destruct (sock_bits_of sg socket_index) as [sb|]; [|exact Hst].
  destruct (topo_gres_cnt_alloc ns); [|exact Hst].
  destruct (topo_gres_cnt_avail ns); [|exact Hst].
  set (m := Z.to_nat (topo_cnt ns)) in *.
  assert (Hall : forall k, (k <= m)%nat ->
            keeps (foldl (shared_topo_step ns use_busy_dev use_single_dev
                            no_repeat n sb topo_index) st (seq 0 k))).
  { induction k as [|k IH]; intros Hk; [exact Hst|].
    rewrite seq_S, foldl_app. simpl.
    apply shared_topo_step_kept; [exact Hidx | lia | apply IH; lia]. }
  apply Hall. lia.
Qed.

Lemma shared_sock_step_kept sg used_sock want_used use_busy_dev use_single_dev
    no_repeat topo_index st s :
  index_in_range topo_index -> keeps st ->
  keeps (shared_sock_step sg ns used_sock want_used use_busy_dev
           use_single_dev no_repeat n topo_index st s).
Proof.
  intros Hidx Hst. unfold shared_sock_step.
  destruct (snd st =? 0); [exact Hst|].
  destruct (Bool.eqb _ _); [|exact Hst].
  apply pick_shared_gres_topo_kept; assumption.
Qed.

Lemma pick_shared_gres_kept sg used_sock use_busy_dev use_single_dev no_repeat
    enforce_binding st :
  keeps st ->
  keeps (_pick_shared_gres E sg ns used_sock n use_busy_dev use_single_dev
           no_repeat enforce_binding st).
Proof.
  intros Hst. unfold _pick_shared_gres.
  set (topo_index := if nz _ then Some _ else None).
  assert (Hidx : index_in_range topo_index).
  { subst topo_index. intros j Hj. destruct (nz _); [|exact Hj].
    apply sorted_topo_in_range. exact Hj. }
  set (st1 := foldl (shared_sock_step sg ns used_sock true _ _ _ n topo_index) st _).
  assert (H1 : keeps st1).
  { subst st1. apply (foldl_inv (fun st => keeps st)); [exact Hst|].
    intros; apply shared_sock_step_kept; assumption. }
  set (st2 := if nz (snd st1) then _ else st1).
  assert (H2 : keeps st2).
  { subst st2. destruct (nz (snd st1)); [|exact H1].
    apply pick_shared_gres_topo_kept; assumption. }
  destruct (negb enforce_binding); [|exact H2].
  apply (foldl_inv (fun st => keeps st)); [exact H2|].
  intros; apply shared_sock_step_kept; assumption.
Qed.

Lemma set_shared_node_bits_kept sg gsn enforce_binding used_sock js :
  P js -> G (gres_per_node js) ->
  P (snd (_set_shared_node_bits E n sg gsn ns enforce_binding used_sock js)).
Proof.
  intros Hjs Hpn. unfold _set_shared_node_bits.
  pose proof (pick_shared_gres_kept sg used_sock (gres_use_busy_dev E gsn) true
                false enforce_binding (js, gres_per_node js) (conj Hjs Hpn)) as H1.
  destruct (_pick_shared_gres _ _ _ _ _ _ _ _ _ _) as [js1 needed1].
  set (r := if nz needed1 && _ then _ else (js1, needed1)).
  assert (H2 : keeps r).
  { subst r. destruct (nz needed1 && _); [|exact H1].
    apply pick_shared_gres_kept. exact H1. }
  destruct r as [js2 needed2]. destruct (nz needed2); apply H2.
Qed.

Lemma shared_task_loop_kept sg used_sock use_busy_dev no_task_sharing
    enforce_binding k : forall r js,
  P js ->
  P (snd (shared_task_loop E sg ns used_sock n use_busy_dev no_task_sharing
            enforce_binding k r js)).
Proof.
  induction k as [|k IH]; intros r js Hjs; simpl; [exact Hjs|].
  pose proof (pick_shared_gres_kept sg used_sock use_busy_dev true
                no_task_sharing enforce_binding (js, gres_per_task js)
                (conj Hjs (HGt js Hjs))) as H1.
  destruct (_pick_shared_gres _ _ _ _ _ _ _ _ _ _) as [js1 needed1].
  destruct (nz needed1); [exact (proj1 H1)|].
  apply IH. exact (proj1 H1).
Qed.

Lemma set_shared_task_bits_kept sg gsn enforce_binding no_task_sharing
    tasks_per_socket js :
  P js ->
  P (snd (_set_shared_task_bits E n sg gsn ns enforce_binding no_task_sharing
            tasks_per_socket js)).
Proof.
  intros Hjs. unfold _set_shared_task_bits.
  destruct tasks_per_socket as [tps|]; [|exact Hjs].
  destruct (negb _).
  - pose proof (pick_shared_gres_kept sg tps (gres_use_busy_dev E gsn)
                  true false enforce_binding
                  (js, u64 (gres_per_task js *
                            _get_task_cnt_node (Some tps) (sock_cnt sg)))
                  (conj Hjs (HGu _))) as H1.
    destruct (_pick_shared_gres _ _ _ _ _ _ _ _ _ _) as [js1 needed1].
    destruct (nz needed1); exact (proj1 H1).
  - apply (foldl_inv (fun st : slurm_rc * gres_job_state => P (snd st))).
    + exact Hjs.
    + intros st s Hst. apply shared_task_loop_kept. exact Hst.
Qed.

End shares_kept.

(** ** What the orchestrator keeps *)

Section node_kept.
Context (E : slurm_env) (job_ptr : job_record) (job_res : job_resources)
        (tres_mc_ptr : option gres_mc_data).
Context (ns : gres_node_state) (n : nat) (node_cnt : Z) (G : Z -> Prop)
        (P : gres_job_state -> Prop).
Hypothesis HP : kept_by_node ns n node_cnt G P.
Hypothesis HGu : forall x, G (u64 x).

Lemma init_gres_per_bit_select_kept js :
  (total_node_cnt js = 0 -> u32 node_cnt = 0) ->
  P js -> P (_init_gres_per_bit_select js n).
Proof.
  intros Hcnt Hjs. unfold _init_gres_per_bit_select.
  apply (kn_write_per_bit _ _ _ _ _ HP).
  destruct (gres_per_bit_select js) eqn:Hpb; [exact Hjs|].
  apply (kn_alloc_per_bit _ _ _ _ _ HP); assumption.
Qed.

Lemma dispatch_pick_node_inx sg gsj gsn a js :
  node_inx (fst (dispatch_pick E job_ptr tres_mc_ptr sg gsj gsn ns a js)) = node_inx a.
Proof.
  unfold dispatch_pick.
  repeat match goal with
         | |- context [if ?c then _ else _] => destruct c
         | |- context [let '(_, _) := ?x in _] => destruct x
         end; reflexivity.
Qed.

Lemma dispatch_pick_kept sg gsj gsn a js :
  node_inx a = n -> (total_node_cnt js = 0 -> u32 node_cnt = 0) -> P js ->
  P (snd (dispatch_pick E job_ptr tres_mc_ptr sg gsj gsn ns a js)).
Proof.
  intros Hn Hcnt Hjs. unfold dispatch_pick. rewrite Hn.
  pose proof (kn_picks _ _ _ _ _ HP) as Hpicks.
  destruct (gres_id_shared E (config_flags gsj)).
  - pose proof (init_gres_per_bit_select_kept js Hcnt Hjs) as Hi.
    set (js1 := _init_gres_per_bit_select js n) in *.
    destruct (nz (gres_per_node js1)).
    + pose proof (set_shared_node_bits_kept E ns n P G
                    (fun js t needed H1 H2 H3 H4 H5 =>
                       conj (kn_draw _ _ _ _ _ HP js t needed H1 H2 H3 H4 H5) (HGu _))
                    sg gsn
                    (nz (Z.land (bit_flags job_ptr) (GRES_ENFORCE_BIND E)))
                    (default [] (used_cores_on_sock a)) js1 Hi
                    (proj1 (kn_counters _ _ _ _ _ HP js1 Hi))) as H.
      destruct (_set_shared_node_bits _ _ _ _ _ _ _ _) as [r js2]. exact H.
    + destruct (nz (gres_per_task js1)); [|exact Hi].
      pose proof (set_shared_task_bits_kept E ns n P G
                    (fun js t needed H1 H2 H3 H4 H5 =>
                       conj (kn_draw _ _ _ _ _ HP js t needed H1 H2 H3 H4 H5) (HGu _))
                    HGu
                    (fun js H => proj2 (kn_counters _ _ _ _ _ HP js H))
                    sg gsn
                    (nz (Z.land (bit_flags job_ptr) (GRES_ENFORCE_BIND E)))
                    (nz (Z.land (bit_flags job_ptr) (GRES_ONE_TASK_PER_SHARING E)))
                    (tasks_on_node a) js1 Hi) as H.
      destruct (_set_shared_task_bits _ _ _ _ _ _ _ _ _) as [r js2]. exact H.
  - destruct (nz (gres_per_node js)).
    { simpl. apply set_node_bits_kept; assumption. }
    destruct (nz (gres_per_socket js)).
    { simpl. apply set_sock_bits_kept; assumption. }
    destruct (nz (gres_per_task js)).
    { simpl. apply set_task_bits_kept; assumption. }
    destruct (nz (gres_per_job js)); [|exact Hjs].
    pose proof (set_job_bits1_kept E ns n P Hpicks (job_node_inx a)
                  (rem_node_cnt a) sg tres_mc_ptr
                  (tpc (node_record_table_ptr E n))
                  (default [] (used_cores_on_sock a)) (used_core_cnt a) js Hjs) as H.
    destruct (_set_job_bits1 _ _ _ _ _ _ _ _ _ _ _) as [tmp js2]. exact H.
Qed.

End node_kept.

Section init_kept.
Context (ns : gres_node_state) (n : nat) (node_cnt : Z) (G : Z -> Prop)
        (P : gres_job_state -> Prop).
Hypothesis HP : kept_by_node ns n node_cnt G P.

Lemma init_node_select_kept first_node js :
  P js -> P (init_node_select node_cnt first_node js).
Proof.
  intros Hjs. unfold init_node_select.
  pose proof (kn_picks _ _ _ _ _ HP) as Hpk.
  set (js1 := if total_node_cnt js =? 0 then _ else js).
  assert (H1 : P js1).
  { subst js1. destruct (Z.eqb_spec (total_node_cnt js) 0) as [Hz|]; [|exact Hjs].
    apply (kept_total _ _ _ Hpk); [|lia].
    apply (kn_node_cnt _ _ _ _ _ HP); assumption. }
  clearbody js1.
  set (js2 := match gres_cnt_node_select js1 with Some _ => js1 | None => _ end).
  assert (H2 : P js2).
  { subst js2. destruct (gres_cnt_node_select js1) eqn:Hc; [exact H1|].
    apply (kn_alloc_cnt _ _ _ _ _ HP); assumption. }
  clearbody js2.
  destruct first_node; [|exact H2].
  apply (kept_total _ _ _ Hpk); [exact H2 | lia].
Qed.

Lemma init_bit_select_kept gres_cnt js :
  P js -> P (init_bit_select node_cnt gres_cnt n js).
Proof.
  intros Hjs. unfold init_bit_select.
  apply (kn_write_cnt _ _ _ _ _ HP), (kn_write_bits _ _ _ _ _ HP).
  destruct (gres_bit_select js) eqn:Hb; [exact Hjs|].
  apply (kn_alloc_bits _ _ _ _ _ HP); assumption.
Qed.

Lemma add_node_total_kept js : P js -> P (add_node_total n js).
Proof.
  intros Hjs. apply (kept_total _ _ _ (kn_picks _ _ _ _ _ HP)); [exact Hjs|].
  apply u64_range.
Qed.

End init_kept.

(** After the set-up of the counters total_node_cnt is 0 only if the node
    count is, as a uint32_t. *)
Lemma init_node_select_cnt node_cnt first_node js :
  total_node_cnt (init_node_select node_cnt first_node js) = 0 ->
  u32 node_cnt = 0.
Proof.
  unfold init_node_select.
  destruct (Z.eqb_spec (total_node_cnt js) 0) as [Hz|Hz];
    destruct (gres_cnt_node_select _), first_node; simpl; intros H;
    first [exact H | contradiction].
Qed.

Lemma init_bit_select_cnt node_cnt gres_cnt n js :
  total_node_cnt (init_bit_select node_cnt gres_cnt n js) = total_node_cnt js.
Proof.
  unfold init_bit_select. destruct (gres_bit_select js); reflexivity.
Qed.

Section rest_kept.
Context (E : slurm_env) (job_ptr : job_record) (job_res : job_resources)
        (tres_mc_ptr : option gres_mc_data).

Local Abbreviation rest_ :=
  (select_and_set_rest E job_ptr job_res tres_mc_ptr).
Local Abbreviation node_cnt_ := (bit_size (default [] (node_bitmap job_res))).

(** What [select_and_set_rest] stores is the job state it was given, after
    writes of the kinds listed in [kept_by_node]. *)
Lemma select_and_set_rest_spec sg gsj gsn js ns a h :
  exists js',
    snd (rest_ sg gsj gsn js ns a h) = store_job_state sg js' h /\
    node_inx (fst (rest_ sg gsj gsn js ns a h)) = node_inx a /\
    forall G P,
      kept_by_node ns (node_inx a) node_cnt_ G P -> (forall x, G (u64 x)) ->
      P js -> P js'.
Proof.
  unfold select_and_set_rest.
  set (node_cnt := bit_size (default [] (node_bitmap job_res))).
  set (a1 := if nz (gres_per_task js) && _ then _ else a).
  assert (Ha1 : node_inx a1 = node_inx a).
  { subst a1. destruct (nz (gres_per_task js) && _); reflexivity. }
  clearbody a1.
  pose proof (init_node_select_cnt node_cnt
                (Z.of_nat (node_inx a1) =? bit_ffs (default [] (node_bitmap job_res)))
                js) as Hc3.
  set (js3 := init_node_select node_cnt _ js) in *.
  assert (H3 : forall G P, kept_by_node ns (node_inx a) node_cnt G P -> P js -> P js3).
  { intros G P HP Hjs. apply (init_node_select_kept ns (node_inx a) node_cnt G P HP).
    exact Hjs. }
  clearbody js3.
  destruct (topo_cnt ns =? 0).
  - eexists. split; [reflexivity|]. split; [exact Ha1|].
    intros G P HP HGu Hjs. rewrite Ha1.
    apply (add_node_total_kept ns (node_inx a) node_cnt G P HP).
    apply (kn_write_cnt _ _ _ _ _ HP). eapply H3; eassumption.
  - pose proof (init_bit_select_cnt node_cnt (_get_gres_node_cnt ns)
                  (node_inx a1) js3) as Hc5.
    set (js5 := init_bit_select node_cnt _ (node_inx a1) js3) in *.
    assert (H5 : forall G P, kept_by_node ns (node_inx a) node_cnt G P ->
                             P js -> P js5).
    { intros G P HP Hjs. subst js5. rewrite Ha1.
      apply (init_bit_select_kept ns (node_inx a) node_cnt G P HP).
      eapply H3; eassumption. }
    clearbody js5. rewrite <- Hc5 in Hc3.
    pose proof (dispatch_pick_node_inx E job_ptr tres_mc_ptr ns sg gsj gsn a1 js5) as Hn.
    pose proof (fun G P HP HGu =>
                  dispatch_pick_kept E job_ptr tres_mc_ptr ns (node_inx a)
                    node_cnt G P HP HGu sg gsj gsn a1 js5 Ha1 Hc3) as Hd.
    destruct (dispatch_pick _ _ _ _ _ _ _ _ _) as [a2 js6]. simpl in *.
    eexists. split; [reflexivity|]. split; [congruence|].
    intros G P HP HGu Hjs.
    assert (H6 : P js6) by (apply (Hd G P HP HGu); eapply H5; eassumption).
    destruct (job_fini a2 =? -1); [|exact H6].
    replace (node_inx a2) with (node_inx a) by congruence.
    apply (add_node_total_kept ns (node_inx a) node_cnt G P HP). exact H6.
Qed.

End rest_kept.

Lemma kept_by_node_picks_only ns n node_cnt G P js js' :
  (forall P, kept_by_picks ns n P -> P js -> P js') ->
  kept_by_node ns n node_cnt G P -> P js -> P js'.
Proof. intros H HP. apply H. exact (kn_picks _ _ _ _ _ HP). Qed.

Section orchestrator_steps.
Context (E : slurm_env) (sock_gres_list : list (list sock_gres_t))
        (job_ptr : job_record) (job_res : job_resources)
        (tres_mc_ptr : option gres_mc_data).

Local Abbreviation node_ := (_select_and_set_node E job_ptr job_res tres_mc_ptr).
Local Abbreviation node_step_ :=
  (node_step (bit_size (default [] (node_bitmap job_res)))).
Local Abbreviation list_ := (select_and_set_list E job_ptr job_res tres_mc_ptr).

Lemma set_used_cnts_node_inx a :
  node_inx (snd (_set_used_cnts E job_res a)) = node_inx a.
Proof.
  unfold _set_used_cnts.
  destruct (get_job_resources_cnt E job_res (job_node_inx a)) as [[sc cps]|];
    [|reflexivity].
  destruct (_ <? 0); [reflexivity|].
  match goal with
  | |- context [foldl ?f ?a0 ?l] =>
      assert (H : node_inx (foldl f a0 l) = node_inx a);
      [apply (foldl_inv (fun x => node_inx x = node_inx a));
       [reflexivity | intros x s Hx; exact Hx]
      | destruct (used_sock_cnt (foldl f a0 l) =? 0); exact H]
  end.
Qed.

Lemma select_and_set_node_step sg a h :
  node_step_ sg (node_inx a) h (snd (snd (node_ sg (a, h)))) /\
  node_inx (fst (snd (node_ sg (a, h)))) = node_inx a.
Proof.
  unfold _select_and_set_node.
  destruct (h_jobs h !! gres_state_job sg) as [gsj|] eqn:Hgsj;
    [|split; [apply node_step_skip|]; reflexivity].
  destruct (h_nodes h !! gres_state_node sg) as [gsn|] eqn:Hgsn;
    [|split; [apply node_step_skip|]; reflexivity].
  destruct (gres_data gsj) as [js|] eqn:Hjs;
    [|split; [apply node_step_skip|]; reflexivity].
  destruct (gres_data gsn) as [ns|] eqn:Hns;
    [|split; [apply node_step_skip|]; reflexivity].
  assert (Hrest : forall a', node_inx a' = node_inx a ->
            node_step_ sg (node_inx a) h
              (snd (select_and_set_rest E job_ptr job_res tres_mc_ptr sg gsj gsn
                      js ns a' h)) /\
            node_inx (fst (select_and_set_rest E job_ptr job_res tres_mc_ptr sg
                             gsj gsn js ns a' h)) = node_inx a).
  { intros a' Ha'.
    destruct (select_and_set_rest_spec E job_ptr job_res tres_mc_ptr sg gsj gsn
                js ns a' h) as (js' & Hs & Hn & Hk).
    split; [|congruence].
    eapply node_step_store; try eassumption.
    rewrite <- Ha'. exact Hk. }
  destruct (_ && is_null (used_cores_on_sock a)).
  - pose proof (set_used_cnts_node_inx a) as Hu.
    destruct (_set_used_cnts E job_res a) as [r a']. simpl in Hu.
    destruct (negb (eq_rc r SLURM_SUCCESS)).
    + simpl. split; [apply node_step_skip; reflexivity | exact Hu].
    + simpl. apply Hrest. exact Hu.
  - simpl. apply Hrest. reflexivity.
Qed.

Lemma select_and_set_list_cons sg l st :
  list_ (sg :: l) st =
  (let '(ret, st') := node_ sg st in if ret <? 0 then st' else list_ l st').
Proof. reflexivity. Qed.

(** A property of the memory kept by every visit is kept by the loop over
    the records of a node. *)
Lemma select_and_set_list_inv (I : heap -> Prop) n l : forall a h,
  (forall sg h h', sg ∈ l -> node_step_ sg n h h' -> I h -> I h') ->
  node_inx a = n -> I h ->
  I (snd (list_ l (a, h))) /\ node_inx (fst (list_ l (a, h))) = n.
Proof.
  induction l as [|sg l IH]; intros a h HI Hn Hh; [simpl; auto|].
  rewrite select_and_set_list_cons.
  pose proof (select_and_set_node_step sg a h) as [Hstep Hn'].
  destruct (node_ sg (a, h)) as [ret [a' h']]. simpl in Hstep, Hn'.
  assert (Hh' : I h').
  { eapply HI; [left | rewrite <- Hn; exact Hstep | exact Hh]. }
  destruct (ret <? 0); [simpl; split; [exact Hh' | congruence]|].
  apply IH; [|congruence | exact Hh'].
  intros sg' h1 h2 Hin. apply HI. right. exact Hin.
Qed.

Local Abbreviation step_ :=
  (node_loop_step E sock_gres_list job_ptr job_res tres_mc_ptr).

Lemma node_loop_step_inv (I : heap -> Prop) a h i :
  (forall sg n h h', node_step_ sg n h h' -> I h -> I h') ->
  I h -> I (snd (step_ (a, h) i)).
Proof.
  intros HI Hh. unfold node_loop_step.
  destruct (negb (eq_rc (rc a) SLURM_SUCCESS)); [exact Hh|].
  match goal with
  | |- context [list_ ?l (?a0, h)] =>
      pose proof (select_and_set_list_inv I i l a0 h
                    (fun sg h h' _ => HI sg i h h') eq_refl Hh) as [H _];
      destruct (list_ l (a0, h)) as [a' h']
  end.
  exact H.
Qed.

Lemma pass2_record_step i fini h sg :
  node_step_ sg i h (snd (pass2_record i (fini, h) sg)).
Proof.
  unfold pass2_record, job_state_of, node_state_of.
  destruct (h_jobs h !! gres_state_job sg) as [gsj|] eqn:Hgsj; simpl;
    [|apply node_step_skip; reflexivity].
  destruct (gres_data gsj) as [js|] eqn:Hjs; simpl;
    [|apply node_step_skip; reflexivity].
  destruct (h_nodes h !! gres_state_node sg) as [gsn|] eqn:Hgsn; simpl;
    [|apply node_step_skip; reflexivity].
  destruct (gres_data gsn) as [ns|] eqn:Hns; simpl;
    [|apply node_step_skip; reflexivity].
  pose proof (fun P HP => set_job_bits2_kept ns i P HP sg js) as Hk.
  destruct (_set_job_bits2 i sg ns js) as [ret js']. simpl in *.
  eapply node_step_store; try eassumption; [reflexivity|].
  intros G P HP _. apply Hk. exact (kn_picks _ _ _ _ _ HP).
Qed.

Local Abbreviation pass2_ := (pass2_node sock_gres_list).

Lemma pass2_node_inv (I : heap -> Prop) st i :
  (forall sg n h h', node_step_ sg n h h' -> I h -> I h') ->
  I (p2_heap st) -> I (p2_heap (pass2_ st i)).
Proof.
  intros HI Hh. unfold pass2_node.
  destruct (p2_break st); [exact Hh|].
  match goal with
  | |- context [foldl (pass2_record i) ?acc ?l] =>
      assert (H : I (snd (foldl (pass2_record i) acc l)));
      [apply (foldl_inv (fun x : Z * heap => I (snd x))); [exact Hh|];
       intros [f h'] sg Hacc; eapply HI; [apply pass2_record_step | exact Hacc]
      | destruct (foldl (pass2_record i) acc l) as [f h']; exact H]
  end.
Qed.

(** A property of the memory kept by every visit is kept by the whole
    selection. *)
Lemma select_and_set_nodes_inv (I : heap -> Prop) bm h :
  (forall sg n h h', node_step_ sg n h h' -> I h -> I h') ->
  I h ->
  I (snd (select_and_set_nodes E sock_gres_list job_ptr job_res tres_mc_ptr bm h)).
Proof.
  intros HI Hh. unfold select_and_set_nodes.
  match goal with
  | |- context [foldl step_ ?st0 ?l] =>
      assert (H : I (snd (foldl step_ st0 l)));
      [apply (foldl_inv (fun st => I (snd st))); [exact Hh|];
       intros [a' h'] i Hst; apply node_loop_step_inv; assumption
      | destruct (foldl step_ st0 l) as [a1 h1] ]
  end.
  simpl in H.
  destruct (job_fini a1 =? 0); [|exact H].
  simpl. apply (foldl_inv (fun st => I (p2_heap st))); [exact H|].
  intros st i Hst. apply pass2_node_inv; assumption.
Qed.

End orchestrator_steps.

(** ** The node state is only read *)

Lemma request_kept ns n node_cnt r :
  kept_by_node ns n node_cnt (fun _ => True) (fun js => request_of js = r).
Proof.
  split; try (intros; assumption); try (intros; split; exact I).
  split; intros; assumption.
Qed.

Lemma store_job_state_request sg gsj js js' h :
  h_jobs h !! gres_state_job sg = Some gsj -> gres_data gsj = Some js ->
  request_of js' = request_of js ->
  request_view <$> (h_jobs (store_job_state sg js' h)) =
  request_view <$> (h_jobs h).
Proof.
  intros Hgsj Hjs Hr. unfold store_job_state. simpl. rewrite Hgsj.
  rewrite list_fmap_insert. apply list_insert_id.
  rewrite list_lookup_fmap, Hgsj. simpl.
  unfold request_view. simpl. rewrite Hjs. simpl. rewrite Hr. reflexivity.
Qed.

Lemma node_step_frame node_cnt sg n h h' :
  node_step node_cnt sg n h h' ->
  h_nodes h' = h_nodes h /\
  request_view <$> (h_jobs h') = request_view <$> (h_jobs h).
Proof.
  intros [-> | gsj js gsn ns js' Hgsj Hjs Hgsn Hns -> Hk]; [split; reflexivity|].
  split; [reflexivity|].
  eapply store_job_state_request; try eassumption.
  apply (Hk (fun _ => True) (fun x => request_of x = request_of js)
            (request_kept ns n node_cnt _) (fun _ => I) eq_refl).
Qed.

Lemma select_and_set_frame E sock_gres_list job_ptr tres_mc_ptr h :
  h_nodes (snd (gres_select_filter_select_and_set E sock_gres_list job_ptr
                  tres_mc_ptr h)) = h_nodes h /\
  request_view <$>
      (h_jobs (snd (gres_select_filter_select_and_set E sock_gres_list job_ptr
                      tres_mc_ptr h))) = request_view <$> (h_jobs h).
Proof.
  unfold gres_select_filter_select_and_set.
  destruct (job_resrcs job_ptr) as [job_res|]; [|split; reflexivity].
  destruct (node_bitmap job_res) as [bm|]; [|split; reflexivity].
  apply (select_and_set_nodes_inv E sock_gres_list job_ptr job_res tres_mc_ptr
           (fun h' => h_nodes h' = h_nodes h /\
                      request_view <$> (h_jobs h') = request_view <$> (h_jobs h)));
    [|split; reflexivity].
  intros sg n h1 h2 Hstep [H1 H2].
  destruct (node_step_frame _ _ _ _ _ Hstep) as [H3 H4].
  split; congruence.
Qed.

Section filter_frame.
Context (E : slurm_env) (jobs : job_store).
Variables (avail_mem max_cpus : Z) (enforce_binding : bool)
          (core_bitmap : bitstr)
          (sockets cores_per_sock cpus_per_core : Z)
          (sock_per_node task_per_node cpus_per_task : Z)
          (whole_node : bool).

Lemma prune_fold_static l : forall sg,
  static_of (foldl (prune_sock core_bitmap sockets cores_per_sock) sg l)
  = static_of sg.
Proof.
  induction l as [|s l IH]; intros sg; simpl; [reflexivity|].
  rewrite IH. unfold prune_sock.
  destruct (sock_has_core _ _ _ s); reflexivity.
Qed.

Lemma bind_gres_static sg :
  static_of (fst (bind_gres enforce_binding core_bitmap sockets cores_per_sock sg))
  = static_of sg.
Proof.
  unfold bind_gres. destruct (cnt_by_sock sg); [|reflexivity].
  destruct enforce_binding; [|reflexivity].
  simpl. apply prune_fold_static.
Qed.

Lemma node_or_job_cap_static sg js :
  static_of (node_or_job_cap whole_node sg js) = static_of sg.
Proof.
  unfold node_or_job_cap, _set_max_node_gres.
  destruct whole_node; [reflexivity|].
  destruct (nz (gres_per_node js) && _); [reflexivity|].
  destruct (nz (gres_per_job js) && _); reflexivity.
Qed.

Lemma examine_static sg js :
  match examine E avail_mem max_cpus enforce_binding core_bitmap sockets
          cores_per_sock cpus_per_core sock_per_node task_per_node
          cpus_per_task whole_node sg js with
  | Rejected sg' => static_of sg' = static_of sg
  | Passed sg' _ => static_of sg' = static_of sg
  end.
Proof.
  unfold examine.
  destruct (insufficient_cpus _ _ _); [reflexivity|].
  destruct (mem_tracked E avail_mem _ && _); [reflexivity|].
  set (sg1 := if mem_tracked E avail_mem _ then _ else sg).
  assert (H1 : static_of sg1 = static_of sg).
  { subst sg1. destruct (mem_tracked _ _ _); reflexivity. }
  clearbody sg1.
  pose proof (bind_gres_static sg1) as H2.
  destruct (bind_gres _ _ _ _ sg1) as [sg2 near]. simpl in H2.
  pose proof (node_or_job_cap_static sg2 js) as H3.
  set (sg3 := node_or_job_cap whole_node sg2 js) in *. clearbody sg3.
  destruct (cpu_cap _ _ _ _ sg3 js _) as [sg4|] eqn:Hc; [|congruence].
  assert (H4 : static_of sg4 = static_of sg3).
  { unfold cpu_cap in Hc.
    repeat case_match; try discriminate; inversion Hc; subst; reflexivity. }
  assert (H5 : static_of (mem_cap E avail_mem sg4 (mem_per_gres_of js))
               = static_of sg4).
  { unfold mem_cap. destruct (mem_tracked _ _ _); reflexivity. }
  destruct (below_min _ _); congruence.
Qed.

Lemma filter_loop_static l : forall a n r,
  filter_loop E jobs avail_mem max_cpus enforce_binding core_bitmap sockets
    cores_per_sock cpus_per_core sock_per_node task_per_node cpus_per_task
    whole_node l a n = Some r ->
  Forall2 (fun sg sg' => static_of sg' = static_of sg) l (f_list r).
Proof.
  induction l as [|sg l IH]; intros a n r H; simpl in H.
  - inversion H; subst. constructor.
  - destruct (jobs !! gres_state_job sg) as [gs|]; simpl in H; [|discriminate].
    destruct (gres_data gs) as [js|]; simpl in H; [|discriminate].
    pose proof (examine_static sg js) as Hs.
    destruct (examine E avail_mem max_cpus enforce_binding core_bitmap sockets
                cores_per_sock cpus_per_core sock_per_node task_per_node
                cpus_per_task whole_node sg js) as [sg'|sg' nn].
    + inversion H; subst; simpl. constructor; [exact Hs|].
      apply Forall2_same_length_lookup_2; [reflexivity|].
      intros i x y Hx Hy. congruence.
    + destruct (if gres_id_sharing E (plugin_id gs) then _ else _) as [a' n'].
      destruct (filter_loop E jobs avail_mem max_cpus enforce_binding core_bitmap
                  sockets cores_per_sock cpus_per_core sock_per_node
                  task_per_node cpus_per_task whole_node l a' n')
        as [r'|] eqn:Hr; simpl in H; [|discriminate].
      inversion H; subst; simpl. constructor; [exact Hs|].
      eapply IH. exact Hr.
Qed.

End filter_frame.

(** C8: neither entry point changes the node GRES states.  The selection
    leaves the node store as it was and, in the job store, every entry's
    identity and request counters, so that its writes are to the outputs of
    the job states; the filter, which has no access to the node store,
    leaves in each record the two back pointers, the socket count and the
    bitmaps. *)
Theorem entry_points_write_outputs_only (E : slurm_env) :
  (forall sock_gres_list job_ptr tres_mc_ptr h,
     h_nodes (snd (gres_select_filter_select_and_set E sock_gres_list job_ptr
                     tres_mc_ptr h)) = h_nodes h /\
     request_view <$>
         (h_jobs (snd (gres_select_filter_select_and_set E sock_gres_list
                         job_ptr tres_mc_ptr h))) =
     request_view <$> (h_jobs h)) /\
  (forall jobs sock_gres_list avail_mem max_cpus enforce_binding core_bitmap
          sockets cores_per_sock cpus_per_core sock_per_node task_per_node
          cpus_per_task whole_node,
     match gres_select_filter_remove_unusable E jobs sock_gres_list avail_mem
             max_cpus enforce_binding core_bitmap sockets cores_per_sock
             cpus_per_core sock_per_node task_per_node cpus_per_task whole_node
     with
     | Some r =>
         Forall2 (fun sg sg' => static_of sg' = static_of sg)
                 (default [] sock_gres_list) (f_list r)
     | None => True
     end).
Proof.
  split.
  - intros. apply select_and_set_frame.
  - intros jobs l avail_mem max_cpus enforce_binding cb. intros.
    assert (Hid : forall l0 : list sock_gres_t,
              Forall2 (fun sg sg' => static_of sg' = static_of sg) l0 l0).
    { intros l0. apply Forall2_same_length_lookup_2; [reflexivity|].
      intros i x y Hx Hy. congruence. }
    unfold gres_select_filter_remove_unusable.
    destruct cb as [cb|]; [|apply Hid].
    destruct l as [[|sg l]|]; [apply Hid | | apply Hid].
    destruct (filter_loop _ _ _ _ _ _ _ _ _ _ _ _ _ _ _ _) as [r|] eqn:Hr; [|exact I].
    eapply filter_loop_static. exact Hr.
Qed.

(** ** The unit picker and allocated units *)

Lemma only_free_added_take ns n js0 js g :
  only_free_added ns n js0 js -> bit_test_opt (gres_bit_alloc ns) g = false ->
  only_free_added ns n js0 (take_bit n g js).
Proof.
  intros Hjs Halloc x Hx.
  destruct (take_bit_select n g js) as [He|He]; rewrite He in Hx.
  - apply bit_test_set in Hx as [->|Hx]; [right; exact Halloc | apply Hjs, Hx].
  - apply Hjs, Hx.
Qed.

Lemma only_free_added_kept ns n js0 :
  kept_by_picks ns n (only_free_added ns n js0).
Proof.
  split.
  - intros js g Hjs _ _ Halloc. apply only_free_added_take; assumption.
  - intros js g Hjs _ x Hx.
    destruct (drop_bit_select n g js) as [He|He]; rewrite He in Hx.
    + apply bit_test_clear in Hx. apply Hjs, Hx.
    + apply Hjs, Hx.
  - intros js v Hjs _. exact Hjs.
Qed.

Lemma only_free_added_refl ns n js : only_free_added ns n js js.
Proof. intros g Hg. left. exact Hg. Qed.

(** A call of the unit picker on any scratch arrays. *)
Lemma pick_loop_only_free sock_bits ns n gres_cnt js0 k : forall i st,
  only_free_added ns n js0 (ps_js st) ->
  only_free_added ns n js0
    (ps_js (fst (pick_loop sock_bits ns n gres_cnt k i st))).
Proof.
  induction k as [|k IH]; intros i st Hst; simpl; [exact Hst|].
  destruct (next_free _ _ _ _ _ _ _) as [[j g]|] eqn:Hn; [|exact Hst].
  apply next_free_free in Hn as (Hf & _ & _).
  apply unit_free_tests in Hf as (_ & _ & H3).
  pose proof (take_unit_js ns n gres_cnt st j g) as Hjs.
  destruct (take_unit ns n gres_cnt st j g) as [st' i'] eqn:Ht. simpl in Hjs.
  apply IH. rewrite Hjs. apply only_free_added_take; assumption.
Qed.

Lemma pick_gres_topo_only_free sg ns n gres_needed socket_index st :
  only_free_added ns n (ps_js st)
    (ps_js (snd (_pick_gres_topo sg ns gres_needed n socket_index st))).
Proof.
  unfold _pick_gres_topo.
  destruct (sock_bits_of sg socket_index) as [sb|];
    [|apply only_free_added_refl].
  pose proof (pick_loop_only_free sb ns n (length (bit_select_at (ps_js st) n))
                (ps_js st) (Z.to_nat (u64 gres_needed)) 0 st
                (only_free_added_refl ns n (ps_js st))) as H.
  destruct (pick_loop _ _ _ _ _ _ _) as [st' k']. exact H.
Qed.

(** C2, amended: every bit the unit picker [_pick_gres_topo] sets in
    gres_bit_select[n], alone or inside one of the five strategies built on
    it, is the index of a unit that is not set in gres_bit_alloc.  (The
    shared picker is not covered: it does not look at gres_bit_alloc.) *)
Theorem unit_pickers_avoid_allocated (E : slurm_env) (n : nat)
    (sg : sock_gres_t) (ns : gres_node_state) :
  (forall gres_needed socket_index st,
     only_free_added ns n (ps_js st)
       (ps_js (snd (_pick_gres_topo sg ns gres_needed n socket_index st)))) /\
  (forall used_sock js,
     only_free_added ns n js (_set_node_bits n sg ns used_sock js)) /\
  (forall tres_mc_ptr used_cores_on_sock used_sock_cnt js,
     only_free_added ns n js
       (_set_sock_bits n sg ns tres_mc_ptr used_cores_on_sock used_sock_cnt js)) /\
  (forall tasks_per_socket js,
     only_free_added ns n js (_set_task_bits n sg ns tasks_per_socket js)) /\
  (forall job_node_inx rem_nodes tres_mc_ptr cpus_per_core cores_on_sock
          total_cores js,
     only_free_added ns n js
       (snd (_set_job_bits1 E n job_node_inx rem_nodes sg ns tres_mc_ptr
               cpus_per_core cores_on_sock total_cores js))) /\
  (forall js, only_free_added ns n js (snd (_set_job_bits2 n sg ns js))).
Proof.
  repeat split; intros.
  - apply pick_gres_topo_only_free.
  - apply set_node_bits_kept; [apply only_free_added_kept | apply only_free_added_refl].
  - apply set_sock_bits_kept; [apply only_free_added_kept | apply only_free_added_refl].
  - apply set_task_bits_kept; [apply only_free_added_kept | apply only_free_added_refl].
  - apply set_job_bits1_kept; [apply only_free_added_kept | apply only_free_added_refl].
  - apply set_job_bits2_kept; [apply only_free_added_kept | apply only_free_added_refl].
Qed.

(** ** The return value of the first per-job pass *)

Lemma set_job_bits1_fini E n job_node_inx rem_nodes sg ns tres_mc_ptr
    cpus_per_core cores_on_sock total_cores js :
  let r := _set_job_bits1 E n job_node_inx rem_nodes sg ns tres_mc_ptr
             cpus_per_core cores_on_sock total_cores js in
  fst r = if total_gres (snd r) >=? gres_per_job (snd r) then 1
          else if gres_per_job js =? total_gres js then 1 else 0.
Proof.
  unfold _set_job_bits1.
  destruct (job1_prune _ _ _ _ _ _) as [js5 alloc5]. reflexivity.
Qed.

Lemma picks_keep_request ns n r :
  kept_by_picks ns n (fun js => request_of js = r).
Proof. exact (kn_picks _ _ _ _ _ (request_kept ns n 0 r)). Qed.

(** [_set_job_bits1] returns fini = 1 if and only if total_gres has
    reached gres_per_job when it returns, or total_gres was equal to
    gres_per_job when it was called (the test of line 804, made before the
    reset of total_gres on the job's first node). *)
Lemma set_job_bits1_fini_iff (E : slurm_env) (n : nat)
    (job_node_inx rem_nodes : Z) (sg : sock_gres_t) (ns : gres_node_state)
    (tres_mc_ptr : option gres_mc_data) (cpus_per_core : Z)
    (cores_on_sock : list Z) (total_cores : Z) (js : gres_job_state) :
  let r := _set_job_bits1 E n job_node_inx rem_nodes sg ns tres_mc_ptr
             cpus_per_core cores_on_sock total_cores js in
  gres_per_job (snd r) = gres_per_job js /\
  (fst r = 1 <->
   gres_per_job js <= total_gres (snd r) \/ total_gres js = gres_per_job js).
Proof.
  intros r.
  assert (Hreq : request_of (snd r) = request_of js).
  { apply (set_job_bits1_kept E ns n (fun x => request_of x = request_of js)
             (picks_keep_request ns n _)). reflexivity. }
  assert (Hpj : gres_per_job (snd r) = gres_per_job js).
  { unfold request_of in Hreq. congruence. }
  split; [exact Hpj|].
  subst r. rewrite set_job_bits1_fini. rewrite Hpj.
  destruct (Z.geb_spec (total_gres (snd (_set_job_bits1 E n job_node_inx rem_nodes
                          sg ns tres_mc_ptr cpus_per_core cores_on_sock
                          total_cores js))) (gres_per_job js)) as [Hge|Hlt].
  - split; [intros _; left; lia | reflexivity].
  - destruct (Z.eqb_spec (gres_per_job js) (total_gres js)) as [He|Hne].
    + split; [intros _; right; congruence | reflexivity].
    + split; [discriminate | intros [H|H]; [lia | congruence]].
Qed.

(** ** Entry without resources *)

(** C10: a job record without job_resrcs, or whose job_resrcs has no
    node_bitmap, makes the selection return the generic error at once; the
    memory, and so every output field, is as it was. *)
Theorem select_and_set_without_resources (E : slurm_env)
    (sock_gres_list : list (list sock_gres_t)) (job_ptr : job_record)
    (tres_mc_ptr : option gres_mc_data) (h : heap) :
  job_resrcs job_ptr = None \/
  (exists job_res, job_resrcs job_ptr = Some job_res /\
                   node_bitmap job_res = None) ->
  gres_select_filter_select_and_set E sock_gres_list job_ptr tres_mc_ptr h
  = (SLURM_ERROR, h).
Proof.
  unfold gres_select_filter_select_and_set.
  intros [-> | (job_res & -> & ->)]; reflexivity.
Qed.

(** ** The counts of a selection *)

(** *** Bits and sums *)

Lemma popcount_le (b : bitstr) : (popcount b <= length b)%nat.
Proof. induction b as [|[] b IH]; simpl; lia. Qed.

Lemma popcount_replicate k : popcount (replicate k false) = 0%nat.
Proof. induction k as [|k IH]; simpl; [reflexivity | exact IH]. Qed.

Lemma popcount_set (b : bitstr) : forall g,
  b !! g = Some false -> popcount (<[g := true]> b) = S (popcount b).
Proof.
  induction b as [|x b IH]; intros g Hg; [discriminate|].
  destruct g as [|g]; simpl in *.
  - inversion Hg; subst. reflexivity.
  - destruct x; rewrite (IH g Hg); reflexivity.
Qed.

Lemma popcount_clear (b : bitstr) : forall g,
  b !! g = Some true -> S (popcount (<[g := false]> b)) = popcount b.
Proof.
  induction b as [|x b IH]; intros g Hg; [discriminate|].
  destruct g as [|g]; simpl in *.
  - inversion Hg; subst. reflexivity.
  - destruct x; rewrite <- (IH g Hg); reflexivity.
Qed.

Lemma bit_test_false_lookup (b : bitstr) g :
  (g < length b)%nat -> bit_test b g = false -> b !! g = Some false.
Proof.
  unfold bit_test. intros Hg Ht.
  destruct (lookup_lt_is_Some_2 b g Hg) as [x Hx].
  rewrite Hx in Ht |- *. simpl in Ht. congruence.
Qed.

Lemma bit_test_true_lookup (b : bitstr) g :
  bit_test b g = true -> b !! g = Some true.
Proof.
  unfold bit_test. destruct (b !! g) as [x|]; simpl; congruence.
Qed.

Lemma zget_insert_eq (l : list Z) t v :
  (t < length l)%nat -> zget (<[t := v]> l) t = v.
Proof. intros Ht. unfold zget. rewrite list_lookup_insert_eq by exact Ht. reflexivity. Qed.

Lemma zget_insert_ne (l : list Z) t u v :
  t <> u -> zget (<[t := v]> l) u = zget l u.
Proof. intros Ht. unfold zget. rewrite list_lookup_insert_ne by exact Ht. reflexivity. Qed.

Lemma zget_replicate k t : zget (replicate k 0) t = 0.
Proof.
  unfold zget. destruct (replicate k 0 !! t) as [x|] eqn:Hx; [|reflexivity].
  apply lookup_replicate in Hx as [-> _]. reflexivity.
Qed.

(** The sum of the entries of [l] at the positions [a .. a + k - 1] after
    a write at position [t]. *)
Lemma zsum_seq_insert (l : list Z) t v k : forall a,
  (t < length l)%nat ->
  zsum (map (zget (<[t := v]> l)) (seq a k)) =
  zsum (map (zget l) (seq a k)) +
  (if decide (a <= t < a + k)%nat then v - zget l t else 0).
Proof.
  induction k as [|k IH]; intros a Ht; simpl.
  - destruct (decide _); lia.
  - rewrite (IH (S a) Ht).
    destruct (decide (t = a)) as [->|Hne].
    + rewrite zget_insert_eq by exact Ht.
      destruct (decide (S a <= a < S a + k)%nat); [lia|].
      destruct (decide (a <= a < a + S k)%nat); lia.
    + rewrite zget_insert_ne by exact Hne.
      destruct (decide (S a <= t < S a + k)%nat);
        destruct (decide (a <= t < a + S k)%nat); lia.
Qed.

Lemma zsum_map_le (f g : nat -> Z) (l : list nat) :
  (forall t, t ∈ l -> f t <= g t) -> zsum (map f l) <= zsum (map g l).
Proof.
  induction l as [|x l IH]; intros H; simpl; [lia|].
  pose proof (H x ltac:(left)) as Hx.
  assert (zsum (map f l) <= zsum (map g l)).
  { apply IH. intros t Ht. apply H. right. exact Ht. }
  lia.
Qed.

Lemma zsum_map_zero (f : nat -> Z) (l : list nat) :
  (forall t, t ∈ l -> f t = 0) -> zsum (map f l) = 0.
Proof.
  induction l as [|x l IH]; intros H; simpl; [reflexivity|].
  rewrite (H x ltac:(left)), IH; [reflexivity|].
  intros t Ht. apply H. right. exact Ht.
Qed.

Lemma get_gres_node_cnt_range ns : - 2 ^ 31 <= _get_gres_node_cnt ns < 2 ^ 31.
Proof.
  assert (Hs : forall x, - 2 ^ 31 <= s32 x < 2 ^ 31).
  { intros x. unfold s32.
    pose proof (Z.mod_pos_bound (x + 2 ^ 31) (2 ^ 32) ltac:(lia)). lia. }
  unfold _get_gres_node_cnt.
  destruct (gres_bit_alloc ns); [apply Hs|].
  assert (Hf : - 2 ^ 31 <=
               foldl (fun gres_cnt i =>
                        s32 (gres_cnt + zget_opt (topo_gres_cnt_avail ns) i))
                     0 (seq 0 (Z.to_nat (topo_cnt ns))) < 2 ^ 31).
  { apply (foldl_inv (fun x => - 2 ^ 31 <= x < 2 ^ 31)); [lia|].
    intros a b _. apply Hs. }
  destruct (topo_gres_bitmap ns) as [[|[b|] l]|]; first [apply Hs | exact Hf].
Qed.

(** *** The slots of a node under the writes *)

Lemma has_bit_slot_write m b js n :
  has_bit_slot js n -> has_bit_slot (write_bit_select m b js) n.
Proof.
  intros (l & Hl & Hn). exists (<[m := b]> l). split.
  - unfold write_bit_select. simpl. rewrite Hl. reflexivity.
  - rewrite length_insert. exact Hn.
Qed.

Lemma has_cnt_slot_write m v js n :
  has_cnt_slot js n -> has_cnt_slot (write_cnt_node_select m v js) n.
Proof.
  intros (l & Hl & Hn). exists (<[m := v]> l). split.
  - unfold write_cnt_node_select. simpl. rewrite Hl. reflexivity.
  - rewrite length_insert. exact Hn.
Qed.

Lemma has_per_bit_slot_write m v js n :
  has_per_bit_slot js n -> has_per_bit_slot (write_per_bit_select m v js) n.
Proof.
  intros (l & Hl & Hn). exists (<[m := v]> l). split.
  - unfold write_per_bit_select. simpl. rewrite Hl. reflexivity.
  - rewrite length_insert. exact Hn.
Qed.

Lemma bit_select_ptr_write n b js :
  has_bit_slot js n -> bit_select_ptr (write_bit_select n b js) n = b.
Proof.
  intros (l & Hl & Hn). unfold bit_select_ptr, write_bit_select.
  simpl. rewrite Hl. simpl. rewrite list_lookup_insert_eq by exact Hn. reflexivity.
Qed.

(** *** The unit picker counts its bits *)

Lemma bits_counted_take n g js :
  bits_counted js n -> (g < length (bit_select_at js n))%nat ->
  bit_test (bit_select_at js n) g = false ->
  bits_counted (take_bit n g js) n.
Proof.
  intros (Hb & Hc & Hlen & Heq) Hg Hsel. unfold take_bit.
  set (b := bit_select_at js n) in *.
  set (js1 := write_bit_select n (Some (bit_set b g)) js).
  assert (Hb1 : has_bit_slot js1 n) by (apply has_bit_slot_write; exact Hb).
  assert (Hc1 : has_cnt_slot js1 n) by exact Hc.
  assert (Hs1 : bit_select_at js1 n = bit_set b g)
    by (apply bit_select_at_write; exact Hb).
  assert (Hn1 : cnt_node_select_at js1 n = cnt_node_select_at js n) by reflexivity.
  assert (Hp : bit_set_count (bit_set b g) = bit_set_count b + 1).
  { unfold bit_set_count, bit_set.
    rewrite (popcount_set b g (bit_test_false_lookup b g Hg Hsel)). lia. }
  pose proof (popcount_le (bit_set b g)) as Hle.
  assert (Hl1 : length (bit_set b g) = length b) by apply length_insert.
  split; [exact Hb1|]. split; [apply has_cnt_slot_write; exact Hc1|].
  change (bit_select_at (write_cnt_node_select n
            (u64 (cnt_node_select_at js1 n + 1)) js1) n)
    with (bit_select_at js1 n).
  rewrite Hs1, Hl1. split; [exact Hlen|].
  rewrite cnt_at_write by exact Hc1. rewrite Hn1, Hp, <- Heq.
  unfold bit_set_count in *. rewrite u64_small; [reflexivity | lia].
Qed.

Lemma bits_counted_drop n g js :
  bits_counted js n -> bit_test (bit_select_at js n) g = true ->
  bits_counted (drop_bit n g js) n.
Proof.
  intros (Hb & Hc & Hlen & Heq) Hsel. unfold drop_bit.
  set (b := bit_select_at js n) in *.
  set (js1 := write_bit_select n (Some (bit_clear b g)) js).
  assert (Hb1 : has_bit_slot js1 n) by (apply has_bit_slot_write; exact Hb).
  assert (Hc1 : has_cnt_slot js1 n) by exact Hc.
  assert (Hs1 : bit_select_at js1 n = bit_clear b g)
    by (apply bit_select_at_write; exact Hb).
  assert (Hn1 : cnt_node_select_at js1 n = cnt_node_select_at js n) by reflexivity.
  assert (Hp : bit_set_count (bit_clear b g) + 1 = bit_set_count b).
  { unfold bit_set_count, bit_clear.
    rewrite <- (popcount_clear b g (bit_test_true_lookup b g Hsel)). lia. }
  pose proof (popcount_le b) as Hle.
  assert (Hl1 : length (bit_clear b g) = length b) by apply length_insert.
  split; [exact Hb1|]. split; [apply has_cnt_slot_write; exact Hc1|].
  change (bit_select_at (write_cnt_node_select n
            (u64 (cnt_node_select_at js1 n - 1)) js1) n)
    with (bit_select_at js1 n).
  rewrite Hs1, Hl1. split; [exact Hlen|].
  rewrite cnt_at_write by exact Hc1. rewrite Hn1, <- Heq.
  unfold bit_set_count in *. rewrite u64_small; lia.
Qed.

Lemma bits_counted_kept ns n : kept_by_picks ns n (fun js => bits_counted js n).
Proof.
  split.
  - intros js g Hjs Hg Hsel _. apply bits_counted_take; assumption.
  - intros js g Hjs Hsel. apply bits_counted_drop; assumption.
  - intros js v Hjs _. exact Hjs.
Qed.

(** *** The shared picker counts its shares *)

Lemma slot_sum_bounds ns js n :
  (forall t, (t < Z.to_nat (topo_cnt ns))%nat ->
     0 <= zget (per_bit_select_at js n) t <= slot_room ns t) ->
  0 <= slot_sum ns js n <=
  zsum (map (slot_room ns) (seq 0 (Z.to_nat (topo_cnt ns)))).
Proof.
  intros Hb. unfold slot_sum. split.
  - rewrite <- (zsum_map_zero (fun _ => 0) (seq 0 (Z.to_nat (topo_cnt ns))))
      by reflexivity.
    apply zsum_map_le. intros t Ht. apply elem_of_seq in Ht. apply Hb. lia.
  - apply zsum_map_le. intros t Ht. apply elem_of_seq in Ht. apply Hb. lia.
Qed.

Lemma shares_counted_draw ns n js t needed :
  shares_ok ns -> shares_counted ns js n ->
  0 <= needed -> (t < Z.to_nat (topo_cnt ns))%nat ->
  MIN (slot_cnt_avail ns js n t) needed <> 0 ->
  shares_counted ns
    (shared_take n t (MIN (slot_cnt_avail ns js n t) needed) js) n.
Proof.
  intros (Hcap & Hsum & _) (Hc & Hpb & Hlen & Hbnd & Heq & Htask) Hneed Ht.
  set (pb := per_bit_select_at js n) in *.
  pose proof (Hbnd t Ht) as Hpt. pose proof (Hcap t Ht) as Hct.
  assert (Hav : slot_cnt_avail ns js n t = slot_room ns t - zget pb t).
  { unfold slot_cnt_avail, slot_room in *. fold pb.
    rewrite (u64_small (zget_opt (topo_gres_cnt_avail ns) t
                        - zget_opt (topo_gres_cnt_alloc ns) t)) by lia.
    rewrite u64_small by lia. reflexivity. }
  rewrite Hav. set (c := MIN (slot_room ns t - zget pb t) needed). intros Hc0.
  assert (Hcr : 0 < c <= slot_room ns t - zget pb t).
  { subst c. unfold MIN in *. destruct (_ <? _) eqn:Hlt; lia. }
  unfold shared_take.
  set (js1 := write_bit_select n (Some (bit_set (bit_select_at js n) t)) js).
  set (js2 := write_cnt_node_select n (u64 (cnt_node_select_at js1 n + c)) js1).
  change (per_bit_select_at js2 n) with pb.
  set (pb' := <[t := u64 (zget pb t + c)]> pb).
  set (js3 := write_per_bit_select n (Some pb') js2).
  assert (Hc2 : has_cnt_slot js2 n) by (apply has_cnt_slot_write; exact Hc).
  assert (Hpb3 : per_bit_select_at js3 n = pb')
    by (apply per_bit_at_write; exact Hpb).
  assert (Hbnd' : forall u, (u < Z.to_nat (topo_cnt ns))%nat ->
                    0 <= zget pb' u <= slot_room ns u).
  { intros u Hu. subst pb'. destruct (decide (t = u)) as [<-|Hne].
    - rewrite zget_insert_eq by lia. rewrite u64_small by (unfold slot_room in *; lia).
      lia.
    - rewrite zget_insert_ne by exact Hne. apply Hbnd. exact Hu. }
  assert (Hs3 : slot_sum ns js3 n = slot_sum ns js n + c).
  { unfold slot_sum. rewrite Hpb3. fold pb. subst pb'.
    rewrite zsum_seq_insert by lia.
    destruct (decide (0 <= t < 0 + Z.to_nat (topo_cnt ns))%nat); [|lia].
    rewrite u64_small by (unfold slot_room in *; lia). lia. }
  pose proof (slot_sum_bounds ns js n Hbnd) as Hb0.
  assert (Hb3 : 0 <= slot_sum ns js3 n <=
                zsum (map (slot_room ns) (seq 0 (Z.to_nat (topo_cnt ns))))).
  { apply slot_sum_bounds. rewrite Hpb3. exact Hbnd'. }
  split; [exact Hc2|]. split; [apply has_per_bit_slot_write; exact Hpb|].
  rewrite Hpb3. split; [subst pb'; rewrite length_insert; exact Hlen|].
  split; [exact Hbnd'|]. split; [|exact Htask].
  rewrite Hs3.
  change (cnt_node_select_at js3 n) with (cnt_node_select_at js2 n).
  unfold js2. rewrite cnt_at_write by exact Hc.
  change (cnt_node_select_at js1 n) with (cnt_node_select_at js n).
  rewrite <- Heq. rewrite u64_small; [reflexivity | lia].
Qed.

(** *** The job states stay well formed *)

Lemma job_state_ok_write_bit N m b js :
  job_state_ok N js -> job_state_ok N (write_bit_select m b js).
Proof.
  intros (H1 & H2 & H3 & H4 & H5 & H6 & H7).
  repeat split; try assumption. intros l Hl.
  unfold write_bit_select in Hl. simpl in Hl.
  destruct (gres_bit_select js) as [l0|]; [|discriminate].
  inversion Hl; subst. rewrite length_insert. apply H6. reflexivity.
Qed.

Lemma job_state_ok_write_cnt N m v js :
  job_state_ok N js -> job_state_ok N (write_cnt_node_select m v js).
Proof.
  intros (H1 & H2 & H3 & H4 & H5 & H6 & H7).
  repeat split; try assumption. intros l Hl.
  unfold write_cnt_node_select in Hl. simpl in Hl.
  destruct (gres_cnt_node_select js) as [l0|]; [|discriminate].
  inversion Hl; subst. rewrite length_insert. apply H5. reflexivity.
Qed.

Lemma job_state_ok_write_per_bit N m v js :
  job_state_ok N js -> job_state_ok N (write_per_bit_select m v js).
Proof.
  intros (H1 & H2 & H3 & H4 & H5 & H6 & H7).
  repeat split; try assumption. intros l Hl.
  unfold write_per_bit_select in Hl. simpl in Hl.
  destruct (gres_per_bit_select js) as [l0|]; [|discriminate].
  inversion Hl; subst. rewrite length_insert. apply H7. reflexivity.
Qed.

Lemma job_state_ok_kept ns n N :
  Z.of_nat N < 2 ^ 32 ->
  kept_by_node ns n (Z.of_nat N) (fun x => 0 <= x) (job_state_ok N).
Proof.
  intros HN. split.
  - split.
    + intros js g Hjs _ _ _. unfold take_bit.
      apply job_state_ok_write_cnt, job_state_ok_write_bit, Hjs.
    + intros js g Hjs _. unfold drop_bit.
      apply job_state_ok_write_cnt, job_state_ok_write_bit, Hjs.
    + intros js v (H1 & H2 & H3 & H4 & H5 & H6 & H7) Hv.
      repeat split; try assumption. simpl. lia.
  - intros js t needed Hjs _ _ _ _. unfold shared_take.
    apply job_state_ok_write_per_bit, job_state_ok_write_cnt,
      job_state_ok_write_bit, Hjs.
  - intros js (H1 & H2 & H3 & _). split; assumption.
  - intros js (H1 & H2 & H3 & H4 & H5 & H6 & H7) Hz.
    repeat split; try assumption. simpl. right.
    unfold u32. rewrite Z.mod_small by lia. lia.
  - intros js (H1 & H2 & H3 & H4 & H5 & H6 & H7) Hnone.
    repeat split; try assumption. simpl. intros l Hl. inversion Hl; subst.
    rewrite length_replicate. lia.
  - intros js (H1 & H2 & H3 & H4 & H5 & H6 & H7) Hnone.
    repeat split; try assumption. simpl. intros l Hl. inversion Hl; subst.
    rewrite length_replicate. lia.
  - intros js (H1 & H2 & H3 & H4 & H5 & H6 & H7) Hnone Hcnt.
    repeat split; try assumption. simpl. intros l Hl. inversion Hl; subst.
    rewrite length_replicate. destruct H4 as [Hz|Hge]; [|lia].
    apply Hcnt in Hz. unfold u32 in Hz. rewrite Z.mod_small in Hz by lia. lia.
  - intros js v. apply job_state_ok_write_cnt.
  - intros js b. apply job_state_ok_write_bit.
  - intros js l. apply job_state_ok_write_per_bit.
Qed.

(** *** A visit to a node leaves the outputs of the other nodes *)

Lemma node_view_write_bit n m b js :
  m <> n -> node_view (write_bit_select m b js) n = node_view js n.
Proof.
  intros Hm. unfold node_view. rewrite bit_select_ptr_write_ne by congruence.
  reflexivity.
Qed.

Lemma node_view_write_cnt n m v js :
  m <> n -> node_view (write_cnt_node_select m v js) n = node_view js n.
Proof.
  intros Hm. unfold node_view. rewrite cnt_at_write_ne by congruence.
  reflexivity.
Qed.

Lemma node_view_write_per_bit n m v js :
  m <> n -> node_view (write_per_bit_select m v js) n = node_view js n.
Proof.
  intros Hm. unfold node_view. rewrite per_bit_at_write_ne by congruence.
  reflexivity.
Qed.

Lemma view_kept_write_bit n js0 m b js :
  m <> n -> view_kept n js0 js -> view_kept n js0 (write_bit_select m b js).
Proof.
  intros Hm (Hv & Hb & Hc). split; [|split].
  - rewrite node_view_write_bit by exact Hm. exact Hv.
  - intros H. apply has_bit_slot_write, Hb, H.
  - exact Hc.
Qed.

Lemma view_kept_write_cnt n js0 m v js :
  m <> n -> view_kept n js0 js -> view_kept n js0 (write_cnt_node_select m v js).
Proof.
  intros Hm (Hv & Hb & Hc). split; [|split].
  - rewrite node_view_write_cnt by exact Hm. exact Hv.
  - exact Hb.
  - intros H. apply has_cnt_slot_write, Hc, H.
Qed.

Lemma view_kept_write_per_bit n js0 m v js :
  m <> n -> view_kept n js0 js -> view_kept n js0 (write_per_bit_select m v js).
Proof.
  intros Hm (Hv & Hb & Hc). split; [|split].
  - rewrite node_view_write_per_bit by exact Hm. exact Hv.
  - exact Hb.
  - exact Hc.
Qed.

Lemma view_kept_refl n js : view_kept n js js.
Proof. split; [reflexivity|]. split; intros H; exact H. Qed.

Lemma view_kept_other_node ns n m node_cnt js0 :
  m <> n -> kept_by_node ns m node_cnt (fun _ => True) (view_kept n js0).
Proof.
  intros Hm. split.
  - split.
    + intros js g Hjs _ _ _. unfold take_bit.
      apply view_kept_write_cnt, view_kept_write_bit; assumption.
    + intros js g Hjs _. unfold drop_bit.
      apply view_kept_write_cnt, view_kept_write_bit; assumption.
    + intros js v Hjs _. exact Hjs.
  - intros js t needed Hjs _ _ _ _. unfold shared_take.
    apply view_kept_write_per_bit, view_kept_write_cnt, view_kept_write_bit;
      assumption.
  - intros js _. split; exact I.
  - intros js Hjs _. exact Hjs.
  - intros js (Hv & Hb & Hc) Hnone. split; [|split].
    + rewrite <- Hv. unfold node_view, cnt_node_select_at, zget_opt. simpl.
      rewrite Hnone. simpl. rewrite zget_replicate. reflexivity.
    + exact Hb.
    + intros H. destruct (Hc H) as (l & Hl & _). congruence.
  - intros js (Hv & Hb & Hc) Hnone. split; [|split].
    + rewrite <- Hv. unfold node_view, bit_select_ptr. simpl.
      rewrite Hnone.
      destruct (replicate (Z.to_nat node_cnt) None !! n) as [x|] eqn:Hx;
        [|reflexivity].
      apply lookup_replicate in Hx as [-> _]. reflexivity.
    + intros H. destruct (Hb H) as (l & Hl & _). congruence.
    + exact Hc.
  - intros js (Hv & Hb & Hc) Hnone _. split; [|split].
    + rewrite <- Hv. unfold node_view, per_bit_select_at. simpl.
      rewrite Hnone.
      destruct (replicate (Z.to_nat (total_node_cnt js)) None !! n) as [x|] eqn:Hx;
        [|reflexivity].
      apply lookup_replicate in Hx as [-> _]. reflexivity.
    + exact Hb.
    + exact Hc.
  - intros js v. apply view_kept_write_cnt. exact Hm.
  - intros js b. apply view_kept_write_bit. exact Hm.
  - intros js l. apply view_kept_write_per_bit. exact Hm.
Qed.

(** *** The visit of a record counts what it selects *)

Section visit_counts.
Context (E : slurm_env) (job_ptr : job_record) (job_res : job_resources)
        (tres_mc_ptr : option gres_mc_data).

Lemma dispatch_pick_units (ns : gres_node_state) (n : nat)
    (P : gres_job_state -> Prop) sg gsj gsn a js :
  kept_by_picks ns n P -> node_inx a = n ->
  gres_id_shared E (config_flags gsj) = false -> P js ->
  P (snd (dispatch_pick E job_ptr tres_mc_ptr sg gsj gsn ns a js)).
Proof.
  intros Hpicks Hn Hsh Hjs. unfold dispatch_pick. rewrite Hn, Hsh.
  destruct (nz (gres_per_node js)).
  { simpl. apply set_node_bits_kept; assumption. }
  destruct (nz (gres_per_socket js)).
  { simpl. apply set_sock_bits_kept; assumption. }
  destruct (nz (gres_per_task js)).
  { simpl. apply set_task_bits_kept; assumption. }
  destruct (nz (gres_per_job js)); [|exact Hjs].
  pose proof (set_job_bits1_kept E ns n P Hpicks (job_node_inx a)
                (rem_node_cnt a) sg tres_mc_ptr
                (tpc (node_record_table_ptr E n))
                (default [] (used_cores_on_sock a)) (used_core_cnt a) js Hjs) as H.
  destruct (_set_job_bits1 _ _ _ _ _ _ _ _ _ _ _) as [tmp js2]. exact H.
Qed.

Lemma dispatch_pick_shares (ns : gres_node_state) (n : nat) sg gsj gsn a js :
  shares_ok ns -> node_inx a = n ->
  gres_id_shared E (config_flags gsj) = true ->
  shares_counted ns (_init_gres_per_bit_select js n) n ->
  0 <= gres_per_node (_init_gres_per_bit_select js n) ->
  shares_counted ns
    (snd (dispatch_pick E job_ptr tres_mc_ptr sg gsj gsn ns a js)) n.
Proof.
  intros Hok Hn Hsh Hi Hpn. unfold dispatch_pick. rewrite Hn, Hsh.
  set (js1 := _init_gres_per_bit_select js n) in *.
  assert (Hdraw : forall js t needed,
            shares_counted ns js n -> 0 <= needed -> needed <> 0 ->
            (t < Z.to_nat (topo_cnt ns))%nat ->
            MIN (slot_cnt_avail ns js n t) needed <> 0 ->
            shares_counted ns
              (shared_take n t (MIN (slot_cnt_avail ns js n t) needed) js) n /\
            0 <= u64 (needed - MIN (slot_cnt_avail ns js n t) needed)).
  { intros js0 t needed H1 H2 _ H4 H5.
    split; [apply shares_counted_draw; assumption | apply u64_range]. }
  assert (HGu : forall x, 0 <= u64 x) by (intros x; apply u64_range).
  assert (HGt : forall js, shares_counted ns js n -> 0 <= gres_per_task js).
  { intros js0 H. apply H. }
  destruct (nz (gres_per_node js1)).
  - pose proof (set_shared_node_bits_kept E ns n (fun js => shares_counted ns js n)
                  (fun x => 0 <= x) Hdraw sg gsn
                  (nz (Z.land (bit_flags job_ptr) (GRES_ENFORCE_BIND E)))
                  (default [] (used_cores_on_sock a)) js1 Hi Hpn) as H.
    destruct (_set_shared_node_bits _ _ _ _ _ _ _ _) as [r js2]. exact H.
  - destruct (nz (gres_per_task js1)); [|exact Hi].
    pose proof (set_shared_task_bits_kept E ns n (fun js => shares_counted ns js n)
                  (fun x => 0 <= x) Hdraw HGu HGt sg gsn
                  (nz (Z.land (bit_flags job_ptr) (GRES_ENFORCE_BIND E)))
                  (nz (Z.land (bit_flags job_ptr) (GRES_ONE_TASK_PER_SHARING E)))
                  (tasks_on_node a) js1 Hi) as H.
    destruct (_set_shared_task_bits _ _ _ _ _ _ _ _ _) as [r js2]. exact H.
Qed.

(** The state the pickers start from: the slots of node [n] are there,
    with an empty bitmap and a zero count. *)
Lemma init_select_fresh (ns : gres_node_state) (N : nat) first_node gres_cnt
    (n : nat) js :
  Z.of_nat N < 2 ^ 32 -> (n < N)%nat -> job_state_ok N js ->
  let js5 := init_bit_select (Z.of_nat N) gres_cnt n
               (init_node_select (Z.of_nat N) first_node js) in
  job_state_ok N js5 /\ has_bit_slot js5 n /\ has_cnt_slot js5 n /\
  bit_select_at js5 n = bit_alloc gres_cnt /\ cnt_node_select_at js5 n = 0 /\
  total_node_cnt js5 <> 0.
Proof.
  intros HN Hn Hjs.
  pose proof (job_state_ok_kept ns n N HN) as HK.
  pose proof (init_node_select_kept ns n (Z.of_nat N) _ _ HK first_node js Hjs) as H3.
  pose proof (init_node_select_cnt (Z.of_nat N) first_node js) as Hc3.
  assert (Hs3 : exists l, gres_cnt_node_select
                            (init_node_select (Z.of_nat N) first_node js) = Some l).
  { unfold init_node_select.
    destruct (total_node_cnt js =? 0), first_node; simpl;
      destruct (gres_cnt_node_select js) eqn:Hl; simpl; rewrite ?Hl; eauto. }
  set (js3 := init_node_select (Z.of_nat N) first_node js) in *.
  clearbody js3. intros js5.
  pose proof (init_bit_select_kept ns n (Z.of_nat N) _ _ HK gres_cnt js3 H3) as H5.
  fold js5 in H5.
  assert (Hcs : has_cnt_slot js3 n).
  { destruct Hs3 as [l Hl]. exists l. split; [exact Hl|].
    destruct H3 as (_ & _ & _ & _ & H & _). specialize (H l Hl). lia. }
  subst js5. unfold init_bit_select in *.
  set (js4 := match gres_bit_select js3 with
              | Some _ => js3
              | None => set_gres_bit_select
                          (Some (replicate (Z.to_nat (Z.of_nat N)) None)) js3
              end) in *.
  assert (Hb4 : has_bit_slot js4 n).
  { subst js4. destruct (gres_bit_select js3) as [l|] eqn:Hl.
    - exists l. split; [exact Hl|].
      destruct H3 as (_ & _ & _ & _ & _ & H & _). specialize (H l Hl). lia.
    - eexists. split; [reflexivity|]. rewrite length_replicate. lia. }
  assert (Hc4 : has_cnt_slot js4 n).
  { subst js4. destruct (gres_bit_select js3); exact Hcs. }
  assert (Ht4 : total_node_cnt js4 = total_node_cnt js3).
  { subst js4. destruct (gres_bit_select js3); reflexivity. }
  clearbody js4.
  split; [exact H5|].
  split; [apply has_bit_slot_write; exact Hb4|].
  split; [apply has_cnt_slot_write; exact Hc4|].
  split; [apply (bit_select_at_write n (bit_alloc gres_cnt) js4 Hb4)|].
  split; [apply cnt_at_write; exact Hc4|].
  simpl. rewrite Ht4. intros Hz. apply Hc3 in Hz.
  unfold u32 in Hz. rewrite Z.mod_small in Hz by lia. lia.
Qed.

Lemma init_per_bit_fresh (ns : gres_node_state) (N n : nat) js :
  shares_ok ns -> job_state_ok N js -> (n < N)%nat -> total_node_cnt js <> 0 ->
  has_cnt_slot js n -> bit_select_at js n = bit_alloc (_get_gres_node_cnt ns) ->
  cnt_node_select_at js n = 0 ->
  shares_counted ns (_init_gres_per_bit_select js n) n /\
  job_state_ok N (_init_gres_per_bit_select js n).
Proof.
  intros (Hcap & Hsum & Htopo) Hjs Hn Htot Hc Hsel Hcnt.
  unfold _init_gres_per_bit_select.
  set (js1 := match gres_per_bit_select js with
              | Some _ => js
              | None => set_gres_per_bit_select
                          (Some (replicate (Z.to_nat (total_node_cnt js)) None)) js
              end).
  assert (Hok1 : job_state_ok N js1).
  { subst js1. destruct (gres_per_bit_select js) eqn:Hpb; [exact Hjs|].
    destruct Hjs as (H1 & H2 & H3 & H4 & H5 & H6 & H7).
    repeat split; try assumption. simpl. intros l Hl. inversion Hl; subst.
    rewrite length_replicate. lia. }
  assert (Hp1 : has_per_bit_slot js1 n).
  { subst js1. destruct (gres_per_bit_select js) as [l|] eqn:Hl.
    - exists l. split; [exact Hl|].
      destruct Hjs as (_ & _ & _ & _ & _ & _ & H). specialize (H l Hl). lia.
    - eexists. split; [reflexivity|]. rewrite length_replicate.
      destruct Hjs as (_ & _ & _ & [H|H] & _); lia. }
  assert (Hs1 : bit_select_at js1 n = bit_select_at js n).
  { subst js1. destruct (gres_per_bit_select js); reflexivity. }
  assert (Hc1 : has_cnt_slot js1 n).
  { subst js1. destruct (gres_per_bit_select js); exact Hc. }
  assert (Hn1 : cnt_node_select_at js1 n = 0).
  { subst js1. destruct (gres_per_bit_select js); exact Hcnt. }
  clearbody js1. rewrite Hs1, Hsel.
  set (pb := replicate (Z.to_nat (bit_size (bit_alloc (_get_gres_node_cnt ns)))) 0).
  split; [|apply job_state_ok_write_per_bit; exact Hok1].
  assert (Hpb : per_bit_select_at (write_per_bit_select n (Some pb) js1) n = pb)
    by (apply per_bit_at_write; exact Hp1).
  split; [exact Hc1|]. split; [apply has_per_bit_slot_write; exact Hp1|].
  rewrite Hpb. split.
  { subst pb. rewrite length_replicate. unfold bit_size, bit_alloc.
    rewrite length_replicate. lia. }
  split.
  { intros t Ht. subst pb. rewrite zget_replicate.
    specialize (Hcap t Ht). unfold slot_room. lia. }
  split.
  { unfold slot_sum. rewrite Hpb. subst pb.
    rewrite zsum_map_zero; [symmetry; exact Hn1|].
    intros t _. apply zget_replicate. }
  destruct Hok1 as (_ & _ & H & _). exact H.
Qed.

Local Abbreviation rest_ :=
  (select_and_set_rest E job_ptr job_res tres_mc_ptr).

(** What [select_and_set_rest] stores for a record with topology. *)
Lemma select_and_set_rest_visited (N : nat) sg gsj gsn js ns a h :
  bit_size (default [] (node_bitmap job_res)) = Z.of_nat N ->
  Z.of_nat N < 2 ^ 32 -> (node_inx a < N)%nat ->
  job_state_ok N js -> topo_cnt ns <> 0 ->
  (gres_id_shared E (config_flags gsj) = true -> shares_ok ns) ->
  exists js',
    snd (rest_ sg gsj gsn js ns a h) = store_job_state sg js' h /\
    visited_ok (gres_id_shared E (config_flags gsj)) ns js' (node_inx a).
Proof.
  intros HNeq HN Hn Hjs Htopo Hsh.
  unfold select_and_set_rest. rewrite HNeq.
  set (a1 := if nz (gres_per_task js) && _ then _ else a).
  assert (Ha1 : node_inx a1 = node_inx a).
  { subst a1. destruct (nz (gres_per_task js) && _); reflexivity. }
  clearbody a1.
  destruct (Z.eqb_spec (topo_cnt ns) 0) as [|_]; [contradiction|].
  rewrite Ha1.
  match goal with
  | |- context [init_bit_select _ ?gc _ (init_node_select _ ?f js)] =>
      pose proof (init_select_fresh ns N f gc (node_inx a) js HN Hn Hjs)
        as (Hok5 & Hb5 & Hc5 & Hs5 & Hn5 & Ht5);
      set (js5 := init_bit_select (Z.of_nat N) gc (node_inx a)
                    (init_node_select (Z.of_nat N) f js)) in *
  end.
  clearbody js5.
  pose proof (dispatch_pick_node_inx E job_ptr tres_mc_ptr ns sg gsj gsn a1 js5) as Hni.
  destruct (gres_id_shared E (config_flags gsj)) eqn:Hshared.
  - specialize (Hsh eq_refl).
    pose proof (init_per_bit_fresh ns N (node_inx a) js5 Hsh Hok5 Hn Ht5 Hc5
                  Hs5 Hn5) as [Hi Hoki].
    pose proof (dispatch_pick_shares ns (node_inx a) sg gsj gsn a1 js5 Hsh Ha1
                  Hshared Hi ltac:(apply Hoki)) as Hd.
    destruct (dispatch_pick _ _ _ _ _ _ _ _ _) as [a2 js6]. simpl in *.
    eexists. split; [reflexivity|]. intros _.
    destruct (job_fini a2 =? -1); apply Hd.
  - pose proof (dispatch_pick_units ns (node_inx a)
                  (fun js => bits_counted js (node_inx a)) sg gsj gsn a1 js5
                  (bits_counted_kept ns (node_inx a)) Ha1 Hshared) as Hd.
    assert (H5 : bits_counted js5 (node_inx a)).
    { split; [exact Hb5|]. split; [exact Hc5|]. rewrite Hs5, Hn5.
      unfold bit_alloc, bit_set_count.
      rewrite length_replicate, popcount_replicate.
      pose proof (get_gres_node_cnt_range ns). split; [lia | reflexivity]. }
    specialize (Hd H5).
    destruct (dispatch_pick _ _ _ _ _ _ _ _ _) as [a2 js6]. simpl in *.
    eexists. split; [reflexivity|].
    destruct (job_fini a2 =? -1); exact Hd.
Qed.

End visit_counts.

(** *** The memory after a visit *)

Lemma store_lookup_eq sg js' h gsj :
  h_jobs h !! gres_state_job sg = Some gsj ->
  h_jobs (store_job_state sg js' h) !! gres_state_job sg =
  Some {| plugin_id := plugin_id gsj; config_flags := config_flags gsj;
          gres_data := Some js' |}.
Proof.
  intros Hg. unfold store_job_state. simpl. rewrite Hg.
  apply list_lookup_insert_eq. eapply lookup_lt_Some. exact Hg.
Qed.

Lemma store_lookup_ne sg js' h j :
  j <> gres_state_job sg ->
  h_jobs (store_job_state sg js' h) !! j = h_jobs h !! j.
Proof.
  intros Hj. unfold store_job_state. simpl.
  destruct (h_jobs h !! gres_state_job sg); [|reflexivity].
  apply list_lookup_insert_ne. congruence.
Qed.

Lemma visited_ok_view shared ns n js js' :
  view_kept n js js' -> visited_ok shared ns js n -> visited_ok shared ns js' n.
Proof.
  intros (Hv & Hb & Hc). unfold node_view in Hv.
  assert (Hptr : bit_select_ptr js' n = bit_select_ptr js n) by congruence.
  assert (Hcnt : cnt_node_select_at js' n = cnt_node_select_at js n) by congruence.
  assert (Hpb : per_bit_select_at js' n = per_bit_select_at js n) by congruence.
  assert (Hpj : gres_per_job js' = gres_per_job js).
  { assert (Hreq : request_of js' = request_of js) by congruence.
    unfold request_of in Hreq. congruence. }
  clear Hv. unfold visited_ok. destruct shared.
  - intros Hs Hz. unfold slot_sum in *. rewrite Hpb, Hcnt. apply Hs. congruence.
  - intros (Hs1 & Hs2 & Hs3 & Hs4). unfold bits_counted, bit_select_at in *.
    rewrite Hptr, Hcnt. auto.
Qed.

Lemma selection_inv_weaken E N h0 (D D' : sock_gres_t -> nat -> Prop) h :
  (forall sg n, D' sg n -> D sg n) ->
  selection_inv E N h0 D h -> selection_inv E N h0 D' h.
Proof.
  intros HD (H1 & H2 & H3 & H4).
  split; [exact H1|]. split; [exact H2|]. split; [exact H3|].
  intros sg n Hsg. apply H4, HD, Hsg.
Qed.

(** What a store of [js'] for the job state of [sg] keeps, when [js'] has
    the outputs of the other nodes as they were. *)
Lemma store_inv E N h0 (D : sock_gres_t -> nat -> Prop) sg n h gsj js js' :
  h_jobs h !! gres_state_job sg = Some gsj -> gres_data gsj = Some js ->
  job_state_ok N js' -> request_of js' = request_of js ->
  (forall n', n' <> n -> view_kept n' js js') ->
  (forall sg' ns', D sg' n -> gres_state_job sg' = gres_state_job sg ->
     visited_ok (gres_id_shared E (config_flags gsj)) ns' js n ->
     visited_ok (gres_id_shared E (config_flags gsj)) ns' js' n) ->
  selection_inv E N h0 D h -> selection_inv E N h0 D (store_job_state sg js' h).
Proof.
  intros Hgsj Hjs Hok Hreq Hview Hsame (Hjobs & Hnodes & Hrv & HD).
  split; [|split; [exact Hnodes | split]].
  - intros j gsj' js'' Hl Hd.
    destruct (decide (j = gres_state_job sg)) as [->|Hne].
    + rewrite (store_lookup_eq sg js' h gsj Hgsj) in Hl.
      inversion Hl; subst. simpl in Hd. inversion Hd; subst. exact Hok.
    + rewrite store_lookup_ne in Hl by exact Hne. eapply Hjobs; eassumption.
  - rewrite <- Hrv. eapply store_job_state_request; eassumption.
  - intros sg' n' HDsg gsj' js'' ns' Hl Hd Hns' Htopo.
    destruct (decide (gres_state_job sg' = gres_state_job sg)) as [He|Hne].
    + rewrite He, (store_lookup_eq sg js' h gsj Hgsj) in Hl.
      inversion Hl; subst. simpl in Hd. inversion Hd; subst. simpl.
      assert (Hold : visited_ok (gres_id_shared E (config_flags gsj)) ns' js n').
      { apply (HD sg' n' HDsg gsj js ns'); try assumption.
        rewrite He. exact Hgsj. }
      destruct (decide (n' = n)) as [->|Hn].
      * apply (Hsame sg' ns'); assumption.
      * apply (visited_ok_view _ _ _ js); [apply Hview; exact Hn | exact Hold].
    + rewrite store_lookup_ne in Hl by exact Hne.
      apply (HD sg' n' HDsg gsj' js'' ns'); assumption.
Qed.

(** A visit keeps what the visits before it have left, when they were to
    another node or to another job state. *)
Lemma node_step_inv E N h0 (D : sock_gres_t -> nat -> Prop) sg n h h' :
  Z.of_nat N < 2 ^ 32 ->
  node_step (Z.of_nat N) sg n h h' ->
  (forall sg' n', D sg' n' ->
     n' <> n \/ gres_state_job sg' <> gres_state_job sg) ->
  selection_inv E N h0 D h -> selection_inv E N h0 D h'.
Proof.
  intros HN Hstep Hapart Hinv.
  destruct Hstep as [-> | gsj js gsn ns js' Hgsj Hjs Hgsn Hns -> Hk];
    [exact Hinv|].
  apply (store_inv E N h0 D sg n h gsj js js' Hgsj Hjs); [| | | |exact Hinv].
  - apply (Hk _ _ (job_state_ok_kept ns n N HN)); [intros x; apply u64_range|].
    destruct Hinv as (Hjobs & _). eapply Hjobs; eassumption.
  - apply (Hk (fun _ => True) (fun x => request_of x = request_of js)
              (request_kept ns n (Z.of_nat N) _) (fun _ => I) eq_refl).
  - intros n' Hn'.
    apply (Hk _ _ (view_kept_other_node ns n' n (Z.of_nat N) js
                     ltac:(congruence)));
      [intros; exact I | apply view_kept_refl].
  - intros sg' ns' HDsg He.
    destruct (Hapart sg' n HDsg) as [Hn|Hn]; contradiction.
Qed.

Section visits.
Context (E : slurm_env) (sock_gres_list : list (list sock_gres_t))
        (job_ptr : job_record) (job_res : job_resources)
        (tres_mc_ptr : option gres_mc_data).
Context (N : nat) (h0 : heap).
Hypothesis HNeq : bit_size (default [] (node_bitmap job_res)) = Z.of_nat N.
Hypothesis HN : Z.of_nat N < 2 ^ 32.

Local Abbreviation node_ := (_select_and_set_node E job_ptr job_res tres_mc_ptr).
Local Abbreviation list_ := (select_and_set_list E job_ptr job_res tres_mc_ptr).
Local Abbreviation inv_ := (selection_inv E N h0).

(** The node states of the shared kinds among the records of [l]. *)
Local Abbreviation shares_of l :=
  (forall sg gsj ns,
     sg ∈ l -> h_jobs h0 !! gres_state_job sg = Some gsj ->
     gres_id_shared E (config_flags gsj) = true ->
     node_state_of (h_nodes h0) sg = Some ns -> shares_ok ns).

Lemma set_used_cnts_job_inx a :
  job_node_inx (snd (_set_used_cnts E job_res a)) = job_node_inx a.
Proof.
  unfold _set_used_cnts.
  destruct (get_job_resources_cnt E job_res (job_node_inx a)) as [[sc cps]|];
    [|reflexivity].
  destruct (_ <? 0); [reflexivity|].
  match goal with
  | |- context [foldl ?f ?a0 ?l] =>
      assert (H : job_node_inx (foldl f a0 l) = job_node_inx a);
      [apply (foldl_inv (fun x => job_node_inx x = job_node_inx a));
       [reflexivity | intros x s Hx; exact Hx]
      | destruct (used_sock_cnt (foldl f a0 l) =? 0); exact H]
  end.
Qed.

Lemma dispatch_pick_job_inx sg gsj gsn ns a js :
  job_node_inx (fst (dispatch_pick E job_ptr tres_mc_ptr sg gsj gsn ns a js))
  = job_node_inx a.
Proof.
  unfold dispatch_pick.
  repeat match goal with
         | |- context [if ?c then _ else _] => destruct c
         | |- context [let '(_, _) := ?x in _] => destruct x
         end; reflexivity.
Qed.

Lemma select_and_set_rest_job_inx sg gsj gsn js ns a h :
  job_node_inx (fst (select_and_set_rest E job_ptr job_res tres_mc_ptr sg gsj
                       gsn js ns a h)) = job_node_inx a.
Proof.
  unfold select_and_set_rest.
  set (a1 := if nz (gres_per_task js) && _ then _ else a).
  assert (Ha1 : job_node_inx a1 = job_node_inx a).
  { subst a1. destruct (nz (gres_per_task js) && _); reflexivity. }
  clearbody a1.
  destruct (topo_cnt ns =? 0); [exact Ha1|].
  match goal with
  | |- context [dispatch_pick E job_ptr tres_mc_ptr sg gsj gsn ns a1 ?js5] =>
      pose proof (dispatch_pick_job_inx sg gsj gsn ns a1 js5) as Hd;
      destruct (dispatch_pick E job_ptr tres_mc_ptr sg gsj gsn ns a1 js5)
        as [a2 js6]
  end.
  simpl in *. congruence.
Qed.

(** What the visit of [sg] on the node of [a] returns and leaves for
    [sg]. *)
Lemma select_and_set_node_visit sg a h :
  (node_inx a < N)%nat -> jobs_ok N h ->
  (forall gsj ns,
     h_jobs h !! gres_state_job sg = Some gsj ->
     gres_id_shared E (config_flags gsj) = true ->
     node_state_of (h_nodes h) sg = Some ns -> shares_ok ns) ->
  job_node_inx (fst (snd (node_ sg (a, h)))) = job_node_inx a /\
  ((fst (node_ sg (a, h)) <? 0) = true ->
   rc (fst (snd (node_ sg (a, h)))) <> SLURM_SUCCESS) /\
  ((fst (node_ sg (a, h)) <? 0) = false ->
   record_ok E (snd (snd (node_ sg (a, h)))) sg (node_inx a)).
Proof.
  intros Hn Hjobs Hsh. unfold _select_and_set_node.
  destruct (h_jobs h !! gres_state_job sg) as [gsj|] eqn:Hgsj.
  2:{ simpl. split; [reflexivity|]. split; [discriminate|].
      intros _ gsj js ns Hl. simpl in Hl. congruence. }
  destruct (h_nodes h !! gres_state_node sg) as [gsn|] eqn:Hgsn.
  2:{ simpl. split; [reflexivity|]. split; [discriminate|].
      intros _ gsj' js ns _ _ Hns. unfold node_state_of in Hns. simpl in Hns.
      rewrite Hgsn in Hns. discriminate. }
  destruct (gres_data gsj) as [js|] eqn:Hjs.
  2:{ simpl. split; [reflexivity|]. split; [discriminate|].
      intros _ gsj' js ns Hl Hd. simpl in Hl. congruence. }
  destruct (gres_data gsn) as [ns|] eqn:Hns.
  2:{ simpl. split; [reflexivity|]. split; [discriminate|].
      intros _ gsj' js' ns _ _ Hns'. unfold node_state_of in Hns'. simpl in Hns'.
      rewrite Hgsn in Hns'. simpl in Hns'. congruence. }
  assert (Hrest : forall a', node_inx a' = node_inx a ->
            job_node_inx a' = job_node_inx a ->
            let r := select_and_set_rest E job_ptr job_res tres_mc_ptr sg gsj
                       gsn js ns a' h in
            job_node_inx (fst r) = job_node_inx a /\
            record_ok E (snd r) sg (node_inx a)).
  { intros a' Ha' Hj'. simpl. split.
    { rewrite select_and_set_rest_job_inx. exact Hj'. }
    intros gsj' js' ns' Hl Hd Hns' Htopo.
    assert (Hnn : ns' = ns).
    { pose proof (select_and_set_rest_spec E job_ptr job_res tres_mc_ptr sg gsj
                    gsn js ns a' h) as (js1 & Hs1 & _).
      rewrite Hs1 in Hns'. unfold node_state_of in Hns'. simpl in Hns'.
      rewrite Hgsn in Hns'. simpl in Hns'. congruence. }
    subst ns'.
    destruct (select_and_set_rest_visited E job_ptr job_res tres_mc_ptr N sg gsj
                gsn js ns a' h HNeq HN ltac:(lia)
                (Hjobs _ _ _ Hgsj Hjs) Htopo) as (js1 & Hs1 & Hv).
    { intros Hshared. apply (Hsh gsj ns); [reflexivity | exact Hshared|].
      unfold node_state_of. rewrite Hgsn. simpl. exact Hns. }
    rewrite Hs1, (store_lookup_eq sg js1 h gsj Hgsj) in Hl.
    inversion Hl; subst. simpl in Hd. inversion Hd; subst. simpl.
    rewrite <- Ha'. exact Hv. }
  destruct (_ && is_null (used_cores_on_sock a)).
  - pose proof (set_used_cnts_node_inx E job_res a) as Hu.
    pose proof (set_used_cnts_job_inx a) as Hj.
    destruct (_set_used_cnts E job_res a) as [r a']. simpl in Hu, Hj.
    destruct (eq_rc r SLURM_SUCCESS) eqn:Hr; simpl.
    + destruct (Hrest (set_rc r a') Hu Hj) as [H1 H2].
      split; [exact H1|]. split; [discriminate | intros _; exact H2].
    + split; [exact Hj|]. split; [|discriminate].
      intros _ Heq. rewrite Heq in Hr. discriminate.
  - simpl. destruct (Hrest a eq_refl eq_refl) as [H1 H2].
    split; [exact H1|]. split; [discriminate | intros _; exact H2].
Qed.


Lemma eq_rc_success r : eq_rc r SLURM_SUCCESS = true <-> r = SLURM_SUCCESS.
Proof. destruct r; simpl; split; congruence. Qed.

(** The node states of the shared kinds, looked up in the memory of the
    moment. *)
Lemma shares_of_current (D : sock_gres_t -> nat -> Prop)
    (l : list sock_gres_t) h sg gsj ns :
  inv_ D h -> shares_of l -> sg ∈ l ->
  h_jobs h !! gres_state_job sg = Some gsj ->
  gres_id_shared E (config_flags gsj) = true ->
  node_state_of (h_nodes h) sg = Some ns -> shares_ok ns.
Proof.
  intros (_ & Hnodes & Hrv & _) Hsh Hin Hgsj Hshared Hns.
  assert (Hl : (request_view <$> h_jobs h0) !! gres_state_job sg
               = Some (request_view gsj)).
  { rewrite <- Hrv, list_lookup_fmap, Hgsj. reflexivity. }
  rewrite list_lookup_fmap in Hl.
  destruct (h_jobs h0 !! gres_state_job sg) as [gsj0|] eqn:Hg0; [|discriminate].
  simpl in Hl. unfold request_view in Hl.
  apply (Hsh sg gsj0 ns Hin Hg0); [|rewrite <- Hnodes; exact Hns].
  replace (config_flags gsj0) with (config_flags gsj) by congruence.
  exact Hshared.
Qed.

(** The loop over the records of node [n]. *)
Lemma select_and_set_list_visits n (l : list sock_gres_t) :
  forall (D : sock_gres_t -> nat -> Prop) a h,
  NoDup (gres_state_job <$> l) -> shares_of l -> (n < N)%nat ->
  (forall sg' n', D sg' n' ->
     n' <> n \/ gres_state_job sg' ∉ (gres_state_job <$> l)) ->
  inv_ D h -> node_inx a = n ->
  job_node_inx (fst (list_ l (a, h))) = job_node_inx a /\
  (rc (fst (list_ l (a, h))) = SLURM_SUCCESS ->
   inv_ (fun sg' n' => D sg' n' \/ (sg' ∈ l /\ n' = n)) (snd (list_ l (a, h)))).
Proof.
  induction l as [|sg l IH]; intros D a h Hnd Hsh Hn Hapart Hinv Ha.
  { simpl. split; [reflexivity|]. intros _.
    eapply selection_inv_weaken; [|exact Hinv].
    intros sg' n' [H|[H _]]; [exact H | inversion H]. }
  rewrite select_and_set_list_cons.
  pose proof (select_and_set_node_step E job_ptr job_res tres_mc_ptr sg a h)
    as [Hstep Hn'].
  rewrite HNeq in Hstep.
  pose proof (select_and_set_node_visit sg a h ltac:(lia) (proj1 Hinv))
    as (Hj & Hneg & Hrec).
  { intros gsj ns. apply (shares_of_current D (sg :: l) h sg gsj ns Hinv Hsh).
    left. }
  apply NoDup_cons in Hnd as [Hsg Hnd].
  assert (Hinv' : inv_ D (snd (snd (node_ sg (a, h))))).
  { apply (node_step_inv E N h0 D sg (node_inx a) h _ HN Hstep); [|exact Hinv].
    intros sg' n' HD. rewrite Ha.
    destruct (Hapart sg' n' HD) as [H|H]; [left; exact H|].
    right. intros He. apply H. rewrite He. simpl. left. }
  destruct (node_ sg (a, h)) as [ret [a' h']]. simpl in *.
  destruct (ret <? 0).
  - simpl. split; [exact Hj|]. intros Hrc. destruct (Hneg eq_refl Hrc).
  - specialize (Hrec eq_refl).
    destruct (IH (fun sg' n' => D sg' n' \/ (sg' = sg /\ n' = n)) a' h' Hnd)
      as [Hj2 Hrc2].
    + intros sg' gsj ns Hin. apply Hsh. right. exact Hin.
    + exact Hn.
    + intros sg' n' [HD|[-> ->]].
      * destruct (Hapart sg' n' HD) as [H|H]; [left; exact H|].
        right. intros He. apply H. simpl. right. exact He.
      * right. exact Hsg.
    + destruct Hinv' as (H1 & H2 & H3 & H4).
      split; [exact H1|]. split; [exact H2|]. split; [exact H3|].
      intros sg' n' [HD|[-> ->]]; [apply H4; exact HD|].
      rewrite <- Ha. exact Hrec.
    + congruence.
    + split; [congruence|]. intros Hrc.
      eapply selection_inv_weaken; [|apply Hrc2; exact Hrc].
      intros sg' n' [HD|[Hin ->]]; [left; left; exact HD|].
      apply elem_of_cons in Hin as [->|Hin];
        [left; right; split; reflexivity | right; split; [exact Hin | reflexivity]].
Qed.

Local Abbreviation step_ :=
  (node_loop_step E sock_gres_list job_ptr job_res tres_mc_ptr).
Local Abbreviation visited_ := (visited sock_gres_list).

Hypothesis Hlists : forall lst, lst ∈ sock_gres_list -> NoDup (gres_state_job <$> lst).
Hypothesis Hshares : forall lst, lst ∈ sock_gres_list -> shares_of lst.

(** The loop over the nodes of the allocation. *)
Lemma node_loop_visits (nodes : list nat) a0 :
  NoDup nodes -> Forall (fun i => (i < N)%nat) nodes ->
  job_node_inx a0 = 0 ->
  jobs_ok N h0 ->
  forall k, (k <= length nodes)%nat ->
    rc (fst (foldl step_ (a0, h0) (take k nodes))) = SLURM_SUCCESS ->
    job_node_inx (fst (foldl step_ (a0, h0) (take k nodes))) = Z.of_nat k /\
    inv_ (visited_ nodes k) (snd (foldl step_ (a0, h0) (take k nodes))).
Proof.
  intros Hnd Hlt Ha0 Hjobs. induction k as [|k IH]; intros Hk.
  { simpl. intros _. split; [exact Ha0|].
    split; [exact Hjobs|]. split; [reflexivity|]. split; [reflexivity|].
    intros sg n (j & lst & Hj & _). lia. }
  destruct (lookup_lt_is_Some_2 nodes k ltac:(lia)) as [i Hi].
  rewrite (take_S_r nodes k i Hi), foldl_app. simpl.
  specialize (IH ltac:(lia)).
  destruct (foldl step_ (a0, h0) (take k nodes)) as [a h]. simpl in IH.
  unfold node_loop_step.
  destruct (eq_rc (rc a) SLURM_SUCCESS) eqn:Hrc; simpl.
  2:{ intros Hs. rewrite Hs in Hrc. discriminate. }
  apply eq_rc_success in Hrc. destruct (IH Hrc) as [Hj Hinv].
  set (l := node_list sock_gres_list (job_node_inx a)).
  assert (Hl : l = default [] (sock_gres_list !! k)).
  { subst l. unfold node_list. rewrite Hj.
    destruct (Z.ltb_spec (Z.of_nat k) 0); [lia|]. rewrite Nat2Z.id. reflexivity. }
  assert (Hin : l = [] \/ l ∈ sock_gres_list).
  { rewrite Hl. destruct (sock_gres_list !! k) as [lst|] eqn:Hlst;
      [right; eapply list_elem_of_lookup_2; exact Hlst | left; reflexivity]. }
  match goal with
  | |- context [list_ l (?a1, h)] =>
      pose proof (select_and_set_list_visits i l (visited_ nodes k) a1 h)
        as Hlist;
      destruct (list_ l (a1, h)) as [a' h'] eqn:Hres
  end.
  simpl in Hlist. simpl. intros Hrc'.
  destruct Hlist as [Hj' Hinv'].
  - destruct Hin as [->|Hin]; [apply NoDup_nil; exact I | apply Hlists, Hin].
  - destruct Hin as [->|Hin]; [|apply Hshares, Hin].
    intros sg gsj ns H. inversion H.
  - rewrite Forall_forall in Hlt. apply Hlt.
    eapply list_elem_of_lookup_2. exact Hi.
  - intros sg' n' (j & lst & Hjk & Hn' & _). left. intros ->.
    pose proof (NoDup_lookup nodes j k i Hnd Hn' Hi). lia.
  - exact Hinv.
  - reflexivity.
  - split; [lia|].
    eapply selection_inv_weaken; [|apply Hinv'; exact Hrc'].
    intros sg n (j & lst & Hjk & Hn & Hlst & Hsg).
    destruct (decide (j = k)) as [->|Hne].
    + right. rewrite Hi in Hn. inversion Hn; subst.
      rewrite Hl, Hlst. simpl. split; [exact Hsg | reflexivity].
    + left. exists j, lst. repeat split; try assumption. lia.
Qed.

(** The second pass keeps the counts. *)
Lemma pass2_record_visits (D : sock_gres_t -> nat -> Prop) i fini h sg :
  inv_ D h -> inv_ D (snd (pass2_record i (fini, h) sg)).
Proof.
  intros Hinv. unfold pass2_record, job_state_of, node_state_of.
  destruct (h_jobs h !! gres_state_job sg) as [gsj|] eqn:Hgsj; simpl;
    [|exact Hinv].
  destruct (gres_data gsj) as [js|] eqn:Hjs; simpl; [|exact Hinv].
  destruct (h_nodes h !! gres_state_node sg) as [gsn|] eqn:Hgsn; simpl;
    [|exact Hinv].
  destruct (gres_data gsn) as [ns|] eqn:Hns; simpl; [|exact Hinv].
  pose proof (fun P HP => set_job_bits2_kept ns i P HP sg js) as Hk.
  assert (Hok : job_state_ok N js) by (eapply (proj1 Hinv); eassumption).
  assert (Hsame : gres_per_job js = 0 -> snd (_set_job_bits2 i sg ns js) = js).
  { intros Hz. unfold _set_job_bits2. rewrite Hz.
    destruct (Z.leb_spec 0 (total_gres js)) as [|Hlt]; [reflexivity|].
    destruct Hok as (H & _). lia. }
  destruct (_set_job_bits2 i sg ns js) as [ret js']. simpl in *.
  apply (store_inv E N h0 D sg i h gsj js js' Hgsj Hjs); [| | | |exact Hinv].
  - apply (Hk _ (kn_picks _ _ _ _ _ (job_state_ok_kept ns i N HN))). exact Hok.
  - apply (Hk _ (picks_keep_request ns i (request_of js))). reflexivity.
  - intros n' Hn'.
    apply (Hk _ (kn_picks _ _ _ _ _
                   (view_kept_other_node ns n' i 0 js ltac:(congruence)))).
    apply view_kept_refl.
  - intros sg' ns' _ _. unfold visited_ok.
    destruct (gres_id_shared E (config_flags gsj)).
    + intros H Hz.
      assert (Hz' : gres_per_job js = 0).
      { pose proof (Hk _ (picks_keep_request ns i (request_of js)) eq_refl) as Hr.
        unfold request_of in Hr. congruence. }
      rewrite (Hsame Hz'). apply H. exact Hz'.
    + apply (Hk _ (bits_counted_kept ns i)).
Qed.

Lemma pass2_node_visits (D : sock_gres_t -> nat -> Prop) st i :
  inv_ D (p2_heap st) -> inv_ D (p2_heap (pass2_node sock_gres_list st i)).
Proof.
  intros Hh. unfold pass2_node.
  destruct (p2_break st); [exact Hh|].
  match goal with
  | |- context [foldl (pass2_record i) ?acc ?l] =>
      assert (H : inv_ D (snd (foldl (pass2_record i) acc l)));
      [apply (foldl_inv (fun x : Z * heap => inv_ D (snd x))); [exact Hh|];
       intros [f h'] sg Hacc; apply pass2_record_visits; exact Hacc
      | destruct (foldl (pass2_record i) acc l) as [f h']; exact H]
  end.
Qed.


(** The whole selection, past the test of line 1611. *)
Lemma select_and_set_nodes_visits bm h' :
  bit_size bm = Z.of_nat N -> NoDup (set_bits bm) ->
  Forall (fun i => (i < N)%nat) (set_bits bm) -> jobs_ok N h0 ->
  select_and_set_nodes E sock_gres_list job_ptr job_res tres_mc_ptr bm h0
  = (SLURM_SUCCESS, h') ->
  inv_ (visited_ (set_bits bm) (length (set_bits bm))) h'.
Proof.
  intros Hbm Hnd Hlt Hjobs. unfold select_and_set_nodes.
  match goal with
  | |- context [foldl step_ (?a0, h0) _] =>
      pose proof (node_loop_visits (set_bits bm) a0 Hnd Hlt eq_refl Hjobs
                    (length (set_bits bm)) ltac:(lia)) as Hloop
  end.
  rewrite take_ge in Hloop by lia.
  destruct (foldl step_ _ (set_bits bm)) as [a1 h1]. simpl in Hloop.
  destruct (job_fini a1 =? 0).
  - intros Heq. inversion Heq as [[Hrc Hh]].
    assert (Hrc1 : rc a1 = SLURM_SUCCESS).
    { destruct (_ =? 0); [discriminate | exact Hrc]. }
    apply (foldl_inv (fun st => inv_ (visited_ (set_bits bm)
                                        (length (set_bits bm))) (p2_heap st))).
    + simpl. apply Hloop. exact Hrc1.
    + intros st i Hst. apply pass2_node_visits. exact Hst.
  - intros Heq. inversion Heq; subst. apply Hloop. assumption.
Qed.

End visits.

Lemma set_bits_from_spec (b : bitstr) : forall i,
  Forall (fun x => (i <= x < i + length b)%nat) (set_bits_from b i) /\
  NoDup (set_bits_from b i).
Proof.
  induction b as [|x b IH]; intros i; simpl.
  - split; [apply Forall_nil; exact I | apply NoDup_nil; exact I].
  - destruct (IH (S i)) as [Hf Hn].
    assert (Hf' : Forall (fun x => (i <= x < i + S (length b))%nat)
                         (set_bits_from b (S i))).
    { eapply Forall_impl; [exact Hf|]. simpl. intros y Hy. lia. }
    destruct x; [|split; assumption].
    split; [apply Forall_cons; split; [lia | exact Hf']|].
    apply NoDup_cons. split; [|exact Hn].
    intros Hin. rewrite Forall_forall in Hf. specialize (Hf i Hin). lia.
Qed.

(** X25: after [gres_select_filter_select_and_set] returns success on a
    well-formed input, for every node n of the allocation and every record
    with topology, the number of set bits of gres_bit_select[n] is
    gres_cnt_node_select[n] for a non-shared kind, and the sum over the
    topology slots of gres_per_bit_select[n] is gres_cnt_node_select[n]
    for a shared kind whose request has no gres_per_job (on which the
    second pass does not pick). *)
Theorem select_and_set_counts (E : slurm_env)
    (sock_gres_list : list (list sock_gres_t)) (job_ptr : job_record)
    (tres_mc_ptr : option gres_mc_data) (job_res : job_resources)
    (bm : bitstr) (h h' : heap) :
  job_resrcs job_ptr = Some job_res -> node_bitmap job_res = Some bm ->
  selection_input_ok E sock_gres_list (length bm) h ->
  gres_select_filter_select_and_set E sock_gres_list job_ptr tres_mc_ptr h
  = (SLURM_SUCCESS, h') ->
  selection_counts counts_agree_without_per_job E sock_gres_list bm h'.
Proof.
  intros Hres Hbm (HN & Hjobs & Hlists & Hshares).
  unfold gres_select_filter_select_and_set. rewrite Hres, Hbm. intros Hrun.
  destruct (set_bits_from_spec bm 0) as [Hlt Hnd].
  assert (Hinv : selection_inv E (length bm) h
                   (visited sock_gres_list (set_bits bm) (length (set_bits bm)))
                   h').
  { apply (select_and_set_nodes_visits E sock_gres_list job_ptr job_res
             tres_mc_ptr (length bm) h); try assumption.
    - rewrite Hbm. reflexivity.
    - intros lst Hin sg gsj ns Hsg. apply (Hshares lst sg gsj ns Hin Hsg).
    - reflexivity.
    - eapply Forall_impl; [exact Hlt|]. simpl. intros x Hx. lia.
    - intros j gsj js Hl. apply Hjobs. eapply list_elem_of_lookup_2. exact Hl. }
  destruct Hinv as (_ & _ & _ & HD).
  intros j n lst sg gsj js ns Hj Hlst Hsg Hgsj Hjs Hns Htopo.
  assert (Hv : visited sock_gres_list (set_bits bm) (length (set_bits bm)) sg n).
  { exists j, lst. repeat split; try assumption.
    eapply lookup_lt_Some. exact Hj. }
  pose proof (HD sg n Hv gsj js ns Hgsj Hjs Hns Htopo) as Hok.
  unfold visited_ok, counts_agree_without_per_job in *.
  destruct (gres_id_shared E (config_flags gsj)); [exact Hok | apply Hok].
Qed.

(** ** The loop that excludes the sockets with low counts *)

Lemma low_sock_inx_spec (used_sock : list Z) (sock_cnt : nat) low :
  low_sock_inx used_sock sock_cnt = Some low ->
  (low < sock_cnt)%nat /\ zget used_sock low <> 0.
Proof.
  unfold low_sock_inx.
  assert (H : forall l (acc : option nat),
            (forall s, s ∈ l -> (s < sock_cnt)%nat) ->
            (forall x, acc = Some x -> (x < sock_cnt)%nat /\ zget used_sock x <> 0) ->
            forall x,
              foldl (fun (low : option nat) s =>
                       if zget used_sock s =? 0 then low
                       else
                         match low with
                         | None => Some s
                         | Some l =>
                             if zget used_sock s <? zget used_sock l
                             then Some s else low
                         end) acc l = Some x ->
              (x < sock_cnt)%nat /\ zget used_sock x <> 0).
  { induction l as [|s l IH]; intros acc Hl Hacc x; simpl; [apply Hacc|].
    apply IH.
    - intros s' Hs'. apply Hl. right. exact Hs'.
    - intros y. destruct (Z.eqb_spec (zget used_sock s) 0) as [|Hnz]; [apply Hacc|].
      assert (Hs : (s < sock_cnt)%nat) by (apply Hl; left).
      destruct acc as [l0|].
      + destruct (_ <? _); [|apply Hacc].
        intros Hy. inversion Hy; subst. split; assumption.
      + intros Hy. inversion Hy; subst. split; assumption. }
  apply H.
  - intros s Hs. apply list_elem_of_In, List.in_rev, List.in_seq in Hs. lia.
  - intros x Hx. discriminate.
Qed.

Lemma nonzero_socks_drop (used_sock : list Z) (sock_cnt low : nat) :
  (low < sock_cnt)%nat -> zget used_sock low <> 0 ->
  (nonzero_socks (<[low := 0%Z]> used_sock) sock_cnt
   < nonzero_socks used_sock sock_cnt)%nat.
Proof.
  intros Hlow Hnz. unfold nonzero_socks.
  assert (Hlen : (low < length used_sock)%nat).
  { destruct (decide (low < length used_sock)%nat) as [|Hge]; [assumption|].
    exfalso. apply Hnz. unfold zget. rewrite lookup_ge_None_2 by lia. reflexivity. }
  assert (Hle : forall l,
            (length (List.filter (fun s => nz (zget (<[low := 0%Z]> used_sock) s)) l)
             <= length (List.filter (fun s => nz (zget used_sock s)) l))%nat).
  { induction l as [|s l IH]; simpl; [lia|].
    destruct (decide (low = s)) as [<-|Hne].
    - rewrite zget_insert_eq by exact Hlen. simpl.
      destruct (nz (zget used_sock low)); simpl; lia.
    - rewrite zget_insert_ne by exact Hne.
      destruct (nz (zget used_sock s)); simpl; lia. }
  assert (Hlt : forall l, low ∈ l ->
            (length (List.filter (fun s => nz (zget (<[low := 0%Z]> used_sock) s)) l)
             < length (List.filter (fun s => nz (zget used_sock s)) l))%nat).
  { induction l as [|s l IH]; intros Hin; [inversion Hin|]. simpl.
    destruct (decide (low = s)) as [<-|Hne].
    - rewrite zget_insert_eq by exact Hlen. simpl.
      assert (Hn : nz (zget used_sock low) = true) by (apply nz_true; exact Hnz).
      rewrite Hn. simpl. specialize (Hle l). lia.
    - rewrite zget_insert_ne by exact Hne.
      apply elem_of_cons in Hin as [Heq | Hin]; [contradiction|].
      specialize (IH Hin).
      destruct (nz (zget used_sock s)); simpl; lia. }
  apply Hlt. apply elem_of_seq. lia.
Qed.

Lemma nonzero_socks_le (used_sock : list Z) (sock_cnt : nat) :
  (nonzero_socks used_sock sock_cnt <= sock_cnt)%nat.
Proof.
  unfold nonzero_socks.
  pose proof (List.filter_length_le (fun s => nz (zget used_sock s))
                (seq 0 sock_cnt)) as H.
  rewrite length_seq in H. exact H.
Qed.

(** The loop of lines 725-739 ends within the fuel it is given: a turn
    clears a used socket, and more fuel than there are used sockets
    changes nothing. *)
Lemma drop_low_socks_fuel req (sock_cnt : nat) : forall fuel1 fuel2 us,
  (nonzero_socks (us_used_sock us) sock_cnt < fuel1)%nat ->
  (nonzero_socks (us_used_sock us) sock_cnt < fuel2)%nat ->
  drop_low_socks fuel1 req sock_cnt us = drop_low_socks fuel2 req sock_cnt us.
Proof.
  induction fuel1 as [|fuel1 IH]; intros fuel2 us H1 H2; [lia|].
  destruct fuel2 as [|fuel2]; [lia|]. simpl.
  destruct (req >? us_used_sock_cnt us); [|reflexivity].
  destruct (low_sock_inx (us_used_sock us) sock_cnt) as [low|] eqn:Hlow;
    [|reflexivity].
  apply low_sock_inx_spec in Hlow as [Hl Hnz].
  pose proof (nonzero_socks_drop (us_used_sock us) sock_cnt low Hl Hnz).
  apply IH; simpl; lia.
Qed.

Lemma drop_low_socks_enough req (sock_cnt fuel : nat) us :
  (sock_cnt < fuel)%nat ->
  drop_low_socks fuel req sock_cnt us
  = drop_low_socks (S sock_cnt) req sock_cnt us.
Proof.
  intros Hf. pose proof (nonzero_socks_le (us_used_sock us) sock_cnt).
  apply drop_low_socks_fuel; lia.
Qed.

(** * Worked cases *)

Lemma remove_unusable_min_gres_reject_witness :
  Forall (has_job_state bound_jobs) [bound_request] /\
  exists r,
    gres_select_filter_remove_unusable env0 bound_jobs (Some [bound_request])
      (NO_VAL64 env0) 2 true (Some [false; true]) 2 1 1 (NO_VAL env0)
      (NO_VAL16 env0) 1 false = Some r /\
    forall k sg sg' gs js,
      [bound_request] !! k = Some sg -> f_list r !! k = Some sg' ->
      bound_jobs !! gres_state_job sg = Some gs -> gres_data gs = Some js ->
      min_gres_of env0 (NO_VAL env0) (NO_VAL16 env0) false sg js =
      min_gres_spec env0 (NO_VAL env0) (NO_VAL16 env0) false sg js /\
      (total_cnt sg' < min_gres_spec env0 (NO_VAL env0) (NO_VAL16 env0) false sg js \/
       (max_node_gres sg' <> 0 /\
        max_node_gres sg' < min_gres_spec env0 (NO_VAL env0) (NO_VAL16 env0) false sg js) ->
       f_rc r = -1).
Proof.
  assert (H : Forall (has_job_state bound_jobs) [bound_request]).
  { repeat constructor. unfold has_job_state. simpl. eauto. }
  split; [exact H|].
  exact (remove_unusable_min_gres_reject env0 bound_jobs (NO_VAL64 env0) 2 true
           [false; true] 2 1 1 (NO_VAL env0) (NO_VAL16 env0) 1 false
           [bound_request] H).
Defined.

(** The record of a rejected request is not as it was at entry: the
    binding prune has already taken socket 0 away. *)
Lemma remove_unusable_reject_mutates :
  ~ reject_leaves_records env0 bound_jobs (NO_VAL64 env0) 2 true [false; true]
      2 1 1 (NO_VAL env0) (NO_VAL16 env0) 1 false [bound_request].
Proof.
  intros H. specialize (H bound_rejected).
  assert (Hl : f_list bound_rejected = [bound_request]).
  { apply H; vm_compute; reflexivity. }
  vm_compute in Hl. discriminate Hl.
Qed.

Lemma remove_unusable_reject_stops_witness :
  (gres_select_filter_remove_unusable env0 bound_jobs (Some [bound_request])
     (NO_VAL64 env0) 2 true (Some [false; true]) 2 1 1 (NO_VAL env0)
     (NO_VAL16 env0) 1 false = Some bound_rejected /\
   f_rc bound_rejected = -1) /\
  exists k sg sg',
    [bound_request] !! k = Some sg /\ f_list bound_rejected !! k = Some sg' /\
    rejects env0 bound_jobs (NO_VAL64 env0) 2 true [false; true] 2 1 1
      (NO_VAL env0) (NO_VAL16 env0) 1 false sg sg' /\
    drop (S k) (f_list bound_rejected) = drop (S k) [bound_request] /\
    Forall2 (passes env0 bound_jobs (NO_VAL64 env0) 2 true [false; true] 2 1 1
               (NO_VAL env0) (NO_VAL16 env0) 1 false)
            (take k [bound_request]) (take k (f_list bound_rejected)).
Proof.
  assert (H : gres_select_filter_remove_unusable env0 bound_jobs
                (Some [bound_request]) (NO_VAL64 env0) 2 true
                (Some [false; true]) 2 1 1 (NO_VAL env0) (NO_VAL16 env0) 1 false
              = Some bound_rejected /\ f_rc bound_rejected = -1).
  { split; vm_compute; reflexivity. }
  split; [exact H|].
  exact (remove_unusable_reject_stops env0 bound_jobs (NO_VAL64 env0) 2 true
           [false; true] 2 1 1 (NO_VAL env0) (NO_VAL16 env0) 1 false
           [bound_request] bound_rejected (proj1 H) (proj2 H)).
Defined.

(** near_gpus of a sharing request with four usable units and two per
    node is 2, not the 4 of its post-prune count. *)
Lemma remove_unusable_near_gpus_capped :
  ~ near_gpus_is_post_prune_sum env0 capped_jobs (NO_VAL64 env0) 2 false [true]
      1 1 1 (NO_VAL env0) (NO_VAL16 env0) 1 false [capped_request].
Proof.
  intros H. specialize (H capped_passed).
  assert (Hn : f_near_gpus capped_passed =
               near_gpus_spec env0 capped_jobs [true] 1 1 [capped_request]).
  { apply H; vm_compute; reflexivity. }
  vm_compute in Hn. discriminate Hn.
Qed.

Lemma remove_unusable_near_gpus_witness :
  (0 <= NO_VAL64 env0 /\
   Forall sock_gres_ok [capped_request] /\
   Forall (job_counters_ok capped_jobs) [capped_request] /\
   gres_select_filter_remove_unusable env0 capped_jobs (Some [capped_request])
     (NO_VAL64 env0) 2 false (Some [true]) 1 1 1 (NO_VAL env0) (NO_VAL16 env0)
     1 false = Some capped_passed /\
   f_rc capped_passed = 0) /\
  f_near_gpus capped_passed =
    Z.min 255 (near_capped_sum env0 capped_jobs [true] 1 1 [capped_request]
                 (f_list capped_passed)).
Proof.
  assert (H1 : 0 <= NO_VAL64 env0) by (vm_compute; discriminate).
  assert (H2 : Forall sock_gres_ok [capped_request]).
  { repeat constructor; simpl; lia. }
  assert (H3 : Forall (job_counters_ok capped_jobs) [capped_request]).
  { apply Forall_cons. split; [|apply Forall_nil; exact I].
    unfold job_counters_ok. intros gs js Hgs Hjs.
    simpl in Hgs. inversion Hgs as [Hg]. rewrite <- Hg in Hjs.
    simpl in Hjs. inversion Hjs. simpl. lia. }
  assert (H4 : gres_select_filter_remove_unusable env0 capped_jobs
                 (Some [capped_request]) (NO_VAL64 env0) 2 false (Some [true])
                 1 1 1 (NO_VAL env0) (NO_VAL16 env0) 1 false = Some capped_passed)
    by (vm_compute; reflexivity).
  assert (H5 : f_rc capped_passed = 0) by reflexivity.
  split; [repeat split; assumption|].
  exact (remove_unusable_near_gpus env0 capped_jobs (NO_VAL64 env0) 2 false
           [true] 1 1 1 (NO_VAL env0) (NO_VAL16 env0) 1 false
           [capped_request] capped_passed H1 H2 H3 H4 H5).
Defined.

Lemma remove_unusable_nothing_to_do_witness :
  (@None bitstr = None \/ Some [bound_request] = None \/
   Some [bound_request] = Some []) /\
  gres_select_filter_remove_unusable env0 bound_jobs (Some [bound_request])
    (NO_VAL64 env0) 2 true None 2 1 1 (NO_VAL env0) (NO_VAL16 env0) 1 false
  = Some {| f_rc := 0; f_list := [bound_request]; f_avail_gpus := 0;
            f_near_gpus := 0 |}.
Proof.
  assert (H : @None bitstr = None \/ Some [bound_request] = None \/
              Some [bound_request] = Some []) by (left; reflexivity).
  split; [exact H|].
  exact (remove_unusable_nothing_to_do env0 bound_jobs (NO_VAL64 env0) 2 true
           2 1 1 (NO_VAL env0) (NO_VAL16 env0) 1 false
           (Some [bound_request]) None H).
Defined.

Lemma select_and_set_without_resources_witness :
  (job_resrcs job_without_resources = None \/
   (exists job_res, job_resrcs job_without_resources = Some job_res /\
                    node_bitmap job_res = None)) /\
  gres_select_filter_select_and_set env0 [[two_units_request]]
    job_without_resources None empty_heap = (SLURM_ERROR, empty_heap).
Proof.
  assert (H : job_resrcs job_without_resources = None \/
              (exists job_res, job_resrcs job_without_resources = Some job_res /\
                               node_bitmap job_res = None))
    by (left; reflexivity).
  split; [exact H|].
  exact (select_and_set_without_resources env0 [[two_units_request]]
           job_without_resources None empty_heap H).
Defined.

(** [_set_job_bits1] tests total_gres before it resets it (lines 804 and
    807): on a state with job_node_inx 0 and total_gres at gres_per_job,
    which [_select_and_set_node] does not call it on (lines 1494-1495), it
    returns fini = 1 and leaves total_gres at the one unit it chose. *)
Lemma set_job_bits1_fini_without_total :
  ~ fini_iff_total_reached env0 0 0 2 two_units_request two_units None 1
      [1; 0] 2 stale_total.
Proof.
  unfold fini_iff_total_reached. vm_compute. intros [H _].
  specialize (H eq_refl). apply H. reflexivity.
Qed.

(** The shared picker draws from a slot whose bit is set in
    gres_bit_alloc. *)
Lemma shared_pick_takes_allocated :
  ~ only_free_added busy_slot 0 (on_one_node 0 1 0 [false] 0 [0])
      (fst (_pick_shared_gres_topo busy_slot_request busy_slot true true false
              0 0 None (on_one_node 0 1 0 [false] 0 [0], 1))).
Proof.
  intros H. specialize (H 0%nat). vm_compute in H.
  destruct (H eq_refl) as [H1|H1]; discriminate H1.
Qed.

(** ** The least-loaded order *)

Lemma s64_small x : 0 <= x < 2 ^ 63 -> s64 x = x.
Proof.
  intros H. unfold s64. rewrite Z.mod_small by lia. lia.
Qed.

Lemma nonalloc_gres_ratio ns t :
  slot_bounds ns -> (t < Z.to_nat (topo_cnt ns))%nat ->
  nonalloc_gres ns t = slot_ratio ns t.
Proof.
  intros [Hg Hb] Ht. destruct (Hb t Ht) as (Ha & Hav & Hm).
  unfold nonalloc_gres, slot_ratio.
  set (avail := zget_opt (topo_gres_cnt_avail ns) t) in *.
  set (alloc := zget_opt (topo_gres_cnt_alloc ns) t) in *.
  destruct (Z.eqb_spec avail 0) as [|Hne]; [reflexivity|].
  rewrite (s64_small avail) by lia.
  rewrite (u64_small avail) by lia.
  rewrite (s64_small (avail - alloc)) by lia.
  rewrite (u64_small (avail - alloc)) by lia.
  assert (Hp : 0 <= (avail - alloc) * gres_cnt_avail ns) by nia.
  rewrite (s64_small ((avail - alloc) * gres_cnt_avail ns)) by lia.
  rewrite (u64_small ((avail - alloc) * gres_cnt_avail ns)) by lia.
  assert (Hq : 0 <= (avail - alloc) * gres_cnt_avail ns / avail
               <= (avail - alloc) * gres_cnt_avail ns).
  { split; [apply Z.div_pos; lia|].
    apply Z.div_le_upper_bound; [lia|]. nia. }
  apply s64_small. lia.
Qed.

Section sorted_by_key.
Context {A : Type} (key : A -> Z) (cmp : A -> A -> Z).
Hypothesis Hcmp : forall x y, cmp x y <= 0 <-> key y <= key x.

Local Abbreviation above := (fun x y => key y <= key x).

Lemma qsort_insert_sorted x l :
  StronglySorted above l -> StronglySorted above (qsort_insert cmp x l).
Proof.
  induction l as [|y l IH]; intros Hs; simpl.
  - constructor; [constructor | constructor].
  - inversion Hs as [|? ? Hs' Hall]; subst.
    destruct (Z.leb_spec (cmp x y) 0) as [Hle|Hgt].
    + apply Hcmp in Hle. constructor; [exact Hs|].
      constructor; [exact Hle|].
      eapply Forall_impl; [exact Hall|]. simpl. intros z Hz. lia.
    + assert (Hxy : key x <= key y).
      { destruct (Z.le_gt_cases (key y) (key x)) as [H|H]; [|lia].
        apply Hcmp in H. lia. }
      constructor; [apply IH; exact Hs'|].
      apply Forall_forall. intros z Hz.
      rewrite qsort_insert_perm in Hz.
      apply elem_of_cons in Hz as [->|Hz]; [exact Hxy|].
      rewrite Forall_forall in Hall. apply Hall. exact Hz.
Qed.

Lemma qsort_sorted l : StronglySorted above (qsort cmp l).
Proof.
  induction l as [|x l IH]; simpl; [constructor|].
  apply qsort_insert_sorted. exact IH.
Qed.

End sorted_by_key.

Lemma StronglySorted_transfer {A} (R R' : A -> A -> Prop) l :
  (forall x y, x ∈ l -> y ∈ l -> R x y -> R' x y) ->
  StronglySorted R l -> StronglySorted R' l.
Proof.
  intros H Hs. induction Hs as [|x l Hs IH Hall]; [constructor|].
  constructor.
  - apply IH. intros a b Ha Hb. apply H; right; assumption.
  - apply Forall_forall. intros y Hy. rewrite Forall_forall in Hall.
    apply H; [left | right; exact Hy | apply Hall; exact Hy].
Qed.

Lemma sort_topo_cmp ns x y :
  _sort_topo_by_avail_cnt ns x y <= 0 <-> nonalloc_gres ns y <= nonalloc_gres ns x.
Proof.
  unfold _sort_topo_by_avail_cnt.
  destruct (Z.ltb_spec (nonalloc_gres ns x) (nonalloc_gres ns y)); [lia|].
  destruct (Z.gtb_spec (nonalloc_gres ns x) (nonalloc_gres ns y)); lia.
Qed.

Lemma sorted_topo_by_ratio ns :
  slot_bounds ns ->
  StronglySorted (fun t u => slot_ratio ns u <= slot_ratio ns t)
                 (_get_sorted_topo_by_least_loaded ns).
Proof.
  intros Hb.
  apply (StronglySorted_transfer
           (fun t u => nonalloc_gres ns u <= nonalloc_gres ns t)).
  - intros x y Hx Hy Hxy.
    pose proof (sorted_topo_perm ns) as Hp.
    rewrite Hp in Hx, Hy. apply elem_of_seq in Hx, Hy.
    rewrite <- !nonalloc_gres_ratio by (assumption || lia). exact Hxy.
  - apply (qsort_sorted (nonalloc_gres ns)). apply sort_topo_cmp.
Qed.

Lemma foldl_ext {A B} (f g : A -> B -> A) l a :
  (forall a b, f a b = g a b) -> foldl f a l = foldl g a l.
Proof.
  intros H. revert a. induction l as [|b l IH]; intros a; simpl; [reflexivity|].
  rewrite H. apply IH.
Qed.

Lemma foldl_by_position {A B} (f : A -> B -> A) (d : B) (l : list B) :
  forall (l0 : list B) (a : A),
  foldl (fun a j => f a (default d ((l0 ++ l) !! j))) a
        (seq (length l0) (length l)) = foldl f a l.
Proof.
  induction l as [|b l IH]; intros l0 a; simpl; [reflexivity|].
  rewrite lookup_app_r by lia. replace (length l0 - length l0)%nat with 0%nat by lia.
  simpl.
  specialize (IH (l0 ++ [b]) (f a b)).
  rewrite <- app_assoc in IH. simpl in IH.
  rewrite length_app in IH. simpl in IH.
  replace (length l0 + 1)%nat with (S (length l0)) in IH by lia.
  exact IH.
Qed.

Lemma pick_shared_gres_topo_in_order sg ns ubd usd nr n socket_index order st :
  length order = Z.to_nat (topo_cnt ns) ->
  _pick_shared_gres_topo sg ns ubd usd nr n socket_index (Some order) st =
  draw_in_order sg ns ubd usd nr n socket_index order st.
Proof.
  intros Hlen. unfold _pick_shared_gres_topo, draw_in_order.
  destruct (sock_bits_of sg socket_index) as [sb|]; [|reflexivity].
  destruct (topo_gres_cnt_alloc ns); [|reflexivity].
  destruct (topo_gres_cnt_avail ns); [|reflexivity].
  rewrite <- Hlen. unfold shared_topo_step.
  exact (foldl_by_position (shared_slot_visit ns ubd usd nr n sb) 0%nat order [] st).
Qed.

Lemma pick_shared_gres_in_order E sg ns used_sock n ubd usd nr eb st :
  nz (Z.land (select_type_param E) (LL_SHARED_GRES E)) = true ->
  _pick_shared_gres E sg ns used_sock n ubd usd nr eb st =
  pick_shared_in_order sg ns used_sock n ubd usd nr eb
    (_get_sorted_topo_by_least_loaded ns) st.
Proof.
  intros Hll. unfold _pick_shared_gres, pick_shared_in_order, sock_pass_in_order.
  rewrite Hll.
  assert (Hlen : length (_get_sorted_topo_by_least_loaded ns)
                 = Z.to_nat (topo_cnt ns)).
  { unfold _get_sorted_topo_by_least_loaded. rewrite qsort_length, length_seq.
    reflexivity. }
  assert (Hstep : forall want (st : gres_job_state * Z) s,
            shared_sock_step sg ns used_sock want ubd usd nr n
              (Some (_get_sorted_topo_by_least_loaded ns)) st s =
            (if snd st =? 0 then st
             else if Bool.eqb (nz (zget used_sock s)) want then
               draw_in_order sg ns ubd usd nr n (Z.of_nat s)
                 (_get_sorted_topo_by_least_loaded ns) st
             else st)).
  { intros want st0 s. unfold shared_sock_step.
    rewrite pick_shared_gres_topo_in_order by exact Hlen. reflexivity. }
  rewrite (foldl_ext _ _ _ _ (Hstep true)).
  rewrite pick_shared_gres_topo_in_order by exact Hlen.
  rewrite (foldl_ext _ _ _ _ (Hstep false)).
  reflexivity.
Qed.

(** C6: with LL_SHARED_GRES set the shared picker visits the topology
    slots in the order of a sort of the slot indices by descending
    (topo_gres_cnt_avail[t] - topo_gres_cnt_alloc[t]) * gres_cnt_avail /
    topo_gres_cnt_avail[t], computed on integers; with slots of capacity
    [10,10] and use [5,2] a per-node need of 1 is taken from slot 1. *)
Theorem least_loaded_visit_order (E : slurm_env) (ns : gres_node_state) :
  nz (Z.land (select_type_param E) (LL_SHARED_GRES E)) = true ->
  slot_bounds ns ->
  Permutation (_get_sorted_topo_by_least_loaded ns)
              (seq 0 (Z.to_nat (topo_cnt ns))) /\
  StronglySorted (fun t u => slot_ratio ns u <= slot_ratio ns t)
                 (_get_sorted_topo_by_least_loaded ns) /\
  (forall sg used_sock n use_busy_dev use_single_dev no_repeat enforce_binding st,
     _pick_shared_gres E sg ns used_sock n use_busy_dev use_single_dev
       no_repeat enforce_binding st =
     pick_shared_in_order sg ns used_sock n use_busy_dev use_single_dev
       no_repeat enforce_binding (_get_sorted_topo_by_least_loaded ns) st) /\
  gres_select_filter_select_and_set env_ll [[ll_request]] ll_job None ll_heap
  = (SLURM_SUCCESS,
     {| h_jobs := [job_entry 2 8 ll_selected]; h_nodes := h_nodes ll_heap |}).
Proof.
  intros Hll Hb. split; [apply sorted_topo_perm|].
  split; [apply sorted_topo_by_ratio; exact Hb|].
  split; [intros; apply pick_shared_gres_in_order; exact Hll|].
  vm_compute. reflexivity.
Qed.

Lemma least_loaded_visit_order_witness :
  nz (Z.land (select_type_param env_ll) (LL_SHARED_GRES env_ll)) = true /\
  slot_bounds ll_node /\
  Permutation (_get_sorted_topo_by_least_loaded ll_node)
              (seq 0 (Z.to_nat (topo_cnt ll_node))) /\
  StronglySorted (fun t u => slot_ratio ll_node u <= slot_ratio ll_node t)
                 (_get_sorted_topo_by_least_loaded ll_node) /\
  (forall sg used_sock n use_busy_dev use_single_dev no_repeat enforce_binding st,
     _pick_shared_gres env_ll sg ll_node used_sock n use_busy_dev use_single_dev
       no_repeat enforce_binding st =
     pick_shared_in_order sg ll_node used_sock n use_busy_dev use_single_dev
       no_repeat enforce_binding (_get_sorted_topo_by_least_loaded ll_node) st) /\
  gres_select_filter_select_and_set env_ll [[ll_request]] ll_job None ll_heap
  = (SLURM_SUCCESS,
     {| h_jobs := [job_entry 2 8 ll_selected]; h_nodes := h_nodes ll_heap |}).
Proof.
  assert (Hll : nz (Z.land (select_type_param env_ll) (LL_SHARED_GRES env_ll)) = true)
    by reflexivity.
  assert (Hb : slot_bounds ll_node).
  { split; [simpl; lia|]. intros t Ht.
    destruct t as [|[|t]]; [vm_compute; intuition congruence
                           |vm_compute; intuition congruence
                           |simpl in Ht; lia]. }
  split; [exact Hll|]. split; [exact Hb|].
  apply (least_loaded_visit_order env_ll ll_node); [exact Hll | exact Hb].
Defined.

(** C1: on the well-formed input [mixed_heap], a shared kind asked for
    with one share per node and two per job beside a non-shared kind asked
    for with two units per job, [gres_select_filter_select_and_set]
    returns success and leaves the shared kind with a count of 2 on the
    node and one share in gres_per_bit_select.  The first pass hands a
    shared kind to the share pickers only (lines 1532-1550); the second
    pass (lines 1654-1665) makes no such test and hands the shared record
    to [_set_job_bits2], which sets a bit and counts it. *)
Lemma select_and_set_counts_differ :
  selection_input_ok env0 [[shares_request; units_request]] 1 mixed_heap /\
  gres_select_filter_select_and_set env0 [[shares_request; units_request]]
    mixed_job None mixed_heap = (SLURM_SUCCESS, mixed_selected) /\
  ~ selection_counts counts_agree env0 [[shares_request; units_request]]
      [true] mixed_selected.
Proof.
  split; [|split].
  - split; [simpl; lia|]. split; [|split].
    + intros gsj js Hin Hd.
      assert (Hjs : js = request 2 1 0 0 \/ js = request 2 0 0 0).
      { apply elem_of_cons in Hin as [Heq | Hin];
          [subst; left; simpl in Hd; congruence|].
        apply elem_of_cons in Hin as [Heq | Hin];
          [subst; right; simpl in Hd; congruence|].
        inversion Hin. }
      destruct Hjs as [Heq | Heq]; subst; unfold job_state_ok; simpl;
        repeat split; try lia; try (left; reflexivity); intros l Hl; discriminate.
    + intros lst Hin.
      apply elem_of_cons in Hin as [Heq | Hin]; [subst | inversion Hin].
      simpl. apply NoDup_cons. split.
      * intros H. apply elem_of_cons in H as [H | H]; [discriminate | inversion H].
      * apply NoDup_cons. split; [intros H; inversion H | apply NoDup_nil; exact I].
    + intros lst sg gsj ns Hin Hsg Hgsj Hshared Hns.
      apply elem_of_cons in Hin as [Heq | Hin]; [subst | inversion Hin].
      apply elem_of_cons in Hsg as [Heq | Hsg]; [subst|].
      * vm_compute in Hns. inversion Hns; subst.
        split; [|split; [vm_compute; reflexivity | vm_compute; discriminate]].
        intros t Ht.
        destruct t as [|[|t]]; [vm_compute; intuition congruence
                               |vm_compute; intuition congruence
                               |simpl in Ht; lia].
      * apply elem_of_cons in Hsg as [Heq | Hsg]; [subst | inversion Hsg].
        simpl in Hgsj. inversion Hgsj; subst. vm_compute in Hshared. discriminate.
  - vm_compute. reflexivity.
  - intros H.
    specialize (H 0%nat 0%nat [shares_request; units_request] shares_request
                  _ _ two_slots eq_refl eq_refl ltac:(left) eq_refl eq_refl
                  eq_refl ltac:(vm_compute; discriminate)).
    vm_compute in H. discriminate.
Qed.

Lemma select_and_set_counts_witness :
  job_resrcs ll_job = Some ll_resources /\
  node_bitmap ll_resources = Some [true] /\
  selection_input_ok env_ll [[ll_request]] (length [true]) ll_heap /\
  gres_select_filter_select_and_set env_ll [[ll_request]] ll_job None ll_heap
  = (SLURM_SUCCESS,
     {| h_jobs := [job_entry 2 8 ll_selected]; h_nodes := h_nodes ll_heap |}) /\
  selection_counts counts_agree_without_per_job env_ll [[ll_request]] [true]
    {| h_jobs := [job_entry 2 8 ll_selected]; h_nodes := h_nodes ll_heap |}.
Proof.
  assert (Hin : selection_input_ok env_ll [[ll_request]] (length [true]) ll_heap).
  { split; [simpl; lia|]. split; [|split].
    - intros gsj js Hin Hd.
      apply elem_of_cons in Hin as [Heq | Hin]; [subst | inversion Hin].
      simpl in Hd. inversion Hd; subst. unfold job_state_ok; simpl.
      repeat split; try lia; try (left; reflexivity); intros l Hl; discriminate.
    - intros lst Hin.
      apply elem_of_cons in Hin as [Heq | Hin]; [subst | inversion Hin].
      simpl. apply NoDup_cons. split; [intros H; inversion H|].
      apply NoDup_nil. exact I.
    - intros lst sg gsj ns Hin Hsg Hgsj Hshared Hns.
      apply elem_of_cons in Hin as [Heq | Hin]; [subst | inversion Hin].
      apply elem_of_cons in Hsg as [Heq | Hsg]; [subst | inversion Hsg].
      vm_compute in Hns. inversion Hns; subst.
      split; [|split; [vm_compute; reflexivity | vm_compute; discriminate]].
      intros t Ht.
      destruct t as [|[|t]]; [vm_compute; intuition congruence
                             |vm_compute; intuition congruence
                             |simpl in Ht; lia]. }
  assert (Hrun : gres_select_filter_select_and_set env_ll [[ll_request]] ll_job
                   None ll_heap
                 = (SLURM_SUCCESS,
                    {| h_jobs := [job_entry 2 8 ll_selected];
                       h_nodes := h_nodes ll_heap |}))
    by (vm_compute; reflexivity).
  split; [reflexivity|]. split; [reflexivity|]. split; [exact Hin|].
  split; [exact Hrun|].
  exact (select_and_set_counts env_ll [[ll_request]] ll_job None ll_resources
           [true] ll_heap _ eq_refl eq_refl Hin Hrun).
Defined.

(** * Further properties of the filter and of the pickers *)

(** *** The cores of a socket *)

Lemma scan_socket_cores_sound (bm : bitstr) n : forall i,
  scan_socket_cores bm i n = Some true ->
  exists c, (c < n)%nat /\ bit_test bm (i + c) = true.
Proof.
  induction n as [|n IH]; intros i H; simpl in H; [discriminate|].
  destruct (length bm <=? i)%nat; [discriminate|].
  destruct (bit_test bm i) eqn:Hb.
  - exists 0%nat. rewrite Nat.add_0_r. split; [lia | exact Hb].
  - destruct (IH _ H) as (c & Hc & Hbit). exists (S c).
    replace (i + S c)%nat with (S i + c)%nat by lia. split; [lia | exact Hbit].
Qed.

Lemma scan_socket_cores_complete (bm : bitstr) n : forall i,
  (i + n <= length bm)%nat ->
  exists b, scan_socket_cores bm i n = Some b /\
    (b = true <-> exists c, (c < n)%nat /\ bit_test bm (i + c) = true).
Proof.
  induction n as [|n IH]; intros i Hlen; simpl.
  - exists false. split; [reflexivity|]. split; [discriminate|].
    intros (c & Hc & _). lia.
  - destruct (Nat.leb_spec (length bm) i); [lia|].
    destruct (bit_test bm i) eqn:Hb.
    + exists true. split; [reflexivity|]. split; [|reflexivity].
      intros _. exists 0%nat. rewrite Nat.add_0_r. split; [lia | exact Hb].
    + destruct (IH (S i)) as (b & Hs & Hiff); [lia|].
      exists b. split; [exact Hs|]. rewrite Hiff. split.
      * intros (c & Hc & Hbit). exists (S c).
        replace (i + S c)%nat with (S i + c)%nat by lia. split; [lia | exact Hbit].
      * intros (c & Hc & Hbit). destruct c as [|c].
        { rewrite Nat.add_0_r in Hbit. congruence. }
        exists c. replace (S i + c)%nat with (i + S c)%nat by lia.
        split; [lia | exact Hbit].
Qed.

Lemma scan_sockets_length (bm : bitstr) cps n : forall s,
  length (scan_sockets bm cps s n) = n.
Proof.
  induction n as [|n IH]; intros s; simpl; [reflexivity|].
  destruct (scan_socket_cores bm (s * cps) cps).
  - simpl. rewrite IH. reflexivity.
  - simpl. rewrite length_replicate. reflexivity.
Qed.

Lemma scan_sockets_sound (bm : bitstr) cps n : forall s k,
  scan_sockets bm cps s n !! k = Some true ->
  exists c, (c < cps)%nat /\ bit_test bm ((s + k) * cps + c) = true.
Proof.
  induction n as [|n IH]; intros s k H; simpl in H; [discriminate|].
  destruct (scan_socket_cores bm (s * cps) cps) as [b|] eqn:Hs.
  - destruct k as [|k]; simpl in H.
    + inversion H; subst. rewrite Nat.add_0_r.
      apply scan_socket_cores_sound. exact Hs.
    + replace (s + S k)%nat with (S s + k)%nat by lia. apply IH. exact H.
  - change (false :: replicate n false) with (replicate (S n) false) in H.
    apply lookup_replicate in H as [H _]. discriminate.
Qed.

Lemma scan_sockets_complete (bm : bitstr) cps n : forall s k,
  ((s + n) * cps <= length bm)%nat -> (k < n)%nat ->
  (exists c, (c < cps)%nat /\ bit_test bm ((s + k) * cps + c) = true) ->
  scan_sockets bm cps s n !! k = Some true.
Proof.
  induction n as [|n IH]; intros s k Hlen Hk Hc; [lia|]. simpl.
  destruct (scan_socket_cores_complete bm cps (s * cps)) as (b & Hs & Hiff);
    [nia|].
  rewrite Hs. destruct k as [|k]; simpl.
  - rewrite Nat.add_0_r in Hc. f_equal. apply Hiff. exact Hc.
  - replace (s + S k)%nat with (S s + k)%nat in Hc by lia.
    apply IH; [|lia|exact Hc].
    replace (S s + n)%nat with (s + S n)%nat by lia. exact Hlen.
Qed.

(** X1: [_build_avail_cores_by_sock] returns one flag per socket.  A flag is
    never set on a socket whose cores are all clear in the bitmap; when the
    bitmap covers every core of the node, the flag of socket [s] is set
    exactly when one of the cores s * cores_per_sock, ...,
    s * cores_per_sock + cores_per_sock - 1 is set. *)
Theorem build_avail_cores_by_sock_flags (core_bitmap : bitstr)
    (sockets cores_per_sock : Z) (s : nat) :
  (s < Z.to_nat sockets)%nat ->
  let avail := _build_avail_cores_by_sock core_bitmap sockets cores_per_sock in
  let has_core :=
    exists c, (c < Z.to_nat cores_per_sock)%nat /\
              bit_test core_bitmap (s * Z.to_nat cores_per_sock + c) = true in
  length avail = Z.to_nat sockets /\
  (avail !! s = Some true -> has_core) /\
  ((Z.to_nat sockets * Z.to_nat cores_per_sock <= length core_bitmap)%nat ->
   has_core -> avail !! s = Some true).
Proof.
  intros Hs. simpl. unfold _build_avail_cores_by_sock.
  split; [apply scan_sockets_length|]. split.
  - intros H. apply scan_sockets_sound in H. exact H.
  - intros Hlen Hc. apply scan_sockets_complete; simpl; [lia | lia | exact Hc].
Qed.

(** *** What the filter leaves in a record *)

Lemma u16_u64 x : u16 (u64 x) = u16 x.
Proof.
  unfold u16, u64. apply Z.mod_mod_divide. exists (2 ^ 48). reflexivity.
Qed.

Section remove_unusable_more.
Context (E : slurm_env) (jobs : job_store).
Variables (avail_mem max_cpus : Z) (enforce_binding : bool)
          (core_bitmap : bitstr)
          (sockets cores_per_sock cpus_per_core : Z)
          (sock_per_node task_per_node cpus_per_task : Z)
          (whole_node : bool).

Local Abbreviation examine_ :=
  (examine E avail_mem max_cpus enforce_binding core_bitmap sockets
     cores_per_sock cpus_per_core sock_per_node task_per_node cpus_per_task
     whole_node).
Local Abbreviation filter_loop_ :=
  (filter_loop E jobs avail_mem max_cpus enforce_binding core_bitmap sockets
     cores_per_sock cpus_per_core sock_per_node task_per_node cpus_per_task
     whole_node).
Local Abbreviation passes_ :=
  (passes E jobs avail_mem max_cpus enforce_binding core_bitmap
     sockets cores_per_sock cpus_per_core sock_per_node task_per_node
     cpus_per_task whole_node).
Local Abbreviation remove_unusable_ l cb :=
  (gres_select_filter_remove_unusable E jobs l avail_mem max_cpus
     enforce_binding cb sockets cores_per_sock cpus_per_core sock_per_node
     task_per_node cpus_per_task whole_node).
Local Abbreviation core_ := (sock_has_core core_bitmap sockets cores_per_sock).
Local Abbreviation sharing_ := (fun sg => is_sharing E jobs sg = true).

Lemma examine_sharing sg js sg' near :
  examine_ sg js = Passed sg' near -> is_sharing E jobs sg' = is_sharing E jobs sg.
Proof.
  intros Hex.
  pose proof (examine_static E avail_mem max_cpus enforce_binding core_bitmap
                sockets cores_per_sock cpus_per_core sock_per_node task_per_node
                cpus_per_task whole_node sg js) as Hs.
  rewrite Hex in Hs. unfold static_of in Hs.
  unfold is_sharing. assert (gres_state_job sg' = gres_state_job sg) as ->
    by congruence.
  reflexivity.
Qed.

Lemma filter_loop_avail l : forall a n r,
  filter_loop_ l a n = Some r -> f_rc r = 0 ->
  u16 (f_avail_gpus r)
  = u16 (a + zsum (map total_cnt (filter sharing_ (f_list r)))).
Proof.
  induction l as [|sg l IH]; intros a n r H Hrc; simpl in H.
  - inversion H; subst; simpl. rewrite Z.add_0_r. reflexivity.
  - destruct (jobs !! gres_state_job sg) as [gs|] eqn:Hgs; simpl in H;
      [|discriminate].
    destruct (gres_data gs) as [js|] eqn:Hjs; simpl in H; [|discriminate].
    destruct (examine_ sg js) as [sg'|sg' nn] eqn:Hex.
    { inversion H; subst; simpl in Hrc. discriminate. }
    pose proof (examine_sharing _ _ _ _ Hex) as Hsh.
    assert (Hsg : is_sharing E jobs sg = gres_id_sharing E (plugin_id gs)).
    { unfold is_sharing. rewrite Hgs. reflexivity. }
    destruct (gres_id_sharing E (plugin_id gs)) eqn:Hid.
    + destruct (filter_loop_ l _ _) as [r'|] eqn:Hr; simpl in H; [|discriminate].
      inversion H; subst; simpl in *. clear H.
      rewrite (IH _ _ _ Hr Hrc).
      rewrite filter_cons_True by congruence. simpl.
      unfold add_avail. rewrite u16_u64. unfold u16.
      rewrite Zplus_mod_idemp_l. f_equal. lia.
    + destruct (filter_loop_ l _ _) as [r'|] eqn:Hr; simpl in H; [|discriminate].
      inversion H; subst; simpl in *. clear H.
      rewrite (IH _ _ _ Hr Hrc).
      rewrite filter_cons_False by congruence. reflexivity.
Qed.

Lemma filter_loop_avail_range l : forall a n r,
  filter_loop_ l a n = Some r -> 0 <= a < 2 ^ 16 -> 0 <= f_avail_gpus r < 2 ^ 16.
Proof.
  induction l as [|sg l IH]; intros a n r H Ha; simpl in H.
  - inversion H; subst; simpl. exact Ha.
  - destruct (jobs !! gres_state_job sg) as [gs|]; simpl in H; [|discriminate].
    destruct (gres_data gs) as [js|]; simpl in H; [|discriminate].
    destruct (examine_ sg js) as [sg'|sg' nn].
    { inversion H; subst; simpl. exact Ha. }
    destruct (gres_id_sharing E (plugin_id gs)).
    + destruct (filter_loop_ l _ _) as [r'|] eqn:Hr; simpl in H; [|discriminate].
      inversion H; subst; simpl. apply (IH _ _ _ Hr).
      unfold add_avail, u16. apply Z.mod_pos_bound. lia.
    + destruct (filter_loop_ l _ _) as [r'|] eqn:Hr; simpl in H; [|discriminate].
      inversion H; subst; simpl. apply (IH _ _ _ Hr). exact Ha.
Qed.

(** X5: On a feasible return avail_gpus is the sum of the total_cnt the filter
    leaves in the records of the sharing requests, reduced modulo 2^16:
    unlike near_gpus it wraps around and does not saturate. *)
Theorem remove_unusable_avail_gpus (l : list sock_gres_t) (r : filter_result) :
  remove_unusable_ (Some l) (Some core_bitmap) = Some r ->
  f_rc r = 0 ->
  f_avail_gpus r = u16 (zsum (map total_cnt (filter sharing_ (f_list r)))).
Proof.
  intros Hr Hrc.
  assert (Hl : filter_loop_ l 0 0 = Some r).
  { destruct l as [|sg l]; simpl in Hr; [|exact Hr]. inversion Hr; reflexivity. }
  pose proof (filter_loop_avail _ _ _ _ Hl Hrc) as H.
  pose proof (filter_loop_avail_range _ _ _ _ Hl) as Hrg.
  rewrite u16_small in H by (apply Hrg; lia). exact H.
Qed.

Lemma min_gres_per_node sg js :
  whole_node = false -> gres_per_node js <> 0 ->
  gres_per_node js <= min_gres_of E sock_per_node task_per_node whole_node sg js.
Proof.
  intros -> Hpn. unfold min_gres_of.
  apply nz_true in Hpn. rewrite Hpn. simpl.
  destruct (nz (gres_per_socket js)), (nz (gres_per_task js));
    rewrite ?MAX_max; lia.
Qed.

(** X3: A request with gres_per_node that passes the filter without whole_node
    leaves with max_node_gres equal to gres_per_node and with at least
    gres_per_node in total_cnt: every cap the filter applies can only lower
    max_node_gres, and a record whose cap is below gres_per_node is
    rejected. *)
Theorem remove_unusable_per_node_cap (sg sg' : sock_gres_t)
    (gs : gres_state_t gres_job_state) (js : gres_job_state) :
  whole_node = false ->
  jobs !! gres_state_job sg = Some gs -> gres_data gs = Some js ->
  0 < gres_per_node js -> 0 <= gres_per_job js ->
  0 <= max_node_gres sg -> 0 <= avail_mem ->
  0 <= mem_per_gres js -> 0 <= def_mem_per_gres js ->
  passes_ sg sg' ->
  max_node_gres sg' = gres_per_node js /\ gres_per_node js <= total_cnt sg'.
Proof.
  intros Hwn Hgs Hjs Hpn Hpj Hmax Hmem Hm1 Hm2 (gs' & js' & near & Hgs' & Hjs' & Hex).
  assert (gs' = gs) by congruence; subst gs'.
  assert (js' = js) by congruence; subst js'.
  pose proof (min_gres_per_node sg js Hwn ltac:(lia)) as Hmin.
  unfold examine in Hex.
  destruct (insufficient_cpus _ _ _); [discriminate|].
  set (mpg := mem_per_gres_of js) in *.
  assert (Hmpg : 0 <= mpg).
  { subst mpg. unfold mem_per_gres_of. destruct (nz _); assumption. }
  destruct (mem_tracked E avail_mem mpg && _); [discriminate|].
  set (sg1 := if mem_tracked E avail_mem mpg then _ else sg) in *.
  assert (H1 : 0 <= max_node_gres sg1).
  { subst sg1. destruct (mem_tracked E avail_mem mpg) eqn:Hmt; [|assumption].
    simpl. apply Z.div_pos; [assumption|].
    unfold mem_tracked in Hmt. apply andb_true_iff in Hmt as [Hmt _].
    apply nz_true in Hmt. lia. }
  clearbody sg1.
  destruct (bind_gres _ _ _ _ sg1) as [sg2 near2] eqn:Hb.
  assert (H2 : max_node_gres sg2 = max_node_gres sg1).
  { unfold bind_gres in Hb. destruct (cnt_by_sock sg1) as [c|] eqn:Hc.
    - destruct enforce_binding; inversion Hb; subst; [|reflexivity].
      clear. generalize (seq 0 (Z.to_nat sockets)). intros l. revert sg1.
      induction l as [|s l IH]; intros sg1; simpl; [reflexivity|].
      rewrite IH. unfold prune_sock. destruct (core_ s); reflexivity.
    - inversion Hb; subst. reflexivity. }
  set (sg3 := node_or_job_cap whole_node sg2 js) in *.
  assert (H3 : 0 < max_node_gres sg3 <= gres_per_node js).
  { subst sg3. unfold node_or_job_cap, _set_max_node_gres. rewrite Hwn.
    assert (Hn : nz (gres_per_node js) = true) by (apply nz_true; lia).
    rewrite Hn. simpl.
    destruct (Z.eqb_spec (max_node_gres sg2) 0) as [Hz|Hz]; simpl; [lia|].
    destruct (Z.gtb_spec (max_node_gres sg2) (gres_per_node js)); simpl; [lia|].
    destruct (nz (gres_per_job js)) eqn:Hj; simpl; [|lia].
    apply nz_true in Hj.
    destruct (Z.eqb_spec (max_node_gres sg2) 0); [lia|]. simpl.
    destruct (Z.gtb_spec (max_node_gres sg2) (gres_per_job js)); simpl; lia. }
  clearbody sg3.
  destruct (cpu_cap _ _ _ _ sg3 js _) as [sg4|] eqn:Hc; [|discriminate].
  assert (H4 : 0 < max_node_gres sg4 <= gres_per_node js).
  { unfold cpu_cap in Hc.
    destruct (nz _ && _); [|inversion Hc; subst; exact H3].
    set (mg := u64 _) in *. pose proof (u64_range (Z.quot
      (s32 (bit_set_count core_bitmap * cpus_per_core)) (cpus_per_gres_of E cpus_per_task js))) as Hmg.
    fold mg in Hmg.
    destruct (Z.eqb_spec mg 0); [discriminate|].
    destruct (Z.eqb_spec (max_node_gres sg3) 0); [lia|]. simpl in Hc.
    destruct (Z.gtb_spec (max_node_gres sg3) mg);
      inversion Hc; subst; simpl; lia. }
  set (sg5 := mem_cap E avail_mem sg4 mpg) in *.
  assert (H5 : max_node_gres sg5 = max_node_gres sg4).
  { subst sg5. unfold mem_cap. destruct (mem_tracked _ _ _); reflexivity. }
  destruct (below_min sg5 _) eqn:Hbm; [discriminate|].
  inversion Hex; subst sg' near. clear Hex.
  unfold below_min in Hbm. apply orb_false_iff in Hbm as [Ht Hm].
  apply Z.ltb_ge in Ht.
  destruct (Z.eqb_spec (max_node_gres sg5) 0); [lia|]. simpl in Hm.
  apply Z.ltb_ge in Hm. lia.
Qed.

Lemma prune_fold_cnt n : forall a sg c,
  cnt_by_sock sg = Some c ->
  exists c',
    cnt_by_sock (foldl (prune_sock core_bitmap sockets cores_per_sock) sg
                   (seq a n)) = Some c' /\
    length c' = length c /\
    forall s, zget c' s
              = if (a <=? s)%nat && (s <? a + n)%nat && negb (core_ s)
                then 0 else zget c s.
Proof.
  induction n as [|n IH]; intros a sg c Hc.
  - exists c. simpl. split; [exact Hc|]. split; [reflexivity|].
    intros s. destruct (Nat.leb_spec a s), (Nat.ltb_spec s (a + 0)); simpl;
      try reflexivity; lia.
  - cbn [seq foldl]. unfold prune_sock at 2. destruct (core_ a) eqn:Hcore.
    + destruct (IH (S a) sg c Hc) as (c' & H1 & H2 & H3).
      exists c'. split; [exact H1|]. split; [exact H2|].
      intros s. rewrite H3.
      destruct (Nat.leb_spec (S a) s), (Nat.leb_spec a s),
        (Nat.ltb_spec s (S a + n)), (Nat.ltb_spec s (a + S n));
        simpl; try reflexivity; try lia.
      assert (s = a) by lia. subst s. rewrite Hcore. reflexivity.
    + set (sg1 := set_cnt_by_sock _ _).
      assert (Hc1 : cnt_by_sock sg1 = Some (<[a := 0]> c)).
      { subst sg1. simpl. rewrite Hc. reflexivity. }
      destruct (IH (S a) sg1 _ Hc1) as (c' & H1 & H2 & H3).
      exists c'. split; [exact H1|]. split.
      { rewrite H2. apply length_insert. }
      intros s. rewrite H3.
      destruct (Nat.leb_spec (S a) s), (Nat.leb_spec a s),
        (Nat.ltb_spec s (S a + n)), (Nat.ltb_spec s (a + S n));
        simpl; try lia.
      * destruct (core_ s); simpl; [|reflexivity].
        unfold zget. rewrite list_lookup_insert_ne by lia. reflexivity.
      * unfold zget. rewrite list_lookup_insert_ne by lia. reflexivity.
      * assert (s = a) by lia. subst s. rewrite Hcore. simpl.
        unfold zget. destruct (Nat.lt_ge_cases a (length c)).
        -- rewrite list_lookup_insert_eq by lia. reflexivity.
        -- rewrite lookup_ge_None_2; [reflexivity|]. rewrite length_insert. lia.
      * unfold zget. rewrite list_lookup_insert_ne by lia. reflexivity.
Qed.

(** X2: Under enforce_binding a request that passes the filter has lost what it
    had on the sockets without an available core: the counts of these
    sockets are 0 in the record the filter leaves, the counts of the other
    sockets are as they were, and total_cnt is at most the count on the
    sockets with a core. *)
Theorem remove_unusable_binding_prune (sg sg' : sock_gres_t) (c : list Z) :
  enforce_binding = true ->
  sock_gres_ok sg -> cnt_by_sock sg = Some c ->
  passes_ sg sg' ->
  total_cnt sg' <= post_prune_cnt core_bitmap sockets cores_per_sock sg /\
  exists c',
    cnt_by_sock sg' = Some c' /\ length c' = length c /\
    forall s, zget c' s
              = if (s <? Z.to_nat sockets)%nat && negb (core_ s)
                then 0 else zget c s.
Proof.
  intros Hen Hok Hc (gs & js & near & Hgs & Hjs & Hex).
  unfold examine in Hex.
  destruct (insufficient_cpus _ _ _); [discriminate|].
  set (mpg := mem_per_gres_of js) in *.
  destruct (mem_tracked E avail_mem mpg && _); [discriminate|].
  set (sg1 := if mem_tracked E avail_mem mpg then _ else sg) in *.
  assert (H1 : cnt_by_sock sg1 = Some c /\ total_cnt sg1 = total_cnt sg).
  { subst sg1. destruct (mem_tracked E avail_mem mpg); simpl; auto. }
  destruct H1 as [Hc1 Ht1]. clearbody sg1.
  destruct (bind_gres _ _ _ _ sg1) as [sg2 near2] eqn:Hb.
  unfold bind_gres in Hb. rewrite Hc1, Hen in Hb.
  destruct Hok as (Hnn & Hsum & Ht & _). rewrite Hc in Hnn, Hsum. simpl in *.
  pose proof (unavail_part_bounds core_bitmap sockets cores_per_sock c 0
                (Z.to_nat sockets) Hnn) as Hu. rewrite drop_0 in Hu.
  destruct (prune_fold_total core_bitmap sockets cores_per_sock
              (Z.to_nat sockets) 0 sg1 c Hc1 Hnn) as [Ht2 _]; [lia|].
  destruct (prune_fold_cnt (Z.to_nat sockets) 0 sg1 c Hc1) as (c' & Hc2 & Hl & Hz).
  inversion Hb; subst sg2 near2. clear Hb.
  set (sg2 := foldl _ sg1 _) in *. clearbody sg2.
  set (sg3 := node_or_job_cap whole_node sg2 js) in *.
  assert (H3 : cnt_by_sock sg3 = Some c' /\ total_cnt sg3 = total_cnt sg2).
  { subst sg3. unfold node_or_job_cap, _set_max_node_gres.
    destruct whole_node; [auto|].
    destruct (nz (gres_per_node js) && _); simpl; [auto|].
    destruct (nz (gres_per_job js) && _); simpl; auto. }
  destruct H3 as [Hc3 Ht3]. clearbody sg3.
  destruct (cpu_cap _ _ _ _ sg3 js _) as [sg4|] eqn:Hcap; [|discriminate].
  assert (H4 : cnt_by_sock sg4 = Some c' /\ total_cnt sg4 = total_cnt sg3).
  { unfold cpu_cap in Hcap.
    repeat case_match; try discriminate; inversion Hcap; subst; simpl; auto. }
  destruct H4 as [Hc4 Ht4].
  set (sg5 := mem_cap E avail_mem sg4 mpg) in *.
  assert (H5 : cnt_by_sock sg5 = Some c' /\ total_cnt sg5 <= total_cnt sg4).
  { subst sg5. unfold mem_cap. destruct (mem_tracked _ _ _); simpl.
    - split; [exact Hc4|]. rewrite MIN_min. lia.
    - split; [exact Hc4 | lia]. }
  destruct H5 as [Hc5 Ht5]. clearbody sg5.
  destruct (below_min sg5 _); [discriminate|].
  inversion Hex; subst sg' near. clear Hex.
  split.
  - unfold post_prune_cnt, unavail_cnt. rewrite Hc. unfold zget_opt. simpl.
    unfold unavail_part in Ht2. lia.
  - exists c'. split; [exact Hc5|]. split; [exact Hl|].
    intros s. rewrite Hz. simpl. reflexivity.
Qed.

End remove_unusable_more.

Section remove_unusable_caps.
Context (E : slurm_env) (jobs : job_store).
Variables (avail_mem max_cpus : Z) (enforce_binding : bool)
          (core_bitmap : bitstr)
          (sockets cores_per_sock cpus_per_core : Z)
          (sock_per_node task_per_node cpus_per_task : Z)
          (whole_node : bool).

Local Abbreviation passes_ :=
  (passes E jobs avail_mem max_cpus enforce_binding core_bitmap
     sockets cores_per_sock cpus_per_core sock_per_node task_per_node
     cpus_per_task whole_node).
Local Abbreviation core_ := (sock_has_core core_bitmap sockets cores_per_sock).

(** X4: A request that passes the filter leaves with caps its resources
    can serve.  When memory is tracked for it, max_node_gres is set and
    neither max_node_gres nor total_cnt times the memory per GRES exceeds
    avail_mem; when the CPU cap of lines 258-274 applies, max_node_gres is
    set and at most the available CPUs (set cores times cpus_per_core)
    divided by the CPUs per GRES. *)
Theorem remove_unusable_resource_caps (sg sg' : sock_gres_t)
    (gs : gres_state_t gres_job_state) (js : gres_job_state) :
  jobs !! gres_state_job sg = Some gs -> gres_data gs = Some js ->
  0 <= gres_per_node js -> 0 <= gres_per_job js ->
  0 <= max_node_gres sg -> 0 <= avail_mem ->
  0 <= mem_per_gres js -> 0 <= def_mem_per_gres js ->
  passes_ sg sg' ->
  let mpg := mem_per_gres_of js in
  let cpg := cpus_per_gres_of E cpus_per_task js in
  (mem_tracked E avail_mem mpg = true ->
   0 < max_node_gres sg' /\ max_node_gres sg' * mpg <= avail_mem /\
   total_cnt sg' * mpg <= avail_mem) /\
  (nz cpg && ((ntasks_per_gres js =? NO_VAL16 E) || negb whole_node) = true ->
   0 < max_node_gres sg'
   <= u64 (Z.quot (s32 (bit_set_count core_bitmap * cpus_per_core)) cpg)).
Proof.
  intros Hgs Hjs Hpn Hpj Hmax Hmem Hm1 Hm2 (gs' & js' & near & Hgs' & Hjs' & Hex).
  assert (gs' = gs) by congruence; subst gs'.
  assert (js' = js) by congruence; subst js'.
  cbv zeta. unfold examine in Hex.
  destruct (insufficient_cpus _ _ _); [discriminate|].
  set (mpg := mem_per_gres_of js) in *.
  set (cpg := cpus_per_gres_of E cpus_per_task js) in *.
  assert (Hmpg : 0 <= mpg).
  { subst mpg. unfold mem_per_gres_of. destruct (nz _); assumption. }
  destruct (mem_tracked E avail_mem mpg && _) eqn:Hrej; [discriminate|].
  set (sg1 := if mem_tracked E avail_mem mpg then _ else sg) in *.
  assert (H1 : 0 <= max_node_gres sg1 /\
               (mem_tracked E avail_mem mpg = true ->
                0 < mpg /\ 0 < max_node_gres sg1 <= avail_mem / mpg)).
  { subst sg1. destruct (mem_tracked E avail_mem mpg) eqn:Hmt;
      [|split; [assumption | discriminate]].
    simpl in Hrej. apply negb_false_iff, Z.leb_le in Hrej.
    unfold mem_tracked in Hmt. apply andb_true_iff in Hmt as [Hmt _].
    apply nz_true in Hmt. simpl.
    assert (Hd : 0 < avail_mem / mpg) by (apply Z.div_str_pos; lia).
    split; [lia|]. intros _. split; lia. }
  destruct H1 as [H1 H1m]. clearbody sg1.
  destruct (bind_gres _ _ _ _ sg1) as [sg2 near2] eqn:Hb.
  assert (H2 : max_node_gres sg2 = max_node_gres sg1).
  { unfold bind_gres in Hb. destruct (cnt_by_sock sg1) as [c|] eqn:Hc.
    - destruct enforce_binding; inversion Hb; subst; [|reflexivity].
      clear. generalize (seq 0 (Z.to_nat sockets)). intros l. revert sg1.
      induction l as [|s l IH]; intros sg1; simpl; [reflexivity|].
      rewrite IH. unfold prune_sock. destruct (core_ s); reflexivity.
    - inversion Hb; subst. reflexivity. }
  set (sg3 := node_or_job_cap whole_node sg2 js) in *.
  assert (H3 : 0 <= max_node_gres sg3 /\
               (0 < max_node_gres sg2 ->
                0 < max_node_gres sg3 <= max_node_gres sg2)).
  { subst sg3. unfold node_or_job_cap, _set_max_node_gres.
    destruct whole_node; [lia|].
    destruct (nz (gres_per_node js)) eqn:Hn; simpl.
    - apply nz_true in Hn.
      destruct (Z.eqb_spec (max_node_gres sg2) 0); simpl; [lia|].
      destruct (Z.gtb_spec (max_node_gres sg2) (gres_per_node js)); simpl; [lia|].
      destruct (nz (gres_per_job js)) eqn:Hj; simpl; [|lia].
      apply nz_true in Hj.
      destruct (Z.eqb_spec (max_node_gres sg2) 0); [lia|]. simpl.
      destruct (Z.gtb_spec (max_node_gres sg2) (gres_per_job js)); simpl; lia.
    - destruct (nz (gres_per_job js)) eqn:Hj; simpl; [|lia].
      apply nz_true in Hj.
      destruct (Z.eqb_spec (max_node_gres sg2) 0); simpl; [lia|].
      destruct (Z.gtb_spec (max_node_gres sg2) (gres_per_job js)); simpl; lia. }
  destruct H3 as [H3 H3m]. clearbody sg3.
  destruct (cpu_cap _ _ _ _ sg3 js _) as [sg4|] eqn:Hc; [|discriminate].
  fold cpg in Hc.
  assert (H4 : (0 < max_node_gres sg3 ->
                0 < max_node_gres sg4 <= max_node_gres sg3) /\
               (nz cpg && ((ntasks_per_gres js =? NO_VAL16 E) || negb whole_node)
                = true ->
                0 < max_node_gres sg4
                <= u64 (Z.quot (s32 (bit_set_count core_bitmap * cpus_per_core))
                          cpg)) /\
               total_cnt sg4 = total_cnt sg3).
  { unfold cpu_cap in Hc.
    destruct (nz cpg && _); [|inversion Hc; subst; split; [lia|];
                               split; [discriminate | reflexivity]].
    set (mg := u64 _) in *.
    pose proof (u64_range (Z.quot (s32 (bit_set_count core_bitmap * cpus_per_core))
                             cpg)) as Hmg. fold mg in Hmg.
    destruct (Z.eqb_spec mg 0); [discriminate|].
    destruct (Z.eqb_spec (max_node_gres sg3) 0); simpl in Hc.
    - inversion Hc; subst; simpl. split; [lia|]. split; [lia | reflexivity].
    - destruct (Z.gtb_spec (max_node_gres sg3) mg);
        inversion Hc; subst; simpl; (split; [lia|]; split; [lia | reflexivity]). }
  destruct H4 as (H4m & H4c & _).
  set (sg5 := mem_cap E avail_mem sg4 mpg) in *.
  assert (H5 : max_node_gres sg5 = max_node_gres sg4 /\
               (mem_tracked E avail_mem mpg = true ->
                total_cnt sg5 <= avail_mem / mpg)).
  { subst sg5. unfold mem_cap. destruct (mem_tracked _ _ _); simpl.
    - split; [reflexivity|]. intros _. rewrite MIN_min. lia.
    - split; [reflexivity | discriminate]. }
  destruct H5 as [H5 H5t].
  destruct (below_min sg5 _); [discriminate|].
  inversion Hex; subst sg' near. clear Hex.
  split.
  - intros Hmt. destruct (H1m Hmt) as [Hpos Hr].
    specialize (H5t Hmt).
    assert (Hdm : avail_mem / mpg * mpg <= avail_mem)
      by (rewrite Z.mul_comm; apply Z.mul_div_le; lia).
    assert (Hm4 : 0 < max_node_gres sg4 <= avail_mem / mpg).
    { rewrite <- H2 in Hr. specialize (H3m ltac:(lia)).
      specialize (H4m ltac:(lia)). lia. }
    rewrite H5. split; [lia|]. split; nia.
  - intros Hcpu. rewrite H5. apply H4c. exact Hcpu.
Qed.

End remove_unusable_caps.
(** ** The shared picker, draw by draw *)

Section shares_guarded.
Context (E : slurm_env) (sg : sock_gres_t) (ns : gres_node_state) (n : nat)
        (use_busy_dev use_single_dev no_repeat : bool).
Variable K : gres_job_state -> Z -> Prop.
Variable allowed : Z -> Prop.

(** [K] is kept by every draw the loop of lines 347-374 makes, under the
    tests that lead to it, on the bitmap of a socket index that is
    [allowed]. *)
Hypothesis Hdraw : forall js needed t sb idx,
  K js needed -> needed <> 0 -> allowed idx -> sock_bits_of sg idx = Some sb ->
  (t < Z.to_nat (topo_cnt ns))%nat ->
  slot_eligible ns use_busy_dev sb js t = true ->
  (slot_cnt_avail ns js n t <? (if use_single_dev then needed else 1)) = false ->
  (no_repeat && bit_test (bit_select_at js n) t) = false ->
  MIN (slot_cnt_avail ns js n t) needed <> 0 ->
  K (shared_take n t (MIN (slot_cnt_avail ns js n t) needed) js)
    (u64 (needed - MIN (slot_cnt_avail ns js n t) needed)).

Local Abbreviation keeps st := (K (fst st) (snd st)).

Lemma shared_topo_step_guarded idx sb topo_index st j :
  allowed idx -> sock_bits_of sg idx = Some sb ->
  index_in_range ns topo_index -> (j < Z.to_nat (topo_cnt ns))%nat ->
  keeps st ->
  keeps (shared_topo_step ns use_busy_dev use_single_dev no_repeat n sb
           topo_index st j).
Proof.
  intros Hal Hsb Hidx Hj Hst. destruct st as [js needed].
  unfold shared_topo_step, shared_slot_visit.
  set (t := match topo_index with Some ti => _ | None => j end).
  assert (Ht : (t < Z.to_nat (topo_cnt ns))%nat) by (apply Hidx; exact Hj).
  destruct (Z.eqb_spec needed 0) as [|Hne]; [exact Hst|].
  destruct (nz (type_id js) && _) eqn:H1; [exact Hst|].
  destruct (use_busy_dev && _) eqn:H2; [exact Hst|].
  destruct (_ <? _) eqn:H3; [exact Hst|].
  destruct (bit_test sb t) eqn:H4; simpl; [|exact Hst].
  destruct (no_repeat && _) eqn:H5; [exact Hst|].
  destruct (Z.eqb_spec (MIN (slot_cnt_avail ns js n t) needed) 0) as [|Hc];
    [exact Hst|].
  simpl. apply (Hdraw js needed t sb idx); try assumption.
  unfold slot_eligible. rewrite H1, H2, H4. reflexivity.
Qed.

Lemma pick_shared_gres_topo_guarded socket_index topo_index st :
  allowed socket_index -> index_in_range ns topo_index -> keeps st ->
  keeps (_pick_shared_gres_topo sg ns use_busy_dev use_single_dev no_repeat n
           socket_index topo_index st).
Proof.
  intros Hal Hidx Hst. unfold _pick_shared_gres_topo.
  destruct (sock_bits_of sg socket_index) as [sb|] eqn:Hsb; [|exact Hst].
  destruct (topo_gres_cnt_alloc ns); [|exact Hst].
  destruct (topo_gres_cnt_avail ns); [|exact Hst].
  set (m := Z.to_nat (topo_cnt ns)) in *.
  assert (Hall : forall k, (k <= m)%nat ->
            keeps (foldl (shared_topo_step ns use_busy_dev use_single_dev
                            no_repeat n sb topo_index) st (seq 0 k))).
  { induction k as [|k IH]; intros Hk; [exact Hst|].
    rewrite seq_S, foldl_app. simpl.
    apply (shared_topo_step_guarded socket_index);
      [exact Hal | exact Hsb | exact Hidx | lia | apply IH; lia]. }
  apply Hall. lia.
Qed.

Lemma shared_sock_step_guarded used_sock want_used topo_index st s :
  (nz (zget used_sock s) = want_used -> allowed (Z.of_nat s)) ->
  index_in_range ns topo_index -> keeps st ->
  keeps (shared_sock_step sg ns used_sock want_used use_busy_dev
           use_single_dev no_repeat n topo_index st s).
Proof.
  intros Hal Hidx Hst. unfold shared_sock_step.
  destruct (snd st =? 0); [exact Hst|].
  destruct (Bool.eqb _ _) eqn:He; [|exact Hst].
  apply pick_shared_gres_topo_guarded; try assumption.
  apply Hal, Bool.eqb_prop, He.
Qed.

Lemma pick_shared_gres_guarded used_sock enforce_binding st :
  (forall s, nz (zget used_sock s) = true -> allowed (Z.of_nat s)) ->
  allowed ANY_SOCK_TEST ->
  (enforce_binding = false ->
   forall s, nz (zget used_sock s) = false -> allowed (Z.of_nat s)) ->
  keeps st ->
  keeps (_pick_shared_gres E sg ns used_sock n use_busy_dev use_single_dev
           no_repeat enforce_binding st).
Proof.
  intros Hused Hany Hfree Hst. unfold _pick_shared_gres.
  set (topo_index := if nz _ then Some _ else None).
  assert (Hidx : index_in_range ns topo_index).
  { subst topo_index. intros j Hj. destruct (nz _); [|exact Hj].
    apply sorted_topo_in_range. exact Hj. }
  set (st1 := foldl (shared_sock_step sg ns used_sock true _ _ _ n topo_index) st _).
  assert (H1 : keeps st1).
  { subst st1. apply (foldl_inv (fun st => keeps st)); [exact Hst|].
    intros; apply shared_sock_step_guarded; [apply Hused | |]; assumption. }
  set (st2 := if nz (snd st1) then _ else st1).
  assert (H2 : keeps st2).
  { subst st2. destruct (nz (snd st1)); [|exact H1].
    apply pick_shared_gres_topo_guarded; assumption. }
  destruct enforce_binding; [exact H2|]. simpl.
  apply (foldl_inv (fun st => keeps st)); [exact H2|].
  intros; apply shared_sock_step_guarded; [apply Hfree; reflexivity | |];
    assumption.
Qed.

End shares_guarded.

(** The same for a property kept by every draw, whatever its bitmap. *)
Lemma pick_shared_gres_drawn (E : slurm_env) (sg : sock_gres_t)
    (ns : gres_node_state) (n : nat)
    (use_busy_dev use_single_dev no_repeat : bool)
    (K : gres_job_state -> Z -> Prop) :
  (forall js needed t sb idx,
     K js needed -> needed <> 0 -> sock_bits_of sg idx = Some sb ->
     (t < Z.to_nat (topo_cnt ns))%nat ->
     slot_eligible ns use_busy_dev sb js t = true ->
     (slot_cnt_avail ns js n t <? (if use_single_dev then needed else 1)) = false ->
     (no_repeat && bit_test (bit_select_at js n) t) = false ->
     MIN (slot_cnt_avail ns js n t) needed <> 0 ->
     K (shared_take n t (MIN (slot_cnt_avail ns js n t) needed) js)
       (u64 (needed - MIN (slot_cnt_avail ns js n t) needed))) ->
  forall used_sock enforce_binding st,
    K (fst st) (snd st) ->
    K (fst (_pick_shared_gres E sg ns used_sock n use_busy_dev use_single_dev
              no_repeat enforce_binding st))
      (snd (_pick_shared_gres E sg ns used_sock n use_busy_dev use_single_dev
              no_repeat enforce_binding st)).
Proof.
  intros Hdraw used_sock enforce_binding st Hst.
  apply (pick_shared_gres_guarded E sg ns n use_busy_dev use_single_dev no_repeat
           K (fun _ => True)); try exact Hst; try (intros; exact I).
  intros js needed t sb idx H1 H2 _. apply Hdraw; assumption.
Qed.

(** X6: With use_single_dev the whole need comes from one slot, or nothing is
    drawn. *)
Theorem pick_shared_single_dev (E : slurm_env) (sg : sock_gres_t)
    (ns : gres_node_state) (used_sock : list Z) (n : nat)
    (use_busy_dev no_repeat enforce_binding : bool)
    (js : gres_job_state) (needed : Z) :
  _pick_shared_gres E sg ns used_sock n use_busy_dev true no_repeat
    enforce_binding (js, needed) = (js, needed) \/
  exists t, (t < Z.to_nat (topo_cnt ns))%nat /\
    needed <= slot_cnt_avail ns js n t /\
    _pick_shared_gres E sg ns used_sock n use_busy_dev true no_repeat
      enforce_binding (js, needed) = (shared_take n t needed js, 0).
Proof.
  pose proof (pick_shared_gres_drawn E sg ns n use_busy_dev true no_repeat
    (fun js' needed' =>
       (js' = js /\ needed' = needed) \/
       exists t, (t < Z.to_nat (topo_cnt ns))%nat /\
         needed <= slot_cnt_avail ns js n t /\
         js' = shared_take n t needed js /\ needed' = 0)) as H.
  match type of H with
  | ?A -> _ => assert (Hd : A)
  end.
  { intros js1 needed1 t sb idx [[-> ->] | (t' & _ & _ & _ & ->)] Hne _ Ht _ Hav _ _;
      [|contradiction].
    right. exists t. apply Z.ltb_ge in Hav.
    assert (Hm : MIN (slot_cnt_avail ns js n t) needed = needed).
    { unfold MIN. destruct (Z.ltb_spec (slot_cnt_avail ns js n t) needed); [lia|].
      reflexivity. }
    rewrite Hm, Z.sub_diag. repeat split; try assumption. }
  specialize (H Hd used_sock enforce_binding (js, needed)
                (or_introl (conj eq_refl eq_refl))).
  destruct (_pick_shared_gres _ _ _ _ _ _ _ _ _ _) as [js' needed']. simpl in H.
  destruct H as [[-> ->] | (t & Ht & Hle & -> & ->)]; [left; reflexivity|].
  right. exists t. repeat split; assumption.
Qed.

Lemma per_bit_at_write_or n v js :
  per_bit_select_at (write_per_bit_select n (Some v) js) n = v \/
  per_bit_select_at (write_per_bit_select n (Some v) js) n = per_bit_select_at js n.
Proof.
  unfold per_bit_select_at, write_per_bit_select. simpl.
  destruct (gres_per_bit_select js) as [l|]; simpl; [|right; reflexivity].
  destruct (decide (n < length l)%nat) as [Hn|Hn].
  - left. rewrite list_lookup_insert_eq by exact Hn. reflexivity.
  - right. rewrite list_insert_ge by lia. reflexivity.
Qed.

(** What a draw leaves of the slots it does not draw from. *)
Lemma shared_take_other n t c js x :
  x <> t ->
  zget (per_bit_select_at (shared_take n t c js) n) x
  = zget (per_bit_select_at js n) x /\
  bit_test (bit_select_at (shared_take n t c js) n) x
  = bit_test (bit_select_at js n) x.
Proof.
  intros Hx. unfold shared_take.
  set (js1 := write_bit_select n (Some (bit_set (bit_select_at js n) t)) js).
  set (js2 := write_cnt_node_select n _ js1).
  split.
  - destruct (per_bit_at_write_or n
                (<[t := u64 (zget (per_bit_select_at js2 n) t + c)]>
                   (per_bit_select_at js2 n)) js2) as [H|H]; rewrite H.
    + rewrite zget_insert_ne by congruence. reflexivity.
    + reflexivity.
  - change (bit_select_at (write_per_bit_select n _ js2) n)
      with (bit_select_at js1 n).
    destruct (bit_select_at_write_or n (bit_set (bit_select_at js n) t) js)
      as [H|H]; fold js1 in H; rewrite H; [|reflexivity].
    unfold bit_test, bit_set. rewrite list_lookup_insert_ne by congruence.
    reflexivity.
Qed.

(** X7: The shared picker changes the bit or the share count of a slot only
    if the slot passes the tests of the loop for a socket bitmap of the
    record it may use: that of a socket in use, that of any socket, or,
    without enforce_binding, that of a socket not in use. *)
Theorem pick_shared_draws_eligible (E : slurm_env) (sg : sock_gres_t)
    (ns : gres_node_state) (used_sock : list Z) (n : nat)
    (use_busy_dev use_single_dev no_repeat enforce_binding : bool)
    (js : gres_job_state) (needed : Z) (t : nat) :
  drawn_from n js
    (fst (_pick_shared_gres E sg ns used_sock n use_busy_dev use_single_dev
            no_repeat enforce_binding (js, needed))) t ->
  (t < Z.to_nat (topo_cnt ns))%nat /\
  exists idx sb,
    sock_bits_of sg idx = Some sb /\
    slot_eligible ns use_busy_dev sb js t = true /\
    (idx = ANY_SOCK_TEST \/
     exists s, idx = Z.of_nat s /\
               (zget used_sock s <> 0 \/ enforce_binding = false)).
Proof.
  set (allowed := fun idx =>
         idx = ANY_SOCK_TEST \/
         exists s, idx = Z.of_nat s /\
                   (zget used_sock s <> 0 \/ enforce_binding = false)).
  pose proof (pick_shared_gres_guarded E sg ns n use_busy_dev use_single_dev
    no_repeat
    (fun js' _ =>
       type_id js' = type_id js /\
       forall x, drawn_from n js js' x ->
         (x < Z.to_nat (topo_cnt ns))%nat /\
         exists idx sb, sock_bits_of sg idx = Some sb /\
                        slot_eligible ns use_busy_dev sb js x = true /\
                        allowed idx) allowed) as H.
  match type of H with
  | ?A -> _ => assert (Hd : A)
  end.
  { intros js1 needed1 u sb idx [Hty IH] _ Hal Hsb Hu Hel _ _ _.
    split; [exact Hty|]. intros x Hx.
    destruct (decide (x = u)) as [->|Hne].
    - split; [exact Hu|]. exists idx, sb. split; [exact Hsb|].
      split; [|exact Hal].
      unfold slot_eligible in *. rewrite <- Hty. exact Hel.
    - apply IH. unfold drawn_from in *.
      destruct (shared_take_other n u
                  (MIN (slot_cnt_avail ns js1 n u) needed1) js1 x Hne) as [H1 H2].
      rewrite H1, H2 in Hx. exact Hx. }
  specialize (H Hd used_sock enforce_binding (js, needed)).
  simpl in H. intros Ht. apply H; try exact Ht.
  - intros s Hs. right. exists s. split; [reflexivity|]. left.
    apply nz_true. exact Hs.
  - left. reflexivity.
  - intros He s _. right. exists s. split; [reflexivity|]. right. exact He.
  - split; [reflexivity|]. intros x [Hx|Hx]; contradiction.
Qed.

(** X8: With no_repeat, which the code passes for one task per sharing device,
    the shared picker adds no share to a slot whose bit is already
    selected. *)
Theorem pick_shared_no_repeat (E : slurm_env) (sg : sock_gres_t)
    (ns : gres_node_state) (used_sock : list Z) (n : nat)
    (use_busy_dev use_single_dev enforce_binding : bool)
    (js : gres_job_state) (needed : Z) (t : nat) :
  bit_test (bit_select_at js n) t = true ->
  zget (per_bit_select_at
          (fst (_pick_shared_gres E sg ns used_sock n use_busy_dev use_single_dev
                  true enforce_binding (js, needed))) n) t
  = zget (per_bit_select_at js n) t.
Proof.
  intros Ht.
  apply (pick_shared_gres_drawn E sg ns n use_busy_dev use_single_dev true
           (fun js' _ =>
              forall x, bit_test (bit_select_at js n) x = true ->
                bit_test (bit_select_at js' n) x = true /\
                zget (per_bit_select_at js' n) x
                = zget (per_bit_select_at js n) x)); [| |exact Ht].
  - intros js1 needed1 u sb idx IH _ _ _ _ _ Hrep _ x Hx.
    destruct (IH x Hx) as [Hb Hp]. simpl in Hrep.
    assert (Hne : x <> u) by congruence.
    destruct (shared_take_other n u
                (MIN (slot_cnt_avail ns js1 n u) needed1) js1 x Hne) as [H1 H2].
    rewrite H1, H2. split; assumption.
  - simpl. intros x Hx. split; [exact Hx | reflexivity].
Qed.

(** What a draw adds to the count of the node. *)
Lemma shared_take_amount ns n js t needed :
  shares_ok ns -> shares_counted ns js n ->
  0 <= needed -> (t < Z.to_nat (topo_cnt ns))%nat ->
  MIN (slot_cnt_avail ns js n t) needed <> 0 ->
  0 < MIN (slot_cnt_avail ns js n t) needed <= needed /\
  cnt_node_select_at
    (shared_take n t (MIN (slot_cnt_avail ns js n t) needed) js) n
  = cnt_node_select_at js n + MIN (slot_cnt_avail ns js n t) needed.
Proof.
  intros Hok Hjs Hneed Ht Hc0.
  pose proof (shares_counted_draw ns n js t needed Hok Hjs Hneed Ht Hc0) as Hnew.
  destruct Hok as (Hcap & Hsum & _).
  destruct Hjs as (Hc & Hpb & Hlen & Hbnd & Heq & Htask).
  set (pb := per_bit_select_at js n) in *.
  pose proof (Hbnd t Ht) as Hpt. pose proof (Hcap t Ht) as Hct.
  assert (Hav : slot_cnt_avail ns js n t = slot_room ns t - zget pb t).
  { unfold slot_cnt_avail, slot_room in *. fold pb.
    rewrite (u64_small (zget_opt (topo_gres_cnt_avail ns) t
                        - zget_opt (topo_gres_cnt_alloc ns) t)) by lia.
    rewrite u64_small by lia. reflexivity. }
  rewrite Hav in *. set (c := MIN (slot_room ns t - zget pb t) needed) in *.
  assert (Hcr : 0 < c <= slot_room ns t - zget pb t /\ c <= needed).
  { subst c. unfold MIN in *. destruct (_ <? _) eqn:Hlt; lia. }
  split; [lia|].
  destruct Hnew as (_ & Hpb' & _ & Hbnd' & Heq' & _).
  pose proof (slot_sum_bounds ns _ n Hbnd') as Hb'.
  pose proof (slot_sum_bounds ns js n Hbnd) as Hb.
  assert (Hcnt : cnt_node_select_at (shared_take n t c js) n
                 = u64 (cnt_node_select_at js n + c)).
  { unfold shared_take.
    change (cnt_node_select_at
              (write_per_bit_select n _
                 (write_cnt_node_select n
                    (u64 (cnt_node_select_at
                            (write_bit_select n
                               (Some (bit_set (bit_select_at js n) t)) js) n + c))
                    (write_bit_select n
                       (Some (bit_set (bit_select_at js n) t)) js))) n)
      with (cnt_node_select_at
              (write_cnt_node_select n (u64 (cnt_node_select_at js n + c))
                 (write_bit_select n (Some (bit_set (bit_select_at js n) t)) js)) n).
    apply cnt_at_write. exact Hc. }
  assert (Hs : slot_sum ns (shared_take n t c js) n = slot_sum ns js n + c).
  { assert (Hpbn : per_bit_select_at (shared_take n t c js) n
                   = <[t := u64 (zget pb t + c)]> pb).
    { unfold shared_take. apply per_bit_at_write. exact Hpb. }
    unfold slot_sum. rewrite Hpbn. fold pb.
    rewrite zsum_seq_insert by lia.
    destruct (decide (0 <= t < 0 + Z.to_nat (topo_cnt ns))%nat); [|lia].
    rewrite u64_small by (unfold slot_room in *; lia). lia. }
  rewrite Hcnt, <- Heq. rewrite u64_small; [reflexivity|].
  rewrite <- Hs. lia.
Qed.

Lemma pick_shared_gres_conserved (E : slurm_env) (sg : sock_gres_t)
    (ns : gres_node_state) (used_sock : list Z) (n : nat)
    (use_busy_dev use_single_dev no_repeat enforce_binding : bool)
    (js : gres_job_state) (needed : Z) :
  shares_ok ns -> shares_counted ns js n -> 0 <= needed < 2 ^ 64 ->
  let r := _pick_shared_gres E sg ns used_sock n use_busy_dev use_single_dev
             no_repeat enforce_binding (js, needed) in
  shares_counted ns (fst r) n /\ 0 <= snd r <= needed /\
  cnt_node_select_at (fst r) n + snd r = cnt_node_select_at js n + needed.
Proof.
  intros Hok Hjs Hneed.
  apply (pick_shared_gres_drawn E sg ns n use_busy_dev use_single_dev no_repeat
    (fun js' needed' =>
       shares_counted ns js' n /\ 0 <= needed' <= needed /\
       cnt_node_select_at js' n + needed'
       = cnt_node_select_at js n + needed)).
  - intros js1 needed1 t sb idx (H1 & H2 & H3) Hne _ Ht _ _ _ Hc.
    destruct (shared_take_amount ns n js1 t needed1 Hok H1 ltac:(lia) Ht Hc)
      as [Hcr Hcnt].
    split; [apply shares_counted_draw; [assumption | assumption | lia | assumption
                                        | assumption]|].
    rewrite u64_small by lia. rewrite Hcnt. lia.
  - simpl. split; [exact Hjs|]. lia.
Qed.

(** X9: The shared picker takes from what is needed what it adds to the count
    of the node, and never draws a slot beyond its room. *)
Theorem pick_shared_gres_conserves (E : slurm_env) (sg : sock_gres_t)
    (ns : gres_node_state) (used_sock : list Z) (n : nat)
    (use_busy_dev use_single_dev no_repeat enforce_binding : bool)
    (js : gres_job_state) (needed : Z) :
  shares_ok ns -> shares_counted ns js n -> 0 <= needed < 2 ^ 64 ->
  let r := _pick_shared_gres E sg ns used_sock n use_busy_dev use_single_dev
             no_repeat enforce_binding (js, needed) in
  shares_counted ns (fst r) n /\ 0 <= snd r <= needed /\
  cnt_node_select_at (fst r) n + snd r = cnt_node_select_at js n + needed.
Proof. apply pick_shared_gres_conserved. Qed.

(** X10: [_set_shared_node_bits] succeeds exactly when it has added
    gres_per_node to the count of the node; otherwise it has added less
    and returns ESLURM_INVALID_GRES. *)
Theorem set_shared_node_bits_counts (E : slurm_env) (n : nat) (sg : sock_gres_t)
    (gsn : gres_state_t gres_node_state) (ns : gres_node_state)
    (enforce_binding : bool) (used_sock : list Z) (js : gres_job_state) :
  shares_ok ns -> shares_counted ns js n -> 0 <= gres_per_node js < 2 ^ 64 ->
  let r := _set_shared_node_bits E n sg gsn ns enforce_binding used_sock js in
  shares_counted ns (snd r) n /\
  ((fst r = SLURM_SUCCESS /\
    cnt_node_select_at (snd r) n = cnt_node_select_at js n + gres_per_node js) \/
   (fst r = ESLURM_INVALID_GRES /\
    cnt_node_select_at (snd r) n < cnt_node_select_at js n + gres_per_node js)).
Proof.
  intros Hok Hjs Hpn. simpl. unfold _set_shared_node_bits.
  pose proof (pick_shared_gres_conserved E sg ns used_sock n
                (gres_use_busy_dev E gsn) true false enforce_binding js
                (gres_per_node js) Hok Hjs Hpn) as H1.
  destruct (_pick_shared_gres _ _ _ _ _ _ _ _ _ _) as [js1 needed1].
  simpl in H1. destruct H1 as (H1 & H2 & H3).
  set (r := if nz needed1 && _ then _ else (js1, needed1)).
  assert (Hr : shares_counted ns (fst r) n /\ 0 <= snd r /\
               cnt_node_select_at (fst r) n + snd r
               = cnt_node_select_at js n + gres_per_node js).
  { subst r. destruct (nz needed1 && _).
    - pose proof (pick_shared_gres_conserved E sg ns used_sock n
                    (gres_use_busy_dev E gsn) false false enforce_binding js1
                    needed1 Hok H1 ltac:(lia)) as H4.
      simpl in H4. destruct H4 as (H4 & H5 & H6).
      split; [exact H4|]. split; lia.
    - simpl. split; [exact H1|]. split; lia. }
  destruct r as [js2 needed2]. simpl in Hr. destruct Hr as (H4 & H5 & H6).
  unfold nz. destruct (Z.eqb_spec needed2 0) as [Hz|Hz]; simpl.
  - split; [exact H4|]. left. split; [reflexivity | lia].
  - split; [exact H4|]. right. split; [reflexivity | lia].
Qed.

(** ** The unit picker, unit by unit *)

Lemma take_bit_cnt n g js :
  bits_counted js n -> (g < length (bit_select_at js n))%nat ->
  bit_test (bit_select_at js n) g = false ->
  cnt_node_select_at (take_bit n g js) n = cnt_node_select_at js n + 1.
Proof.
  intros (Hb & Hc & Hlen & Heq) Hg Hsel. unfold take_bit.
  rewrite cnt_at_write by exact Hc.
  change (cnt_node_select_at
            (write_bit_select n (Some (bit_set (bit_select_at js n) g)) js) n)
    with (cnt_node_select_at js n).
  pose proof (popcount_le (<[g := true]> (bit_select_at js n))) as Hle.
  rewrite (popcount_set _ g (bit_test_false_lookup _ g Hg Hsel)) in Hle.
  rewrite length_insert in Hle.
  unfold bit_set_count in Heq. rewrite u64_small; lia.
Qed.

Lemma next_free_skipped sock_bits ns js n sorted_gres k : forall i j g,
  next_free sock_bits ns js n sorted_gres i k = Some (j, g) ->
  forall j', (i <= j' < j)%nat ->
    unit_free sock_bits ns js n (unit_at sorted_gres j') = false.
Proof.
  induction k as [|k IH]; intros i j g H j' Hj'; simpl in H; [discriminate|].
  destruct (unit_free sock_bits ns js n (unit_at sorted_gres i)) eqn:Hf.
  - inversion H; subst. lia.
  - destruct (decide (j' = i)) as [->|Hne]; [exact Hf|].
    apply (IH (S i) j g H). lia.
Qed.

Lemma next_free_none sock_bits ns js n sorted_gres k : forall i,
  next_free sock_bits ns js n sorted_gres i k = None ->
  forall j', (i <= j' < i + k)%nat ->
    unit_free sock_bits ns js n (unit_at sorted_gres j') = false.
Proof.
  induction k as [|k IH]; intros i H j' Hj'; simpl in H; [lia|].
  destruct (unit_free sock_bits ns js n (unit_at sorted_gres i)) eqn:Hf;
    [discriminate|].
  destruct (decide (j' = i)) as [->|Hne]; [exact Hf|].
  apply (IH (S i) H). lia.
Qed.

Lemma pick_loop_counts sock_bits ns n k : forall i st,
  bits_counted (ps_js st) n -> sorted_ok n st ->
  let r := pick_loop sock_bits ns n (length (bit_select_at (ps_js st) n)) k i st in
  bits_counted (ps_js (fst r)) n /\ sorted_ok n (fst r) /\ (snd r <= k)%nat /\
  cnt_node_select_at (ps_js (fst r)) n
  = cnt_node_select_at (ps_js st) n + Z.of_nat (k - snd r).
Proof.
  induction k as [|k IH]; intros i st Hst Hso; simpl.
  { split; [exact Hst|]. split; [exact Hso|]. split; simpl; lia. }
  destruct (next_free _ _ _ _ _ _ _) as [[j g]|] eqn:Hn.
  2:{ simpl. split; [exact Hst|]. split; [exact Hso|]. split; [lia|].
      replace (S k - S k)%nat with 0%nat by lia. simpl. lia. }
  apply (next_free_free ns n) in Hn as (Hf & Hg & Hj).
  apply unit_free_tests in Hf as (_ & H2 & H3).
  assert (Hlt : (g < length (bit_select_at (ps_js st) n))%nat).
  { subst g. apply unit_at_range; [exact Hso | lia]. }
  pose proof (take_unit_js ns n (length (bit_select_at (ps_js st) n)) st j g) as Hjs.
  pose proof (take_unit_sorted ns n (length (bit_select_at (ps_js st) n)) st j g
                Hso) as Hso'.
  destruct (take_unit ns n _ st j g) as [st' i'] eqn:Ht. simpl in Hjs, Hso'.
  assert (Hst' : bits_counted (ps_js st') n).
  { rewrite Hjs. apply bits_counted_take; assumption. }
  assert (Hcnt : cnt_node_select_at (ps_js st') n
                 = cnt_node_select_at (ps_js st) n + 1).
  { rewrite Hjs. apply take_bit_cnt; assumption. }
  replace (length (bit_select_at (ps_js st) n))
    with (length (bit_select_at (ps_js st') n))
    by (rewrite Hjs; apply take_bit_length).
  specialize (IH i' st' Hst' Hso'). simpl in IH.
  destruct (pick_loop _ _ _ _ _ _ _) as [st2 still]. simpl in *.
  destruct IH as (I1 & I2 & I3 & I4).
  split; [exact I1|]. split; [exact I2|]. split; lia.
Qed.

Lemma u64_sub_still x (still : nat) :
  (still <= Z.to_nat (u64 x))%nat ->
  u64 (x - Z.of_nat still) = Z.of_nat (Z.to_nat (u64 x) - still).
Proof.
  intros H. pose proof (u64_range x) as Hx.
  unfold u64 in *. rewrite <- Zminus_mod_idemp_l.
  rewrite Z.mod_small by lia. lia.
Qed.

Lemma pick_gres_topo_counted (sg : sock_gres_t) (ns : gres_node_state)
    (gres_needed : Z) (n : nat) (socket_index : Z) (st : pick_state) :
  bits_counted (ps_js st) n -> sorted_ok n st ->
  let r := _pick_gres_topo sg ns gres_needed n socket_index st in
  bits_counted (ps_js (snd r)) n /\ 0 <= fst r <= u64 gres_needed /\
  cnt_node_select_at (ps_js (snd r)) n
  = cnt_node_select_at (ps_js st) n + fst r /\
  bit_set_count (bit_select_at (ps_js (snd r)) n)
  = bit_set_count (bit_select_at (ps_js st) n) + fst r.
Proof.
  intros Hst Hso. simpl. unfold _pick_gres_topo.
  pose proof (u64_range gres_needed) as Hr.
  destruct (sock_bits_of sg socket_index) as [sb|].
  2:{ simpl. split; [exact Hst|]. split; lia. }
  pose proof (pick_loop_counts sb ns n (Z.to_nat (u64 gres_needed)) 0 st Hst Hso)
    as H.
  destruct (pick_loop _ _ _ _ _ _ _) as [st' still]. simpl in *.
  destruct H as (H1 & H2 & H3 & H4).
  rewrite (u64_sub_still gres_needed still H3).
  split; [exact H1|]. split; [lia|]. split; [exact H4|].
  destruct H1 as (_ & _ & _ & ->). destruct Hst as (_ & _ & _ & ->). exact H4.
Qed.

(** X13: [_pick_gres_topo] returns the number of units it has selected: the
    bits of the selection and the count of the node both grow by it, and it
    is at most what was needed. *)
Theorem pick_gres_topo_counts (sg : sock_gres_t) (ns : gres_node_state)
    (gres_needed : Z) (n : nat) (socket_index : Z) (st : pick_state) :
  bits_counted (ps_js st) n -> sorted_ok n st ->
  let r := _pick_gres_topo sg ns gres_needed n socket_index st in
  bits_counted (ps_js (snd r)) n /\ 0 <= fst r <= u64 gres_needed /\
  cnt_node_select_at (ps_js (snd r)) n
  = cnt_node_select_at (ps_js st) n + fst r /\
  bit_set_count (bit_select_at (ps_js (snd r)) n)
  = bit_set_count (bit_select_at (ps_js st) n) + fst r.
Proof. apply pick_gres_topo_counted. Qed.

Lemma pick_loop_on_socket sock_bits ns n gres_cnt js0 k : forall i st,
  picked_on ns sock_bits n js0 (ps_js st) ->
  picked_on ns sock_bits n js0
    (ps_js (fst (pick_loop sock_bits ns n gres_cnt k i st))).
Proof.
  induction k as [|k IH]; intros i st Hst; simpl; [exact Hst|].
  destruct (next_free _ _ _ _ _ _ _) as [[j g]|] eqn:Hn; [|exact Hst].
  apply (next_free_free ns n) in Hn as (Hf & _ & _).
  apply unit_free_tests in Hf as (H1 & _ & H3).
  pose proof (take_unit_js ns n gres_cnt st j g) as Hjs.
  destruct (take_unit ns n gres_cnt st j g) as [st' i'] eqn:Ht. simpl in Hjs.
  apply IH. rewrite Hjs. intros x Hx.
  destruct (take_bit_select n g (ps_js st)) as [He|He]; rewrite He in Hx.
  - apply bit_test_set in Hx as [->|Hx]; [right; split; assumption | apply Hst, Hx].
  - apply Hst, Hx.
Qed.

(** X14: A unit [_pick_gres_topo] adds to the selection is on the bitmap of the
    socket it was called for, and not allocated. *)
Theorem pick_gres_topo_on_socket (sg : sock_gres_t) (ns : gres_node_state)
    (gres_needed : Z) (n : nat) (socket_index : Z) (st : pick_state) (g : nat) :
  bit_test
    (bit_select_at
       (ps_js (snd (_pick_gres_topo sg ns gres_needed n socket_index st))) n) g
  = true ->
  bit_test (bit_select_at (ps_js st) n) g = true \/
  exists sb, sock_bits_of sg socket_index = Some sb /\
             bit_test sb g = true /\
             bit_test_opt (gres_bit_alloc ns) g = false.
Proof.
  unfold _pick_gres_topo.
  destruct (sock_bits_of sg socket_index) as [sb|]; [|intros H; left; exact H].
  pose proof (pick_loop_on_socket sb ns n (length (bit_select_at (ps_js st) n))
                (ps_js st) (Z.to_nat (u64 gres_needed)) 0 st
                (fun x Hx => or_introl Hx)) as H.
  destruct (pick_loop _ _ _ _ _ _ _) as [st' k']. simpl in *.
  intros Hg. destruct (H g Hg) as [Hl|[H1 H2]]; [left; exact Hl|].
  right. exists sb. repeat split; assumption.
Qed.

Lemma bit_test_set_mono (b : bitstr) g x :
  bit_test b x = true -> bit_test (bit_set b g) x = true.
Proof.
  unfold bit_test, bit_set. intros H.
  destruct (decide (x = g)) as [->|Hne].
  - destruct (b !! g) as [y|] eqn:Hy; [|discriminate].
    rewrite list_lookup_insert_eq by (eapply lookup_lt_Some; exact Hy). reflexivity.
  - rewrite list_lookup_insert_ne by congruence. exact H.
Qed.

Lemma bit_test_set_eq (b : bitstr) g :
  (g < length b)%nat -> bit_test (bit_set b g) g = true.
Proof.
  intros Hg. unfold bit_test, bit_set.
  rewrite list_lookup_insert_eq by exact Hg. reflexivity.
Qed.

Lemma take_unit_unsorted ns n gres_cnt st i g :
  ps_sorted st = None ->
  take_unit ns n gres_cnt st i g
  = ({| ps_js := take_bit n g (ps_js st); ps_sorted := None;
        ps_links := ps_links st |}, S i).
Proof.
  intros H. unfold take_unit. rewrite H. destruct (ps_links st); reflexivity.
Qed.

Lemma pick_loop_exhausts sock_bits ns n k : forall i st,
  has_bit_slot (ps_js st) n -> ps_sorted st = None ->
  (forall g, (g < i)%nat -> bit_test sock_bits g = true ->
     bit_test (bit_select_at (ps_js st) n) g = true \/
     bit_test_opt (gres_bit_alloc ns) g = true) ->
  let r := pick_loop sock_bits ns n (length (bit_select_at (ps_js st) n)) k i st in
  (0 < snd r)%nat ->
  forall g, (g < length (bit_select_at (ps_js st) n))%nat ->
    bit_test sock_bits g = true ->
    bit_test (bit_select_at (ps_js (fst r)) n) g = true \/
    bit_test_opt (gres_bit_alloc ns) g = true.
Proof.
  assert (Hnot : forall js g,
            unit_free sock_bits ns js n g = false -> bit_test sock_bits g = true ->
            bit_test (bit_select_at js n) g = true \/
            bit_test_opt (gres_bit_alloc ns) g = true).
  { intros js g Hf Hsb. unfold unit_free in Hf. rewrite Hsb in Hf. simpl in Hf.
    apply negb_false_iff, orb_true_iff in Hf. exact Hf. }
  induction k as [|k IH]; intros i st Hslot Hsorted Hinv; simpl; [lia|].
  destruct (next_free _ _ _ _ _ _ _) as [[j g]|] eqn:Hn.
  2:{ simpl. intros _ g Hg Hsb.
      destruct (decide (g < i)%nat) as [Hlt|Hge]; [apply Hinv; assumption|].
      pose proof (next_free_none _ _ _ _ _ _ _ Hn g ltac:(lia)) as Hf.
      rewrite Hsorted in Hf. simpl in Hf. apply (Hnot _ _ Hf Hsb). }
  pose proof (next_free_skipped _ _ _ _ _ _ _ _ _ Hn) as Hskip.
  apply (next_free_free ns n) in Hn as (Hf & Hg & Hj).
  rewrite Hsorted in Hg, Hskip. simpl in Hg, Hskip. subst g.
  rewrite (take_unit_unsorted ns n _ st j j Hsorted).
  set (st' := {| ps_js := take_bit n j (ps_js st); ps_sorted := None;
                 ps_links := ps_links st |}).
  assert (Hsel : bit_select_at (ps_js st') n
                 = bit_set (bit_select_at (ps_js st) n) j)
    by (apply bit_select_at_write; exact Hslot).
  assert (Hlen : length (bit_select_at (ps_js st') n)
                 = length (bit_select_at (ps_js st) n))
    by (apply take_bit_length).
  rewrite <- Hlen. intros Hstill g Hg Hsb.
  apply (IH (S j) st'); try assumption.
  - simpl. unfold take_bit. apply has_bit_slot_write. exact Hslot.
  - reflexivity.
  - intros x Hx Hxs. rewrite Hsel.
    destruct (decide (x = j)) as [->|Hne];
      [left; apply bit_test_set_eq; lia|].
    destruct (decide (x < i)%nat) as [Hlt|Hge].
    + destruct (Hinv x Hlt Hxs) as [H|H];
        [left; apply bit_test_set_mono; exact H | right; exact H].
    + destruct (Hnot _ _ (Hskip x ltac:(lia)) Hxs) as [H|H];
        [left; apply bit_test_set_mono; exact H | right; exact H].
Qed.

(** X15: Without link counts, [_pick_gres_topo] leaves a need unmet only when
    every unit of the socket bitmap is selected or allocated. *)
Theorem pick_gres_topo_exhausts (sg : sock_gres_t) (ns : gres_node_state)
    (gres_needed : Z) (n : nat) (socket_index : Z) (st : pick_state)
    (sb : bitstr) (g : nat) :
  has_bit_slot (ps_js st) n -> ps_sorted st = None ->
  sock_bits_of sg socket_index = Some sb ->
  fst (_pick_gres_topo sg ns gres_needed n socket_index st) < u64 gres_needed ->
  (g < length (bit_select_at (ps_js st) n))%nat -> bit_test sb g = true ->
  bit_test
    (bit_select_at
       (ps_js (snd (_pick_gres_topo sg ns gres_needed n socket_index st))) n) g
  = true \/
  bit_test_opt (gres_bit_alloc ns) g = true.
Proof.
  intros Hslot Hsorted Hsb. unfold _pick_gres_topo. rewrite Hsb.
  pose proof (pick_loop_exhausts sb ns n (Z.to_nat (u64 gres_needed)) 0 st Hslot
                Hsorted ltac:(intros; lia)) as H.
  pose proof (u64_range gres_needed) as Hr.
  destruct (pick_loop _ _ _ _ _ _ _) as [st' still] eqn:Hloop. simpl in *.
  intros Hlt. apply H.
  destruct (decide (still <= Z.to_nat (u64 gres_needed))%nat) as [Hle|Hgt].
  - rewrite (u64_sub_still gres_needed still Hle) in Hlt. lia.
  - lia.
Qed.

(** What the unit picker does not write. *)
Lemma pick_loop_static {A} (f : gres_job_state -> A) sock_bits ns n gres_cnt k :
  (forall g js, f (take_bit n g js) = f js) ->
  forall i st,
    f (ps_js (fst (pick_loop sock_bits ns n gres_cnt k i st))) = f (ps_js st).
Proof.
  intros Hf. induction k as [|k IH]; intros i st; simpl; [reflexivity|].
  destruct (next_free _ _ _ _ _ _ _) as [[j g]|]; [|reflexivity].
  pose proof (take_unit_js ns n gres_cnt st j g) as Hjs.
  destruct (take_unit ns n gres_cnt st j g) as [st' i']. simpl in Hjs.
  rewrite IH, Hjs. apply Hf.
Qed.

Lemma pick_gres_topo_static {A} (f : gres_job_state -> A) sg ns gres_needed n
    socket_index st :
  (forall g js, f (take_bit n g js) = f js) ->
  f (ps_js (snd (_pick_gres_topo sg ns gres_needed n socket_index st)))
  = f (ps_js st).
Proof.
  intros Hf. unfold _pick_gres_topo.
  destruct (sock_bits_of sg socket_index) as [sb|]; [|reflexivity].
  pose proof (pick_loop_static f sb ns n (length (bit_select_at (ps_js st) n))
                (Z.to_nat (u64 gres_needed)) Hf 0 st) as H.
  destruct (pick_loop _ _ _ _ _ _ _) as [st' k']. exact H.
Qed.

Lemma s32_small x : - 2 ^ 31 <= x < 2 ^ 31 -> s32 x = x.
Proof. intros H. unfold s32. rewrite Z.mod_small by lia. lia. Qed.

Lemma u32_small x : 0 <= x < 2 ^ 32 -> u32 x = x.
Proof. intros H. unfold u32. apply Z.mod_small. exact H. Qed.

Lemma pick_gres_topo_sorted sg ns gres_needed n socket_index st :
  bits_counted (ps_js st) n -> sorted_ok n st ->
  sorted_ok n (snd (_pick_gres_topo sg ns gres_needed n socket_index st)).
Proof.
  intros Hst Hso.
  apply (pick_gres_topo_kept ns n (fun js => bits_counted js n)
           (bits_counted_kept ns n) sg gres_needed socket_index st).
  split; assumption.
Qed.

Section node_bits_counts.
Context (sg : sock_gres_t) (ns : gres_node_state) (n : nat) (c0 total : Z).

(** What the loops of [_set_node_bits] keep: what is still needed and what
    has been selected add up to the request. *)
Local Abbreviation keeps acc :=
  (bits_counted (ps_js (snd acc)) n /\ sorted_ok n (snd acc) /\
   0 <= fst acc /\
   cnt_node_select_at (ps_js (snd acc)) n + fst acc = c0 + total).

Hypothesis Htotal : total < 2 ^ 31.

Lemma node_step_counts (one : bool) (idx needed : Z) (st : pick_state) :
  keeps (needed, st) -> needed <> 0 ->
  c0 <= cnt_node_select_at (ps_js st) n ->
  let r := _pick_gres_topo sg ns (if one then 1 else s32 needed) n idx st in
  keeps (u32 (needed - fst r), snd r) /\
  c0 <= cnt_node_select_at (ps_js (snd r)) n.
Proof.
  simpl. intros (H1 & H2 & H3 & H4) Hne Hc0.
  pose proof (pick_gres_topo_counted sg ns (if one then 1 else s32 needed) n idx
                st H1 H2) as Hp.
  pose proof (pick_gres_topo_sorted sg ns (if one then 1 else s32 needed) n idx
                st H1 H2) as Hs.
  simpl in Hp, H3, H4. destruct Hp as (P1 & P2 & P3 & _).
  assert (Harg : u64 (if one then 1 else s32 needed) <= needed).
  { destruct one; [rewrite u64_small; lia|].
    rewrite s32_small by lia. rewrite u64_small; lia. }
  split; [|lia].
  split; [exact P1|]. split; [exact Hs|]. simpl.
  rewrite u32_small by lia. split; lia.
Qed.

End node_bits_counts.

(** X20: [_set_node_bits] selects at most gres_per_node units on the node, and
    counts each unit it selects. *)
Theorem set_node_bits_counts (n : nat) (sg : sock_gres_t) (ns : gres_node_state)
    (used_sock : list Z) (js : gres_job_state) :
  bits_counted js n -> 0 <= gres_per_node js < 2 ^ 31 ->
  bits_counted (_set_node_bits n sg ns used_sock js) n /\
  cnt_node_select_at js n
  <= cnt_node_select_at (_set_node_bits n sg ns used_sock js) n
  <= cnt_node_select_at js n + gres_per_node js.
Proof.
  intros Hjs Hpn. unfold _set_node_bits.
  set (Inv := fun acc : Z * pick_state =>
              (bits_counted (ps_js (snd acc)) n /\ sorted_ok n (snd acc) /\
               0 <= fst acc /\
               cnt_node_select_at (ps_js (snd acc)) n + fst acc
               = cnt_node_select_at js n + gres_per_node js) /\
              cnt_node_select_at js n <= cnt_node_select_at (ps_js (snd acc)) n).
  assert (Hsock : forall want one acc s,
            Inv acc -> Inv (node_sock_step sg ns used_sock want one n acc s)).
  { intros want one [needed st] s [HI Hc0]. unfold node_sock_step.
    destruct (Z.eqb_spec needed 0) as [|Hne]; [split; assumption|].
    destruct (Bool.eqb _ _); [|split; assumption].
    pose proof (node_step_counts sg ns n (cnt_node_select_at js n)
                  (gres_per_node js) ltac:(lia) one (Z.of_nat s) needed st HI Hne
                  Hc0) as H.
    simpl in H. destruct (_pick_gres_topo _ _ _ _ _ _) as [p st']. exact H. }
  assert (Hany : forall one acc, Inv acc -> Inv (node_any_step sg ns one n acc)).
  { intros one [needed st] [HI Hc0]. unfold node_any_step.
    destruct (Z.eqb_spec needed 0) as [|Hne]; [split; assumption|].
    pose proof (node_step_counts sg ns n (cnt_node_select_at js n)
                  (gres_per_node js) ltac:(lia) one ANY_SOCK_TEST needed st HI Hne
                  Hc0) as H.
    simpl in H. destruct (_pick_gres_topo _ _ _ _ _ _) as [p st']. exact H. }
  match goal with
  | |- context [ps_js (snd ?acc)] => assert (H : Inv acc)
  end.
  { apply (foldl_inv Inv); [|intros; apply Hsock; assumption].
    apply Hany.
    apply (foldl_inv Inv); [|intros; apply Hsock; assumption].
    apply Hany.
    apply (foldl_inv Inv); [|intros; apply Hsock; assumption].
    subst Inv. simpl.
    destruct (init_pick_state_kept ns n (fun js => bits_counted js n) js Hjs)
      as [H1 H2].
    rewrite (init_pick_state_js ns n) in *.
    rewrite u32_small by lia.
    split; [|lia]. split; [exact H1|]. split; [exact H2|]. split; lia. }
  destruct H as [(H1 & _ & H3 & H4) H5]. split; [exact H1|]. lia.
Qed.

(** ** The two per-job passes, unit by unit *)

Lemma drop_bit_cnt n g js :
  bits_counted js n -> bit_test (bit_select_at js n) g = true ->
  cnt_node_select_at (drop_bit n g js) n = cnt_node_select_at js n - 1.
Proof.
  intros (Hb & Hc & Hlen & Heq) Hsel. unfold drop_bit.
  rewrite cnt_at_write by exact Hc.
  change (cnt_node_select_at
            (write_bit_select n (Some (bit_clear (bit_select_at js n) g)) js) n)
    with (cnt_node_select_at js n).
  pose proof (popcount_le (bit_select_at js n)) as Hle.
  pose proof (popcount_clear _ g (bit_test_true_lookup _ g Hsel)) as Hp.
  unfold bit_set_count in Heq. rewrite u64_small; lia.
Qed.

Section job_bits_counts.
Context (E : slurm_env) (sg : sock_gres_t) (ns : gres_node_state) (n : nat)
        (c0 : Z).

(** What the loops of [_set_job_bits1] keep: alloc_gres_cnt is what the
    count of the node has grown by. *)
Local Abbreviation keeps acc :=
  (bits_counted (ps_js (snd acc)) n /\ sorted_ok n (snd acc) /\
   0 <= fst acc /\
   fst acc = cnt_node_select_at (ps_js (snd acc)) n - c0).

Lemma job1_pick_counts (arg idx alloc : Z) (st : pick_state) :
  Z.of_nat (length (bit_select_at (ps_js st) n)) < 2 ^ 31 ->
  0 <= c0 -> keeps (alloc, st) ->
  let r := _pick_gres_topo sg ns arg n idx st in
  keeps (s32 (alloc + fst r), snd r) /\
  length (bit_select_at (ps_js (snd r)) n) = length (bit_select_at (ps_js st) n).
Proof.
  simpl. intros Hlen Hc0 (H1 & H2 & H0 & H3). simpl in H0, H3.
  pose proof (pick_gres_topo_counted sg ns arg n idx st H1 H2) as Hp.
  pose proof (pick_gres_topo_sorted sg ns arg n idx st H1 H2) as Hs.
  pose proof (pick_gres_topo_static (fun js => length (bit_select_at js n))
                sg ns arg n idx st (fun g js => take_bit_length n g js)) as Hl.
  simpl in Hp, Hl. destruct Hp as (P1 & P2 & P3 & P4).
  split; [|exact Hl].
  split; [exact P1|]. split; [exact Hs|]. simpl.
  destruct P1 as (_ & _ & _ & Q).
  pose proof (popcount_le (bit_select_at
                             (ps_js (snd (_pick_gres_topo sg ns arg n idx st))) n)).
  unfold bit_set_count in Q. rewrite s32_small; lia.
Qed.

Lemma job1_select_counts cores_on_sock pick_gres js :
  bits_counted js n -> Z.of_nat (length (bit_select_at js n)) < 2 ^ 31 ->
  c0 = cnt_node_select_at js n ->
  keeps (job1_select sg ns cores_on_sock pick_gres n js).
Proof.
  intros Hjs Hlen Hc0. unfold job1_select.
  assert (Hpos : 0 <= c0).
  { destruct Hjs as (_ & _ & _ & Q). unfold bit_set_count in Q. lia. }
  set (Inv := fun acc : Z * pick_state =>
                keeps acc /\
                length (bit_select_at (ps_js (snd acc)) n)
                = length (bit_select_at js n)).
  assert (Hpick : forall arg idx alloc st,
            Inv (alloc, st) ->
            Inv (let '(picked, st') := _pick_gres_topo sg ns arg n idx st in
                 (s32 (alloc + picked), st'))).
  { intros arg idx alloc st [HI Hl].
    pose proof (job1_pick_counts arg idx alloc st ltac:(simpl in Hl; lia) Hpos HI)
      as [H1 H2].
    simpl in H1, H2. destruct (_pick_gres_topo _ _ _ _ _ _) as [p st'].
    split; [exact H1|]. simpl in *. lia. }
  set (acc1 := foldl (job1_cores_step sg ns cores_on_sock pick_gres n) _ _).
  assert (H1 : Inv acc1).
  { subst acc1. apply (foldl_inv Inv).
    - split; [|reflexivity]. split; [exact Hjs|]. split; [exact I|]. simpl. lia.
    - intros [alloc st] s HI. unfold job1_cores_step.
      destruct (negb (alloc <? pick_gres)); [exact HI|].
      destruct (negb (nz _)); [exact HI|]. apply Hpick. exact HI. }
  set (acc2 := if fst acc1 <? pick_gres then _ else acc1).
  assert (H2 : Inv acc2).
  { subst acc2. destruct (fst acc1 <? pick_gres); [|exact H1].
    destruct acc1 as [alloc st]. apply Hpick. exact H1. }
  destruct (fst acc2 =? 0); [|exact (proj1 H2)].
  apply (foldl_inv Inv); [exact H2|].
  intros [alloc st] s HI. unfold job1_other_step.
  destruct (negb (alloc =? 0)); [exact HI|].
  destruct (nz _); [exact HI|]. apply Hpick. exact HI.
Qed.

Lemma prune_links_counts gres_cnt best_inx k : forall acc,
  bits_counted (fst acc) n /\ snd acc = cnt_node_select_at (fst acc) n - c0 ->
  let r := prune_links E ns n gres_cnt best_inx k acc in
  bits_counted (fst r) n /\ snd r = cnt_node_select_at (fst r) n - c0.
Proof.
  induction k as [|k IH]; intros [js alloc] [H1 H2]; simpl; [split; assumption|].
  destruct (_ =? -1) eqn:Hw; [split; assumption|].
  assert (Hsel : bit_test (bit_select_at js n)
                   (Z.to_nat (fst (worst_link E ns (bit_select_at js n) gres_cnt
                                     best_inx))) = true).
  { apply worst_link_selected. apply Z.eqb_neq. exact Hw. }
  apply IH. simpl. split; [apply bits_counted_drop; assumption|].
  rewrite drop_bit_cnt by assumption. simpl in H2. lia.
Qed.

Lemma prune_links_total gres_cnt best_inx k : forall acc,
  total_gres (fst (prune_links E ns n gres_cnt best_inx k acc))
  = total_gres (fst acc).
Proof.
  induction k as [|k IH]; intros [js alloc]; simpl; [reflexivity|].
  destruct (_ =? -1); [reflexivity|]. rewrite IH. reflexivity.
Qed.

End job_bits_counts.

(** [_set_job_bits1] keeps the bits counted and adds to total_gres, which
    it starts from 0 on the first node of the job, what the count of the
    node has grown by. *)
Lemma set_job_bits1_counted (E : slurm_env) (n : nat)
    (job_node_inx rem_nodes : Z) (sg : sock_gres_t) (ns : gres_node_state)
    (tres_mc_ptr : option gres_mc_data) (cpus_per_core : Z)
    (cores_on_sock : list Z) (total_cores : Z) (js : gres_job_state) :
  bits_counted js n -> Z.of_nat (length (bit_select_at js n)) < 2 ^ 31 ->
  let r := _set_job_bits1 E n job_node_inx rem_nodes sg ns tres_mc_ptr
             cpus_per_core cores_on_sock total_cores js in
  bits_counted (snd r) n /\
  total_gres (snd r)
  = u64 ((if job_node_inx =? 0 then 0 else total_gres js)
         + (cnt_node_select_at (snd r) n - cnt_node_select_at js n)).
Proof.
  intros Hjs Hlen. simpl. unfold _set_job_bits1.
  set (js1 := if job_node_inx =? 0 then set_total_gres 0 js else js).
  assert (H1 : bits_counted js1 n /\
               bit_select_at js1 n = bit_select_at js n /\
               cnt_node_select_at js1 n = cnt_node_select_at js n /\
               total_gres js1 = if job_node_inx =? 0 then 0 else total_gres js).
  { subst js1.
    destruct (job_node_inx =? 0);
      (split; [exact Hjs|]; split; [reflexivity|]; split; reflexivity). }
  destruct H1 as (H1 & Hs1 & Hc1 & Ht1).
  set (max_gres := job1_max_gres E js1 rem_nodes tres_mc_ptr cpus_per_core total_cores).
  set (pick_gres := job1_pick_gres E ns max_gres _).
  pose proof (job1_select_counts sg ns n (cnt_node_select_at js n) cores_on_sock
                pick_gres js1 H1 ltac:(rewrite Hs1; exact Hlen)
                ltac:(symmetry; exact Hc1)) as (S1 & S2 & _ & S3).
  assert (Htot : total_gres
                   (ps_js (snd (job1_select sg ns cores_on_sock pick_gres n js1)))
                 = total_gres js1).
  { unfold job1_select.
    assert (Hp : forall arg idx st,
              total_gres (ps_js (snd (_pick_gres_topo sg ns arg n idx st)))
              = total_gres (ps_js st)).
    { intros. apply pick_gres_topo_static. reflexivity. }
    set (Inv := fun acc : Z * pick_state => total_gres (ps_js (snd acc))
                                            = total_gres js1).
    set (acc1 := foldl (job1_cores_step sg ns cores_on_sock pick_gres n) _ _).
    assert (I1 : Inv acc1).
    { subst acc1. apply (foldl_inv Inv); [reflexivity|].
      intros [alloc st] s HI. unfold job1_cores_step.
      destruct (negb (alloc <? pick_gres)); [exact HI|].
      destruct (negb (nz _)); [exact HI|].
      specialize (Hp (s32 (pick_gres - alloc)) (Z.of_nat s) st).
      destruct (_pick_gres_topo _ _ _ _ _ _) as [p st']. unfold Inv in *.
      simpl in *. congruence. }
    set (acc2 := if fst acc1 <? pick_gres then _ else acc1).
    assert (I2 : Inv acc2).
    { subst acc2. destruct (fst acc1 <? pick_gres); [|exact I1].
      specialize (Hp (s32 (pick_gres - fst acc1)) ANY_SOCK_TEST (snd acc1)).
      destruct (_pick_gres_topo _ _ _ _ _ _) as [p st']. unfold Inv in *.
      simpl in *. congruence. }
    destruct (fst acc2 =? 0); [|exact I2].
    apply (foldl_inv Inv); [exact I2|].
    intros [alloc st] s HI. unfold job1_other_step.
    destruct (negb (alloc =? 0)); [exact HI|].
    destruct (nz _); [exact HI|].
    specialize (Hp 1 (Z.of_nat s) st).
    destruct (_pick_gres_topo _ _ _ _ _ _) as [p st']. unfold Inv in *.
    simpl in *. congruence. }
  set (acc := job1_select sg ns cores_on_sock pick_gres n js1) in *.
  assert (Hprune : let r := job1_prune E ns n (length (bit_select_at js1 n))
                              max_gres (ps_js (snd acc), fst acc) in
                   bits_counted (fst r) n /\
                   snd r = cnt_node_select_at (fst r) n - cnt_node_select_at js n /\
                   total_gres (fst r) = total_gres js1).
  { simpl. unfold job1_prune.
    destruct (fst acc >? max_gres);
      [|simpl; split; [exact S1|]; split; [exact S3 | exact Htot]].
    destruct (best_link _ _ _) as [blc bi].
    destruct (negb (blc =? -1));
      [|simpl; split; [exact S1|]; split; [exact S3 | exact Htot]].
    pose proof (prune_links_counts E ns n (cnt_node_select_at js n)
                  (length (bit_select_at js1 n)) bi
                  (Z.to_nat (fst acc - max_gres)) (ps_js (snd acc), fst acc)
                  (conj S1 S3)) as [P1 P2].
    split; [exact P1|]. split; [exact P2|].
    rewrite <- Htot. apply prune_links_total. }
  destruct (job1_prune _ _ _ _ _ _) as [js5 alloc5]. simpl in *.
  destruct Hprune as (P1 & P2 & P3).
  split; [exact P1|].
  change (cnt_node_select_at (set_total_gres (u64 (total_gres js5 + alloc5)) js5) n)
    with (cnt_node_select_at js5 n).
  rewrite P3, Ht1, P2. reflexivity.
Qed.

(** X18: [_set_job_bits1] adds to total_gres, which it starts from 0 on the
    first node of the job, what the count of the node has grown by. *)
Theorem set_job_bits1_counts (E : slurm_env) (n : nat)
    (job_node_inx rem_nodes : Z) (sg : sock_gres_t) (ns : gres_node_state)
    (tres_mc_ptr : option gres_mc_data) (cpus_per_core : Z)
    (cores_on_sock : list Z) (total_cores : Z) (js : gres_job_state) :
  bits_counted js n -> Z.of_nat (length (bit_select_at js n)) < 2 ^ 31 ->
  let r := _set_job_bits1 E n job_node_inx rem_nodes sg ns tres_mc_ptr
             cpus_per_core cores_on_sock total_cores js in
  bits_counted (snd r) n /\
  total_gres (snd r)
  = u64 ((if job_node_inx =? 0 then 0 else total_gres js)
         + (cnt_node_select_at (snd r) n - cnt_node_select_at js n)).
Proof. exact (set_job_bits1_counted E n job_node_inx rem_nodes sg ns tres_mc_ptr
                cpus_per_core cores_on_sock total_cores js). Qed.

(** With a bitmap whose bits are counted, [_set_job_bits2] adds to
    total_gres the units it selects, never goes beyond gres_per_job, and
    returns 1 exactly when gres_per_job is met. *)
Lemma set_job_bits2_counted (n : nat) (sg : sock_gres_t) (ns : gres_node_state)
    (js : gres_job_state) :
  bits_counted js n -> 0 <= total_gres js ->
  gres_per_job js - total_gres js < 2 ^ 31 -> gres_per_job js < 2 ^ 64 ->
  let r := _set_job_bits2 n sg ns js in
  bits_counted (snd r) n /\
  gres_per_job (snd r) = gres_per_job js /\
  cnt_node_select_at js n <= cnt_node_select_at (snd r) n /\
  total_gres (snd r) - total_gres js
  = cnt_node_select_at (snd r) n - cnt_node_select_at js n /\
  total_gres (snd r) <= Z.max (gres_per_job js) (total_gres js) /\
  fst r = (if gres_per_job js <=? total_gres (snd r) then 1
           else if is_null (bit_select_ptr js n) then -1 else 0).
Proof.
  intros Hjs Htot Hint Hpj. simpl. unfold _set_job_bits2.
  destruct (Z.leb_spec (gres_per_job js) (total_gres js)) as [Hle|Hgt].
  { simpl. destruct (Z.leb_spec (gres_per_job js) (total_gres js)); [|lia].
    repeat split; try assumption; try lia; apply Hjs. }
  destruct (bit_select_ptr js n) as [sel|] eqn:Hsel.
  2:{ simpl. destruct (Z.leb_spec (gres_per_job js) (total_gres js)); [lia|].
      repeat split; try assumption; try lia; apply Hjs. }
  set (Inv := fun st : pick_state =>
                bits_counted (ps_js st) n /\ sorted_ok n st /\
                gres_per_job (ps_js st) = gres_per_job js /\
                cnt_node_select_at js n <= cnt_node_select_at (ps_js st) n /\
                total_gres (ps_js st) - total_gres js
                = cnt_node_select_at (ps_js st) n - cnt_node_select_at js n /\
                total_gres (ps_js st) <= gres_per_job js).
  assert (Hpick : forall idx st,
            Inv st -> (gres_per_job (ps_js st) >? total_gres (ps_js st)) = true ->
            Inv (let '(picked, st') :=
                   _pick_gres_topo sg ns
                     (s32 (u64 (gres_per_job (ps_js st) - total_gres (ps_js st))))
                     n idx st in
                 {| ps_js := set_total_gres (u64 (total_gres (ps_js st') + picked))
                               (ps_js st');
                    ps_sorted := ps_sorted st'; ps_links := ps_links st' |})).
  { intros idx st (I1 & I2 & I3 & I4 & I5 & I6) Hneed.
    apply Z.gtb_lt in Hneed. rewrite I3 in *.
    assert (Hc0 : 0 <= cnt_node_select_at js n).
    { destruct Hjs as (_ & _ & _ & Q). unfold bit_set_count in Q. lia. }
    set (arg := s32 (u64 (gres_per_job js - total_gres (ps_js st)))).
    assert (Harg : u64 arg = gres_per_job js - total_gres (ps_js st)).
    { subst arg. rewrite (u64_small (_ - _)) by lia.
      rewrite s32_small by lia. apply u64_small. lia. }
    pose proof (pick_gres_topo_counted sg ns arg n idx st I1 I2) as Hp.
    pose proof (pick_gres_topo_sorted sg ns arg n idx st I1 I2) as Hs.
    pose proof (pick_gres_topo_static total_gres sg ns arg n idx st
                  (fun _ _ => eq_refl)) as Ht.
    pose proof (pick_gres_topo_static gres_per_job sg ns arg n idx st
                  (fun _ _ => eq_refl)) as Hr.
    simpl in Hp. destruct Hp as (P1 & P2 & P3 & _). rewrite Harg in P2.
    destruct (_pick_gres_topo sg ns arg n idx st) as [p st']. simpl in *.
    unfold Inv. simpl.
    split; [exact P1|]. split; [exact Hs|]. split; [congruence|].
    rewrite Ht. rewrite u64_small by lia.
    change (cnt_node_select_at (set_total_gres (total_gres (ps_js st) + p)
                                  (ps_js st')) n)
      with (cnt_node_select_at (ps_js st') n).
    split; [lia|]. split; lia. }
  match goal with
  | |- context [foldl (job2_sock_step sg ns n) ?st0 ?l] =>
      assert (H1 : Inv (foldl (job2_sock_step sg ns n) st0 l));
      [apply (foldl_inv Inv)
      | set (st1 := foldl (job2_sock_step sg ns n) st0 l) in * ]
  end.
  { assert (Hso : forall links,
              sorted_ok n {| ps_js := js;
                             ps_sorted := Some (qsort (_compare_gres_by_links links)
                                                  (seq 0 (length sel)));
                             ps_links := Some links |}).
    { intros links. unfold sorted_ok, bit_select_at. simpl. rewrite Hsel. simpl.
      rewrite qsort_perm. apply Forall_forall. intros g Hg.
      apply elem_of_seq in Hg. lia. }
    destruct (_ && _); unfold Inv; simpl;
      (split; [exact Hjs|]; split; [first [apply Hso | exact I]|];
       split; [reflexivity|]; split; [lia|]; split; lia). }
  { intros st s HI. unfold job2_sock_step.
    destruct (gres_per_job (ps_js st) >? total_gres (ps_js st)) eqn:Hneed;
      simpl; [|exact HI].
    apply (Hpick (Z.of_nat s) st HI Hneed). }
  simpl.
  assert (H2 : Inv (if gres_per_job (ps_js st1) >? total_gres (ps_js st1)
                    then
                      let '(picked, st') :=
                        _pick_gres_topo sg ns
                          (s32 (u64 (gres_per_job (ps_js st1)
                                     - total_gres (ps_js st1))))
                          n ANY_SOCK_TEST st1 in
                      {| ps_js := set_total_gres
                                    (u64 (total_gres (ps_js st') + picked))
                                    (ps_js st');
                         ps_sorted := ps_sorted st'; ps_links := ps_links st' |}
                    else st1)).
  { destruct (gres_per_job (ps_js st1) >? total_gres (ps_js st1)) eqn:Hneed;
      [|exact H1].
    apply (Hpick ANY_SOCK_TEST st1 H1 Hneed). }
  destruct (gres_per_job (ps_js st1) >? total_gres (ps_js st1)).
  - destruct (_pick_gres_topo _ _ _ _ _ _) as [p st']. simpl in *.
    destruct H2 as (I1 & _ & I3 & I4 & I5 & I6). simpl in *.
    rewrite I3. repeat split; try assumption; try lia; try apply I1;
      try (destruct (_ <=? _); reflexivity).
  - destruct H2 as (I1 & _ & I3 & I4 & I5 & I6).
    rewrite I3. repeat split; try assumption; try lia; try apply I1;
      try (destruct (_ <=? _); reflexivity).
Qed.

(** Without a bitmap for the node, [_set_job_bits2] returns -1 as soon as
    gres_per_job is not met and leaves the job state alone (lines 945-950):
    whether the array gres_bit_select is NULL or its entry for the node is,
    and whatever gres_cnt_node_select holds. *)
Lemma set_job_bits2_null (n : nat) (sg : sock_gres_t) (ns : gres_node_state)
    (js : gres_job_state) :
  total_gres js < gres_per_job js -> bit_select_ptr js n = None ->
  _set_job_bits2 n sg ns js = (-1, js).
Proof.
  intros Hlt Hnull. unfold _set_job_bits2.
  destruct (Z.leb_spec (gres_per_job js) (total_gres js)); [lia|].
  rewrite Hnull. reflexivity.
Qed.

(** With gres_per_job met at the call, [_set_job_bits2] returns 1 and
    leaves the job state alone (lines 941-944). *)
Lemma set_job_bits2_met (n : nat) (sg : sock_gres_t) (ns : gres_node_state)
    (js : gres_job_state) :
  gres_per_job js <= total_gres js -> _set_job_bits2 n sg ns js = (1, js).
Proof.
  intros Hle. unfold _set_job_bits2.
  destruct (Z.leb_spec (gres_per_job js) (total_gres js)); [reflexivity | lia].
Qed.

(** X19: [_set_job_bits2] returns 1 at once when gres_per_job is met at the
    call, and -1 at once when it is not met and the job state has no bitmap
    for the node (gres_bit_select is NULL or its entry for the node is,
    whatever the stored count); in both cases the job state is left as it
    is.  Otherwise it adds to total_gres the units it selects, never goes
    beyond gres_per_job, keeps the bits counted, and returns 1 exactly when
    gres_per_job is met at the return, 0 if not.  Only where a bitmap is
    there and gres_per_job is not met are the bits taken to be counted and
    the need to fit an int. *)
Theorem set_job_bits2_counts (n : nat) (sg : sock_gres_t) (ns : gres_node_state)
    (js : gres_job_state) :
  (total_gres js < gres_per_job js -> is_null (bit_select_ptr js n) = false ->
   bits_counted js n /\ 0 <= total_gres js /\
   gres_per_job js - total_gres js < 2 ^ 31 /\ gres_per_job js < 2 ^ 64) ->
  let r := _set_job_bits2 n sg ns js in
  (gres_per_job js <= total_gres js \/ is_null (bit_select_ptr js n) = true ->
   snd r = js) /\
  (bits_counted js n -> bits_counted (snd r) n) /\
  gres_per_job (snd r) = gres_per_job js /\
  cnt_node_select_at js n <= cnt_node_select_at (snd r) n /\
  total_gres (snd r) - total_gres js
  = cnt_node_select_at (snd r) n - cnt_node_select_at js n /\
  total_gres (snd r) <= Z.max (gres_per_job js) (total_gres js) /\
  fst r = (if gres_per_job js <=? total_gres (snd r) then 1
           else if is_null (bit_select_ptr js n) then -1 else 0).
Proof.
  intros Hpre. cbv zeta.
  destruct (Z.le_gt_cases (gres_per_job js) (total_gres js)) as [Hle|Hgt].
  { rewrite (set_job_bits2_met n sg ns js Hle). simpl.
    destruct (Z.leb_spec (gres_per_job js) (total_gres js)); [|lia].
    split; [reflexivity|]. split; [exact (fun H => H)|].
    repeat split; try reflexivity; lia. }
  destruct (bit_select_ptr js n) as [sel|] eqn:Hsel.
  2:{ rewrite (set_job_bits2_null n sg ns js Hgt Hsel). simpl.
      destruct (Z.leb_spec (gres_per_job js) (total_gres js)); [lia|].
      split; [reflexivity|]. split; [exact (fun H => H)|].
      repeat split; try reflexivity; lia. }
  destruct (Hpre Hgt eq_refl) as (Hjs & Htot & Hint & Hpj).
  pose proof (set_job_bits2_counted n sg ns js Hjs Htot Hint Hpj) as H.
  cbv zeta in H. rewrite Hsel in H. simpl in H.
  destruct H as (H1 & H2 & H3 & H4 & H5 & H6).
  split; [intros [Hc|Hc]; [lia | discriminate]|].
  split; [intros _; exact H1|].
  split; [exact H2|]. split; [exact H3|]. split; [exact H4|].
  split; [exact H5 | exact H6].
Qed.

(** X21: [_set_task_bits] selects at most gres_per_task units for each task of
    the node, and counts each unit it selects. *)
Theorem set_task_bits_counts (n : nat) (sg : sock_gres_t) (ns : gres_node_state)
    (tasks_per_socket : option (list Z)) (js : gres_job_state) :
  bits_counted js n ->
  u64 (_get_task_cnt_node tasks_per_socket (u16 (sock_cnt sg)) * gres_per_task js)
  < 2 ^ 31 ->
  bits_counted (_set_task_bits n sg ns tasks_per_socket js) n /\
  cnt_node_select_at js n
  <= cnt_node_select_at (_set_task_bits n sg ns tasks_per_socket js) n
  <= cnt_node_select_at js n
     + u64 (_get_task_cnt_node tasks_per_socket (u16 (sock_cnt sg))
            * gres_per_task js).
Proof.
  intros Hjs Htot. unfold _set_task_bits.
  set (total := u64 (_ * _)) in *.
  assert (Ht0 : 0 <= total) by (subst total; apply u64_range).
  destruct tasks_per_socket as [tps|]; [|split; [exact Hjs | lia]].
  set (Inv := fun acc : Z * pick_state =>
              bits_counted (ps_js (snd acc)) n /\ sorted_ok n (snd acc) /\
              0 <= fst acc /\
              cnt_node_select_at (ps_js (snd acc)) n + fst acc
              = cnt_node_select_at js n + total /\
              cnt_node_select_at js n <= cnt_node_select_at (ps_js (snd acc)) n).
  assert (Hpick : forall arg idx needed st,
            Inv (needed, st) -> 0 <= arg <= needed ->
            Inv (let '(picked, st') := _pick_gres_topo sg ns (s32 arg) n idx st in
                 (u64 (needed - picked), st'))).
  { intros arg idx needed st (H1 & H2 & H3 & H4 & H5) Harg. simpl in *.
    assert (Ha : u64 (s32 arg) = arg).
    { rewrite s32_small by lia. apply u64_small. lia. }
    set (a := s32 arg) in *. clearbody a.
    pose proof (pick_gres_topo_counted sg ns a n idx st H1 H2) as Hp.
    pose proof (pick_gres_topo_sorted sg ns a n idx st H1 H2) as Hs.
    simpl in Hp. destruct Hp as (P1 & P2 & P3 & _). rewrite Ha in P2.
    destruct (_pick_gres_topo sg ns a n idx st) as [p st']. simpl in *.
    rewrite u64_small by lia. unfold Inv. simpl.
    split; [exact P1|]. split; [exact Hs|]. split; [lia|]. split; lia. }
  match goal with
  | |- context [ps_js (snd ?acc)] => assert (H : Inv acc)
  end.
  { apply (foldl_inv Inv).
    - match goal with
      | |- Inv (if nz (fst ?acc) then _ else _) => assert (H : Inv acc)
      end.
      { apply (foldl_inv Inv).
        - subst Inv. simpl.
          destruct (init_pick_state_kept ns n (fun js => bits_counted js n) js Hjs)
            as [H1 H2].
          rewrite (init_pick_state_js ns n) in *.
          split; [exact H1|]. split; [exact H2|]. split; [lia|]. split; lia.
        - intros [needed st] s HI. unfold task_sock_step.
          destruct (nz (zget tps s)); simpl; [|exact HI].
          set (arg := MIN needed _).
          assert (Harg : 0 <= arg <= needed).
          { subst arg. rewrite MIN_min.
            pose proof (u64_range (zget tps s * gres_per_task (ps_js st))).
            destruct HI as (_ & _ & ? & _). simpl in *. lia. }
          apply (Hpick arg (Z.of_nat s) needed st HI Harg). }
      destruct (foldl (task_sock_step sg ns tps n) _ _) as [needed st].
      simpl. destruct (nz needed); [|exact H].
      apply (Hpick needed ANY_SOCK_TEST needed st H).
      destruct H as (_ & _ & ? & _). simpl in *. lia.
    - intros [needed st] s HI. unfold task_more_step.
      destruct (needed =? 0); [exact HI|].
      apply (Hpick needed (Z.of_nat s) needed st HI).
      destruct HI as (_ & _ & ? & _). simpl in *. lia. }
  destruct H as (H1 & _ & H3 & H4 & H5). split; [exact H1|]. lia.
Qed.

Lemma sock_bits_fold_counts (sg : sock_gres_t) (ns : gres_node_state)
    (used_sock : list Z) (n : nat) (per_socket : Z) (l : list nat) :
  0 <= per_socket < 2 ^ 31 ->
  forall st,
    bits_counted (ps_js st) n -> sorted_ok n st ->
    gres_per_socket (ps_js st) = per_socket ->
    let st' := foldl (sock_bits_step sg ns used_sock n) st l in
    bits_counted (ps_js st') n /\
    cnt_node_select_at (ps_js st) n <= cnt_node_select_at (ps_js st') n
    <= cnt_node_select_at (ps_js st) n
       + per_socket
         * Z.of_nat (length (List.filter (fun s => nz (zget used_sock s)) l)).
Proof.
  intros Hps. induction l as [|s l IH]; intros st H1 H2 H3; simpl.
  - split; [exact H1 | lia].
  - assert (Hstep : let st1 := sock_bits_step sg ns used_sock n st s in
              bits_counted (ps_js st1) n /\ sorted_ok n st1 /\
              gres_per_socket (ps_js st1) = per_socket /\
              cnt_node_select_at (ps_js st) n <= cnt_node_select_at (ps_js st1) n
              <= cnt_node_select_at (ps_js st) n
                 + (if nz (zget used_sock s) then per_socket else 0)).
    { simpl. unfold sock_bits_step.
      destruct (nz (zget used_sock s)); simpl;
        [|split; [exact H1|]; split; [exact H2|]; split; [exact H3 | lia]].
      rewrite H3.
      assert (Ha : u64 (s32 per_socket) = per_socket).
      { rewrite s32_small by lia. apply u64_small. lia. }
      set (a := s32 per_socket) in *. clearbody a.
      pose proof (pick_gres_topo_counted sg ns a n (Z.of_nat s) st H1 H2) as Hp.
      pose proof (pick_gres_topo_sorted sg ns a n (Z.of_nat s) st H1 H2) as Hs.
      pose proof (pick_gres_topo_static gres_per_socket sg ns a n
                    (Z.of_nat s) st (fun _ _ => eq_refl)) as Hf.
      simpl in Hp. destruct Hp as (P1 & P2 & P3 & _). rewrite Ha in P2.
      destruct (_pick_gres_topo sg ns a n (Z.of_nat s) st) as [p st1]. simpl in *.
      rewrite (u64_small (per_socket - p)) by lia.
      destruct (nz (per_socket - p));
        [|split; [exact P1|]; split; [exact Hs|]; split; [congruence | lia]].
      assert (Hb : u64 (s32 (per_socket - p)) = per_socket - p).
      { rewrite s32_small by lia. apply u64_small. lia. }
      set (b := s32 (per_socket - p)) in *. clearbody b.
      pose proof (pick_gres_topo_counted sg ns b n ANY_SOCK_TEST st1 P1 Hs) as Hp2.
      pose proof (pick_gres_topo_sorted sg ns b n ANY_SOCK_TEST st1 P1 Hs) as Hs2.
      pose proof (pick_gres_topo_static gres_per_socket sg ns b n ANY_SOCK_TEST
                    st1 (fun _ _ => eq_refl)) as Hf2.
      simpl in Hp2. destruct Hp2 as (Q1 & Q2 & Q3 & _). rewrite Hb in Q2.
      destruct (_pick_gres_topo sg ns b n ANY_SOCK_TEST st1) as [p2 st2].
      simpl in *.
      split; [exact Q1|]. split; [exact Hs2|]. split; [congruence | lia]. }
    simpl in Hstep. destruct Hstep as (S1 & S2 & S3 & S4).
    destruct (IH _ S1 S2 S3) as [I1 I2]. simpl in I2.
    split; [exact I1|].
    destruct (nz (zget used_sock s)); simpl length; lia.
Qed.

(** X17: [_set_sock_bits] selects at most gres_per_socket units for each socket
    it picks on, these being the sockets left in use by the reshaping of
    lines 677-741, and counts each unit it selects. *)
Theorem set_sock_bits_counts (n : nat) (sg : sock_gres_t) (ns : gres_node_state)
    (tres_mc_ptr : option gres_mc_data) (used_cores_on_sock : list Z)
    (used_sock_cnt : Z) (js : gres_job_state) :
  bits_counted js n -> 0 <= gres_per_socket js < 2 ^ 31 ->
  let js' := _set_sock_bits n sg ns tres_mc_ptr used_cores_on_sock
               used_sock_cnt js in
  let used_sock := reshape_used_sock sg ns js tres_mc_ptr used_cores_on_sock
                     used_sock_cnt in
  bits_counted js' n /\
  cnt_node_select_at js n <= cnt_node_select_at js' n
  <= cnt_node_select_at js n
     + gres_per_socket js
       * Z.of_nat (nonzero_socks used_sock (Z.to_nat (u16 (sock_cnt sg)))).
Proof.
  intros Hjs Hps. simpl. unfold _set_sock_bits, nonzero_socks.
  destruct (init_pick_state_kept ns n (fun js => bits_counted js n) js Hjs)
    as [H1 H2].
  pose proof (init_pick_state_js ns n js) as Hi.
  rewrite Hi in H1.
  pose proof (sock_bits_fold_counts sg ns
                (reshape_used_sock sg ns js tres_mc_ptr used_cores_on_sock
                   used_sock_cnt) n (gres_per_socket js)
                (seq 0 (Z.to_nat (u16 (sock_cnt sg)))) Hps
                (init_pick_state ns js n)) as H.
  rewrite Hi in H. exact (H H1 H2 eq_refl).
Qed.

(** *** Shares by task *)

Lemma pick_shared_gres_static {A} (f : gres_job_state -> A) (E : slurm_env)
    (sg : sock_gres_t) (ns : gres_node_state) (used_sock : list Z) (n : nat)
    (use_busy_dev use_single_dev no_repeat enforce_binding : bool)
    (st : gres_job_state * Z) :
  (forall t c js, f (shared_take n t c js) = f js) ->
  f (fst (_pick_shared_gres E sg ns used_sock n use_busy_dev use_single_dev
            no_repeat enforce_binding st)) = f (fst st).
Proof.
  intros Hf.
  apply (pick_shared_gres_drawn E sg ns n use_busy_dev use_single_dev no_repeat
           (fun js' _ => f js' = f (fst st))); [|reflexivity].
  intros js1 needed1 t sb idx H1 _ _ _ _ _ _ _. rewrite Hf. exact H1.
Qed.

Lemma get_task_cnt_node_sum (tps : list Z) (sock_cnt : Z) :
  Forall (fun t => 0 <= t) tps ->
  zsum (map (zget tps) (seq 0 (Z.to_nat sock_cnt))) < 2 ^ 32 ->
  _get_task_cnt_node (Some tps) sock_cnt
  = zsum (map (zget tps) (seq 0 (Z.to_nat sock_cnt))).
Proof.
  intros Hnn. unfold _get_task_cnt_node.
  generalize (seq 0 (Z.to_nat sock_cnt)). intros l.
  assert (H : forall a, 0 <= a -> a + zsum (map (zget tps) l) < 2 ^ 32 ->
            foldl (fun task_cnt s => u32 (task_cnt + zget tps s)) a l
            = a + zsum (map (zget tps) l)).
  { induction l as [|s l IH]; intros a Ha Hlt; simpl in *; [lia|].
    pose proof (zget_nonneg tps s Hnn).
    assert (0 <= zsum (map (zget tps) l)).
    { apply zsum_nonneg, Forall_forall. intros x Hx.
      apply list_elem_of_fmap in Hx as (y & -> & _). apply zget_nonneg, Hnn. }
    rewrite u32_small by lia. rewrite IH by lia. lia. }
  intros Hlt. rewrite H by lia. lia.
Qed.

Section shared_task_counts.
Context (E : slurm_env) (sg : sock_gres_t) (ns : gres_node_state) (n : nat)
        (use_busy_dev no_task_sharing enforce_binding : bool) (per_task : Z).
Hypothesis Hok : shares_ok ns.
Hypothesis Hper_task : 0 <= per_task < 2 ^ 64.

Local Abbreviation good js := (shares_counted ns js n /\ gres_per_task js = per_task).

Lemma shared_task_loop_counts used_sock k : forall rc js,
  good js ->
  let r := shared_task_loop E sg ns used_sock n use_busy_dev no_task_sharing
             enforce_binding k rc js in
  good (snd r) /\
  ((fst r = rc /\
    cnt_node_select_at (snd r) n
    = cnt_node_select_at js n + per_task * Z.of_nat k) \/
   (fst r = ESLURM_INVALID_GRES /\
    cnt_node_select_at js n <= cnt_node_select_at (snd r) n
    < cnt_node_select_at js n + per_task * Z.of_nat k)).
Proof.
  induction k as [|k IH]; intros rc js [Hjs Hpt]; simpl.
  - split; [split; assumption|]. left. split; [reflexivity | lia].
  - rewrite Hpt.
    pose proof (pick_shared_gres_conserved E sg ns used_sock n use_busy_dev true
                  no_task_sharing enforce_binding js per_task Hok Hjs Hper_task)
      as Hc.
    pose proof (pick_shared_gres_static gres_per_task E sg ns used_sock n
                  use_busy_dev true no_task_sharing enforce_binding
                  (js, per_task) (fun _ _ _ => eq_refl)) as Hs.
    destruct (_pick_shared_gres _ _ _ _ _ _ _ _ _ _) as [js1 needed1].
    simpl in Hc, Hs. destruct Hc as (C1 & C2 & C3).
    unfold nz. destruct (Z.eqb_spec needed1 0) as [Hz|Hz]; simpl.
    + destruct (IH rc js1) as [G [[R1 R2] | [R1 R2]]];
        [split; [exact C1 | congruence]| |].
      * split; [exact G|]. left. split; [exact R1 | lia].
      * split; [exact G|]. right. split; [exact R1 | lia].
    + split; [split; [exact C1 | congruence]|]. right.
      split; [reflexivity | nia].
Qed.

Lemma shared_task_fold_counts (tps : list Z) (N : nat) (l : list nat) :
  Forall (fun t => 0 <= t) tps ->
  forall (st : slurm_rc * gres_job_state) (c0 T : Z),
    good (snd st) ->
    (fst st = SLURM_SUCCESS /\ cnt_node_select_at (snd st) n = c0 + per_task * T) \/
    (fst st = ESLURM_INVALID_GRES /\
     cnt_node_select_at (snd st) n < c0 + per_task * T) ->
    let r := foldl (fun (st : slurm_rc * gres_job_state) s =>
                      shared_task_loop E sg ns (<[s := 1]> (replicate N 0)) n
                        use_busy_dev no_task_sharing enforce_binding
                        (Z.to_nat (zget tps s)) (fst st) (snd st)) st l in
    good (snd r) /\
    ((fst r = SLURM_SUCCESS /\
      cnt_node_select_at (snd r) n
      = c0 + per_task * (T + zsum (map (zget tps) l))) \/
     (fst r = ESLURM_INVALID_GRES /\
      cnt_node_select_at (snd r) n
      < c0 + per_task * (T + zsum (map (zget tps) l)))).
Proof.
  intros Hnn. induction l as [|s l IH]; intros st c0 T Hg Hst; simpl.
  - rewrite Z.add_0_r. split; assumption.
  - pose proof (zget_nonneg tps s Hnn) as Hs.
    pose proof (shared_task_loop_counts (<[s := 1]> (replicate N 0))
                  (Z.to_nat (zget tps s)) (fst st) (snd st) Hg) as H.
    simpl in H. rewrite Z2Nat.id in H by lia.
    destruct (shared_task_loop _ _ _ _ _ _ _ _ _ _ _) as [rc1 js1].
    simpl in H. destruct H as [G H].
    replace (T + (zget tps s + zsum (map (zget tps) l)))
      with ((T + zget tps s) + zsum (map (zget tps) l)) by lia.
    apply IH; [exact G|]. simpl.
    destruct Hst as [[S1 S2] | [S1 S2]], H as [[R1 R2] | [R1 R2]].
    + left. split; [congruence | lia].
    + right. split; [exact R1 | lia].
    + right. split; [congruence | lia].
    + right. split; [exact R1 | lia].
Qed.

End shared_task_counts.

(** X11: [_set_shared_task_bits], given the tasks of the node by socket: it
    returns SLURM_SUCCESS exactly when it has added gres_per_task for every
    task to the count of the node, whether it draws for the tasks together
    or one by one; otherwise it has added less and returns
    ESLURM_INVALID_GRES. *)
Theorem set_shared_task_bits_counts (E : slurm_env) (n : nat) (sg : sock_gres_t)
    (gsn : gres_state_t gres_node_state) (ns : gres_node_state)
    (enforce_binding no_task_sharing : bool) (tps : list Z)
    (js : gres_job_state) :
  shares_ok ns -> shares_counted ns js n ->
  Forall (fun t => 0 <= t) tps -> tasks_on_sockets tps (sock_cnt sg) < 2 ^ 32 ->
  0 <= gres_per_task js < 2 ^ 64 ->
  gres_per_task js * tasks_on_sockets tps (sock_cnt sg) < 2 ^ 64 ->
  let tasks := tasks_on_sockets tps (sock_cnt sg) in
  let r := _set_shared_task_bits E n sg gsn ns enforce_binding no_task_sharing
             (Some tps) js in
  shares_counted ns (snd r) n /\
  ((fst r = SLURM_SUCCESS /\
    cnt_node_select_at (snd r) n
    = cnt_node_select_at js n + gres_per_task js * tasks) \/
   (fst r = ESLURM_INVALID_GRES /\
    cnt_node_select_at (snd r) n
    < cnt_node_select_at js n + gres_per_task js * tasks)).
Proof.
  intros Hok Hjs Hnn Htasks Hpt Hprod. cbv zeta.
  unfold tasks_on_sockets in *.
  set (tasks := zsum (map (zget tps) (seq 0 (Z.to_nat (sock_cnt sg))))) in *.
  assert (Ht0 : 0 <= tasks).
  { subst tasks. apply zsum_nonneg, Forall_forall. intros x Hx.
    apply list_elem_of_fmap in Hx as (y & -> & _). apply zget_nonneg, Hnn. }
  unfold _set_shared_task_bits.
  destruct (negb (nz (Z.land (select_type_param E) (MULTIPLE_SHARING_GRES_PJ E)))).
  - rewrite get_task_cnt_node_sum by assumption. fold tasks.
    rewrite (u64_small (gres_per_task js * tasks)) by nia.
    pose proof (pick_shared_gres_conserved E sg ns tps n (gres_use_busy_dev E gsn)
                  true false enforce_binding js (gres_per_task js * tasks) Hok Hjs
                  ltac:(nia)) as Hc.
    destruct (_pick_shared_gres _ _ _ _ _ _ _ _ _ _) as [js1 needed1].
    simpl in Hc. destruct Hc as (C1 & C2 & C3).
    unfold nz. destruct (Z.eqb_spec needed1 0) as [Hz|Hz]; simpl.
    + split; [exact C1|]. left. split; [reflexivity | lia].
    + split; [exact C1|]. right. split; [reflexivity | lia].
  - pose proof (shared_task_fold_counts E sg ns n (gres_use_busy_dev E gsn)
                  no_task_sharing enforce_binding (gres_per_task js) Hok
                  ltac:(lia) tps (Z.to_nat (sock_cnt sg))
                  (seq 0 (Z.to_nat (sock_cnt sg))) Hnn (SLURM_SUCCESS, js)
                  (cnt_node_select_at js n) 0 (conj Hjs eq_refl)) as H.
    simpl in H. destruct H as [[G _] H].
    { left. split; [reflexivity | lia]. }
    split; [exact G|]. exact H.
Qed.

(** *** The order by links *)

Lemma links_update_at (d : nat -> Z) (skip : nat -> bool) k : forall a links i,
  zget (foldl (fun (lk : list Z) l =>
                 if skip l then lk else <[l := s32 (zget lk l + d l)]> lk)
              links (seq a k)) i
  = if (a <=? i)%nat && (i <? a + k)%nat && (i <? length links)%nat
       && negb (skip i)
    then s32 (zget links i + d i) else zget links i.
Proof.
  induction k as [|k IH]; intros a links i; simpl.
  - destruct (Nat.leb_spec a i), (Nat.ltb_spec i (a + 0)); simpl;
      try reflexivity; lia.
  - rewrite IH.
    destruct (skip a) eqn:Hsk.
    + destruct (Nat.leb_spec (S a) i), (Nat.leb_spec a i),
        (Nat.ltb_spec i (S a + k)), (Nat.ltb_spec i (a + S k));
        simpl; try reflexivity; try lia.
      assert (i = a) by lia. subst i. rewrite Hsk.
      rewrite andb_false_r. reflexivity.
    + rewrite length_insert.
      destruct (Nat.leb_spec (S a) i), (Nat.leb_spec a i),
        (Nat.ltb_spec i (S a + k)), (Nat.ltb_spec i (a + S k));
        simpl; try lia.
      * rewrite zget_insert_ne by lia. reflexivity.
      * rewrite zget_insert_ne by lia. reflexivity.
      * assert (i = a) by lia. subst i. rewrite Hsk. simpl.
        destruct (Nat.ltb_spec a (length links)).
        -- rewrite zget_insert_eq by lia. reflexivity.
        -- rewrite list_insert_ge by lia. reflexivity.
      * rewrite zget_insert_ne by lia. reflexivity.
Qed.

Lemma links_update_length (d : nat -> Z) (skip : nat -> bool) (l : list nat) :
  forall links,
    length (foldl (fun (lk : list Z) l =>
                     if skip l then lk else <[l := s32 (zget lk l + d l)]> lk)
                  links l) = length links.
Proof.
  induction l as [|x l IH]; intros links; simpl; [reflexivity|].
  rewrite IH. destruct (skip x); [reflexivity | apply length_insert].
Qed.

(** X12: [_update_and_sort_by_links] adds to the link count of every unit
    below gres_cnt, other than the unit just selected and the units in
    use, its links to the unit just selected, and leaves the other counts
    as they were.  It keeps in sorted_gres the units it held, and, the
    counts being small enough for their differences to fit an int, puts
    them in the order of increasing link count. *)
Theorem update_and_sort_by_links_order (sorted_gres : list nat)
    (links : list Z) (gres_inx gres_cnt : nat) (ns : gres_node_state) :
  (forall l, - 2 ^ 30 <= zget links l < 2 ^ 30) ->
  (forall l, - 2 ^ 30 <= zget links l + link_at ns gres_inx l < 2 ^ 30) ->
  let r := _update_and_sort_by_links sorted_gres links gres_inx gres_cnt ns in
  sorted_gres ≡ₚ fst r /\
  StronglySorted (fun x y => zget (snd r) x <= zget (snd r) y) (fst r) /\
  length (snd r) = length links /\
  forall l,
    zget (snd r) l
    = if (l <? gres_cnt)%nat && (l <? length links)%nat &&
         negb ((l =? gres_inx)%nat || bit_test_opt (gres_bit_alloc ns) l)
      then zget links l + link_at ns gres_inx l
      else zget links l.
Proof.
  intros Hl Hu. cbv zeta. unfold _update_and_sort_by_links. cbn [fst snd].
  set (links' := foldl _ links (seq 0 gres_cnt)).
  assert (Hget : forall l,
            zget links' l
            = if (l <? gres_cnt)%nat && (l <? length links)%nat &&
                 negb ((l =? gres_inx)%nat || bit_test_opt (gres_bit_alloc ns) l)
              then zget links l + link_at ns gres_inx l
              else zget links l).
  { intros l. subst links'.
    rewrite (links_update_at (link_at ns gres_inx)
               (fun l => (l =? gres_inx)%nat || bit_test_opt (gres_bit_alloc ns) l)
               gres_cnt 0 links l).
    simpl. destruct (_ && _ && _); [|reflexivity].
    apply s32_small. specialize (Hu l). lia. }
  assert (Hrange : forall l, - 2 ^ 30 <= zget links' l < 2 ^ 30).
  { intros l. rewrite Hget. destruct (_ && _ && _); [apply Hu | apply Hl]. }
  split; [symmetry; apply qsort_perm|].
  split; [|split; [apply links_update_length | exact Hget]].
  apply (StronglySorted_transfer
           (fun x y => - zget links' y <= - zget links' x)); [intros; lia|].
  apply (qsort_sorted (fun x => - zget links' x) (_compare_gres_by_links links')).
  intros x y. unfold _compare_gres_by_links.
  pose proof (Hrange x). pose proof (Hrange y).
  rewrite s32_small by lia. lia.
Qed.

(** *** What the loop over the low sockets leaves *)

Lemma low_sock_inx_none (used_sock : list Z) (sock_cnt : nat) :
  low_sock_inx used_sock sock_cnt = None ->
  forall s, (s < sock_cnt)%nat -> zget used_sock s = 0.
Proof.
  unfold low_sock_inx.
  assert (H : forall l (acc : option nat),
            foldl (fun (low : option nat) s =>
                     if zget used_sock s =? 0 then low
                     else
                       match low with
                       | None => Some s
                       | Some l =>
                           if zget used_sock s <? zget used_sock l
                           then Some s else low
                       end) acc l = None ->
            acc = None /\ forall s, s ∈ l -> zget used_sock s = 0).
  { induction l as [|s l IH]; intros acc Hf; simpl in Hf.
    - split; [exact Hf|]. intros s Hs. inversion Hs.
    - destruct (IH _ Hf) as [Hacc Hl].
      destruct (Z.eqb_spec (zget used_sock s) 0) as [Hz|Hz].
      + split; [exact Hacc|]. intros s' Hs'.
        apply elem_of_cons in Hs' as [Heq | Hin]; [subst; exact Hz | auto].
      + destruct acc as [l0|]; [destruct (_ <? _)|]; discriminate. }
  intros Hnone s Hs. apply H in Hnone as [_ Hall]. apply Hall.
  apply list_elem_of_In. apply -> List.in_rev. apply List.in_seq. lia.
Qed.

Lemma drop_low_socks_zero req (sock_cnt : nat) : forall fuel us,
  (nonzero_socks (us_used_sock us) sock_cnt < fuel)%nat ->
  us_used_sock_cnt us < req ->
  Z.of_nat (nonzero_socks (us_used_sock us) sock_cnt) <= us_used_sock_cnt us
  < 2 ^ 32 ->
  forall s, (s < sock_cnt)%nat ->
    zget (us_used_sock (drop_low_socks fuel req sock_cnt us)) s = 0.
Proof.
  induction fuel as [|fuel IH]; intros us Hf Hreq Hcnt s Hs; [lia|]. simpl.
  destruct (Z.gtb_spec req (us_used_sock_cnt us)); [|lia].
  destruct (low_sock_inx (us_used_sock us) sock_cnt) as [low|] eqn:Hlow.
  - apply low_sock_inx_spec in Hlow as [Hl Hnz].
    pose proof (nonzero_socks_drop (us_used_sock us) sock_cnt low Hl Hnz) as Hd.
    apply IH; simpl; try assumption; try lia;
      rewrite u32_small by lia; lia.
  - apply (low_sock_inx_none _ _ Hlow). exact Hs.
Qed.

(** X16: The loop of lines 725-739 that excludes the sockets with low counts,
    once entered with sockets_per_node above a count of used sockets that
    is not below their number, goes on until no socket is left in use:
    each turn lowers the count it is compared with. *)
Theorem drop_low_socks_clears (req : Z) (sock_cnt fuel : nat) (us : used_socks)
    (s : nat) :
  (sock_cnt < fuel)%nat -> (s < sock_cnt)%nat ->
  us_used_sock_cnt us < req ->
  Z.of_nat (nonzero_socks (us_used_sock us) sock_cnt) <= us_used_sock_cnt us
  < 2 ^ 32 ->
  zget (us_used_sock (drop_low_socks fuel req sock_cnt us)) s = 0 /\
  drop_low_socks fuel req sock_cnt us
  = drop_low_socks (S sock_cnt) req sock_cnt us.
Proof.
  intros Hf Hs Hreq Hcnt.
  pose proof (nonzero_socks_le (us_used_sock us) sock_cnt) as Hle.
  split; [|apply drop_low_socks_enough; exact Hf].
  apply drop_low_socks_zero; try assumption. lia.
Qed.

(** *** The cores in use by socket *)

Lemma bit_set_count_range_bounds (b : bitstr) start stop :
  0 <= bit_set_count_range b start stop <= bit_size b.
Proof.
  unfold bit_set_count_range, bit_size.
  pose proof (popcount_le (take (Z.to_nat stop - Z.to_nat start)
                             (drop (Z.to_nat start) b))) as H.
  rewrite length_take, length_drop in H. lia.
Qed.

Lemma zsum_app (l1 l2 : list Z) : zsum (l1 ++ l2) = zsum l1 + zsum l2.
Proof. induction l1 as [|x l1 IH]; simpl; lia. Qed.

Section used_cnts.
Context (E : slurm_env) (job_res : job_resources).
Variables (core_offset cores_per_socket_cnt : Z).

(** The cores of socket [s] in the job's core bitmap. *)
Local Abbreviation cores_of s :=
  (bit_set_count_range (default [] (core_bitmap job_res))
     (core_offset + Z.of_nat s * cores_per_socket_cnt)
     (core_offset + Z.of_nat s * cores_per_socket_cnt + cores_per_socket_cnt)).

Lemma used_cnts_loop (a : select_and_set_args_t) (n : nat) :
  bit_size (default [] (core_bitmap job_res)) < 2 ^ 32 ->
  (Z.of_nat n < 2 ^ 32) ->
  used_core_cnt a = 0 -> used_sock_cnt a = 0 ->
  used_cores_on_sock a = Some (replicate n 0) ->
  forall k, (k <= n)%nat ->
  let a' := foldl (used_cnts_step job_res core_offset cores_per_socket_cnt) a
              (seq 0 k) in
  let done := map (fun s => cores_of s) (seq 0 k) in
  used_cores_on_sock a' = Some (done ++ replicate (n - k) 0) /\
  used_core_cnt a' = u32 (zsum done) /\
  used_sock_cnt a' = Z.of_nat (length (List.filter nz done)) /\
  args_sock_cnt a' = args_sock_cnt a.
Proof.
  intros Hbm Hn Hc Hs Hcores k. induction k as [|k IH]; intros Hk.
  - simpl. rewrite Nat.sub_0_r, Hc, Hs. repeat split; try assumption; reflexivity.
  - cbv zeta in IH |- *. rewrite seq_S, foldl_app, map_app. simpl.
    destruct IH as (I1 & I2 & I3 & I4); [lia|].
    set (a1 := foldl _ a (seq 0 k)) in *.
    set (done := map _ (seq 0 k)) in *.
    assert (Hlen : length done = k).
    { subst done. rewrite length_map, length_seq. reflexivity. }
    pose proof (bit_set_count_range_bounds (default [] (core_bitmap job_res))
                  (core_offset + Z.of_nat k * cores_per_socket_cnt)
                  (core_offset + Z.of_nat k * cores_per_socket_cnt
                   + cores_per_socket_cnt)) as Hb.
    set (c := cores_of k) in *.
    unfold used_cnts_step. fold c. simpl. rewrite I1, I2, I3, I4. simpl.
    split; [|split; [|split; [|reflexivity]]].
    + f_equal. unfold zget.
      rewrite lookup_app_r by lia. rewrite Hlen, Nat.sub_diag.
      destruct (n - k)%nat as [|m] eqn:Hm; [lia|]. simpl.
      rewrite insert_app_r_alt by lia. rewrite Hlen, Nat.sub_diag. simpl.
      replace (n - S k)%nat with m by lia.
      rewrite <- app_assoc. simpl. f_equal. f_equal.
      unfold u32. apply Z.mod_small. lia.
    + rewrite zsum_app. simpl. unfold u32. rewrite Z.add_0_r.
      rewrite Zplus_mod_idemp_l. reflexivity.
    + rewrite List.filter_app, length_app. simpl.
      assert (Hf : (length (List.filter nz done) <= k)%nat).
      { rewrite <- Hlen. apply List.filter_length_le. }
      destruct (nz c); simpl.
      * unfold u32. rewrite Z.mod_small by lia. lia.
      * lia.
Qed.

End used_cnts.

(** X22: [_set_used_cnts], called as the code asserts with both counters at 0,
    with socket data for the node and with core indices and counts that
    fit an int: it leaves one entry per socket with the cores of that
    socket set in the job's core bitmap, their total (modulo 2^32) in
    used_core_cnt and the number of sockets with a core in used_sock_cnt,
    and it returns SLURM_SUCCESS exactly when that number is not 0,
    SLURM_ERROR otherwise. *)
Theorem set_used_cnts_counts (E : slurm_env) (job_res : job_resources)
    (a : select_and_set_args_t) (sc cps : Z) :
  used_core_cnt a = 0 -> used_sock_cnt a = 0 ->
  get_job_resources_cnt E job_res (job_node_inx a) = Some (sc, cps) ->
  0 <= get_job_resources_offset E job_res (job_node_inx a) ->
  get_job_resources_offset E job_res (job_node_inx a) + u16 sc * u16 cps < 2 ^ 31 ->
  bit_size (default [] (core_bitmap job_res)) < 2 ^ 31 ->
  let r := _set_used_cnts E job_res a in
  let off := get_job_resources_offset E job_res (job_node_inx a) in
  let cores :=
    map (fun s => bit_set_count_range (default [] (core_bitmap job_res))
                    (off + Z.of_nat s * u16 cps)
                    (off + Z.of_nat s * u16 cps + u16 cps))
        (seq 0 (Z.to_nat (u16 sc))) in
  args_sock_cnt (snd r) = u16 sc /\
  used_cores_on_sock (snd r) = Some cores /\
  used_core_cnt (snd r) = u32 (zsum cores) /\
  used_sock_cnt (snd r) = Z.of_nat (length (List.filter nz cores)) /\
  fst r = (if used_sock_cnt (snd r) =? 0 then SLURM_ERROR else SLURM_SUCCESS).
Proof.
  intros Hc Hs Hcnt Hoff _ Hbm31.
  assert (Hbm : bit_size (default [] (core_bitmap job_res)) < 2 ^ 32) by lia.
  simpl. unfold _set_used_cnts. rewrite Hcnt. simpl.
  destruct (Z.ltb_spec (get_job_resources_offset E job_res (job_node_inx a)) 0);
    [lia|].
  set (n := Z.to_nat (u16 sc)).
  assert (Hn : Z.of_nat n < 2 ^ 32).
  { subst n. unfold u16. pose proof (Z.mod_pos_bound sc (2 ^ 16)). lia. }
  match goal with
  | |- context [foldl ?f ?a0 (seq 0 n)] =>
      pose proof (used_cnts_loop job_res
                    (get_job_resources_offset E job_res (job_node_inx a))
                    (u16 cps) a0 n Hbm Hn Hc Hs eq_refl n (Nat.le_refl n)) as H0;
      set (a' := foldl f a0 (seq 0 n)) in *
  end.
  cbv zeta in H0. rewrite Nat.sub_diag, app_nil_r in H0.
  destruct H0 as (H1 & H2 & H3 & H4).
  destruct (used_sock_cnt a' =? 0) eqn:Hz; simpl; rewrite ?Hz;
    (split; [exact H4|]; split; [exact H1|]; split; [exact H2|];
     split; [exact H3 | reflexivity]).
Qed.

(** *** A node without topology *)

Lemma init_node_select_fields node_cnt first_node js :
  request_of (init_node_select node_cnt first_node js) = request_of js /\
  gres_bit_select (init_node_select node_cnt first_node js) = gres_bit_select js /\
  gres_per_bit_select (init_node_select node_cnt first_node js)
  = gres_per_bit_select js /\
  gres_cnt_node_select (init_node_select node_cnt first_node js)
  = Some (default (replicate (Z.to_nat node_cnt) 0) (gres_cnt_node_select js)) /\
  total_gres (init_node_select node_cnt first_node js)
  = if first_node || (total_node_cnt js =? 0) then 0 else total_gres js.
Proof.
  unfold init_node_select.
  destruct (total_node_cnt js =? 0), (gres_cnt_node_select js) eqn:Hc, first_node;
    simpl; rewrite ?Hc; simpl; rewrite ?Hc; simpl; repeat split;
    rewrite ?Hc; reflexivity.
Qed.

(** X23: On a node whose GRES has no topology, the visit of a request with
    gres_per_node, once the socket counts are there, sets no bit: it returns
    0, leaves rc and job_fini alone, leaves gres_bit_select and
    gres_per_bit_select as they were, stores gres_per_node as the count of
    the node and adds it to total_gres, which starts from 0 on the first
    node of the job or when total_node_cnt was not set. *)
Theorem select_and_set_node_without_topo (E : slurm_env) (job_ptr : job_record)
    (job_res : job_resources) (tres_mc_ptr : option gres_mc_data)
    (sg : sock_gres_t) (a : select_and_set_args_t) (h : heap)
    (gsj : gres_state_t gres_job_state) (js : gres_job_state)
    (gsn : gres_state_t gres_node_state) (ns : gres_node_state)
    (cores : list Z) :
  h_jobs h !! gres_state_job sg = Some gsj -> gres_data gsj = Some js ->
  h_nodes h !! gres_state_node sg = Some gsn -> gres_data gsn = Some ns ->
  topo_cnt ns = 0 -> gres_per_node js <> 0 ->
  used_cores_on_sock a = Some cores ->
  (node_inx a < Z.to_nat (bit_size (default [] (node_bitmap job_res))))%nat ->
  (forall l, gres_cnt_node_select js = Some l -> (node_inx a < length l)%nat) ->
  let r := _select_and_set_node E job_ptr job_res tres_mc_ptr sg (a, h) in
  let first_node :=
    Z.of_nat (node_inx a) =? bit_ffs (default [] (node_bitmap job_res)) in
  fst r = 0 /\ rc (fst (snd r)) = rc a /\ job_fini (fst (snd r)) = job_fini a /\
  h_nodes (snd (snd r)) = h_nodes h /\
  exists js',
    job_state_of (h_jobs (snd (snd r))) sg = Some js' /\
    request_of js' = request_of js /\
    gres_bit_select js' = gres_bit_select js /\
    gres_per_bit_select js' = gres_per_bit_select js /\
    cnt_node_select_at js' (node_inx a) = gres_per_node js /\
    total_gres js'
    = u64 ((if first_node || (total_node_cnt js =? 0) then 0 else total_gres js)
           + gres_per_node js).
Proof.
  intros Hgsj Hjs Hgsn Hns Htopo Hpn Hcores Hn Hlen. cbv zeta.
  unfold _select_and_set_node. rewrite Hgsj, Hgsn, Hjs, Hns, Hcores.
  simpl is_null. rewrite andb_false_r.
  unfold select_and_set_rest. rewrite Htopo. simpl (0 =? 0).
  set (a1 := if nz (gres_per_task js) && _ then _ else a).
  assert (Ha1 : node_inx a1 = node_inx a /\ rc a1 = rc a /\
                job_fini a1 = job_fini a).
  { subst a1. destruct (nz (gres_per_task js) && _); repeat split; reflexivity. }
  destruct Ha1 as (Hn1 & Hr1 & Hf1). clearbody a1. cbn [fst snd].
  rewrite Hn1.
  set (first_node := Z.of_nat (node_inx a)
                     =? bit_ffs (default [] (node_bitmap job_res))).
  set (node_cnt := bit_size (default [] (node_bitmap job_res))) in *.
  destruct (init_node_select_fields node_cnt first_node js)
    as (Ireq & Ibits & Ipb & Icnt & Itot).
  set (js1 := init_node_select node_cnt first_node js) in *. clearbody js1.
  assert (Hpn1 : gres_per_node js1 = gres_per_node js).
  { unfold request_of in Ireq. congruence. }
  assert (Hno : no_topo_cnt E a1 ns js1 = gres_per_node js).
  { unfold no_topo_cnt. rewrite Hpn1.
    apply nz_true in Hpn. rewrite Hpn. reflexivity. }
  rewrite Hno.
  set (js2 := write_cnt_node_select (node_inx a) (gres_per_node js) js1).
  assert (Hslot : has_cnt_slot js1 (node_inx a)).
  { eexists. split; [exact Icnt|].
    destruct (gres_cnt_node_select js) as [l|] eqn:Hl; simpl.
    - apply Hlen. reflexivity.
    - rewrite length_replicate. exact Hn. }
  assert (Hc2 : cnt_node_select_at js2 (node_inx a) = gres_per_node js)
    by (apply cnt_at_write; exact Hslot).
  split; [reflexivity|]. split; [exact Hr1|]. split; [exact Hf1|].
  split; [reflexivity|].
  exists (add_node_total (node_inx a) js2).
  split; [|split; [|split; [|split; [|split]]]].
  - unfold job_state_of. rewrite (store_lookup_eq _ _ _ _ Hgsj). reflexivity.
  - exact Ireq.
  - exact Ibits.
  - exact Ipb.
  - exact Hc2.
  - unfold add_node_total. simpl. rewrite Hc2. cbn. rewrite Itot. reflexivity.
Qed.

(** *** Requests by job and the second pass *)

Lemma picks_by_job_view E gs gs' js js' :
  request_view gs = request_view gs' ->
  gres_data gs = Some js -> gres_data gs' = Some js' ->
  picks_by_job E gs js = picks_by_job E gs' js'.
Proof.
  unfold request_view, request_of, picks_by_job. intros Hv Hjs Hjs'.
  rewrite Hjs, Hjs' in Hv. simpl in Hv.
  assert (config_flags gs = config_flags gs') as -> by congruence.
  assert (gres_per_node js = gres_per_node js') as -> by congruence.
  assert (gres_per_socket js = gres_per_socket js') as -> by congruence.
  assert (gres_per_task js = gres_per_task js') as -> by congruence.
  assert (gres_per_job js = gres_per_job js') as -> by congruence.
  reflexivity.
Qed.

Lemma none_by_job_view E (jobs jobs' : job_store) :
  request_view <$> jobs' = request_view <$> jobs ->
  none_by_job E jobs -> none_by_job E jobs'.
Proof.
  intros Hv Hnone gs' js' Hin Hjs'.
  apply list_elem_of_lookup in Hin as [k Hk].
  assert (Hk' : (request_view <$> jobs) !! k = Some (request_view gs')).
  { rewrite <- Hv, list_lookup_fmap, Hk. reflexivity. }
  rewrite list_lookup_fmap in Hk'.
  destruct (jobs !! k) as [gs|] eqn:Hgs; [|discriminate].
  simpl in Hk'. assert (Hview : request_view gs = request_view gs') by congruence.
  destruct (gres_data gs) as [js|] eqn:Hjs.
  - rewrite <- (picks_by_job_view E gs gs' js js' Hview Hjs Hjs').
    apply Hnone; [|exact Hjs]. apply list_elem_of_lookup. exists k. exact Hgs.
  - unfold request_view in Hview. rewrite Hjs, Hjs' in Hview. discriminate.
Qed.

Section needs_per_job.
Context (E : slurm_env) (sock_gres_list : list (list sock_gres_t))
        (job_ptr : job_record) (job_res : job_resources)
        (tres_mc_ptr : option gres_mc_data).

Local Abbreviation node_ := (_select_and_set_node E job_ptr job_res tres_mc_ptr).
Local Abbreviation list_ := (select_and_set_list E job_ptr job_res tres_mc_ptr).
Local Abbreviation rest_ := (select_and_set_rest E job_ptr job_res tres_mc_ptr).
Local Abbreviation step_ :=
  (node_loop_step E sock_gres_list job_ptr job_res tres_mc_ptr).
Local Abbreviation node_cnt_ := (bit_size (default [] (node_bitmap job_res))).

(** What the visits keep of the arguments when no request is handed over
    to [_set_job_bits1]: job_fini, and rc below ESLURM_NODE_NOT_AVAIL. *)
Local Abbreviation same_fini a a' :=
  (job_fini a' = job_fini a /\
   (rc a <> ESLURM_NODE_NOT_AVAIL -> rc a' <> ESLURM_NODE_NOT_AVAIL)).

Lemma shared_task_loop_rc sg ns used_sock n use_busy_dev no_task_sharing
    enforce_binding k : forall r js,
  r <> ESLURM_NODE_NOT_AVAIL ->
  fst (shared_task_loop E sg ns used_sock n use_busy_dev no_task_sharing
         enforce_binding k r js) <> ESLURM_NODE_NOT_AVAIL.
Proof.
  induction k as [|k IH]; intros r js Hr; simpl; [exact Hr|].
  destruct (_pick_shared_gres _ _ _ _ _ _ _ _ _ _) as [js1 needed1].
  destruct (nz needed1); [simpl; discriminate | apply IH; exact Hr].
Qed.

Lemma set_shared_task_bits_rc n sg gsn ns enforce_binding no_task_sharing tasks js :
  fst (_set_shared_task_bits E n sg gsn ns enforce_binding no_task_sharing
         tasks js) <> ESLURM_NODE_NOT_AVAIL.
Proof.
  unfold _set_shared_task_bits. destruct tasks as [tps|]; [|simpl; discriminate].
  destruct (negb _).
  - destruct (_pick_shared_gres _ _ _ _ _ _ _ _ _ _) as [js1 needed1].
    destruct (nz needed1); simpl; discriminate.
  - apply (foldl_inv (fun st : slurm_rc * gres_job_state =>
                        fst st <> ESLURM_NODE_NOT_AVAIL)); [simpl; discriminate|].
    intros st s Hst. apply shared_task_loop_rc. exact Hst.
Qed.

Lemma dispatch_pick_fini sg gsj gsn ns a js :
  (gres_id_shared E (config_flags gsj) = false ->
   picks_by_job E gsj js = false) ->
  same_fini a (fst (dispatch_pick E job_ptr tres_mc_ptr sg gsj gsn ns a js)).
Proof.
  intros Hno. unfold dispatch_pick.
  destruct (gres_id_shared E (config_flags gsj)) eqn:Hsh.
  - destruct (nz (gres_per_node _)).
    + unfold _set_shared_node_bits.
      destruct (_pick_shared_gres _ _ _ _ _ _ _ _ _ _) as [js1 needed1].
      destruct (if nz needed1 && _ then _ else _) as [js2 needed2].
      destruct (nz needed2); simpl; split; try reflexivity; intros _; discriminate.
    + destruct (nz (gres_per_task _)).
      * pose proof (set_shared_task_bits_rc (node_inx a) sg gsn ns
                      (nz (Z.land (bit_flags job_ptr) (GRES_ENFORCE_BIND E)))
                      (nz (Z.land (bit_flags job_ptr)
                                  (GRES_ONE_TASK_PER_SHARING E)))
                      (tasks_on_node a)
                      (_init_gres_per_bit_select js (node_inx a))) as H.
        destruct (_set_shared_task_bits _ _ _ _ _ _ _ _ _) as [r js2].
        simpl in *. split; [reflexivity | intros _; exact H].
      * simpl. split; [reflexivity | intros _; discriminate].
  - specialize (Hno eq_refl). unfold picks_by_job in Hno. rewrite Hsh in Hno.
    simpl in Hno.
    destruct (nz (gres_per_node js)); [simpl; auto|].
    destruct (nz (gres_per_socket js)); [simpl; auto|].
    destruct (nz (gres_per_task js)); [simpl; auto|].
    destruct (nz (gres_per_job js)); [discriminate | simpl; auto].
Qed.

Lemma select_and_set_rest_fini sg gsj gsn js ns a h :
  picks_by_job E gsj js = false ->
  same_fini a (fst (rest_ sg gsj gsn js ns a h)).
Proof.
  intros Hno. unfold select_and_set_rest.
  set (a1 := if nz (gres_per_task js) && _ then _ else a).
  assert (Ha1 : job_fini a1 = job_fini a /\ rc a1 = rc a).
  { subst a1. destruct (nz (gres_per_task js) && _); split; reflexivity. }
  destruct Ha1 as [Hf1 Hr1]. clearbody a1.
  set (js1 := init_node_select _ _ js).
  destruct (topo_cnt ns =? 0); [simpl; split; congruence|].
  set (js2 := init_bit_select _ _ _ js1).
  assert (Hreq : request_of js2 = request_of js).
  { subst js2 js1.
    apply (init_bit_select_kept ns (node_inx a1) node_cnt_ (fun _ => True)
             (fun x => request_of x = request_of js) (request_kept _ _ _ _)).
    apply (init_node_select_kept ns (node_inx a1) node_cnt_ (fun _ => True)
             (fun x => request_of x = request_of js) (request_kept _ _ _ _)).
    reflexivity. }
  assert (Hno2 : picks_by_job E gsj js2 = false).
  { rewrite <- Hno. unfold picks_by_job. unfold request_of in Hreq.
    assert (gres_per_node js2 = gres_per_node js) as -> by congruence.
    assert (gres_per_socket js2 = gres_per_socket js) as -> by congruence.
    assert (gres_per_task js2 = gres_per_task js) as -> by congruence.
    assert (gres_per_job js2 = gres_per_job js) as -> by congruence.
    reflexivity. }
  clearbody js2.
  pose proof (dispatch_pick_fini sg gsj gsn ns a1 js2 (fun _ => Hno2)) as H.
  destruct (dispatch_pick E job_ptr tres_mc_ptr sg gsj gsn ns a1 js2) as [a2 js3].
  simpl in *. destruct H as [H1 H2]. split; [congruence|].
  intros Hr. apply H2. congruence.
Qed.

Lemma set_used_cnts_fini a :
  job_fini (snd (_set_used_cnts E job_res a)) = job_fini a /\
  fst (_set_used_cnts E job_res a) <> ESLURM_NODE_NOT_AVAIL.
Proof.
  unfold _set_used_cnts.
  destruct (get_job_resources_cnt E job_res (job_node_inx a)) as [[sc cps]|];
    [|split; [reflexivity | discriminate]].
  destruct (_ <? 0); [split; [reflexivity | discriminate]|].
  match goal with
  | |- context [foldl ?f ?a0 ?l] =>
      assert (H : job_fini (foldl f a0 l) = job_fini a);
      [apply (foldl_inv (fun x => job_fini x = job_fini a));
       [reflexivity | intros x s Hx; exact Hx]
      | destruct (used_sock_cnt (foldl f a0 l) =? 0);
        (split; [exact H | discriminate]) ]
  end.
Qed.

Lemma select_and_set_node_fini sg a h :
  none_by_job E (h_jobs h) ->
  same_fini a (fst (snd (node_ sg (a, h)))).
Proof.
  intros Hnone. unfold _select_and_set_node.
  destruct (h_jobs h !! gres_state_job sg) as [gsj|] eqn:Hgsj; [|simpl; auto].
  destruct (h_nodes h !! gres_state_node sg) as [gsn|]; [|simpl; auto].
  destruct (gres_data gsj) as [js|] eqn:Hjs; [|simpl; auto].
  destruct (gres_data gsn) as [ns|]; [|simpl; auto].
  assert (Hno : picks_by_job E gsj js = false).
  { apply Hnone; [|exact Hjs]. apply list_elem_of_lookup. eauto. }
  destruct (_ && is_null (used_cores_on_sock a)).
  - pose proof (set_used_cnts_fini a) as [Hf Hr].
    destruct (_set_used_cnts E job_res a) as [r a']. simpl in Hf, Hr.
    destruct (negb (eq_rc r SLURM_SUCCESS)).
    + simpl. split; [exact Hf | intros _; exact Hr].
    + pose proof (select_and_set_rest_fini sg gsj gsn js ns (set_rc r a') h Hno)
        as [H1 H2].
      simpl in *. split; [congruence | intros _; apply H2; exact Hr].
  - simpl. apply select_and_set_rest_fini. exact Hno.
Qed.

Lemma select_and_set_list_fini (l : list sock_gres_t) : forall a h,
  none_by_job E (h_jobs h) ->
  same_fini a (fst (list_ l (a, h))) /\
  request_view <$> h_jobs (snd (list_ l (a, h))) = request_view <$> h_jobs h.
Proof.
  induction l as [|sg l IH]; intros a h Hnone; [simpl; auto|].
  rewrite select_and_set_list_cons.
  pose proof (select_and_set_node_fini sg a h Hnone) as [Hf Hr].
  pose proof (select_and_set_node_step E job_ptr job_res tres_mc_ptr sg a h)
    as [Hstep _].
  apply node_step_frame in Hstep as [_ Hview].
  destruct (node_ sg (a, h)) as [ret [a' h']]. simpl in Hf, Hr, Hview.
  destruct (ret <? 0); [simpl; auto|].
  destruct (IH a' h') as [[If Ir] Iv].
  { apply (none_by_job_view E (h_jobs h)); assumption. }
  split; [split; [congruence | auto]|]. congruence.
Qed.

Lemma node_loop_step_fini (st : select_and_set_args_t * heap) (i : nat) :
  none_by_job E (h_jobs (snd st)) ->
  same_fini (fst st) (fst (step_ st i)) /\
  request_view <$> h_jobs (snd (step_ st i)) = request_view <$> h_jobs (snd st).
Proof.
  destruct st as [a h]. intros Hnone. unfold node_loop_step. simpl in Hnone.
  destruct (negb (eq_rc (rc a) SLURM_SUCCESS)); [simpl; auto|].
  match goal with
  | |- context [list_ ?l (?a0, h)] =>
      pose proof (select_and_set_list_fini l a0 h Hnone) as [[Hf Hr] Hv];
      destruct (list_ l (a0, h)) as [a' h']
  end.
  simpl in *. auto.
Qed.

Lemma node_loop_fini (nodes : list nat) : forall st,
  none_by_job E (h_jobs (snd st)) ->
  same_fini (fst st) (fst (foldl step_ st nodes)).
Proof.
  induction nodes as [|i nodes IH]; intros st Hnone; [simpl; auto|].
  simpl. destruct (node_loop_step_fini st i Hnone) as [[Hf Hr] Hv].
  destruct (IH (step_ st i)) as [If Ir].
  { apply (none_by_job_view E (h_jobs (snd st))); assumption. }
  split; [congruence | auto].
Qed.

End needs_per_job.

(** X24: When no request of the job is handed over to [_set_job_bits1], that
    is when every request is of a shared kind, or has a count per node,
    socket or task, or has no count per job, the selection runs no second
    pass: it never returns ESLURM_NODE_NOT_AVAIL, and the memory it leaves
    is that of the loop over the nodes. *)
Theorem select_and_set_needs_per_job (E : slurm_env)
    (sock_gres_list : list (list sock_gres_t)) (job_ptr : job_record)
    (job_res : job_resources) (tres_mc_ptr : option gres_mc_data)
    (bm : bitstr) (h : heap) :
  none_by_job E (h_jobs h) ->
  job_resrcs job_ptr = Some job_res -> node_bitmap job_res = Some bm ->
  let r := gres_select_filter_select_and_set E sock_gres_list job_ptr tres_mc_ptr
             h in
  let first_pass :=
    foldl (node_loop_step E sock_gres_list job_ptr job_res tres_mc_ptr)
      ({| job_node_inx := 0; job_fini := -1; node_inx := 0%nat;
          rc := SLURM_SUCCESS; rem_node_cnt := bit_set_count bm;
          args_sock_cnt := 0; tasks_per_node_socket := None;
          used_cores_on_sock := None; used_core_cnt := 0;
          used_sock_cnt := 0 |}, h) (set_bits bm) in
  fst r <> ESLURM_NODE_NOT_AVAIL /\ r = (rc (fst first_pass), snd first_pass).
Proof.
  intros Hnone Hres Hbm. cbv zeta.
  unfold gres_select_filter_select_and_set. rewrite Hres, Hbm.
  unfold select_and_set_nodes.
  match goal with
  | |- context [foldl ?f ?st0 ?l] =>
      pose proof (node_loop_fini E sock_gres_list job_ptr job_res tres_mc_ptr l
                    st0 Hnone) as [Hf Hr];
      destruct (foldl f st0 l) as [a1 h1]
  end.
  simpl in Hf, Hr. rewrite Hf. simpl.
  split; [apply Hr; discriminate | reflexivity].
Qed.

(** ** The return value of [_set_job_bits1] where it is called *)

(** The first node the loop of lines 1617-1641 visits is the one
    [bit_ffs] gives, with which line 1494 compares node_inx. *)
Lemma set_bits_first_ffs (bm : bitstr) (i : nat) :
  set_bits bm !! 0%nat = Some i -> Z.of_nat i = bit_ffs bm.
Proof.
  unfold set_bits, bit_ffs.
  assert (H : forall b k, set_bits_from b k !! 0%nat = Some i ->
                          Z.of_nat i = ffs_from b (Z.of_nat k)).
  { induction b as [|x b IH]; intros k Hk; simpl in *; [discriminate|].
    destruct x; simpl in Hk; [congruence|].
    rewrite (IH (S k) Hk). f_equal. lia. }
  intros Hi. exact (H bm 0%nat Hi).
Qed.

(** The pickers keep the size of the bitmap of the node. *)
Lemma picks_keep_length (ns : gres_node_state) (n : nat) (len : nat) :
  kept_by_picks ns n (fun js => length (bit_select_at js n) = len).
Proof.
  split.
  - intros js g Hjs _ _ _. rewrite take_bit_length. exact Hjs.
  - intros js g Hjs _.
    destruct (drop_bit_select n g js) as [H|H]; rewrite H; [|exact Hjs].
    unfold bit_clear. rewrite length_insert. exact Hjs.
  - intros js v Hjs _. exact Hjs.
Qed.

(** Lines 1532-1561: a request is handed to [_set_job_bits1] when it is of
    a kind that is not shared and has a count per job and none per node,
    socket or task; job_fini takes the return value unless it is 0. *)
Lemma dispatch_pick_by_job (E : slurm_env) (job_ptr : job_record)
    (tres_mc_ptr : option gres_mc_data) (sg : sock_gres_t)
    (gsj : gres_state_t gres_job_state) (gsn : gres_state_t gres_node_state)
    (ns : gres_node_state) (a : select_and_set_args_t) (js : gres_job_state) :
  picks_by_job E gsj js = true ->
  gres_per_job js <> 0 /\
  dispatch_pick E job_ptr tres_mc_ptr sg gsj gsn ns a js
  = (let r := _set_job_bits1 E (node_inx a) (job_node_inx a) (rem_node_cnt a) sg
                ns tres_mc_ptr (tpc (node_record_table_ptr E (node_inx a)))
                (default [] (used_cores_on_sock a)) (used_core_cnt a) js in
     (if negb (job_fini a =? 0) then set_job_fini (fst r) a else a, snd r)).
Proof.
  unfold picks_by_job, dispatch_pick. intros H.
  repeat (apply andb_prop in H as [H ?]).
  repeat match goal with
         | H : negb _ = true |- _ => apply negb_true_iff in H
         end.
  split.
  { intros Hz. unfold nz in *. rewrite Hz in *. discriminate. }
  repeat match goal with
         | H : _ = false |- _ => rewrite H
         | H : _ = true |- _ => rewrite H
         end.
  cbv zeta. destruct (_set_job_bits1 _ _ _ _ _ _ _ _ _ _ _). reflexivity.
Qed.

(** What lines 1484-1530 leave of a job state with gres_per_job, when
    node [n] is visited as the [job_node_inx]-th of the job and
    [first_node] is the outcome of the test of line 1494, is a state as
    [_set_job_bits1] is called on. *)
Lemma first_pass_hands_over (ns : gres_node_state) (N n : nat)
    (first_node : bool) (job_node_inx : Z) (js : gres_job_state) :
  Z.of_nat N < 2 ^ 32 -> (n < N)%nat -> job_state_ok N js ->
  gres_per_job js <> 0 ->
  (job_node_inx = 0 -> first_node = true) ->
  total_gres js + Z.of_nat (length (bit_alloc (_get_gres_node_cnt ns))) < 2 ^ 64 ->
  handed_to_job_bits1 n job_node_inx
    (init_bit_select (Z.of_nat N) (_get_gres_node_cnt ns) n
       (init_node_select (Z.of_nat N) first_node js)).
Proof.
  intros HN Hn Hjs Hpj Hfirst Hroom.
  pose proof (init_select_fresh ns N first_node (_get_gres_node_cnt ns) n js
                HN Hn Hjs) as H.
  cbv zeta in H. destruct H as (_ & Hb & Hc & Hsel & Hcnt & _).
  pose proof (init_node_select_fields (Z.of_nat N) first_node js)
    as (Hreq & _ & _ & _ & Htot).
  assert (Hkeep : forall js3,
            gres_per_job (init_bit_select (Z.of_nat N) (_get_gres_node_cnt ns) n js3)
            = gres_per_job js3 /\
            total_gres (init_bit_select (Z.of_nat N) (_get_gres_node_cnt ns) n js3)
            = total_gres js3).
  { intros js3. unfold init_bit_select.
    destruct (gres_bit_select js3); split; reflexivity. }
  destruct (Hkeep (init_node_select (Z.of_nat N) first_node js)) as [Hk1 Hk2].
  set (js5 := init_bit_select _ _ _ _) in *.
  assert (Hlen : Z.of_nat (length (bit_select_at js5 n)) < 2 ^ 31).
  { rewrite Hsel. unfold bit_alloc. rewrite length_replicate.
    pose proof (get_gres_node_cnt_range ns). lia. }
  assert (Ht5 : total_gres js5
                = if first_node || (total_node_cnt js =? 0) then 0
                  else total_gres js) by congruence.
  assert (Hjs0 : 0 <= total_gres js) by apply Hjs.
  split.
  { split; [exact Hb|]. split; [exact Hc|]. split; [lia|].
    rewrite Hsel, Hcnt. unfold bit_set_count, bit_alloc.
    rewrite popcount_replicate. reflexivity. }
  split; [exact Hcnt|]. split; [exact Hlen|].
  split; [unfold request_of in Hreq; congruence|].
  split; [intros H0; rewrite Ht5, (Hfirst H0); reflexivity|].
  rewrite Ht5, Hsel.
  destruct (first_node || (total_node_cnt js =? 0)); split; lia.
Qed.

(** C7: on the job states it is called on, [_set_job_bits1] returns fini = 1
    if and only if, when it returns, total_gres is greater than or equal to
    gres_per_job. *)
Theorem set_job_bits1_fini_reached (E : slurm_env) (n : nat)
    (job_node_inx rem_nodes : Z) (sg : sock_gres_t) (ns : gres_node_state)
    (tres_mc_ptr : option gres_mc_data) (cpus_per_core : Z)
    (cores_on_sock : list Z) (total_cores : Z) (js : gres_job_state) :
  handed_to_job_bits1 n job_node_inx js ->
  fini_iff_total_reached E n job_node_inx rem_nodes sg ns tres_mc_ptr
    cpus_per_core cores_on_sock total_cores js.
Proof.
  intros (Hjs & Hc0 & Hlen & Hpj & Hfirst & Ht0 & Hroom).
  unfold fini_iff_total_reached. cbv zeta.
  pose proof (set_job_bits1_fini_iff E n job_node_inx rem_nodes sg ns tres_mc_ptr
                cpus_per_core cores_on_sock total_cores js) as H.
  cbv zeta in H. destruct H as [Hreq Hfini].
  pose proof (set_job_bits1_counted E n job_node_inx rem_nodes sg ns tres_mc_ptr
                cpus_per_core cores_on_sock total_cores js Hjs Hlen) as H.
  cbv zeta in H. destruct H as [Hbc Htot].
  pose proof (set_job_bits1_kept E ns n _
                (picks_keep_length ns n (length (bit_select_at js n)))
                job_node_inx rem_nodes sg tres_mc_ptr cpus_per_core cores_on_sock
                total_cores js eq_refl) as Hsize.
  simpl in Hsize.
  set (r := _set_job_bits1 E n job_node_inx rem_nodes sg ns tres_mc_ptr
              cpus_per_core cores_on_sock total_cores js) in *.
  rewrite Hreq, Hfini.
  split; [intros [H|H]; [exact H|] | intros H; left; exact H].
  destruct (Z.eqb_spec job_node_inx 0) as [Hz|Hnz].
  { specialize (Hfirst Hz). lia. }
  assert (Hcnt : 0 <= cnt_node_select_at (snd r) n
                 <= Z.of_nat (length (bit_select_at js n))).
  { destruct Hbc as (_ & _ & _ & Hcount). rewrite <- Hcount, <- Hsize.
    unfold bit_set_count.
    pose proof (popcount_le (bit_select_at (snd r) n)). lia. }
  rewrite Htot, Hc0, u64_small by lia. lia.
Qed.

(** * Worked cases of the further properties *)

(** ** Worked cases of the pickers *)

Ltac slots :=
  repeat match goal with
         | |- _ /\ _ => split
         | |- has_bit_slot _ _ => eexists; split; [reflexivity | simpl; lia]
         | |- has_cnt_slot _ _ => eexists; split; [reflexivity | simpl; lia]
         | |- has_per_bit_slot _ _ => eexists; split; [reflexivity | simpl; lia]
         end.

Lemma bits_counted_on_node r total sel :
  Z.of_nat (length sel) < 2 ^ 64 ->
  bits_counted (on_node r total sel (bit_set_count sel) []) 0.
Proof. intros H. unfold bits_counted. slots; [exact H | reflexivity]. Qed.

Lemma pick_gres_topo_counts_witness :
  bits_counted (ps_js (no_links (on_node (request 0 2 0 0) 0 [false; false] 0 []))) 0 /\
  sorted_ok 0 (no_links (on_node (request 0 2 0 0) 0 [false; false] 0 [])) /\
  let r := _pick_gres_topo two_units_request two_units 1 0 0
             (no_links (on_node (request 0 2 0 0) 0 [false; false] 0 [])) in
  bits_counted (ps_js (snd r)) 0 /\ 0 <= fst r <= u64 1 /\
  cnt_node_select_at (ps_js (snd r)) 0
  = cnt_node_select_at
      (ps_js (no_links (on_node (request 0 2 0 0) 0 [false; false] 0 []))) 0
    + fst r /\
  bit_set_count (bit_select_at (ps_js (snd r)) 0)
  = bit_set_count
      (bit_select_at
         (ps_js (no_links (on_node (request 0 2 0 0) 0 [false; false] 0 []))) 0)
    + fst r.
Proof.
  assert (H1 : bits_counted
                 (ps_js (no_links (on_node (request 0 2 0 0) 0 [false; false] 0 []))) 0)
    by (apply (bits_counted_on_node _ 0 [false; false]); simpl; lia).
  split; [exact H1|]. split; [exact I|].
  apply (pick_gres_topo_counts two_units_request two_units 1 0 0 _ H1 I).
Defined.

Lemma pick_gres_topo_on_socket_witness :
  bit_test
    (bit_select_at
       (ps_js (snd (_pick_gres_topo two_units_request two_units 1 0 0
                      (no_links (on_node (request 0 2 0 0) 0 [false; false] 0 [])))))
       0) 0 = true /\
  (bit_test
     (bit_select_at
        (ps_js (no_links (on_node (request 0 2 0 0) 0 [false; false] 0 []))) 0) 0
   = true \/
   exists sb, sock_bits_of two_units_request 0 = Some sb /\
              bit_test sb 0 = true /\
              bit_test_opt (gres_bit_alloc two_units) 0 = false).
Proof.
  split; [vm_compute; reflexivity|].
  apply (pick_gres_topo_on_socket two_units_request two_units 1 0 0
           (no_links (on_node (request 0 2 0 0) 0 [false; false] 0 [])) 0).
  vm_compute. reflexivity.
Defined.

Lemma pick_gres_topo_exhausts_witness :
  has_bit_slot
    (ps_js (no_links (on_node (request 0 2 0 0) 0 [false; false] 0 []))) 0 /\
  ps_sorted (no_links (on_node (request 0 2 0 0) 0 [false; false] 0 [])) = None /\
  sock_bits_of two_units_request 0 = Some [true; true] /\
  fst (_pick_gres_topo two_units_request one_taken 2 0 0
         (no_links (on_node (request 0 2 0 0) 0 [false; false] 0 [])))
  < u64 2 /\
  (0 < length
         (bit_select_at
            (ps_js (no_links (on_node (request 0 2 0 0) 0 [false; false] 0 [])))
            0))%nat /\
  bit_test [true; true] 0 = true /\
  (bit_test
     (bit_select_at
        (ps_js (snd (_pick_gres_topo two_units_request one_taken 2 0 0
                       (no_links
                          (on_node (request 0 2 0 0) 0 [false; false] 0 [])))))
        0) 0 = true \/
   bit_test_opt (gres_bit_alloc one_taken) 0 = true).
Proof.
  assert (H1 : has_bit_slot
                 (ps_js (no_links (on_node (request 0 2 0 0) 0 [false; false] 0 [])))
                 0) by slots.
  assert (H4 : fst (_pick_gres_topo two_units_request one_taken 2 0 0
                      (no_links (on_node (request 0 2 0 0) 0 [false; false] 0 [])))
               < u64 2) by (vm_compute; reflexivity).
  assert (H5 : (0 < length
                      (bit_select_at
                         (ps_js (no_links
                                   (on_node (request 0 2 0 0) 0 [false; false] 0 [])))
                         0))%nat) by (simpl; lia).
  split; [exact H1|]. split; [reflexivity|]. split; [reflexivity|].
  split; [exact H4|]. split; [exact H5|]. split; [reflexivity|].
  exact (pick_gres_topo_exhausts two_units_request one_taken 2 0 0 _ [true; true]
           0 H1 eq_refl eq_refl H4 H5 eq_refl).
Defined.

Lemma set_node_bits_counts_witness :
  bits_counted (on_node (request 0 2 0 0) 0 [false; false] 0 []) 0 /\
  0 <= gres_per_node (on_node (request 0 2 0 0) 0 [false; false] 0 []) < 2 ^ 31 /\
  bits_counted
    (_set_node_bits 0 two_units_request two_units [1; 0]
       (on_node (request 0 2 0 0) 0 [false; false] 0 [])) 0 /\
  cnt_node_select_at (on_node (request 0 2 0 0) 0 [false; false] 0 []) 0
  <= cnt_node_select_at
       (_set_node_bits 0 two_units_request two_units [1; 0]
          (on_node (request 0 2 0 0) 0 [false; false] 0 [])) 0
  <= cnt_node_select_at (on_node (request 0 2 0 0) 0 [false; false] 0 []) 0
     + gres_per_node (on_node (request 0 2 0 0) 0 [false; false] 0 []).
Proof.
  assert (H1 : bits_counted (on_node (request 0 2 0 0) 0 [false; false] 0 []) 0)
    by (apply (bits_counted_on_node _ 0 [false; false]); simpl; lia).
  assert (H2 : 0 <= gres_per_node
                      (on_node (request 0 2 0 0) 0 [false; false] 0 []) < 2 ^ 31)
    by (simpl; lia).
  split; [exact H1|]. split; [exact H2|].
  exact (set_node_bits_counts 0 two_units_request two_units [1; 0] _ H1 H2).
Defined.

Lemma set_sock_bits_counts_witness :
  bits_counted (on_node (request 0 0 1 0) 0 [false; false] 0 []) 0 /\
  0 <= gres_per_socket (on_node (request 0 0 1 0) 0 [false; false] 0 []) < 2 ^ 31 /\
  let js := on_node (request 0 0 1 0) 0 [false; false] 0 [] in
  let js' := _set_sock_bits 0 two_units_request two_units None [1; 0] 1 js in
  let used_sock := reshape_used_sock two_units_request two_units js None [1; 0] 1 in
  bits_counted js' 0 /\
  cnt_node_select_at js 0 <= cnt_node_select_at js' 0
  <= cnt_node_select_at js 0
     + gres_per_socket js
       * Z.of_nat (nonzero_socks used_sock
                     (Z.to_nat (u16 (sock_cnt two_units_request)))).
Proof.
  assert (H1 : bits_counted (on_node (request 0 0 1 0) 0 [false; false] 0 []) 0)
    by (apply (bits_counted_on_node _ 0 [false; false]); simpl; lia).
  assert (H2 : 0 <= gres_per_socket
                      (on_node (request 0 0 1 0) 0 [false; false] 0 []) < 2 ^ 31)
    by (simpl; lia).
  split; [exact H1|]. split; [exact H2|].
  exact (set_sock_bits_counts 0 two_units_request two_units None [1; 0] 1 _ H1 H2).
Defined.

Lemma set_task_bits_counts_witness :
  bits_counted (on_node (request 0 0 0 1) 0 [false; false] 0 []) 0 /\
  u64 (_get_task_cnt_node (Some [1; 0]) (u16 (sock_cnt two_units_request))
       * gres_per_task (on_node (request 0 0 0 1) 0 [false; false] 0 []))
  < 2 ^ 31 /\
  bits_counted
    (_set_task_bits 0 two_units_request two_units (Some [1; 0])
       (on_node (request 0 0 0 1) 0 [false; false] 0 [])) 0 /\
  cnt_node_select_at (on_node (request 0 0 0 1) 0 [false; false] 0 []) 0
  <= cnt_node_select_at
       (_set_task_bits 0 two_units_request two_units (Some [1; 0])
          (on_node (request 0 0 0 1) 0 [false; false] 0 [])) 0
  <= cnt_node_select_at (on_node (request 0 0 0 1) 0 [false; false] 0 []) 0
     + u64 (_get_task_cnt_node (Some [1; 0]) (u16 (sock_cnt two_units_request))
            * gres_per_task (on_node (request 0 0 0 1) 0 [false; false] 0 [])).
Proof.
  assert (H1 : bits_counted (on_node (request 0 0 0 1) 0 [false; false] 0 []) 0)
    by (apply (bits_counted_on_node _ 0 [false; false]); simpl; lia).
  assert (H2 : u64 (_get_task_cnt_node (Some [1; 0])
                      (u16 (sock_cnt two_units_request))
                    * gres_per_task
                        (on_node (request 0 0 0 1) 0 [false; false] 0 []))
               < 2 ^ 31) by (vm_compute; reflexivity).
  split; [exact H1|]. split; [exact H2|].
  exact (set_task_bits_counts 0 two_units_request two_units (Some [1; 0]) _ H1 H2).
Defined.

Lemma set_job_bits1_counts_witness :
  bits_counted (on_node (request 2 0 0 0) 0 [false; false] 0 []) 0 /\
  Z.of_nat (length (bit_select_at
                      (on_node (request 2 0 0 0) 0 [false; false] 0 []) 0))
  < 2 ^ 31 /\
  let js := on_node (request 2 0 0 0) 0 [false; false] 0 [] in
  let r := _set_job_bits1 env0 0 0 1 two_units_request two_units None 1 [1; 0] 1
             js in
  bits_counted (snd r) 0 /\
  total_gres (snd r)
  = u64 ((if 0 =? 0 then 0 else total_gres js)
         + (cnt_node_select_at (snd r) 0 - cnt_node_select_at js 0)).
Proof.
  assert (H1 : bits_counted (on_node (request 2 0 0 0) 0 [false; false] 0 []) 0)
    by (apply (bits_counted_on_node _ 0 [false; false]); simpl; lia).
  assert (H2 : Z.of_nat (length (bit_select_at
                 (on_node (request 2 0 0 0) 0 [false; false] 0 []) 0)) < 2 ^ 31)
    by (simpl; lia).
  split; [exact H1|]. split; [exact H2|].
  exact (set_job_bits1_counts env0 0 0 1 two_units_request two_units None 1 [1; 0]
           1 _ H1 H2).
Defined.

Lemma set_job_bits2_counts_witness :
  (total_gres (on_node (request 2 0 0 0) 0 [false; false] 0 [])
   < gres_per_job (on_node (request 2 0 0 0) 0 [false; false] 0 []) ->
   is_null (bit_select_ptr (on_node (request 2 0 0 0) 0 [false; false] 0 []) 0)
   = false ->
   bits_counted (on_node (request 2 0 0 0) 0 [false; false] 0 []) 0 /\
   0 <= total_gres (on_node (request 2 0 0 0) 0 [false; false] 0 []) /\
   gres_per_job (on_node (request 2 0 0 0) 0 [false; false] 0 [])
   - total_gres (on_node (request 2 0 0 0) 0 [false; false] 0 []) < 2 ^ 31 /\
   gres_per_job (on_node (request 2 0 0 0) 0 [false; false] 0 []) < 2 ^ 64) /\
  let js := on_node (request 2 0 0 0) 0 [false; false] 0 [] in
  let r := _set_job_bits2 0 two_units_request two_units js in
  (gres_per_job js <= total_gres js \/ is_null (bit_select_ptr js 0) = true ->
   snd r = js) /\
  (bits_counted js 0 -> bits_counted (snd r) 0) /\
  gres_per_job (snd r) = gres_per_job js /\
  cnt_node_select_at js 0 <= cnt_node_select_at (snd r) 0 /\
  total_gres (snd r) - total_gres js
  = cnt_node_select_at (snd r) 0 - cnt_node_select_at js 0 /\
  total_gres (snd r) <= Z.max (gres_per_job js) (total_gres js) /\
  fst r = (if gres_per_job js <=? total_gres (snd r) then 1
           else if is_null (bit_select_ptr js 0) then -1 else 0).
Proof.
  assert (H1 : bits_counted (on_node (request 2 0 0 0) 0 [false; false] 0 []) 0)
    by (apply (bits_counted_on_node _ 0 [false; false]); simpl; lia).
  assert (H : total_gres (on_node (request 2 0 0 0) 0 [false; false] 0 [])
              < gres_per_job (on_node (request 2 0 0 0) 0 [false; false] 0 []) ->
              is_null (bit_select_ptr
                         (on_node (request 2 0 0 0) 0 [false; false] 0 []) 0)
              = false ->
              bits_counted (on_node (request 2 0 0 0) 0 [false; false] 0 []) 0 /\
              0 <= total_gres (on_node (request 2 0 0 0) 0 [false; false] 0 []) /\
              gres_per_job (on_node (request 2 0 0 0) 0 [false; false] 0 [])
              - total_gres (on_node (request 2 0 0 0) 0 [false; false] 0 [])
              < 2 ^ 31 /\
              gres_per_job (on_node (request 2 0 0 0) 0 [false; false] 0 [])
              < 2 ^ 64).
  { intros _ _. split; [exact H1|]. simpl. lia. }
  split; [exact H|].
  exact (set_job_bits2_counts 0 two_units_request two_units _ H).
Defined.

(** A request of two units none of which is counted in total_gres, with a
    count of 1 for the node: without the array gres_bit_select, and with
    the array but no bitmap for the node, [_set_job_bits2] returns -1 and
    writes nothing. *)
Lemma set_job_bits2_without_bitmap :
  let no_array := set_gres_cnt_node_select (Some [1]) (request 2 0 0 0) in
  let no_entry := set_gres_bit_select (Some [None]) no_array in
  cnt_node_select_at no_array 0 = 1 /\ cnt_node_select_at no_entry 0 = 1 /\
  gres_bit_select no_array = None /\ gres_bit_select no_entry = Some [None] /\
  _set_job_bits2 0 two_units_request two_units no_array = (-1, no_array) /\
  _set_job_bits2 0 two_units_request two_units no_entry = (-1, no_entry).
Proof. vm_compute. repeat split; reflexivity. Qed.

Lemma shares_ok_busy_slot : shares_ok busy_slot.
Proof.
  split; [|split; [vm_compute; reflexivity | vm_compute; discriminate]].
  intros t Ht. destruct t as [|t]; [vm_compute; intuition congruence|].
  simpl in Ht. lia.
Qed.

Lemma shares_counted_busy_slot r total :
  0 <= gres_per_task r ->
  shares_counted busy_slot (on_node r total [false] 0 [0]) 0.
Proof.
  intros Hr. unfold shares_counted. slots.
  - simpl. lia.
  - intros t Ht. destruct t as [|t]; [vm_compute; intuition congruence|].
    simpl in Ht. lia.
  - reflexivity.
  - exact Hr.
Qed.

Lemma pick_shared_draws_eligible_witness :
  drawn_from 0 (on_node (request 0 1 0 0) 0 [false] 0 [0])
    (fst (_pick_shared_gres env0 busy_slot_request busy_slot [1; 0] 0 false true
            false true (on_node (request 0 1 0 0) 0 [false] 0 [0], 1))) 0 /\
  (0 < Z.to_nat (topo_cnt busy_slot))%nat /\
  exists idx sb,
    sock_bits_of busy_slot_request idx = Some sb /\
    slot_eligible busy_slot false sb (on_node (request 0 1 0 0) 0 [false] 0 [0]) 0
    = true /\
    (idx = ANY_SOCK_TEST \/
     exists s, idx = Z.of_nat s /\ (zget [1; 0] s <> 0 \/ true = false)).
Proof.
  assert (H : drawn_from 0 (on_node (request 0 1 0 0) 0 [false] 0 [0])
                (fst (_pick_shared_gres env0 busy_slot_request busy_slot [1; 0] 0
                        false true false true
                        (on_node (request 0 1 0 0) 0 [false] 0 [0], 1))) 0)
    by (left; vm_compute; discriminate).
  split; [exact H|].
  exact (pick_shared_draws_eligible env0 busy_slot_request busy_slot [1; 0] 0
           false true false true _ 1 0 H).
Defined.

Lemma pick_shared_no_repeat_witness :
  bit_test (bit_select_at (on_node (request 0 0 0 1) 0 [true] 1 [1]) 0) 0 = true /\
  zget (per_bit_select_at
          (fst (_pick_shared_gres env0 busy_slot_request busy_slot [1; 0] 0 false
                  true true true (on_node (request 0 0 0 1) 0 [true] 1 [1], 1)))
          0) 0
  = zget (per_bit_select_at (on_node (request 0 0 0 1) 0 [true] 1 [1]) 0) 0.
Proof.
  split; [reflexivity|].
  exact (pick_shared_no_repeat env0 busy_slot_request busy_slot [1; 0] 0 false
           true true (on_node (request 0 0 0 1) 0 [true] 1 [1]) 1 0 eq_refl).
Defined.

Lemma pick_shared_gres_conserves_witness :
  shares_ok busy_slot /\
  shares_counted busy_slot (on_node (request 0 1 0 0) 0 [false] 0 [0]) 0 /\
  0 <= 1 < 2 ^ 64 /\
  let js := on_node (request 0 1 0 0) 0 [false] 0 [0] in
  let r := _pick_shared_gres env0 busy_slot_request busy_slot [1; 0] 0 false true
             false true (js, 1) in
  shares_counted busy_slot (fst r) 0 /\ 0 <= snd r <= 1 /\
  cnt_node_select_at (fst r) 0 + snd r = cnt_node_select_at js 0 + 1.
Proof.
  assert (H2 : shares_counted busy_slot
                 (on_node (request 0 1 0 0) 0 [false] 0 [0]) 0)
    by (apply shares_counted_busy_slot; simpl; lia).
  assert (H3 : 0 <= 1 < 2 ^ 64) by lia.
  split; [exact shares_ok_busy_slot|]. split; [exact H2|]. split; [exact H3|].
  exact (pick_shared_gres_conserves env0 busy_slot_request busy_slot [1; 0] 0
           false true false true _ 1 shares_ok_busy_slot H2 H3).
Defined.

Lemma set_shared_node_bits_counts_witness :
  shares_ok busy_slot /\
  shares_counted busy_slot (on_node (request 0 1 0 0) 0 [false] 0 [0]) 0 /\
  0 <= gres_per_node (on_node (request 0 1 0 0) 0 [false] 0 [0]) < 2 ^ 64 /\
  let js := on_node (request 0 1 0 0) 0 [false] 0 [0] in
  let r := _set_shared_node_bits env0 0 busy_slot_request
             (node_entry 2 8 busy_slot) busy_slot true [1; 0] js in
  shares_counted busy_slot (snd r) 0 /\
  ((fst r = SLURM_SUCCESS /\
    cnt_node_select_at (snd r) 0 = cnt_node_select_at js 0 + gres_per_node js) \/
   (fst r = ESLURM_INVALID_GRES /\
    cnt_node_select_at (snd r) 0 < cnt_node_select_at js 0 + gres_per_node js)).
Proof.
  assert (H2 : shares_counted busy_slot
                 (on_node (request 0 1 0 0) 0 [false] 0 [0]) 0)
    by (apply shares_counted_busy_slot; simpl; lia).
  assert (H3 : 0 <= gres_per_node (on_node (request 0 1 0 0) 0 [false] 0 [0])
               < 2 ^ 64) by (simpl; lia).
  split; [exact shares_ok_busy_slot|]. split; [exact H2|]. split; [exact H3|].
  exact (set_shared_node_bits_counts env0 0 busy_slot_request
           (node_entry 2 8 busy_slot) busy_slot true [1; 0] _
           shares_ok_busy_slot H2 H3).
Defined.

Lemma set_shared_task_bits_counts_witness :
  shares_ok busy_slot /\
  shares_counted busy_slot (on_node (request 0 0 0 1) 0 [false] 0 [0]) 0 /\
  Forall (fun t => 0 <= t) [2; 0] /\
  tasks_on_sockets [2; 0] (sock_cnt busy_slot_request) < 2 ^ 32 /\
  0 <= gres_per_task (on_node (request 0 0 0 1) 0 [false] 0 [0]) < 2 ^ 64 /\
  gres_per_task (on_node (request 0 0 0 1) 0 [false] 0 [0])
  * tasks_on_sockets [2; 0] (sock_cnt busy_slot_request) < 2 ^ 64 /\
  let js := on_node (request 0 0 0 1) 0 [false] 0 [0] in
  let tasks := tasks_on_sockets [2; 0] (sock_cnt busy_slot_request) in
  let r := _set_shared_task_bits env0 0 busy_slot_request
             (node_entry 2 8 busy_slot) busy_slot true false (Some [2; 0]) js in
  shares_counted busy_slot (snd r) 0 /\
  ((fst r = SLURM_SUCCESS /\
    cnt_node_select_at (snd r) 0
    = cnt_node_select_at js 0 + gres_per_task js * tasks) \/
   (fst r = ESLURM_INVALID_GRES /\
    cnt_node_select_at (snd r) 0
    < cnt_node_select_at js 0 + gres_per_task js * tasks)).
Proof.
  assert (H2 : shares_counted busy_slot
                 (on_node (request 0 0 0 1) 0 [false] 0 [0]) 0)
    by (apply shares_counted_busy_slot; simpl; lia).
  assert (H3 : Forall (fun t => 0 <= t) [2; 0]) by (repeat constructor; lia).
  assert (H4 : tasks_on_sockets [2; 0] (sock_cnt busy_slot_request) < 2 ^ 32)
    by (vm_compute; reflexivity).
  assert (H5 : 0 <= gres_per_task (on_node (request 0 0 0 1) 0 [false] 0 [0])
               < 2 ^ 64) by (simpl; lia).
  assert (H6 : gres_per_task (on_node (request 0 0 0 1) 0 [false] 0 [0])
               * tasks_on_sockets [2; 0] (sock_cnt busy_slot_request) < 2 ^ 64)
    by (vm_compute; reflexivity).
  split; [exact shares_ok_busy_slot|]. split; [exact H2|]. split; [exact H3|].
  split; [exact H4|]. split; [exact H5|]. split; [exact H6|].
  exact (set_shared_task_bits_counts env0 0 busy_slot_request
           (node_entry 2 8 busy_slot) busy_slot true false [2; 0] _
           shares_ok_busy_slot H2 H3 H4 H5 H6).
Defined.

(** ** Worked cases of the helpers *)

Lemma drop_low_socks_clears_witness :
  (2 < 3)%nat /\ (0 < 2)%nat /\
  us_used_sock_cnt two_of_three < 3 /\
  Z.of_nat (nonzero_socks (us_used_sock two_of_three) 2)
  <= us_used_sock_cnt two_of_three < 2 ^ 32 /\
  zget (us_used_sock (drop_low_socks 3 3 2 two_of_three)) 0 = 0 /\
  drop_low_socks 3 3 2 two_of_three = drop_low_socks (S 2) 3 2 two_of_three.
Proof.
  assert (H1 : (2 < 3)%nat) by lia.
  assert (H2 : (0 < 2)%nat) by lia.
  assert (H3 : us_used_sock_cnt two_of_three < 3) by (simpl; lia).
  assert (H4 : Z.of_nat (nonzero_socks (us_used_sock two_of_three) 2)
               <= us_used_sock_cnt two_of_three < 2 ^ 32)
    by (vm_compute; split; [discriminate | reflexivity]).
  split; [exact H1|]. split; [exact H2|]. split; [exact H3|]. split; [exact H4|].
  exact (drop_low_socks_clears 3 2 3 two_of_three 0 H1 H2 H3 H4).
Defined.

Lemma update_and_sort_by_links_order_witness :
  (forall l, - 2 ^ 30 <= zget [0; 0] l < 2 ^ 30) /\
  (forall l, - 2 ^ 30 <= zget [0; 0] l + link_at linked_units 0 l < 2 ^ 30) /\
  let r := _update_and_sort_by_links [0; 1]%nat [0; 0] 0 2 linked_units in
  [0; 1]%nat ≡ₚ fst r /\
  StronglySorted (fun x y => zget (snd r) x <= zget (snd r) y) (fst r) /\
  length (snd r) = length [0; 0] /\
  forall l,
    zget (snd r) l
    = if (l <? 2)%nat && (l <? length [0; 0])%nat &&
         negb ((l =? 0)%nat || bit_test_opt (gres_bit_alloc linked_units) l)
      then zget [0; 0] l + link_at linked_units 0 l
      else zget [0; 0] l.
Proof.
  assert (H1 : forall l, - 2 ^ 30 <= zget [0; 0] l < 2 ^ 30).
  { intros [|[|l]]; vm_compute; split; discriminate || reflexivity. }
  assert (H2 : forall l, - 2 ^ 30 <= zget [0; 0] l + link_at linked_units 0 l
                         < 2 ^ 30).
  { intros [|[|l]]; vm_compute; split; discriminate || reflexivity. }
  split; [exact H1|]. split; [exact H2|].
  exact (update_and_sort_by_links_order [0; 1]%nat [0; 0] 0 2 linked_units H1 H2).
Defined.

Lemma build_avail_cores_by_sock_flags_witness :
  (0 < Z.to_nat 2)%nat /\
  let avail := _build_avail_cores_by_sock [false; true; false; false] 2 2 in
  let has_core :=
    exists c, (c < Z.to_nat 2)%nat /\
              bit_test [false; true; false; false] (0 * Z.to_nat 2 + c) = true in
  length avail = Z.to_nat 2 /\
  (avail !! 0%nat = Some true -> has_core) /\
  ((Z.to_nat 2 * Z.to_nat 2 <= length [false; true; false; false])%nat ->
   has_core -> avail !! 0%nat = Some true).
Proof.
  assert (H : (0 < Z.to_nat 2)%nat) by (simpl; lia).
  split; [exact H|].
  exact (build_avail_cores_by_sock_flags [false; true; false; false] 2 2 0 H).
Defined.

Lemma set_used_cnts_counts_witness :
  used_core_cnt first_visit = 0 /\ used_sock_cnt first_visit = 0 /\
  get_job_resources_cnt env0 two_socket_resources (job_node_inx first_visit)
  = Some (2, 2) /\
  0 <= get_job_resources_offset env0 two_socket_resources
         (job_node_inx first_visit) /\
  get_job_resources_offset env0 two_socket_resources (job_node_inx first_visit)
  + u16 2 * u16 2 < 2 ^ 31 /\
  bit_size (default [] (core_bitmap two_socket_resources)) < 2 ^ 31 /\
  let r := _set_used_cnts env0 two_socket_resources first_visit in
  let off := get_job_resources_offset env0 two_socket_resources
               (job_node_inx first_visit) in
  let cores :=
    map (fun s => bit_set_count_range
                    (default [] (core_bitmap two_socket_resources))
                    (off + Z.of_nat s * u16 2)
                    (off + Z.of_nat s * u16 2 + u16 2))
        (seq 0 (Z.to_nat (u16 2))) in
  args_sock_cnt (snd r) = u16 2 /\
  used_cores_on_sock (snd r) = Some cores /\
  used_core_cnt (snd r) = u32 (zsum cores) /\
  used_sock_cnt (snd r) = Z.of_nat (length (List.filter nz cores)) /\
  fst r = (if used_sock_cnt (snd r) =? 0 then SLURM_ERROR else SLURM_SUCCESS).
Proof.
  assert (H4 : 0 <= get_job_resources_offset env0 two_socket_resources
                      (job_node_inx first_visit)) by (vm_compute; discriminate).
  assert (H5 : get_job_resources_offset env0 two_socket_resources
                 (job_node_inx first_visit) + u16 2 * u16 2 < 2 ^ 31)
    by (vm_compute; reflexivity).
  assert (H6 : bit_size (default [] (core_bitmap two_socket_resources)) < 2 ^ 31)
    by (vm_compute; reflexivity).
  split; [reflexivity|]. split; [reflexivity|]. split; [reflexivity|].
  split; [exact H4|]. split; [exact H5|]. split; [exact H6|].
  exact (set_used_cnts_counts env0 two_socket_resources first_visit 2 2
           eq_refl eq_refl eq_refl H4 H5 H6).
Defined.

(** ** Worked cases of the filter *)

Lemma remove_unusable_avail_gpus_witness :
  gres_select_filter_remove_unusable env0 capped_jobs (Some [capped_request])
    (NO_VAL64 env0) 2 false (Some [true]) 1 1 1 (NO_VAL env0) (NO_VAL16 env0)
    1 false = Some capped_passed /\
  f_rc capped_passed = 0 /\
  f_avail_gpus capped_passed
  = u16 (zsum (map total_cnt
                 (filter (fun sg => is_sharing env0 capped_jobs sg = true)
                    (f_list capped_passed)))).
Proof.
  assert (H1 : gres_select_filter_remove_unusable env0 capped_jobs
                 (Some [capped_request]) (NO_VAL64 env0) 2 false (Some [true])
                 1 1 1 (NO_VAL env0) (NO_VAL16 env0) 1 false = Some capped_passed)
    by (vm_compute; reflexivity).
  split; [exact H1|]. split; [reflexivity|].
  exact (remove_unusable_avail_gpus env0 capped_jobs (NO_VAL64 env0) 2 false
           [true] 1 1 1 (NO_VAL env0) (NO_VAL16 env0) 1 false [capped_request]
           capped_passed H1 eq_refl).
Defined.

Lemma remove_unusable_per_node_cap_witness :
  false = false /\
  capped_jobs !! gres_state_job capped_request
  = Some (job_entry 1 0 (request 0 2 0 0)) /\
  gres_data (job_entry 1 0 (request 0 2 0 0)) = Some (request 0 2 0 0) /\
  0 < gres_per_node (request 0 2 0 0) /\
  0 <= gres_per_job (request 0 2 0 0) /\
  0 <= max_node_gres capped_request /\
  0 <= NO_VAL64 env0 /\
  0 <= mem_per_gres (request 0 2 0 0) /\
  0 <= def_mem_per_gres (request 0 2 0 0) /\
  passes env0 capped_jobs (NO_VAL64 env0) 2 false [true] 1 1 1 (NO_VAL env0)
    (NO_VAL16 env0) 1 false capped_request (set_max_node_gres 2 capped_request) /\
  max_node_gres (set_max_node_gres 2 capped_request)
  = gres_per_node (request 0 2 0 0) /\
  gres_per_node (request 0 2 0 0)
  <= total_cnt (set_max_node_gres 2 capped_request).
Proof.
  assert (H4 : 0 < gres_per_node (request 0 2 0 0)) by (simpl; lia).
  assert (H5 : 0 <= gres_per_job (request 0 2 0 0)) by (simpl; lia).
  assert (H6 : 0 <= max_node_gres capped_request) by (simpl; lia).
  assert (H7 : 0 <= NO_VAL64 env0) by (vm_compute; discriminate).
  assert (H8 : 0 <= mem_per_gres (request 0 2 0 0)) by (simpl; lia).
  assert (H9 : 0 <= def_mem_per_gres (request 0 2 0 0)) by (simpl; lia).
  assert (H10 : passes env0 capped_jobs (NO_VAL64 env0) 2 false [true] 1 1 1
                  (NO_VAL env0) (NO_VAL16 env0) 1 false capped_request
                  (set_max_node_gres 2 capped_request)).
  { exists (job_entry 1 0 (request 0 2 0 0)), (request 0 2 0 0), 4.
    split; [reflexivity|]. split; [reflexivity|]. vm_compute. reflexivity. }
  split; [reflexivity|]. split; [reflexivity|]. split; [reflexivity|].
  split; [exact H4|]. split; [exact H5|]. split; [exact H6|]. split; [exact H7|].
  split; [exact H8|]. split; [exact H9|]. split; [exact H10|].
  exact (remove_unusable_per_node_cap env0 capped_jobs (NO_VAL64 env0) 2 false
           [true] 1 1 1 (NO_VAL env0) (NO_VAL16 env0) 1 false capped_request
           (set_max_node_gres 2 capped_request) _ _ eq_refl eq_refl eq_refl
           H4 H5 H6 H7 H8 H9 H10).
Defined.

Lemma remove_unusable_binding_prune_witness :
  true = true /\ sock_gres_ok bound_request /\
  cnt_by_sock bound_request = Some [2; 2] /\
  passes env0 capped_jobs (NO_VAL64 env0) 2 true [false; true] 2 1 1
    (NO_VAL env0) (NO_VAL16 env0) 1 false bound_request bound_pruned /\
  total_cnt bound_pruned <= post_prune_cnt [false; true] 2 1 bound_request /\
  exists c',
    cnt_by_sock bound_pruned = Some c' /\ length c' = length [2; 2] /\
    forall s, zget c' s
              = if (s <? Z.to_nat 2)%nat
                   && negb (sock_has_core [false; true] 2 1 s)
                then 0 else zget [2; 2] s.
Proof.
  assert (H2 : sock_gres_ok bound_request).
  { repeat split; simpl; try lia. repeat constructor; lia. }
  assert (H4 : passes env0 capped_jobs (NO_VAL64 env0) 2 true [false; true] 2 1 1
                 (NO_VAL env0) (NO_VAL16 env0) 1 false bound_request bound_pruned).
  { exists (job_entry 1 0 (request 0 2 0 0)), (request 0 2 0 0), 2.
    split; [reflexivity|]. split; [reflexivity|]. vm_compute. reflexivity. }
  split; [reflexivity|]. split; [exact H2|]. split; [reflexivity|].
  split; [exact H4|].
  exact (remove_unusable_binding_prune env0 capped_jobs (NO_VAL64 env0) 2 true
           [false; true] 2 1 1 (NO_VAL env0) (NO_VAL16 env0) 1 false bound_request
           bound_pruned [2; 2] eq_refl H2 eq_refl H4).
Defined.

(** ** A worked case of the selection *)

Lemma select_and_set_needs_per_job_witness :
  none_by_job env_ll (h_jobs ll_heap) /\
  job_resrcs ll_job = Some ll_resources /\
  node_bitmap ll_resources = Some [true] /\
  let r := gres_select_filter_select_and_set env_ll [[ll_request]] ll_job None
             ll_heap in
  let first_pass :=
    foldl (node_loop_step env_ll [[ll_request]] ll_job ll_resources None)
      ({| job_node_inx := 0; job_fini := -1; node_inx := 0%nat;
          rc := SLURM_SUCCESS; rem_node_cnt := bit_set_count [true];
          args_sock_cnt := 0; tasks_per_node_socket := None;
          used_cores_on_sock := None; used_core_cnt := 0;
          used_sock_cnt := 0 |}, ll_heap) (set_bits [true]) in
  fst r <> ESLURM_NODE_NOT_AVAIL /\ r = (rc (fst first_pass), snd first_pass).
Proof.
  assert (H1 : none_by_job env_ll (h_jobs ll_heap)).
  { intros gs js Hin Hd.
    apply elem_of_cons in Hin as [Heq | Hin]; [subst | inversion Hin].
    reflexivity. }
  split; [exact H1|]. split; [reflexivity|]. split; [reflexivity|].
  exact (select_and_set_needs_per_job env_ll [[ll_request]] ll_job ll_resources
           None [true] ll_heap H1 eq_refl eq_refl).
Defined.

Lemma remove_unusable_resource_caps_witness :
  costly_jobs !! gres_state_job capped_request
  = Some (job_entry 1 0 costly_request) /\
  gres_data (job_entry 1 0 costly_request) = Some costly_request /\
  0 <= gres_per_node costly_request /\ 0 <= gres_per_job costly_request /\
  0 <= max_node_gres capped_request /\ 0 <= 10 /\
  0 <= mem_per_gres costly_request /\ 0 <= def_mem_per_gres costly_request /\
  passes env0 costly_jobs 10 4 false [true; true; true] 1 3 1 (NO_VAL env0)
    (NO_VAL16 env0) 1 false capped_request costly_passed /\
  let mpg := mem_per_gres_of costly_request in
  let cpg := cpus_per_gres_of env0 1 costly_request in
  (mem_tracked env0 10 mpg = true ->
   0 < max_node_gres costly_passed /\ max_node_gres costly_passed * mpg <= 10 /\
   total_cnt costly_passed * mpg <= 10) /\
  (nz cpg && ((ntasks_per_gres costly_request =? NO_VAL16 env0) || negb false)
   = true ->
   0 < max_node_gres costly_passed
   <= u64 (Z.quot (s32 (bit_set_count [true; true; true] * 1)) cpg)).
Proof.
  assert (H3 : 0 <= gres_per_node costly_request) by (simpl; lia).
  assert (H4 : 0 <= gres_per_job costly_request) by (simpl; lia).
  assert (H5 : 0 <= max_node_gres capped_request) by (simpl; lia).
  assert (H6 : 0 <= 10) by lia.
  assert (H7 : 0 <= mem_per_gres costly_request) by (simpl; lia).
  assert (H8 : 0 <= def_mem_per_gres costly_request) by (simpl; lia).
  assert (H9 : passes env0 costly_jobs 10 4 false [true; true; true] 1 3 1
                 (NO_VAL env0) (NO_VAL16 env0) 1 false capped_request
                 costly_passed).
  { exists (job_entry 1 0 costly_request), costly_request, 4.
    split; [reflexivity|]. split; [reflexivity|]. vm_compute. reflexivity. }
  split; [reflexivity|]. split; [reflexivity|]. split; [exact H3|].
  split; [exact H4|]. split; [exact H5|]. split; [exact H6|]. split; [exact H7|].
  split; [exact H8|]. split; [exact H9|].
  exact (remove_unusable_resource_caps env0 costly_jobs 10 4 false
           [true; true; true] 1 3 1 (NO_VAL env0) (NO_VAL16 env0) 1 false
           capped_request costly_passed _ _ eq_refl eq_refl H3 H4 H5 H6 H7 H8 H9).
Defined.

Lemma select_and_set_node_without_topo_witness :
  h_jobs flat_heap !! gres_state_job (sock_gres 0 0 2 None None)
  = Some (job_entry 1 0 (request 0 2 0 0)) /\
  gres_data (job_entry 1 0 (request 0 2 0 0)) = Some (request 0 2 0 0) /\
  h_nodes flat_heap !! gres_state_node (sock_gres 0 0 2 None None)
  = Some (node_entry 1 0 flat_node) /\
  gres_data (node_entry 1 0 flat_node) = Some flat_node /\
  topo_cnt flat_node = 0 /\ gres_per_node (request 0 2 0 0) <> 0 /\
  used_cores_on_sock later_visit = Some [1; 1] /\
  (node_inx later_visit
   < Z.to_nat (bit_size (default [] (node_bitmap two_socket_resources))))%nat /\
  (forall l, gres_cnt_node_select (request 0 2 0 0) = Some l ->
             (node_inx later_visit < length l)%nat) /\
  let js := request 0 2 0 0 in
  let r := _select_and_set_node env0 ll_job two_socket_resources None
             (sock_gres 0 0 2 None None) (later_visit, flat_heap) in
  let first_node :=
    Z.of_nat (node_inx later_visit)
    =? bit_ffs (default [] (node_bitmap two_socket_resources)) in
  fst r = 0 /\ rc (fst (snd r)) = rc later_visit /\
  job_fini (fst (snd r)) = job_fini later_visit /\
  h_nodes (snd (snd r)) = h_nodes flat_heap /\
  exists js',
    job_state_of (h_jobs (snd (snd r))) (sock_gres 0 0 2 None None) = Some js' /\
    request_of js' = request_of js /\
    gres_bit_select js' = gres_bit_select js /\
    gres_per_bit_select js' = gres_per_bit_select js /\
    cnt_node_select_at js' (node_inx later_visit) = gres_per_node js /\
    total_gres js'
    = u64 ((if first_node || (total_node_cnt js =? 0) then 0 else total_gres js)
           + gres_per_node js).
Proof.
  assert (H6 : gres_per_node (request 0 2 0 0) <> 0) by (simpl; lia).
  assert (H8 : (node_inx later_visit
                < Z.to_nat (bit_size (default []
                                        (node_bitmap two_socket_resources))))%nat)
    by (vm_compute; lia).
  assert (H9 : forall l, gres_cnt_node_select (request 0 2 0 0) = Some l ->
                         (node_inx later_visit < length l)%nat)
    by (intros l Hl; discriminate).
  split; [reflexivity|]. split; [reflexivity|]. split; [reflexivity|].
  split; [reflexivity|]. split; [reflexivity|]. split; [exact H6|].
  split; [reflexivity|]. split; [exact H8|]. split; [exact H9|].
  exact (select_and_set_node_without_topo env0 ll_job two_socket_resources None
           (sock_gres 0 0 2 None None) later_visit flat_heap _ _ _ _ [1; 1]
           eq_refl eq_refl eq_refl eq_refl eq_refl H6 eq_refl H8 H9).
Defined.

(** A request of two units on its second node, the two already in
    total_gres: fini is 1 and total_gres is not below gres_per_job. *)
Lemma set_job_bits1_fini_reached_witness :
  handed_to_job_bits1 0 1 (on_node (request 2 0 0 0) 2 [false; false] 0 []) /\
  fini_iff_total_reached env0 0 1 1 two_units_request two_units None 1 [1; 0] 1
    (on_node (request 2 0 0 0) 2 [false; false] 0 []).
Proof.
  assert (H : handed_to_job_bits1 0 1
                (on_node (request 2 0 0 0) 2 [false; false] 0 [])).
  { split; [apply (bits_counted_on_node _ 2 [false; false]); simpl; lia|].
    simpl. repeat split; try reflexivity; try lia. }
  split; [exact H|].
  exact (set_job_bits1_fini_reached env0 0 1 1 two_units_request two_units None 1
           [1; 0] 1 _ H).
Defined.
